(* ===== verification/_CoqProject ===== *)
-Q . S2P
Prelude.v
Varint.v
WSFrame.v
QPack.v
WSConn.v
GoNum.v
GoNet.v
GoCrypto.v
SocksAddr.v
Config.v
Metrics.v
HealthCheck.v
LoadBalancer.v
GoURL.v
Transport.v
H3.v
RawH2.v
Standby.v
Probing.v
ActiveProbe.v
UDPSession.v
PortTable.v
Relay.v
Socks5.v
Tun.v
RelayRun.v
Main.v
UDPSetup.v
H3Peer.v
Balancer.v
Dialling.v
Debug.v
TunReply.v
TunTCP.v
BalancerRun.v
Tunnel.v
Variants.v
Texts.v
Serving.v
TunRun.v
TunnelH2.v
