(* ===== verification/Prelude.v ===== *)
(** * outline-cli-ws: a verified model

    outline-cli-ws is a client for Outline (Shadowsocks) servers that are reached
    through WebSockets. Applications hand it traffic over SOCKS5 or through a TUN
    device; a load balancer chooses one of several upstream servers, a WebSocket is
    dialled over HTTP/1.1, HTTP/2 or HTTP/3 (or taken warm from standby), and the
    encrypted stream or datagrams are carried in its binary messages. Health checks
    run beside this and decide which upstreams may be chosen.

    ** Files and sources (under src/internal but for Main)

    Language and standard library, as far as the program uses them:
    - Prelude: bytes and machine integers, errors ([gerror], [errors_Is]), outcomes
      ([res]: a value, an error or a run-time panic), readers with the monad [RM]
      ([io.ReadFull], [make] with a length from outside), tactics and hints.
    - GoNum: int64 with wrap-around, float64 as IEEE binary64, durations and times,
      [applyJitter] (util.go, rand.go). GoNet: [SplitHostPort], [ParseIP],
      [IP.String] and their like. GoURL: net/url. GoCrypto: SHA-1 and Base64.

    Transports:
    - Transport: hints in a URL, URL rewriting, and [DialWSStream] (ws.go), which tries
      the handshakes; they are the class [Dialers]. Dialling: the handshakes of RawH2 and
      H3 and the dial of ws_coder.go as its instance.
    - RawH2: rfc8441_raw_h2.go and [dialRFC8441] of ws_h2.go. H3: ws_h3.go and the probe
      of h3_healthcheck.go. H3Peer: the rest of ws_h3.go, which is the context of the
      handshake, the drainer of the peer's streams and the hints. Varint and QPack: the codecs under them (ws_h3.go,
      ws_h3_qpack_min.go).
    - WSFrame: frames of RFC 6455. WSConn: the interface [WSConn] (ws_api.go), the
      framed connection over any stream that is an [RWCloser] (ws_h2.go; RawH2 gives an
      instance), and the adapter of coder/websocket (ws_coder.go).
    - Relay: [WSStreamConn], [WSPacketConn], [newSSTCPConn] and the end of the TCP relay
      (outline_tcp.go, outline_tcp_common.go, ws_packet_conn.go). RelayRun: the relay with
      its two copies, the peers and the context, interleaved. Tunnel: [WSStreamConn] over the
      framed connection over a byte stream, and over the DATA frames of HTTP/3, end to end;
      TunnelH2: the same over the raw HTTP/2 stream.

    Selection of upstreams (lb.go, warm_standby.go, active_probe.go):
    - HealthCheck: [hcState], [applyHCResult] and the intervals.
    - LoadBalancer: the pool, scores, sticky choice, ranking, failure reports.
    - Probing: the scheduler, the checks and their semaphores, with all interleavings.
    - ActiveProbe: the quality probes over TCP and UDP.
    - Standby: warm connections, with all interleavings of the operations on them.
    - Balancer: the loops that run these, and every operation on a balancer together.
      BalancerRun: selections and reports, one critical section at a time, next to the
      goroutines of Probing and Standby, on one balancer.

    Front ends:
    - SocksAddr: SOCKS addresses (socksaddr.go) and the keys of UDP peers.
    - Socks5: the server (socks5.go) and [UDPAssociation] (outline_udp.go).
    - UDPSession: [OutlineUDPSession] (outline_udp_session.go), interleaved. UDPSetup: the
      set-up and closing of associations and sessions over the balancer, with what is open.
    - PortTable: the sessions of the TUN device (tun_udp_porttable.go) and the flow
      bookkeeping of [tunHandleUDP] (tun_native.go), interleaved. Tun: the device, its
      packet pumps and its handlers (tun_native.go), with [DialOutlineTCP]
      (outline_dial.go). TunTCP: the two copies of its TCP flows, and TunReply: the reply
      side of its UDP flows, both interleaved. TunRun: [RunTunNative] with its goroutines
      and the forwarders' callbacks, next to Main and on the table of PortTable.
    - Config: config.go. Metrics: metrics.go. Debug: ws_debug.go, ws_payload_debug.go,
      ws_h3_qlog_debug.go, fwmark_linux.go. Texts: the summaries written to the log.
    - Main: src/cmd/outline-cli-ws/main.go, its start as a function and then its life.
      Serving: the goroutine of every accepted connection up to its handler, next to Main.
    - Variants: unit_stubs.go, unit_types.go, fwmark_other.go, tun_native_other.go and
      src/pkg/outlinews/outlinews.go.

    ** How the code is modelled

    Structs are records and operations are functions on them, with the source's names;
    a pointer to an upstream is its index in the pool, a goroutine that shares state is
    a thread of a step relation whose steps are the code's critical sections. Calls of
    libraries and of the system are inputs: an oracle indexed by the call ([RawH2.h2env],
    [H3.qlib], [WSConn.env], [ActiveProbe.probeEnv]), a class ([WSConn], [RWCloser],
    [CoderLib], [SSLib], [Dialers], [UDPSetup.DialLeaves] for what a dial leaves open) or
    a parameter with the facts relied on as hypotheses. What the program does to
    the outside is a log in the state. Panics are outcomes, so that their absence can be
    stated and their presence proved. Two pairs of sections are one step: a session that lost the race for its port is closed in
    the step that finds this ([PortTable.gocInsert]; no other goroutine has it), and a UDP
    subscription is closed and drained at once ([UDPSession.closeDrain]; a consumer that
    still receives from it takes items the drain would otherwise release).

    Loops that the code leaves to the input have fuel. It is always taken from the input
    so that it cannot run out: the length of the bytes or of the frames to come plus
    one, since every round that goes on consumes some; the theorems are about the
    functions with this fuel, and totality is part of them ([framed_read_total],
    [raw_h2_dial_sound], [socks_addr_parse_exact]). The constants 32 and 8 of the
    HTTP/3 settings loops and the 20 and 16 digits of number printing are the code's own
    bounds or the width of 64-bit numbers.

    ** What is proved

    - The balancer as a whole: every operation keeps it well-formed and its configuration
      as it was ([lb_well_formed]), and the loop of the warm standby ends with its slots
      empty ([warm_standby_loop]). With everything that uses it running at once it is a run
      of the models of its parts ([balancer_run_refines]), and a selection alone is the
      function of LoadBalancer, whose outcome and whose effect on the fields of the
      upstreams are given with those of a failure report ([pick_alone_equals]).
    - Choice: the best eligible upstream is chosen, stickily and with hysteresis, and a
      failed one is not chosen again before a check ([lb_pick_best_candidate],
      [lb_pick_tcp_sound], [lb_failure_quarantine], [lb_top_n_correct]; [lb_sticky_stable]),
      also when selections, reports and checks overlap ([pick_saw_eligible],
      [lb_quarantine_run]).
    - Health: an endpoint is healthy exactly by its history of checks, failure reports and
      background probes switched off, against the thresholds of the configuration; the
      intervals stay in their bounds, at most the configured number of probes and dials run
      ([hc_health_exact], [hc_next_check_bounded], [probe_scheduler_bounds],
      [check_changes_one_endpoint], [udp_probe_exact]).
    - Connections: which transport is tried when, that handshakes succeed only on the
      server's consent, what is cleaned up on failure, that standby connections have one
      owner ([dial_policy], [dial_equals_plan], [raw_h2_dial_sound], [h3_dial_handshake],
      [h3_handshake_deadline], [h3_probe_sound], [h3_hint_exact], [standby_single_owner]).
    - Data: codecs invert each other and streams deliver what was written
      ([ws_frame_roundtrip], [h3_headers_roundtrip], [framed_read_reassembles],
      [ws_stream_reads_all], [h3_stream_carries_bytes], [raw_h2_read_loop],
      [raw_h2_write_chunks], [socks_addr_parse_exact], [udp_associate_roundtrip]), also
      through the relay in any interleaving ([relay_delivers], [relay_teardown_ends]) and
      through the layers together, on a stream that fails as well ([tunnel_upload_exact]) and
      with every write succeeding ([h3_tunnel_roundtrip], [h2_tunnel_roundtrip]).
    - Sessions: buffers and channels of UDP sessions are used by one party at a time,
      sessions are closed by the one responsible, collection is exact
      ([udp_session_routes], [udp_payload_stable], [udp_reply_delivered],
      [port_sessions_owned], [port_gc_exact], [port_limit_bounds]); what a set-up acquires
      itself is released on every path, and what remains open is what the dials left
      ([udp_associate_releases], [udp_session_releases]).
    - The program: what it starts and when it ends at once, and that a signal ends it
      ([main_start_exact], [shutdown_completes]); that its connection goroutines do what
      [HandleConn] does, however input arrives ([serving_refines_handleConn]); that texts
      made of maps are deterministic ([map_texts_deterministic]).
    - Front ends: the SOCKS5 handshake is exact and success is only reported for a
      connection that exists ([socks5_handshake_exact], [socks5_connect_honest]); flows
      of the TUN device reach their destination over a usable upstream and leave
      nothing open once the upstream has ended ([tun_tcp_flow], [tun_tcp_relay],
      [tun_udp_upload], [tun_run_cleanup]); the TUN mode as a whole is a run of Main and of
      PortTable whose pumps carry packets in order, and it ends once the context is done
      ([tun_run_sound], [tun_run_ends]).
    - Faults: [raw_h2_download_stalls] (flow control of the raw HTTP/2 stream),
      [h3_failed_dial_leaks], [standby_tcp_never_reused],
      [udp_session_panics_only_in_race], [collected_flow_stays_unsubscribed],
      [reply_end_unsubscribes_next_flow], [relay_keeps_client_waiting],
      [tun_failure_keeps_accepting], [stale_check_lifts_quarantine],
      [socks5_deadline_ends_with_greeting], [tun_sessions_outlive_run],
      [raw_h2_upload_ignores_window], [normalize_variants], and in
      QPack, Transport, Config, Metrics and H3 the theorems on single faults.

    ** What is not modelled

    The gVisor stack, the QUIC, HTTP/2 and cipher libraries and the HTTP server of the
    metrics, which are libraries and enter as what their calls return; flag parsing and
    YAML; what Go's formatting verbs make of values, which is a parameter of Texts;
    main_unit.go, whose [main] is empty; the counter of flows and the lines logged on the
    way, on which nothing hangs. The handlers of Socks5 are whole steps of Serving: their
    effect on the balancer while other goroutines run is that of their calls in
    BalancerRun, and their relay is RelayRun. Nothing of the program's own logic is left
    out: what is not mapped is imports, comments, blank lines and single declarations. *)

From Stdlib Require Import ZArith Lia.
From Stdlib Require Strings.Byte Strings.String.
From stdpp Require Export base tactics numbers option strings gmap list.

#[global] Open Scope Z_scope.

(** ** Bytes and machine integers *)

Abbreviation byte := Byte.byte.
Abbreviation bytes := (list Byte.byte).

#[global] Instance byte_eq_dec : EqDecision byte := Byte.byte_eq_dec.

(** The value of a Go [byte] (uint8). *)
Definition b2z (b : byte) : Z := Z.of_N (Byte.to_N b).

(** Go's conversion [byte(v)] of an integer: truncation to eight bits. *)
Definition z2b (z : Z) : byte := default Byte.x00 (Byte.of_N (Z.to_N (z mod 256))).

(** Conversions to the other machine widths the program uses. *)
Definition u16 (z : Z) : Z := z mod 2 ^ 16.
Definition u32 (z : Z) : Z := z mod 2 ^ 32.
Definition u64 (z : Z) : Z := z mod 2 ^ 64.
Definition i64 (z : Z) : Z := (z + 2 ^ 63) mod 2 ^ 64 - 2 ^ 63.

(** Length of a slice or string, as Go's [int]. *)
Definition zlen {A} (l : list A) : Z := Z.of_nat (length l).

(** [binary.BigEndian.PutUint16/PutUint64]: the [n] low bytes of [v], high first. *)
Fixpoint be_bytes (n : nat) (v : Z) : bytes :=
  match n with
  | O => []
  | S k => z2b (Z.shiftr v (8 * Z.of_nat k)) :: be_bytes k v
  end.

(** [v = (v << 8) | uint64(b)] over a byte slice. *)
Definition be_acc (acc : Z) (bs : bytes) : Z :=
  fold_left (fun v b => Z.lor (Z.shiftl v 8) (b2z b)) bs acc.

(** [binary.BigEndian.Uint16/Uint64]. *)
Definition be_val (bs : bytes) : Z := be_acc 0 bs.

(** ** Errors and results *)

(** Error values of the program: the standard library's sentinels it compares
    against, package-level sentinels by name, plain messages, and [%w] wrapping
    with the text before and after the wrapped error. *)
Inductive gerror : Type :=
| io_EOF
| io_ErrUnexpectedEOF
| io_ErrShortWrite
| io_ErrClosedPipe
| net_ErrClosed
| os_ErrDeadlineExceeded
| syscall_EPIPE
| syscall_ECONNRESET
| context_Canceled
| context_DeadlineExceeded
| errSentinel (name : string)
| errMsg (text : string)
| errWrap (pre : string) (inner : gerror) (post : string).

#[global] Instance gerror_eq_dec : EqDecision gerror.
Proof. solve_decision. Defined.

(** [errors.Is(err, target)]. *)
Fixpoint errors_Is (e target : gerror) : bool :=
  bool_decide (e = target) ||
  match e with
  | errWrap _ inner _ => errors_Is inner target
  | _ => false
  end.

(** The outcome of a Go call: a value, a returned error, or a run-time panic. *)
Inductive res (A : Type) : Type :=
| Ok (a : A)
| Err (e : gerror)
| Panic (why : string).
Arguments Ok {A} a.
Arguments Err {A} e.
Arguments Panic {A} why.

#[global] Instance res_ret : MRet res := @Ok.
#[global] Instance res_bind : MBind res := fun A B f m =>
  match m with Ok a => f a | Err e => Err e | Panic w => Panic w end.

(** ** Readers: [io.Reader] as the bytes still to come and the final error *)

Record rd := Rd { rd_buf : bytes; rd_err : gerror }.

Definition RM (A : Type) : Type := rd -> res A * rd.

#[global] Instance RM_ret : MRet RM := fun A a r => (Ok a, r).
#[global] Instance RM_bind : MBind RM := fun A B f m r =>
  match m r with
  | (Ok a, r') => f a r'
  | (Err e, r') => (Err e, r')
  | (Panic w, r') => (Panic w, r')
  end.
Definition rm_err {A} (e : gerror) : RM A := fun r => (Err e, r).
Definition rm_panic {A} (w : string) : RM A := fun r => (Panic w, r).

(** [bufio.Reader.ReadByte] / [bytes.Reader.ReadByte]. *)
Definition readByte : RM byte := fun r =>
  match rd_buf r with
  | b :: rest => (Ok b, Rd rest (rd_err r))
  | [] => (Err (rd_err r), r)
  end.

(** The error of a short [io.ReadFull] that read [got] before the stream ended with [e]. *)
Definition shortReadErr (got : bytes) (e : gerror) : gerror :=
  match got with
  | [] => e
  | _ :: _ => if bool_decide (e = io_EOF) then io_ErrUnexpectedEOF else e
  end.

(** [io.ReadFull(r, buf)] with [len(buf) = n]: no read for an empty buffer; the
    final error when nothing was read; [io.ErrUnexpectedEOF] for an EOF after some bytes. *)
Definition readFull (n : Z) : RM bytes := fun r =>
  if n <=? 0 then (Ok [], r)
  else if zlen (rd_buf r) <? n then
    (Err (shortReadErr (rd_buf r) (rd_err r)), Rd [] (rd_err r))
  else (Ok (take (Z.to_nat n) (rd_buf r)), Rd (drop (Z.to_nat n) (rd_buf r)) (rd_err r)).

(** [runtime.maxAlloc] on 64-bit Linux; [make([]byte, n)] panics outside [0, maxAlloc]. *)
Definition maxAlloc : Z := 2 ^ 48.
Definition makeslice {A} (n : Z) (k : RM A) : RM A :=
  if (n <? 0) || (maxAlloc <? n) then rm_panic "makeslice: len out of range" else k.

(** ** Tactics *)

Create HintDb gobytes.
Create Rewrite HintDb goz.

(** Case analysis on every test of the goal, with the test as a hypothesis. *)
Ltac case_tests :=
  repeat match goal with
  | |- context [if ?b then _ else _] => let E := fresh "E" in destruct b eqn:E
  end.

(** Turn boolean integer tests into propositions. *)
Ltac zbool :=
  repeat match goal with
  | H : (_ <? _) = true |- _ => apply Z.ltb_lt in H
  | H : (_ <? _) = false |- _ => apply Z.ltb_ge in H
  | H : (_ <=? _) = true |- _ => apply Z.leb_le in H
  | H : (_ <=? _) = false |- _ => apply Z.leb_gt in H
  | H : (_ =? _) = true |- _ => apply Z.eqb_eq in H
  | H : (_ =? _) = false |- _ => apply Z.eqb_neq in H
  | H : (_ && _)%bool = true |- _ => apply andb_true_iff in H; destruct H
  | H : (_ || _)%bool = false |- _ => apply orb_false_iff in H; destruct H
  end.

(** ** Lemmas on bytes *)

Lemma b2z_range b : 0 <= b2z b < 256.
Proof.
  unfold b2z. pose proof (Byte.to_N_bounded b). lia.
Qed.

Lemma b2z_z2b z : b2z (z2b z) = z mod 256.
Proof.
  unfold b2z, z2b. pose proof (Z.mod_pos_bound z 256 ltac:(lia)) as Hb.
  destruct (Byte.of_N (Z.to_N (z mod 256))) as [b|] eqn:E; simpl.
  - apply Byte.to_of_N in E. rewrite E. lia.
  - apply Byte.of_N_None_iff in E. lia.
Qed.

Lemma z2b_b2z b : z2b (b2z b) = b.
Proof.
  unfold z2b. rewrite Z.mod_small by apply b2z_range.
  unfold b2z. by rewrite N2Z.id, Byte.of_to_N.
Qed.

Lemma b2z_z2b_small z : 0 <= z < 256 -> b2z (z2b z) = z.
Proof. intros. rewrite b2z_z2b. by apply Z.mod_small. Qed.

Lemma b2z_inj b1 b2 : b2z b1 = b2z b2 -> b1 = b2.
Proof. intros E. by rewrite <- (z2b_b2z b1), E, z2b_b2z. Qed.

(** A shifted prefix and a low part that does not reach it add up. *)
Lemma lor_shiftl_add a b n : 0 <= n -> 0 <= b < 2 ^ n -> Z.lor (Z.shiftl a n) b = a * 2 ^ n + b.
Proof.
  intros Hn Hb.
  assert (Hl : Z.land (Z.shiftl a n) b = 0).
  { apply Z.bits_inj'. intros i Hi. rewrite Z.land_spec, Z.bits_0.
    destruct (Z.lt_ge_cases i n).
    - by rewrite Z.shiftl_spec_low.
    - rewrite andb_false_iff. right.
      destruct (decide (b = 0)) as [->|]; [apply Z.bits_0|].
      apply Z.bits_above_log2; [lia|]. apply Z.log2_lt_pow2; [lia|].
      eapply Z.lt_le_trans; [apply Hb|]. by apply Z.pow_le_mono_r. }
  rewrite <- Z.lxor_lor by done. rewrite <- Z.add_nocarry_lxor by done.
  by rewrite Z.shiftl_mul_pow2.
Qed.

Lemma zlen_nonneg {A} (l : list A) : 0 <= zlen l.
Proof. unfold zlen; lia. Qed.
Lemma zlen_app {A} (l1 l2 : list A) : zlen (l1 ++ l2) = zlen l1 + zlen l2.
Proof. unfold zlen. rewrite length_app. lia. Qed.
Lemma zlen_nil {A} : zlen (@nil A) = 0.
Proof. done. Qed.
Lemma zlen_cons {A} (x : A) l : zlen (x :: l) = 1 + zlen l.
Proof. unfold zlen; simpl; lia. Qed.

#[export] Hint Rewrite @zlen_app @zlen_nil @zlen_cons : goz.
#[export] Hint Resolve b2z_range zlen_nonneg : gobytes.

Lemma be_acc_app acc l1 l2 : be_acc acc (l1 ++ l2) = be_acc (be_acc acc l1) l2.
Proof. unfold be_acc. apply fold_left_app. Qed.

Lemma be_acc_cons acc b l : be_acc acc (b :: l) = be_acc (acc * 256 + b2z b) l.
Proof.
  unfold be_acc. simpl. by rewrite (lor_shiftl_add acc (b2z b) 8) by (auto with gobytes; lia).
Qed.

Lemma length_be_bytes n v : length (be_bytes n v) = n.
Proof. induction n; simpl; auto. Qed.

Lemma be_acc_be_bytes n acc v :
  be_acc acc (be_bytes n v) = acc * 2 ^ (8 * Z.of_nat n) + v mod 2 ^ (8 * Z.of_nat n).
Proof.
  revert acc. induction n as [|n IH]; intros acc.
  - simpl be_bytes. unfold be_acc; simpl. rewrite Z.mod_1_r. lia.
  - simpl be_bytes. rewrite be_acc_cons, IH, b2z_z2b, Z.shiftr_div_pow2 by lia.
    replace (8 * Z.of_nat (S n)) with (8 * Z.of_nat n + 8) by lia.
    rewrite Z.pow_add_r by lia. set (P := 2 ^ (8 * Z.of_nat n)).
    assert (0 < P) by (apply Z.pow_pos_nonneg; lia).
    change (2 ^ 8) with 256. rewrite (Z.rem_mul_r v P 256) by lia. lia.
Qed.

Lemma be_val_be_bytes n v : 0 <= v < 2 ^ (8 * Z.of_nat n) -> be_val (be_bytes n v) = v.
Proof. intros. unfold be_val. rewrite be_acc_be_bytes, Z.mod_small; lia. Qed.

Lemma be_acc_bound acc l :
  0 <= acc -> acc * 2 ^ (8 * zlen l) <= be_acc acc l < (acc + 1) * 2 ^ (8 * zlen l).
Proof.
  revert acc. induction l as [|b l IH]; intros acc Ha.
  - unfold zlen; simpl. unfold be_acc; simpl. lia.
  - rewrite be_acc_cons, zlen_cons. pose proof (b2z_range b).
    specialize (IH (acc * 256 + b2z b) ltac:(lia)).
    replace (8 * (1 + zlen l)) with (8 + 8 * zlen l) by lia.
    pose proof (zlen_nonneg l).
    rewrite Z.pow_add_r by lia. change (2 ^ 8) with 256.
    assert (0 < 2 ^ (8 * zlen l)) by (apply Z.pow_pos_nonneg; lia). nia.
Qed.

Lemma be_val_bound l : 0 <= be_val l < 2 ^ (8 * zlen l).
Proof. pose proof (be_acc_bound 0 l ltac:(lia)). unfold be_val. lia. Qed.

(** ** Lemmas on readers *)

Lemma readByte_cons b rest e : readByte (Rd (b :: rest) e) = (Ok b, Rd rest e).
Proof. done. Qed.

Lemma readFull_app (l rest : bytes) e n :
  n = zlen l -> readFull n (Rd (l ++ rest) e) = (Ok l, Rd rest e).
Proof.
  intros ->. unfold readFull; simpl.
  destruct (Z.leb_spec (zlen l) 0) as [H|H].
  - destruct l; [done|]. rewrite zlen_cons in H. pose proof (zlen_nonneg l). lia.
  - destruct (Z.ltb_spec (zlen (l ++ rest)) (zlen l)) as [H1|H1].
    + rewrite zlen_app in H1. pose proof (zlen_nonneg rest). lia.
    + unfold zlen. rewrite Nat2Z.id, take_app_length, drop_app_length. done.
Qed.

Lemma readFull_all (l : bytes) e n : n = zlen l -> readFull n (Rd l e) = (Ok l, Rd [] e).
Proof. intros. rewrite <- (app_nil_r l) at 1. by apply readFull_app. Qed.

(** A successful read returns exactly [n] bytes, taken off the front. *)
Lemma readFull_Ok n r l r' :
  readFull n r = (Ok l, r') -> rd_buf r = l ++ rd_buf r' /\ rd_err r' = rd_err r /\ zlen l = Z.max 0 n.
Proof.
  unfold readFull. case_tests; intros H; simplify_eq; zbool; simpl.
  - repeat split; auto. rewrite zlen_nil; lia.
  - rewrite take_drop. repeat split; auto. unfold zlen in *. rewrite length_take. lia.
Qed.

Lemma RM_bind_Ok {A B} (f : A -> RM B) (m : RM A) r a r' :
  m r = (Ok a, r') -> (m ≫= f) r = f a r'.
Proof. intros E. unfold mbind, RM_bind. by rewrite E. Qed.

Lemma RM_bind_inv {A B} (f : A -> RM B) (m : RM A) r b r' :
  (m ≫= f) r = (Ok b, r') -> exists a r1, m r = (Ok a, r1) /\ f a r1 = (Ok b, r').
Proof. unfold mbind, RM_bind. destruct (m r) as [[a|e|w] r1]; [|done..]. intros E. by exists a, r1. Qed.
Lemma RM_bind_Err {A B} (f : A -> RM B) (m : RM A) r e r' :
  m r = (Err e, r') -> (m ≫= f) r = (Err e, r').
Proof. intros E. unfold mbind, RM_bind. by rewrite E. Qed.

(** A loop whose state no longer changes, such as one that has failed. *)
Lemma fold_left_fix {A B} (f : A -> B -> A) a l : (forall b, f a b = a) -> fold_left f l a = a.
Proof. intros Hf. induction l as [|b l IH]; [done|]. simpl. by rewrite Hf. Qed.

Lemma errors_Is_refl e : errors_Is e e = true.
Proof. destruct e; cbn [errors_Is]; by rewrite bool_decide_eq_true_2. Qed.

(** [io.ReadFull] either delivers or fails with an end-of-stream error; it never panics. *)
Lemma readFull_cases n r :
  (exists l r', readFull n r = (Ok l, r') /\ rd_buf r = l ++ rd_buf r' /\ rd_err r' = rd_err r
                /\ zlen l = Z.max 0 n)
  \/ (exists e, readFull n r = (Err e, Rd [] (rd_err r)) /\ (e = rd_err r \/ e = io_ErrUnexpectedEOF)
                /\ zlen (rd_buf r) < n).
Proof.
  destruct (readFull n r) as [[l|e|w] r'] eqn:E.
  - left. exists l, r'. split; [done|]. by apply readFull_Ok in E.
  - right. revert E. unfold readFull. case_tests; intros; simplify_eq; zbool;
      (eexists; split; [done|]; split; [|done]).
    unfold shortReadErr. destruct (rd_buf r); [|case_bool_decide]; auto.
  - exfalso. revert E. unfold readFull. case_tests; intros; simplify_eq.
Qed.

Lemma makeslice_ok {A} n (k : RM A) : 0 <= n <= maxAlloc -> makeslice n k = k.
Proof.
  intros [H1 H2]. unfold makeslice. by rewrite (proj2 (Z.ltb_ge _ _) H1), (proj2 (Z.ltb_ge _ _) H2).
Qed.

(** ** Strings as byte sequences *)

Definition str2b (s : string) : bytes := String.list_byte_of_string s.
Definition b2str (l : bytes) : string := String.string_of_list_byte l.

Lemma b2str_str2b s : b2str (str2b s) = s.
Proof. apply String.string_of_list_byte_of_string. Qed.
Lemma str2b_b2str l : str2b (b2str l) = l.
Proof. apply String.list_byte_of_string_of_list_byte. Qed.

(** Go's [%x] of a non-negative integer of at most 64 bits. *)
Definition hexDigit (d : Z) : Ascii.ascii :=
  Ascii.ascii_of_N (Z.to_N (if d <? 10 then 48 + d else 87 + d)).
Fixpoint hexLoop (fuel : nat) (z : Z) (acc : string) : string :=
  match fuel with
  | O => acc
  | S k => let acc := String.String (hexDigit (z mod 16)) acc in
           if z / 16 =? 0 then acc else hexLoop k (z / 16) acc
  end.
Definition hexString (z : Z) : string := hexLoop 16 z "".

(** [len(s)] of a Go string. *)
Definition slen (s : string) : Z := zlen (str2b s).

(** ** Byte-wise exclusive or *)

Definition xor_byte (a b : byte) : byte := z2b (Z.lxor (b2z a) (b2z b)).

Lemma lxor_byte_range a b : 0 <= Z.lxor (b2z a) (b2z b) < 256.
Proof.
  pose proof (b2z_range a); pose proof (b2z_range b).
  assert (E : Z.lxor (b2z a) (b2z b) = Z.lxor (b2z a) (b2z b) mod 2 ^ 8).
  { rewrite <- Z.land_ones by lia. apply Z.bits_inj'. intros i Hi.
    rewrite Z.land_spec, Z.lxor_spec.
    destruct (Z.lt_ge_cases i 8); [by rewrite Z.ones_spec_low, andb_true_r by lia|].
    rewrite <- (Z.mod_small (b2z a) (2 ^ 8)), <- (Z.mod_small (b2z b) (2 ^ 8)) by (change (2 ^ 8) with 256; lia).
    by rewrite !Z.mod_pow2_bits_high, Z.ones_spec_high by lia. }
  rewrite E. apply Z.mod_pos_bound. lia.
Qed.

Lemma xor_byte_involutive a k : xor_byte (xor_byte a k) k = a.
Proof.
  apply b2z_inj. unfold xor_byte.
  rewrite (b2z_z2b_small (Z.lxor (b2z a) (b2z k))) by apply lxor_byte_range.
  rewrite Z.lxor_assoc, Z.lxor_nilpotent, Z.lxor_0_r. apply b2z_z2b_small, b2z_range.
Qed.

(** ** Progress and panic freedom of readers *)

(** A successful run takes at least [k] bytes off the stream and keeps its final error. *)
Definition consumes {A} (k : nat) (m : RM A) : Prop :=
  forall r a r', m r = (Ok a, r') -> (length (rd_buf r') + k <= length (rd_buf r))%nat.
Definition nopanic {A} (m : RM A) : Prop := forall r w r', m r <> (Panic w, r').

Lemma consumes_ret {A} (a : A) : consumes 0 (mret a).
Proof. intros r b r' [= <- <-]. lia. Qed.
Lemma consumes_err {A} k e : consumes k (@rm_err A e).
Proof. by intros r b r' [=]. Qed.
Lemma consumes_bind {A B} k1 k2 (m : RM A) (f : A -> RM B) :
  consumes k1 m -> (forall a, consumes k2 (f a)) -> consumes (k1 + k2) (m ≫= f).
Proof.
  intros H1 H2 r b r' E. unfold mbind, RM_bind in E.
  destruct (m r) as [[a|e|w] r1] eqn:Em; try done.
  apply H1 in Em. apply H2 in E. lia.
Qed.
Lemma consumes_weaken {A} k1 k2 (m : RM A) : (k2 <= k1)%nat -> consumes k1 m -> consumes k2 m.
Proof. intros Hk H r a r' E. apply H in E. lia. Qed.
Lemma consumes_readByte : consumes 1 readByte.
Proof.
  intros [buf e] a r' E. unfold readByte in E. simpl in *. destruct buf; simplify_eq. simpl. lia.
Qed.
Lemma consumes_readFull n : consumes 0 (readFull n).
Proof. intros r a r' (E & _)%readFull_Ok. rewrite E, length_app. lia. Qed.
Lemma consumes_makeslice {A} k n (m : RM A) : consumes k m -> consumes k (makeslice n m).
Proof. intros H. unfold makeslice. case_tests; [by intros r a r' [=]|done]. Qed.

Lemma nopanic_ret {A} (a : A) : nopanic (mret a).
Proof. by intros r w r' [=]. Qed.
Lemma nopanic_err {A} e : nopanic (@rm_err A e).
Proof. by intros r w r' [=]. Qed.
Lemma nopanic_bind {A B} (m : RM A) (f : A -> RM B) :
  nopanic m -> (forall a, nopanic (f a)) -> nopanic (m ≫= f).
Proof.
  intros H1 H2 r w r' E. unfold mbind, RM_bind in E.
  destruct (m r) as [[a|e|w'] r1] eqn:Em; try done; [by apply H2 in E|by apply H1 in Em].
Qed.
Lemma nopanic_bind_post {A B} (P : A -> Prop) (m : RM A) (f : A -> RM B) :
  nopanic m -> (forall r a r', m r = (Ok a, r') -> P a) -> (forall a, P a -> nopanic (f a)) ->
  nopanic (m ≫= f).
Proof.
  intros H1 HP H2 r w r' E. unfold mbind, RM_bind in E.
  destruct (m r) as [[a|e|w'] r1] eqn:Em; try done; [|by apply H1 in Em].
  eapply H2; [|done]. by eapply HP.
Qed.
Lemma nopanic_readByte : nopanic readByte.
Proof. intros [[|b l] e] w r' [=]. Qed.
Lemma nopanic_readFull n : nopanic (readFull n).
Proof. intros r w r' E. unfold readFull in E. revert E. case_tests; intros; discriminate. Qed.

#[export] Hint Resolve consumes_ret consumes_err consumes_readByte consumes_readFull
  consumes_makeslice nopanic_ret nopanic_err nopanic_readByte nopanic_readFull nopanic_bind : gobytes.

(** ** Counting *)

(** How many elements pass a test. *)
Fixpoint countb {A} (f : A -> bool) (l : list A) : Z :=
  match l with [] => 0 | x :: l' => (if f x then 1 else 0) + countb f l' end.
Lemma countb_app {A} (f : A -> bool) l1 l2 : countb f (l1 ++ l2) = countb f l1 + countb f l2.
Proof. induction l1 as [|x l1 IH]; simpl; [done|]. rewrite IH. lia. Qed.
Lemma countb_nonneg {A} (f : A -> bool) l : 0 <= countb f l.
Proof. induction l; simpl; [lia|]. case_match; lia. Qed.
