(* ===== verification/Varint.v ===== *)
(** * QUIC variable-length integers

    The codec of every HTTP/3 frame header and SETTINGS entry of the client
    ([appendVarint] and [readVarint], src/internal/ws_h3.go). *)

From S2P Require Import Prelude.

(** ** Model *)

(** [appendVarint(b []byte, v uint64) []byte]. *)
Definition appendVarint (b : bytes) (v : Z) : bytes :=
  if v <=? 63 then b ++ [z2b v]
  else if v <=? 16383 then
    b ++ [z2b (Z.lor (Z.shiftr v 8) 0x40); z2b v]
  else if v <=? 1073741823 then
    b ++ [z2b (Z.lor (Z.shiftr v 24) 0x80); z2b (Z.shiftr v 16); z2b (Z.shiftr v 8); z2b v]
  else
    b ++ [z2b (Z.lor (Z.shiftr v 56) 0xC0); z2b (Z.shiftr v 48); z2b (Z.shiftr v 40);
          z2b (Z.shiftr v 32); z2b (Z.shiftr v 24); z2b (Z.shiftr v 16); z2b (Z.shiftr v 8);
          z2b v].

(** [readVarint(r io.Reader) (uint64, error)]. *)
Definition readVarint : RM Z :=
  first ← readFull 1;
  let first0 := default Byte.x00 (head first) in
  let prefix := Z.shiftr (b2z first0) 6 in
  let n := Z.shiftl 1 prefix in
  buf ← (if 1 <? n then readFull (n - 1) else mret []);
  let buf0 := z2b (Z.land (b2z first0) 0x3f) in
  mret (fold_left (fun v b => Z.lor (u64 (Z.shiftl v 8)) (b2z b)) (buf0 :: buf) 0).

(** ** Helper lemmas *)

(** Bytes taken by the encoding of [v]. *)
Definition varint_size (v : Z) : Z :=
  if v <=? 63 then 1 else if v <=? 16383 then 2 else if v <=? 1073741823 then 4 else 8.

(** The accumulator stays below [2^64], so the 64-bit shift loses nothing on at
    most eight bytes. *)
Lemma fold_u64_be_acc acc l :
  0 <= acc -> acc < 2 ^ (64 - 8 * zlen l) -> zlen l <= 7 ->
  fold_left (fun v b => Z.lor (u64 (Z.shiftl v 8)) (b2z b)) l acc = be_acc acc l.
Proof.
  revert acc. induction l as [|b l IH]; intros acc H0 Ha Hl; [done|].
  rewrite zlen_cons in *. pose proof (zlen_nonneg l). pose proof (b2z_range b).
  assert (Hp : 2 ^ (64 - 8 * zlen l) = 2 ^ (64 - 8 * (1 + zlen l)) * 256).
  { change 256 with (2 ^ 8). rewrite <- Z.pow_add_r by lia. f_equal. lia. }
  assert (Hs : u64 (Z.shiftl acc 8) = Z.shiftl acc 8).
  { unfold u64. apply Z.mod_small. rewrite Z.shiftl_mul_pow2 by lia. change (2 ^ 8) with 256.
    assert (2 ^ (64 - 8 * zlen l) <= 2 ^ 64) by (apply Z.pow_le_mono_r; lia). lia. }
  simpl fold_left. rewrite Hs, (lor_shiftl_add acc (b2z b) 8) by (change (2 ^ 8) with 256; lia).
  rewrite be_acc_cons. change (2 ^ 8) with 256. apply IH; lia.
Qed.

Lemma first_byte_split b :
  z2b (Z.land (b2z b) 0x3f) = z2b (b2z b mod 64) /\ b2z (z2b (b2z b mod 64)) = b2z b mod 64
  /\ Z.shiftr (b2z b) 6 = b2z b / 64 /\ 0 <= b2z b / 64 <= 3.
Proof. by destruct b. Qed.

(** What [readVarint] computes on a first byte and the tail its prefix announces. *)
Lemma readVarint_eq f tail rest e :
  zlen tail = 2 ^ (b2z f / 64) - 1 ->
  readVarint (Rd (f :: tail ++ rest) e) = (Ok (be_acc (b2z f mod 64) tail), Rd rest e).
Proof.
  intros Hl. destruct (first_byte_split f) as (E1 & E2 & E3 & Hp).
  unfold readVarint. erewrite RM_bind_Ok by (apply (readFull_app [f]); done).
  cbv zeta. change (default Byte.x00 (head [f])) with f. rewrite E1, E3, Z.shiftl_1_l.
  assert (Hk : zlen tail <= 7).
  { assert (2 ^ (b2z f / 64) <= 2 ^ 3) by (apply Z.pow_le_mono_r; lia). lia. }
  assert (Hv : forall r, (mret (fold_left (fun v b => Z.lor (u64 (Z.shiftl v 8)) (b2z b))
                   (z2b (b2z f mod 64) :: tail) 0) : RM Z) r = (Ok (be_acc (b2z f mod 64) tail), r)).
  { intros r. unfold mret, RM_ret. cbn [fold_left]. rewrite E2.
    change (Z.lor (u64 (Z.shiftl 0 8)) (b2z f mod 64)) with (b2z f mod 64).
    rewrite fold_u64_be_acc; auto.
    - apply Z.mod_pos_bound; lia.
    - pose proof (Z.mod_pos_bound (b2z f) 64 ltac:(lia)).
      assert (2 ^ 8 <= 2 ^ (64 - 8 * zlen tail)) by (apply Z.pow_le_mono_r; lia).
      change (2 ^ 8) with 256 in *. lia. }
  destruct (Z.ltb_spec 1 (2 ^ (b2z f / 64))) as [H|H].
  - erewrite RM_bind_Ok by (apply readFull_app; lia). apply Hv.
  - destruct tail; [|rewrite zlen_cons in Hl; pose proof (zlen_nonneg tail); lia].
    erewrite RM_bind_Ok by reflexivity. apply Hv.
Qed.

(** The stream ends inside the announced tail. *)
Lemma readVarint_short f buf err e r' :
  readFull (2 ^ (b2z f / 64) - 1) (Rd buf err) = (Err e, r') ->
  readVarint (Rd (f :: buf) err) = (Err e, r').
Proof.
  intros E. destruct (first_byte_split f) as (E1 & E2 & E3 & Hp).
  unfold readVarint. erewrite RM_bind_Ok by (apply (readFull_app [f]); done).
  cbv zeta. change (default Byte.x00 (head [f])) with f. rewrite E3, Z.shiftl_1_l.
  destruct (Z.ltb_spec 1 (2 ^ (b2z f / 64))) as [H|H].
  - by erewrite RM_bind_Err by done.
  - unfold readFull in E. rewrite (proj2 (Z.leb_le _ _)) in E by lia. done.
Qed.

(** The first byte of each form: the length prefix over the six top bits of [v]. *)
Lemma prefix_byte (x k : Z) :
  0 <= x < 256 -> (k = 1 /\ x < 64) \/ (k = 2 /\ x < 64) \/ k = 3 ->
  b2z (z2b (Z.lor x (k * 64))) / 64 = k /\ b2z (z2b (Z.lor x (k * 64))) mod 64 = x mod 64.
Proof.
  intros Hx Hk.
  assert (Ht : forall b : byte,
    (b2z b < 64 -> b2z (z2b (Z.lor (b2z b) 64)) / 64 = 1 /\ b2z (z2b (Z.lor (b2z b) 64)) mod 64 = b2z b mod 64)
    /\ (b2z b < 64 -> b2z (z2b (Z.lor (b2z b) 128)) / 64 = 2 /\ b2z (z2b (Z.lor (b2z b) 128)) mod 64 = b2z b mod 64)
    /\ b2z (z2b (Z.lor (b2z b) 192)) / 64 = 3 /\ b2z (z2b (Z.lor (b2z b) 192)) mod 64 = b2z b mod 64).
  { intros b. destruct b; vm_compute; repeat split; (reflexivity || (intros; discriminate)). }
  specialize (Ht (z2b x)). rewrite b2z_z2b_small in Ht by lia.
  destruct Hk as [[-> ?]|[[-> ?]| ->]]; [change (1 * 64) with 64|change (2 * 64) with 128|change (3 * 64) with 192];
    destruct Ht as (H1 & H2 & H3 & H4); auto.
Qed.

(** Reading any encoding gives the value back modulo [2^62]. *)
Lemma readVarint_appendVarint v rest e :
  0 <= v < 2 ^ 64 ->
  readVarint (Rd (appendVarint [] v ++ rest) e) = (Ok (v mod 2 ^ 62), Rd rest e).
Proof.
  intros Hv. unfold appendVarint.
  assert (Hform : forall (k x : Z) (n : nat),
    x = v / 2 ^ (8 * Z.of_nat n) -> 0 <= x < 256 ->
    (k = 1 /\ x < 64) \/ (k = 2 /\ x < 64) \/ k = 3 -> Z.of_nat n = 2 ^ k - 1 ->
    readVarint (Rd (([z2b (Z.lor x (k * 64))] ++ be_bytes n v) ++ rest) e)
    = (Ok (v mod 2 ^ (8 * Z.of_nat n + 6)), Rd rest e)).
  { intros k x n Hx Hxr Hk Hn. destruct (prefix_byte x k Hxr Hk) as [Hd Hm].
    simpl app. rewrite readVarint_eq.
    - rewrite Hm, be_acc_be_bytes. do 2 f_equal.
      rewrite Z.pow_add_r by lia. change (2 ^ 6) with 64.
      assert (0 < 2 ^ (8 * Z.of_nat n)) by (apply Z.pow_pos_nonneg; lia).
      rewrite (Z.rem_mul_r v _ 64) by lia. rewrite <- Hx. lia.
    - rewrite Hd. unfold zlen. rewrite length_be_bytes. done. }
  case_tests; zbool; simpl app.
  - rewrite (Z.mod_small v) by lia.
    pose proof (readVarint_eq (z2b v) [] rest e) as H. rewrite b2z_z2b_small in H by lia.
    rewrite Z.div_small, Z.mod_small in H by lia. by apply H.
  - replace (v mod 2 ^ 62) with (v mod 2 ^ (8 * Z.of_nat 1 + 6)) by (rewrite !Z.mod_small; lia).
    apply (Hform 1 (Z.shiftr v 8) 1%nat); rewrite ?Z.shiftr_div_pow2 by lia; try done; [|left]; split; auto;
      first [apply Z.div_pos; lia | apply Z.div_lt_upper_bound; lia].
  - replace (v mod 2 ^ 62) with (v mod 2 ^ (8 * Z.of_nat 3 + 6)) by (rewrite !Z.mod_small; lia).
    apply (Hform 2 (Z.shiftr v 24) 3%nat); rewrite ?Z.shiftr_div_pow2 by lia; try done; [|right; left];
      split; auto; first [apply Z.div_pos; lia | apply Z.div_lt_upper_bound; lia].
  - apply (Hform 3 (Z.shiftr v 56) 7%nat); rewrite ?Z.shiftr_div_pow2 by lia; try done; [|by right; right].
    split; first [apply Z.div_pos; lia | apply Z.div_lt_upper_bound; lia].
Qed.

Lemma zlen_appendVarint v : zlen (appendVarint [] v) = varint_size v.
Proof. unfold appendVarint, varint_size. by case_tests. Qed.

Lemma appendVarint_app b v : appendVarint b v = b ++ appendVarint [] v.
Proof. unfold appendVarint. by case_tests. Qed.

(** ** Properties *)

(** Every value a QUIC varint can carry (below [2^62]) is read back exactly
    from its encoding, whatever bytes follow it, and the reader stops right after
    it; a larger [uint64] is truncated to its 62 low bits. *)
Theorem varint_roundtrip (v : Z) (rest : bytes) (e : gerror) (Hv : 0 <= v < 2 ^ 64) :
  readVarint (Rd (appendVarint [] v ++ rest) e) = (Ok (v mod 2 ^ 62), Rd rest e)
  /\ (v < 2 ^ 62 -> v mod 2 ^ 62 = v).
Proof.
  split; [by apply readVarint_appendVarint|]. intros. apply Z.mod_small. lia.
Qed.

Lemma varint_roundtrip_witness :
  readVarint (Rd (appendVarint [] 15293 ++ [Byte.x07]) io_EOF) = (Ok 15293, Rd [Byte.x07] io_EOF).
Proof. apply (varint_roundtrip 15293 [Byte.x07] io_EOF). lia. Defined.

(** On any stream [readVarint] either fails with the stream's error (or
    [io.ErrUnexpectedEOF]), or returns a value below [2^62] after consuming 1, 2, 4
    or 8 bytes; it never panics. *)
Theorem readVarint_total (r : rd) :
  match readVarint r with
  | (Ok v, r') => 0 <= v < 2 ^ 62 /\ rd_err r' = rd_err r /\
      exists used, rd_buf r = used ++ rd_buf r' /\ zlen used ∈ [1; 2; 4; 8]
  | (Err e, _) => e = rd_err r \/ e = io_ErrUnexpectedEOF
  | (Panic _, _) => False
  end.
Proof.
  destruct r as [buf err]. destruct buf as [|f buf]; [by left|].
  destruct (first_byte_split f) as (_ & _ & _ & Hp).
  pose proof (Z.mod_pos_bound (b2z f) 64 ltac:(lia)) as Hm.
  destruct (readFull_cases (2 ^ (b2z f / 64) - 1) (Rd buf err)) as
    [(l & [buf' err'] & E & Hb & He & Hl)|(e & E & He & Hlt)]; simpl in *; subst.
  - assert (Hl' : zlen l = 2 ^ (b2z f / 64) - 1).
    { assert (2 ^ 0 <= 2 ^ (b2z f / 64)) by (apply Z.pow_le_mono_r; lia). lia. }
    rewrite readVarint_eq by done. split; [|split; [done|]].
    + pose proof (be_acc_bound (b2z f mod 64) l ltac:(lia)) as Hb.
      assert (Hq : zlen l <= 7) by (assert (2 ^ (b2z f / 64) <= 2 ^ 3) by (apply Z.pow_le_mono_r; lia); lia).
      assert (H56 : 2 ^ (8 * zlen l) <= 2 ^ 56) by (apply Z.pow_le_mono_r; lia).
      pose proof (Z.pow_pos_nonneg 2 (8 * zlen l) ltac:(lia) ltac:(pose proof (zlen_nonneg l); lia)).
      change (2 ^ 62) with (64 * 2 ^ 56). nia.
    + exists (f :: l). split; [done|]. rewrite zlen_cons, Hl'.
      assert (Hc : b2z f / 64 = 0 \/ b2z f / 64 = 1 \/ b2z f / 64 = 2 \/ b2z f / 64 = 3) by lia.
      destruct Hc as [-> | [-> | [-> | ->]]]; simpl; set_solver.
  - erewrite readVarint_short by done. done.
Qed.
