(* ===== verification/WSFrame.v ===== *)
(** * RFC 6455 frames

    [readFrame] and [buildFrame] of src/internal/ws_h2.go and the message types of
    src/internal/ws_api.go: the frame layer under the h2 and h3 transports. *)

From stdpp Require Import pretty.
From S2P Require Import Prelude.

(** ** Model *)

(** [WSMessageType]: the opcodes the program names. *)
Definition WSMessageContinuation : Z := 0.
Definition WSMessageText : Z := 1.
Definition WSMessageBinary : Z := 2.
Definition WSMessageClose : Z := 8.
Definition WSMessagePing : Z := 9.
Definition WSMessagePong : Z := 10.

(** [WSStatusNormalClosure]. *)
Definition WSStatusNormalClosure : Z := 1000.

(** The cap of [readFrame] on a payload. *)
Definition wsMaxPayload : Z := Z.shiftl 64 20.

(** [for i := range payload { payload[i] ^= maskKey[i%4] }]. *)
Definition maskBytes (key payload : bytes) : bytes :=
  imap (fun i b => xor_byte b (nth (i mod 4)%nat key Byte.x00)) payload.

(** [readFrame(r *bufio.Reader, expectMasked bool) (typ, payload, fin, err)]. *)
Definition readFrame (expectMasked : bool) : RM (Z * bytes * bool) :=
  b0 ← readByte;
  b1 ← readByte;
  let fin := negb (Z.land (b2z b0) 0x80 =? 0) in
  let op := Z.land (b2z b0) 0x0F in
  let masked := negb (Z.land (b2z b1) 0x80 =? 0) in
  if expectMasked && negb masked then
    rm_err (errMsg "websocket protocol error: expected masked frame")
  else if negb expectMasked && masked then
    rm_err (errMsg "websocket protocol error: server frame must not be masked")
  else
    let ln := Z.land (b2z b1) 0x7F in
    plen ← (if ln =? 126 then b ← readFull 2; mret (be_val b)
            else if ln =? 127 then b ← readFull 8; mret (be_val b)
            else mret ln);
    maskKey ← (if masked then readFull 4 else mret [Byte.x00; Byte.x00; Byte.x00; Byte.x00]);
    if wsMaxPayload <? plen then
      rm_err (errMsg ("ws frame too large: " +:+ pretty plen))
    else
      makeslice plen (
        payload ← readFull plen;
        mret (op, (if masked then maskBytes maskKey payload else payload), fin)).

(** [buildFrame(typ WSMessageType, payload []byte, mask bool) ([]byte, error)];
    [randRead] is what [rand.Read(maskKey[:])] yields. *)
Definition buildFrame (randRead : res bytes) (typ : Z) (payload : bytes) (mask : bool) : res bytes :=
  let b0 := z2b (Z.lor 0x80 (Z.land typ 0x0F)) in
  let plen := zlen payload in
  let hdr :=
    if plen <? 126 then [b0; z2b plen]
    else if plen <=? 0xFFFF then [b0; z2b 126] ++ be_bytes 2 plen
    else [b0; z2b 127] ++ be_bytes 8 plen in
  if mask then
    let hdr := alter (fun b => z2b (Z.lor (b2z b) 0x80)) 1%nat hdr in
    maskKey ← randRead;
    mret (hdr ++ maskKey ++ maskBytes maskKey payload)
  else mret (hdr ++ payload).

#[global] Arguments readFrame : simpl never.
#[global] Arguments buildFrame : simpl never.

(** ** Lemmas *)

Lemma length_maskBytes key p : length (maskBytes key p) = length p.
Proof. apply length_imap. Qed.

Lemma zlen_maskBytes key p : zlen (maskBytes key p) = zlen p.
Proof. unfold zlen. by rewrite length_maskBytes. Qed.

Lemma maskBytes_involutive key p : maskBytes key (maskBytes key p) = p.
Proof.
  unfold maskBytes. apply list_eq. intros i. rewrite !list_lookup_imap.
  destruct (p !! i); simpl; [|done]. by rewrite xor_byte_involutive.
Qed.

Lemma opcode_byte typ :
  0 <= typ < 16 ->
  let b0 := z2b (Z.lor 0x80 (Z.land typ 0x0F)) in
  negb (Z.land (b2z b0) 0x80 =? 0) = true /\ Z.land (b2z b0) 0x0F = typ.
Proof.
  intros H. assert (Hb : forall b : byte, b2z b < 16 ->
    negb (Z.land (b2z (z2b (Z.lor 0x80 (Z.land (b2z b) 0x0F)))) 0x80 =? 0) = true
    /\ Z.land (b2z (z2b (Z.lor 0x80 (Z.land (b2z b) 0x0F)))) 0x0F = b2z b).
  { intros b. destruct b; vm_compute; (split; reflexivity) || discriminate. }
  specialize (Hb (z2b typ)). rewrite b2z_z2b_small in Hb by lia. apply Hb. lia.
Qed.

(** The second header byte carries the mask flag and the 7-bit length. *)
Definition len_byte (mask : bool) (l : Z) : byte :=
  if mask then z2b (Z.lor (b2z (z2b l)) 0x80) else z2b l.

Lemma len_byte_spec mask l :
  0 <= l <= 127 ->
  negb (Z.land (b2z (len_byte mask l)) 0x80 =? 0) = mask /\ Z.land (b2z (len_byte mask l)) 0x7F = l.
Proof.
  intros H. assert (Hb : forall b : byte, b2z b <= 127 -> forall m,
    negb (Z.land (b2z (len_byte m (b2z b))) 0x80 =? 0) = m /\ Z.land (b2z (len_byte m (b2z b))) 0x7F = b2z b).
  { intros b Hb m. destruct b, m; vm_compute in Hb; try done; vm_compute; split; reflexivity. }
  specialize (Hb (z2b l)). rewrite b2z_z2b_small in Hb by lia. apply Hb. lia.
Qed.

(** Seven-bit length and extended length bytes chosen for a payload of [l] bytes. *)
Definition len7 (l : Z) : Z := if l <? 126 then l else if l <=? 0xFFFF then 126 else 127.
Definition len_ext (l : Z) : bytes :=
  if l <? 126 then [] else if l <=? 0xFFFF then be_bytes 2 l else be_bytes 8 l.

Lemma len7_range l : 0 <= l -> 0 <= len7 l <= 127.
Proof. unfold len7. case_tests; zbool; lia. Qed.

(** What [buildFrame] emits, field by field. *)
Lemma buildFrame_eq key typ p mask :
  buildFrame (Ok key) typ p mask =
  Ok (z2b (Z.lor 0x80 (Z.land typ 0x0F)) :: len_byte mask (len7 (zlen p)) :: len_ext (zlen p)
      ++ (if mask then key ++ maskBytes key p else p)).
Proof.
  unfold buildFrame, len7, len_ext, len_byte.
  destruct (zlen p <? 126); [|destruct (zlen p <=? 0xFFFF)]; destruct mask;
    simpl; rewrite <- ?app_assoc; reflexivity.
Qed.

(** The length field, read back. *)
Lemma read_len_eq l rest e :
  0 <= l < 2 ^ 63 ->
  (if len7 l =? 126 then b ← readFull 2; mret (be_val b)
   else if len7 l =? 127 then b ← readFull 8; mret (be_val b)
   else mret (len7 l)) (Rd (len_ext l ++ rest) e) = (Ok l, Rd rest e).
Proof.
  intros Hl. unfold len7, len_ext.
  destruct (Z.ltb_spec l 126); [|destruct (Z.leb_spec l 0xFFFF)].
  - destruct (Z.eqb_spec l 126), (Z.eqb_spec l 127); try lia. done.
  - rewrite (Z.eqb_refl 126). erewrite RM_bind_Ok
      by (apply readFull_app; unfold zlen; by rewrite length_be_bytes).
    unfold mret, RM_ret. rewrite be_val_be_bytes by lia. done.
  - change (127 =? 126) with false. rewrite (Z.eqb_refl 127). cbv iota. erewrite RM_bind_Ok
      by (apply readFull_app; unfold zlen; by rewrite length_be_bytes).
    unfold mret, RM_ret. rewrite be_val_be_bytes by lia. done.
Qed.

(** [readFrame] on a header byte [b0] and the header of an [l]-byte payload. *)
Lemma readFrame_header b0 mask l body e :
  0 <= l < 2 ^ 63 ->
  readFrame mask (Rd (b0 :: len_byte mask (len7 l) :: len_ext l ++ body) e) =
  (maskKey ← (if mask then readFull 4 else mret [Byte.x00; Byte.x00; Byte.x00; Byte.x00]);
   if wsMaxPayload <? l then rm_err (errMsg ("ws frame too large: " +:+ pretty l))
   else makeslice l (payload ← readFull l;
     mret (Z.land (b2z b0) 0x0F, (if mask then maskBytes maskKey payload else payload),
           negb (Z.land (b2z b0) 0x80 =? 0)))) (Rd body e).
Proof.
  intros Hl. unfold readFrame.
  destruct (len_byte_spec mask (len7 l) (len7_range l (proj1 Hl))) as [Em El].
  erewrite RM_bind_Ok by apply readByte_cons. erewrite RM_bind_Ok by apply readByte_cons.
  cbv zeta. rewrite Em, El, andb_negb_r.
  replace (negb mask && mask) with false by (by destruct mask).
  cbv iota. erewrite RM_bind_Ok by (by apply read_len_eq). done.
Qed.

Lemma wsMaxPayload_val : wsMaxPayload = 67108864.
Proof. reflexivity. Qed.

(** What [buildFrame] emits, read back. *)
Lemma readFrame_buildFrame key typ p rest mask e :
  0 <= typ < 16 -> length key = 4%nat -> zlen p <= wsMaxPayload ->
  exists frame, buildFrame (Ok key) typ p mask = Ok frame
    /\ readFrame mask (Rd (frame ++ rest) e) = (Ok (typ, p, true), Rd rest e).
Proof.
  intros Htyp Hkey Hp. eexists. split; [apply buildFrame_eq|]. rewrite <- !app_comm_cons, <- app_assoc.
  pose proof (zlen_nonneg p). rewrite wsMaxPayload_val in Hp.
  rewrite readFrame_header by lia. destruct (opcode_byte typ Htyp) as [-> ->].
  destruct mask.
  - rewrite <- app_assoc. erewrite RM_bind_Ok by (apply readFull_app; unfold zlen; by rewrite Hkey).
    rewrite (proj2 (Z.ltb_ge _ _)) by (rewrite wsMaxPayload_val; lia).
    rewrite makeslice_ok by (unfold maxAlloc; lia).
    erewrite RM_bind_Ok by (apply readFull_app; by rewrite zlen_maskBytes).
    by rewrite maskBytes_involutive.
  - erewrite RM_bind_Ok by reflexivity.
    rewrite (proj2 (Z.ltb_ge _ _)) by (rewrite wsMaxPayload_val; lia).
    rewrite makeslice_ok by (unfold maxAlloc; lia).
    by erewrite RM_bind_Ok by (by apply readFull_app).
Qed.

(** ** Properties *)

(** A frame built by [buildFrame] (masked or not, any opcode, any payload up
    to the 64 MiB cap) is read back by [readFrame] as one final frame with the same
    opcode and payload, and nothing after it is consumed. *)
Theorem ws_frame_roundtrip (key : bytes) (typ : Z) (p rest : bytes) (mask : bool) (e : gerror)
    (Htyp : 0 <= typ < 16) (Hkey : length key = 4%nat) (Hp : zlen p <= wsMaxPayload) :
  exists frame, buildFrame (Ok key) typ p mask = Ok frame
    /\ readFrame mask (Rd (frame ++ rest) e) = (Ok (typ, p, true), Rd rest e).
Proof. by apply readFrame_buildFrame. Qed.

Lemma ws_frame_roundtrip_witness :
  exists frame, buildFrame (Ok [Byte.x01; Byte.x02; Byte.x03; Byte.x04]) WSMessageBinary
                  [Byte.x68; Byte.x69] true = Ok frame
    /\ readFrame true (Rd (frame ++ [Byte.xff]) io_EOF)
       = (Ok (WSMessageBinary, [Byte.x68; Byte.x69], true), Rd [Byte.xff] io_EOF).
Proof. apply ws_frame_roundtrip; [vm_compute; split; congruence|reflexivity|vm_compute; congruence]. Defined.

(** The mask direction is enforced: a frame whose mask bit is not the
    expected one is refused with a protocol error before its length or payload is
    looked at, and a payload over 64 MiB is refused before its bytes are read. *)
Theorem readFrame_guards (key : bytes) (typ : Z) (p rest : bytes) (mask : bool) (e : gerror)
    (Hkey : length key = 4%nat) (Hp : zlen p < 2 ^ 63) :
  exists frame, buildFrame (Ok key) typ p mask = Ok frame
    /\ fst (readFrame (negb mask) (Rd (frame ++ rest) e))
       = Err (errMsg (if mask then "websocket protocol error: server frame must not be masked"
                      else "websocket protocol error: expected masked frame"))
    /\ (wsMaxPayload < zlen p ->
        fst (readFrame mask (Rd (frame ++ rest) e))
        = Err (errMsg ("ws frame too large: " +:+ pretty (zlen p)))).
Proof.
  eexists. split; [apply buildFrame_eq|]. rewrite <- !app_comm_cons, <- app_assoc.
  pose proof (zlen_nonneg p) as H0. split.
  - unfold readFrame. destruct (len_byte_spec mask (len7 (zlen p)) (len7_range _ H0)) as [Em _].
    erewrite RM_bind_Ok by apply readByte_cons. erewrite RM_bind_Ok by apply readByte_cons.
    cbv zeta. rewrite Em. by destruct mask.
  - intros Hbig. rewrite readFrame_header by lia.
    assert (E : (wsMaxPayload <? zlen p) = true) by (by apply Z.ltb_lt). destruct mask.
    + rewrite <- app_assoc. erewrite RM_bind_Ok by (apply readFull_app; unfold zlen; by rewrite Hkey).
      by rewrite E.
    + erewrite RM_bind_Ok by reflexivity. by rewrite E.
Qed.

Lemma readFrame_guards_witness :
  exists frame, buildFrame (Ok [Byte.x01; Byte.x02; Byte.x03; Byte.x04]) WSMessageBinary [Byte.x78] true
                = Ok frame
    /\ fst (readFrame false (Rd (frame ++ []) io_EOF))
       = Err (errMsg "websocket protocol error: server frame must not be masked")
    /\ (wsMaxPayload < 1 -> fst (readFrame true (Rd (frame ++ []) io_EOF))
        = Err (errMsg ("ws frame too large: " +:+ pretty 1))).
Proof.
  apply (readFrame_guards [Byte.x01; Byte.x02; Byte.x03; Byte.x04] WSMessageBinary [Byte.x78] [] true io_EOF);
    [reflexivity|vm_compute; reflexivity].
Defined.

(** ** Progress of [readFrame], and frames as a server sends them *)

Lemma consumes_readFrame m : consumes 2 (readFrame m).
Proof.
  unfold readFrame. change 2%nat with (1 + (1 + 0))%nat.
  apply consumes_bind; [auto with gobytes|]. intros b0.
  apply consumes_bind; [auto with gobytes|]. intros b1. cbv zeta.
  case_match; [auto with gobytes|]. case_match; [auto with gobytes|].
  apply (consumes_bind 0 0). { repeat case_match; auto with gobytes; apply (consumes_bind 0 0); auto with gobytes. }
  intros l. apply (consumes_bind 0 0); [case_match; auto with gobytes|]. intros key.
  case_match; auto with gobytes. apply consumes_makeslice, (consumes_bind 0 0); auto with gobytes.
Qed.

(** What a frame that was read can be. *)
Lemma readFrame_result m r op p fin r' :
  readFrame m r = (Ok (op, p, fin), r') -> 0 <= op < 16 /\ zlen p <= wsMaxPayload.
Proof.
  unfold readFrame. intros E. apply RM_bind_inv in E as (b0 & r1 & _ & E). apply RM_bind_inv in E as (b1 & r2 & _ & E).
  cbv zeta in E. case_match; [done|]. case_match; [done|].
  apply RM_bind_inv in E as (plen & r3 & _ & E). apply RM_bind_inv in E as (key & r4 & _ & E).
  destruct (Z.ltb_spec wsMaxPayload plen) as [|Hle]; [done|]. unfold makeslice in E. case_match; [done|].
  apply RM_bind_inv in E as (payload & r5 & Hr & E). injection E as <- <- _ _. split.
  - destruct b0; vm_compute; split; congruence.
  - apply readFull_Ok in Hr as (_ & _ & Hl). rewrite wsMaxPayload_val in *. case_match; rewrite ?zlen_maskBytes; lia.
Qed.

(** The length field never goes negative, so the allocation is within bounds. *)
Lemma nopanic_readFrame m : nopanic (readFrame m).
Proof.
  unfold readFrame. apply nopanic_bind; [auto with gobytes|]. intros b0.
  apply nopanic_bind; [auto with gobytes|]. intros b1. cbv zeta.
  case_match; [auto with gobytes|]. case_match; [auto with gobytes|].
  apply (nopanic_bind_post (fun l => 0 <= l)).
  - repeat case_match; auto with gobytes.
  - intros r l r'. repeat case_match; unfold mbind, RM_bind, mret, RM_ret; repeat case_match;
      intros; simplify_eq; first [apply be_val_bound | apply Z.land_nonneg; left; apply b2z_range].
  - intros l Hl. apply nopanic_bind; [case_match; auto with gobytes|]. intros key.
    destruct (Z.ltb_spec wsMaxPayload l) as [Hm|Hm]; [auto with gobytes|]. rewrite wsMaxPayload_val in Hm.
    rewrite makeslice_ok by (unfold maxAlloc; lia). auto with gobytes.
Qed.

(** An unmasked frame, as the server side of RFC 6455 sends it. *)
Definition srvFrame (fin : bool) (op : Z) (p : bytes) : bytes :=
  z2b ((if fin then 128 else 0) + op) :: len_byte false (len7 (zlen p)) :: len_ext (zlen p) ++ p.

Lemma readFrame_srvFrame fin op p rest e :
  0 <= op < 16 -> zlen p <= wsMaxPayload ->
  readFrame false (Rd (srvFrame fin op p ++ rest) e) = (Ok (op, p, fin), Rd rest e).
Proof.
  intros Hop Hp. unfold srvFrame. rewrite <- !app_comm_cons, <- app_assoc.
  pose proof (zlen_nonneg p). rewrite wsMaxPayload_val in Hp. rewrite readFrame_header by lia.
  erewrite RM_bind_Ok by reflexivity.
  rewrite (proj2 (Z.ltb_ge _ _)) by (rewrite wsMaxPayload_val; lia).
  rewrite makeslice_ok by (unfold maxAlloc; lia).
  erewrite RM_bind_Ok by (by apply readFull_app). unfold mret, RM_ret.
  assert (Hb : forall b : byte, b2z b < 16 -> forall f : bool,
    Z.land (b2z (z2b ((if f then 128 else 0) + b2z b))) 0x0F = b2z b
    /\ negb (Z.land (b2z (z2b ((if f then 128 else 0) + b2z b))) 0x80 =? 0) = f).
  { intros b Hb f. destruct b, f; vm_compute in Hb; try done; vm_compute; split; reflexivity. }
  specialize (Hb (z2b op)). rewrite b2z_z2b_small in Hb by lia.
  by destruct (Hb ltac:(lia) fin) as [-> ->].
Qed.
