(* ===== verification/QPack.v ===== *)
(** * QPACK with the static table only

    The header codec of the HTTP/3 handshake, src/internal/ws_h3_qpack_min.go:
    [h3EncodeHeaders], [h3DecodeHeaders] and the prefixed integers and strings
    under them. The Huffman decoder is golang.org/x/net's, hence a parameter. *)

From S2P Require Import Prelude.

(** ** Model *)

Definition errH3QPACK : gerror := errSentinel "h3 qpack decode failed".

(** [h3StaticTable]: [(name, value)] of [h3tableEntry]. *)
Definition h3StaticTable : list (string * string) := [
  (":authority", ""); (":path", "/");
  ("age", "0"); ("content-disposition", "");
  ("content-length", "0"); ("cookie", "");
  ("date", ""); ("etag", "");
  ("if-modified-since", ""); ("if-none-match", "");
  ("last-modified", ""); ("link", "");
  ("location", ""); ("referer", "");
  ("set-cookie", ""); (":method", "CONNECT");
  (":method", "DELETE"); (":method", "GET");
  (":method", "HEAD"); (":method", "OPTIONS");
  (":method", "POST"); (":method", "PUT");
  (":scheme", "http"); (":scheme", "https");
  (":status", "103"); (":status", "200");
  (":status", "304"); (":status", "404");
  (":status", "503"); ("accept", "*/*");
  ("accept", "application/dns-message"); ("accept-encoding", "gzip, deflate, br");
  ("accept-ranges", "bytes"); ("access-control-allow-headers", "cache-control");
  ("access-control-allow-headers", "content-type"); ("access-control-allow-origin", "*");
  ("cache-control", "max-age=0"); ("cache-control", "max-age=2592000");
  ("cache-control", "max-age=604800"); ("cache-control", "no-cache");
  ("cache-control", "no-store"); ("cache-control", "public, max-age=31536000");
  ("content-encoding", "br"); ("content-encoding", "gzip");
  ("content-type", "application/dns-message"); ("content-type", "application/javascript");
  ("content-type", "application/json"); ("content-type", "application/x-www-form-urlencoded");
  ("content-type", "image/gif"); ("content-type", "image/jpeg");
  ("content-type", "image/png"); ("content-type", "text/css");
  ("content-type", "text/html; charset=utf-8"); ("content-type", "text/plain");
  ("content-type", "text/plain;charset=utf-8"); ("range", "bytes=0-");
  ("strict-transport-security", "max-age=31536000"); ("strict-transport-security", "max-age=31536000; includesubdomains");
  ("strict-transport-security", "max-age=31536000; includesubdomains; preload"); ("vary", "accept-encoding");
  ("vary", "origin"); ("x-content-type-options", "nosniff");
  ("x-xss-protection", "1; mode=block"); (":status", "100");
  (":status", "204"); (":status", "206");
  (":status", "302"); (":status", "400");
  (":status", "403"); (":status", "421");
  (":status", "425"); (":status", "500");
  ("accept-language", ""); ("access-control-allow-credentials", "FALSE");
  ("access-control-allow-credentials", "TRUE"); ("access-control-allow-headers", "*");
  ("access-control-allow-methods", "get"); ("access-control-allow-methods", "get, post, options");
  ("access-control-allow-methods", "options"); ("access-control-expose-headers", "content-length");
  ("access-control-request-headers", "content-type"); ("access-control-request-method", "get");
  ("access-control-request-method", "post"); ("alt-svc", "clear");
  ("authorization", ""); ("content-security-policy", "script-src 'none'; object-src 'none'; base-uri 'none'");
  ("early-data", "1"); ("expect-ct", "");
  ("forwarded", ""); ("if-range", "");
  ("origin", ""); ("purpose", "prefetch");
  ("server", ""); ("timing-allow-origin", "*");
  ("upgrade-insecure-requests", "1"); ("user-agent", "");
  ("x-forwarded-for", ""); ("x-frame-options", "deny");
  ("x-frame-options", "sameorigin")
].

(** [for v >= 128 { b = append(b, byte(v%128+128)); v /= 128 }; append(b, byte(v))];
    an [int64] needs at most nine rounds. *)
Fixpoint appendIntTail (fuel : nat) (v : Z) : bytes :=
  match fuel with
  | O => [z2b v]
  | S k => if 128 <=? v then z2b (v mod 128 + 128) :: appendIntTail k (v / 128) else [z2b v]
  end.

(** [appendPrefixedInt(b []byte, first byte, prefix uint8, v int64) []byte]. *)
Definition appendPrefixedInt (b : bytes) (first prefix v : Z) : bytes :=
  let mask := Z.shiftl 1 prefix - 1 in
  if v <? mask then b ++ [z2b (Z.lor first (b2z (z2b v)))]
  else b ++ [z2b (Z.lor first (b2z (z2b mask)))] ++ appendIntTail 9 (v - mask).

(** [appendPrefixedString(b []byte, first byte, prefix uint8, s string) []byte]. *)
Definition appendPrefixedString (b : bytes) (first prefix : Z) (s : string) : bytes :=
  appendPrefixedInt b first prefix (slen s) ++ str2b s.

(** The search loop of [h3EncodeHeaders]: the first entry with this name, and the
    first entry with this name and value, -1 for none. *)
Fixpoint findStatic (table : list (string * string)) (i : Z) (name value : string) (idxName : Z) : Z * Z :=
  match table with
  | [] => (idxName, -1)
  | (ename, evalue) :: rest =>
      let idxName := if (idxName <? 0) && bool_decide (ename = name) then i else idxName in
      if bool_decide (ename = name) && bool_decide (evalue = value) then (idxName, i)
      else findStatic rest (i + 1) name value idxName
  end.

(** The body of the loop of [h3EncodeHeaders] for one header. *)
Definition h3EncodeHeader (b : bytes) (kv : string * string) : bytes :=
  let '(name, value) := kv in
  let '(idxName, idxNameVal) := findStatic h3StaticTable 0 name value (-1) in
  if 0 <=? idxNameVal then appendPrefixedInt b (Z.lor 128 64) 6 idxNameVal
  else if 0 <=? idxName then
    appendPrefixedString (appendPrefixedInt b 80 4 idxName) 0 7 value
  else appendPrefixedString (appendPrefixedString b 32 3 name) 0 7 value.

(** [h3EncodeHeaders(headers [][2]string) []byte]. *)
Definition h3EncodeHeaders (headers : list (string * string)) : bytes :=
  fold_left h3EncodeHeader headers [Byte.x00; Byte.x00].

(** The continuation loop of [readPrefixedIntWithFirst], on [int64]. *)
Fixpoint readIntLoop (buf : bytes) (v m : Z) : res Z * bytes :=
  match buf with
  | [] => (Err errH3QPACK, [])
  | x :: rest =>
      let v := i64 (v + i64 (Z.shiftl (Z.land (b2z x) 127) m)) in
      if Z.land (b2z x) 128 =? 0 then (Ok v, rest) else readIntLoop rest v (m + 7)
  end.

(** [readPrefixedIntWithFirst(r *bytes.Reader, b byte, prefix uint8) (int64, error)]. *)
Definition readPrefixedIntWithFirst (b : byte) (prefix : Z) : RM Z := fun r =>
  let mask := b2z (z2b (Z.shiftl 1 prefix - 1)) in
  let v := Z.land (b2z b) mask in
  if negb (v =? mask) then (Ok v, r)
  else let '(o, rest) := readIntLoop (rd_buf r) v 0 in (o, Rd rest (rd_err r)).

(** [r.ReadByte()] with its error replaced by [errH3QPACK]. *)
Definition readByteQ : RM byte := fun r =>
  match readByte r with (Ok b, r') => (Ok b, r') | (_, r') => (Err errH3QPACK, r') end.

(** [readPrefixedInt(r *bytes.Reader, prefix uint8) (int64, error)]. *)
Definition readPrefixedInt (prefix : Z) : RM Z :=
  b ← readByteQ; readPrefixedIntWithFirst b prefix.

(** [bytes.Reader.Read(s)] into a fresh [s] of length [n]: EOF when nothing is left
    (even for [n = 0]), else as much as there is, the rest of [s] staying zero. *)
Definition readSome (n : Z) : RM bytes := fun r =>
  match rd_buf r with
  | [] => (Err errH3QPACK, r)
  | buf => (Ok (take (Z.to_nat n) buf ++ replicate (Z.to_nat n - length buf) Byte.x00),
            Rd (drop (Z.to_nat n) buf) (rd_err r))
  end.

Section Decode.
(** [hpack.HuffmanDecodeToString], of golang.org/x/net. *)
Variable huffmanDecode : bytes -> option string.

(** [readPrefixedStringWithFirst(r, b, prefix) (bool, string, error)]. *)
Definition readPrefixedStringWithFirst (b : byte) (prefix : Z) : RM (bool * string) :=
  let huffman := negb (Z.land (b2z b) (b2z (z2b (Z.shiftl 1 prefix))) =? 0) in
  n ← readPrefixedIntWithFirst b prefix;
  makeslice n (
    s ← readSome n;
    if negb huffman then mret (false, b2str s)
    else match huffmanDecode s with
         | Some dec => mret (true, dec)
         | None => rm_err errH3QPACK
         end).

(** [readPrefixedString(r, prefix) (bool, string, error)]. *)
Definition readPrefixedString (prefix : Z) : RM (bool * string) :=
  b ← readByteQ; readPrefixedStringWithFirst b prefix.

(** [h3StaticTable[idx]] behind the test [idx >= len]: a negative index panics. *)
Definition staticEntry (idx : Z) : RM (string * string) :=
  if zlen h3StaticTable <=? idx then rm_err errH3QPACK
  else if idx <? 0 then rm_panic "index out of range"
  else match h3StaticTable !! Z.to_nat idx with
       | Some e => mret e
       | None => rm_panic "index out of range"
       end.

(** One round of the loop of [h3DecodeHeaders]: the field line starting with [b]. *)
Definition h3DecodeField (b : byte) : RM (string * string) :=
  if negb (Z.land (b2z b) 128 =? 0) then
    idx ← readPrefixedIntWithFirst b 6; staticEntry idx
  else if Z.land (b2z b) 224 =? 64 then
    if Z.land (b2z b) 16 =? 0 then
      rm_err (errWrap "" errH3QPACK ": dynamic name reference is unsupported")
    else
      idx ← readPrefixedIntWithFirst b 4;
      e ← staticEntry idx;
      val ← readPrefixedString 7;
      mret (fst e, snd val)
  else if Z.land (b2z b) 224 =? 32 then
    name ← readPrefixedStringWithFirst b 3;
    val ← readPrefixedString 7;
    mret (snd name, snd val)
  else rm_err (errWrap "" errH3QPACK (": unsupported qpack line 0x" +:+ hexString (b2z b))).

(** The loop [for r.Len() > 0]: every round takes at least one byte, so the length
    of the block bounds the rounds. *)
Fixpoint h3DecodeLoop (fuel : nat) (h : gmap string string) : RM (gmap string string) := fun r =>
  match rd_buf r with
  | [] => (Ok h, r)
  | _ :: _ =>
      match fuel with
      | O => (Panic "out of fuel", r)
      | S k => (b ← readByteQ; kv ← h3DecodeField b; h3DecodeLoop k (<[fst kv := snd kv]> h)) r
      end
  end.

(** [h3DecodeHeaders(block []byte) (map[string]string, error)]. *)
Definition h3DecodeHeaders (block : bytes) : res (gmap string string) :=
  fst ((_ ← readPrefixedInt 8; _ ← readPrefixedInt 7; h3DecodeLoop (length block) ∅) (Rd block io_EOF)).
End Decode.

(** ** Integers *)

Lemma i64_fits x : 0 <= x < 2 ^ 63 -> i64 x = x.
Proof. intros. unfold i64. rewrite Z.mod_small; lia. Qed.

Lemma cont_byte b :
  Z.land (b2z b) 127 = b2z b mod 128 /\ (Z.land (b2z b) 128 =? 0) = (b2z b <? 128).
Proof. by destruct b. Qed.

Lemma readIntLoop_tail fuel v acc m rest :
  0 <= v < 128 ^ Z.of_nat (S fuel) -> 0 <= acc -> 0 <= m -> acc + v * 2 ^ m < 2 ^ 63 ->
  readIntLoop (appendIntTail fuel v ++ rest) acc m = (Ok (acc + v * 2 ^ m), rest).
Proof.
  assert (Hlast : forall v acc m rest, 0 <= v < 128 -> 0 <= acc -> 0 <= m -> acc + v * 2 ^ m < 2 ^ 63 ->
    readIntLoop (z2b v :: rest) acc m = (Ok (acc + v * 2 ^ m), rest)).
  { clear. intros v acc m rest Hv Ha Hm Hs. simpl. destruct (cont_byte (z2b v)) as [-> ->].
    rewrite b2z_z2b_small, Z.mod_small, Z.shiftl_mul_pow2 by lia.
    assert (0 < 2 ^ m) by (apply Z.pow_pos_nonneg; lia).
    rewrite !i64_fits by (rewrite ?i64_fits; nia). by rewrite (proj2 (Z.ltb_lt _ _)) by lia. }
  revert v acc m. induction fuel as [|fuel IH]; intros v acc m Hv Ha Hm Hs.
  - by apply Hlast.
  - simpl appendIntTail. destruct (Z.leb_spec 128 v) as [Hge|Hlt]; [|apply Hlast; auto; lia].
    cbn [readIntLoop app]. destruct (cont_byte (z2b (v mod 128 + 128))) as [-> ->].
    pose proof (Z.mod_pos_bound v 128 ltac:(lia)) as Hr. pose proof (Z.div_mod v 128 ltac:(lia)) as Hd.
    assert (Hp : 0 < 2 ^ m) by (apply Z.pow_pos_nonneg; lia).
    assert (Hp7 : 2 ^ (m + 7) = 128 * 2 ^ m) by (rewrite Z.pow_add_r by lia; lia).
    rewrite b2z_z2b_small by lia.
    replace ((v mod 128 + 128) mod 128) with (v mod 128)
      by (rewrite <- (Z.mul_1_l 128) at 3; by rewrite Z.mod_add, Z.mod_mod by lia).
    rewrite (proj2 (Z.ltb_ge _ _)) by lia. rewrite Z.shiftl_mul_pow2 by lia.
    rewrite !i64_fits by (rewrite ?i64_fits; nia).
    rewrite IH; rewrite ?Hp7; try nia; [do 2 f_equal; nia|].
    split; [apply Z.div_pos; lia|]. apply Z.div_lt_upper_bound; [lia|].
    rewrite (Nat2Z.inj_succ (S fuel)), Z.pow_succ_r in Hv by lia. lia.
Qed.

(** A prefixed integer under the high bits [k] is read back, and the high bits stay visible. *)
Lemma prefInt_roundtrip k prefix v :
  1 <= prefix <= 8 -> 0 <= k < 2 ^ (8 - prefix) -> 0 <= v < 2 ^ 63 ->
  exists b tail, (forall pre, appendPrefixedInt pre (k * 2 ^ prefix) prefix v = pre ++ b :: tail)
    /\ b2z b / 2 ^ prefix = k
    /\ forall rest e, readPrefixedIntWithFirst b prefix (Rd (tail ++ rest) e) = (Ok v, Rd rest e).
Proof.
  intros Hp Hk Hv. set (P := 2 ^ prefix).
  assert (HP : 2 <= P <= 256).
  { unfold P. split; [change 2 with (2 ^ 1) at 1 | change 256 with (2 ^ 8)]; apply Z.pow_le_mono_r; lia. }
  assert (HkP : (k + 1) * P <= 256).
  { assert (E : 2 ^ (8 - prefix) * P = 256)
      by (unfold P; rewrite <- Z.pow_add_r by lia; by replace (8 - prefix + prefix) with 8 by lia).
    nia. }
  assert (Hb : forall w, 0 <= w < P ->
    b2z (z2b (Z.lor (k * P) (b2z (z2b w)))) = k * P + w
    /\ (k * P + w) / P = k /\ Z.land (k * P + w) (P - 1) = w).
  { intros w Hw.
    assert (El : Z.lor (k * P) w = k * P + w).
    { unfold P. rewrite <- (Z.shiftl_mul_pow2 k prefix) at 1 by lia. by apply lor_shiftl_add; [lia|]. }
    rewrite (b2z_z2b_small w), El, b2z_z2b_small by nia. repeat split.
    - rewrite Z.add_comm, Z.div_add, Z.div_small by lia. lia.
    - replace (P - 1) with (Z.ones prefix) by (rewrite Z.ones_equiv; unfold P; lia).
      rewrite Z.land_ones by lia. fold P. rewrite Z.add_comm, Z.mod_add, Z.mod_small by lia. done. }
  assert (Hmask : b2z (z2b (Z.shiftl 1 prefix - 1)) = P - 1)
    by (rewrite Z.shiftl_1_l; fold P; apply b2z_z2b_small; lia).
  unfold appendPrefixedInt, readPrefixedIntWithFirst. rewrite Hmask, Z.shiftl_1_l. fold P. cbv zeta.
  destruct (Z.ltb_spec v (P - 1)) as [Hlt|Hge].
  - destruct (Hb v ltac:(lia)) as (E1 & E2 & E3).
    exists (z2b (Z.lor (k * P) (b2z (z2b v)))), []. rewrite E1, E3. repeat split; auto.
    intros. rewrite (proj2 (Z.eqb_neq v (P - 1))) by lia. done.
  - destruct (Hb (P - 1) ltac:(lia)) as (E1 & E2 & E3).
    rewrite (b2z_z2b_small (P - 1)) in E1 by lia.
    exists (z2b (Z.lor (k * P) (P - 1))), (appendIntTail 9 (v - (P - 1))).
    rewrite E1, E3. repeat split; auto. intros rest e. rewrite Z.eqb_refl. simpl negb. cbv iota.
    cbn [rd_buf rd_err]. rewrite readIntLoop_tail; [do 2 f_equal|..]; lia.
Qed.

(** ** Strings *)

Lemma readSome_ok (l rest : bytes) e :
  l ++ rest <> [] -> readSome (zlen l) (Rd (l ++ rest) e) = (Ok l, Rd rest e).
Proof.
  intros Hne. unfold readSome. cbn [rd_buf rd_err]. destruct (l ++ rest) as [|x y] eqn:E; [done|].
  rewrite <- E. unfold zlen. rewrite Nat2Z.id, take_app_length, drop_app_length, length_app.
  replace (length l - _)%nat with 0%nat by lia. simpl. by rewrite app_nil_r.
Qed.

Section StringCodec.
Variable huff : bytes -> option string.

Lemma no_huffman prefix b k :
  (prefix = 7 /\ k = 0) \/ (prefix = 3 /\ k = 4) -> b2z b / 2 ^ prefix = k ->
  negb (Z.land (b2z b) (b2z (z2b (Z.shiftl 1 prefix))) =? 0) = false.
Proof. intros [[-> ->]|[-> ->]]; destruct b; vm_compute; congruence. Qed.

Lemma prefString_roundtrip prefix k s :
  (prefix = 7 /\ k = 0) \/ (prefix = 3 /\ k = 4) -> slen s <= maxAlloc ->
  exists b tail, (forall pre, appendPrefixedString pre (k * 2 ^ prefix) prefix s = pre ++ b :: tail)
    /\ b2z b / 2 ^ prefix = k
    /\ (forall rest e, str2b s ++ rest <> [] ->
        readPrefixedStringWithFirst huff b prefix (Rd (tail ++ rest) e) = (Ok (false, s), Rd rest e))
    /\ (s = "" -> forall e,
        fst (readPrefixedStringWithFirst huff b prefix (Rd tail e)) = Err errH3QPACK).
Proof.
  intros Hpk Hs. pose proof (zlen_nonneg (str2b s)) as Hn. fold (slen s) in Hn.
  unfold maxAlloc in Hs.
  destruct (prefInt_roundtrip k prefix (slen s)) as (b & tail & E1 & E2 & E3);
    [destruct Hpk as [[-> ->]|[-> ->]]; lia..|lia|].
  exists b, (tail ++ str2b s). split; [|split; [done|]].
  { intros pre. unfold appendPrefixedString. by rewrite E1, <- app_assoc. }
  unfold readPrefixedStringWithFirst. rewrite (no_huffman prefix b k) by done. cbv zeta. simpl negb. cbv iota.
  assert (Hms : forall A (m : RM A), makeslice (slen s) m = m)
    by (intros; apply makeslice_ok; unfold maxAlloc; lia).
  split.
  - intros rest e Hne. rewrite <- app_assoc. erewrite RM_bind_Ok by apply E3. rewrite Hms.
    erewrite RM_bind_Ok by (by apply readSome_ok). unfold mret, RM_ret. by rewrite b2str_str2b.
  - intros -> e. erewrite RM_bind_Ok by apply E3. by rewrite Hms.
Qed.
End StringCodec.

(** ** Field lines *)

Lemma findStatic_spec tbl i name value idx a b :
  findStatic tbl i name value idx = (a, b) -> 0 <= i ->
  ((b = -1 /\ (name, value) ∉ tbl)
   \/ (i <= b < i + zlen tbl /\ tbl !! Z.to_nat (b - i) = Some (name, value)))
  /\ (a = idx \/ (i <= a < i + zlen tbl /\ exists v, tbl !! Z.to_nat (a - i) = Some (name, v))).
Proof.
  revert i idx. induction tbl as [|[en ev] tbl IH]; intros i idx H Hi.
  - simpl in H. simplify_eq. split; [left|left]; [split; [done|set_solver]|done].
  - cbn [findStatic] in H. rewrite zlen_cons. pose proof (zlen_nonneg tbl).
    set (idx' := if (idx <? 0) && bool_decide (en = name) then i else idx) in H.
    assert (Hidx : idx' = idx \/ (i <= idx' < i + (1 + zlen tbl)
              /\ exists v, ((en, ev) :: tbl) !! Z.to_nat (idx' - i) = Some (name, v))).
    { unfold idx'. destruct (idx <? 0); [|by left]. case_bool_decide; [right|by left].
      subst. cbn [andb]. split; [lia|]. rewrite Z.sub_diag. eauto. }
    destruct (bool_decide (en = name) && bool_decide (ev = value)) eqn:Eb.
    + apply andb_true_iff in Eb as [?%bool_decide_eq_true ?%bool_decide_eq_true]. simplify_eq.
      split; [right|done]. split; [lia|]. by rewrite Z.sub_diag.
    + assert (Hne : (name, value) <> (en, ev)).
      { intros [= -> ->]. by rewrite !bool_decide_eq_true_2 in Eb. }
      apply IH in H as [Hb Ha]; [|lia]. split.
      * destruct Hb as [[-> ?]|[? E]]; [left|right; split; [lia|]].
        { split; [done|]. by apply not_elem_of_cons. }
        replace (Z.to_nat (b - i)) with (S (Z.to_nat (b - (i + 1)))) by lia. done.
      * destruct Ha as [->|[? [v E]]]; [done|right]. split; [lia|]. exists v.
        replace (Z.to_nat (a - i)) with (S (Z.to_nat (a - (i + 1)))) by lia. done.
Qed.

Lemma line_kind b :
  (b2z b / 2 ^ 6 = 3 -> negb (Z.land (b2z b) 128 =? 0) = true)
  /\ (b2z b / 2 ^ 4 = 5 -> negb (Z.land (b2z b) 128 =? 0) = false /\ (Z.land (b2z b) 224 =? 64) = true
       /\ (Z.land (b2z b) 16 =? 0) = false)
  /\ (b2z b / 2 ^ 3 = 4 -> negb (Z.land (b2z b) 128 =? 0) = false /\ (Z.land (b2z b) 224 =? 64) = false
       /\ (Z.land (b2z b) 224 =? 32) = true).
Proof. destruct b; vm_compute; repeat split; congruence. Qed.

Lemma staticEntry_ok idx e r :
  0 <= idx < zlen h3StaticTable -> h3StaticTable !! Z.to_nat idx = Some e ->
  staticEntry idx r = (Ok e, r).
Proof.
  intros Hi E. unfold staticEntry. rewrite (proj2 (Z.leb_gt _ _)), (proj2 (Z.ltb_ge _ _)) by lia.
  by rewrite E.
Qed.

(** Headers whose encoding is a literal with an empty value. *)
Definition emptyLiteral (kv : string * string) : Prop := snd kv = "" /\ kv ∉ h3StaticTable.

(** A header a Go program can hold: its strings fit in memory. *)
Definition fitsMemory (kv : string * string) : Prop := slen (fst kv) <= maxAlloc /\ slen (snd kv) <= maxAlloc.

Section FieldCodec.
Variable huff : bytes -> option string.

Lemma readPrefixedString_eq b buf e prefix :
  readPrefixedString huff prefix (Rd (b :: buf) e) = readPrefixedStringWithFirst huff b prefix (Rd buf e).
Proof. done. Qed.

(** The value after a name: decoded, or refused when it is empty at the end of the block. *)
Lemma literal_value (name value : string) : slen value <= maxAlloc ->
  exists vb vt, (forall pre, appendPrefixedString pre 0 7 value = pre ++ vb :: vt)
  /\ (forall rest e, str2b value ++ rest <> [] ->
      (val ← readPrefixedString huff 7; mret (name, snd val)) (Rd (vb :: vt ++ rest) e) = (Ok (name, value), Rd rest e))
  /\ (value = "" -> forall e, fst ((val ← readPrefixedString huff 7; mret (name, snd val)) (Rd (vb :: vt) e)) = Err errH3QPACK).
Proof.
  intros Hv. destruct (prefString_roundtrip huff 7 0 value ltac:(auto) Hv) as (vb & vt & V1 & _ & V3 & V4).
  exists vb, vt. split; [exact V1|]. split.
  - intros rest e Hr. by erewrite RM_bind_Ok by (rewrite readPrefixedString_eq; by apply V3).
  - intros He e. specialize (V4 He e). unfold mbind, RM_bind. rewrite readPrefixedString_eq.
    destruct (readPrefixedStringWithFirst huff vb 7 (Rd vt e)) as [[?|?|?] ?]; simpl in *; congruence.
Qed.

(** A header line is decoded to the header it encodes, unless it is an empty
    literal at the very end of the block, which is refused. *)
Lemma h3EncodeHeader_field kv :
  fitsMemory kv ->
  exists b tail, (forall pre, h3EncodeHeader pre kv = pre ++ b :: tail)
    /\ (forall rest e, (emptyLiteral kv -> rest <> []) ->
        h3DecodeField huff b (Rd (tail ++ rest) e) = (Ok kv, Rd rest e))
    /\ (emptyLiteral kv -> forall e, fst (h3DecodeField huff b (Rd tail e)) = Err errH3QPACK).
Proof.
  destruct kv as [name value]. intros [Hn Hv]. cbn [fst snd] in *. unfold h3EncodeHeader.
  destruct (findStatic h3StaticTable 0 name value (-1)) as [a i] eqn:Ef.
  apply findStatic_spec in Ef as [Hi Ha]; [|lia]. rewrite !Z.sub_0_r, !Z.add_0_l in *.
  assert (Hlen : zlen h3StaticTable = 99) by reflexivity.
  destruct (literal_value name value Hv) as (vb & vt & V1 & V3 & V4).
  assert (Hne : forall rest, (emptyLiteral (name, value) -> rest <> []) ->
    (name, value) ∉ h3StaticTable -> str2b value ++ rest <> []).
  { intros rest Hr Hnot E. apply app_nil in E as [E1 E2]. apply Hr; [|done]. split; [|done]. simpl.
    rewrite <- (b2str_str2b value), E1. done. }
  destruct Hi as [[-> Hnot]|[Hir Ei]].
  - change (0 <=? -1) with false. cbv iota. destruct Ha as [->|[Har [v Ea]]].
    + (* literal name *)
      change (0 <=? -1) with false. cbv iota.
      destruct (prefString_roundtrip huff 3 4 name ltac:(auto) Hn) as (nb & nt & N1 & N2 & N3 & _).
      change (4 * 2 ^ 3) with 32 in N1. destruct (line_kind nb) as (_ & _ & Hk).
      destruct (Hk N2) as (K1 & K2 & K3). exists nb, (nt ++ vb :: vt). split; [|split].
      * intros pre. by rewrite N1, V1, <- app_assoc.
      * intros rest e Hr. unfold h3DecodeField. rewrite K1, K2, K3, <- app_assoc. cbv iota.
        erewrite RM_bind_Ok by (apply N3; destruct (str2b name); discriminate).
        cbn [app fst]. apply V3, Hne; auto.
      * intros [He _] e. unfold h3DecodeField. rewrite K1, K2, K3. cbv iota.
        erewrite RM_bind_Ok by (apply N3; destruct (str2b name); discriminate).
        by apply V4.
    + (* name reference *)
      rewrite (proj2 (Z.leb_le 0 a)) by lia.
      destruct (prefInt_roundtrip 5 4 a) as (nb & nt & N1 & N2 & N3); [lia..|].
      change (5 * 2 ^ 4) with 80 in N1. destruct (line_kind nb) as (_ & Hk & _).
      destruct (Hk N2) as (K1 & K2 & K3). exists nb, (nt ++ vb :: vt). split; [|split].
      * intros pre. by rewrite N1, V1, <- app_assoc.
      * intros rest e Hr. unfold h3DecodeField. rewrite K1, K2, K3, <- app_assoc. cbv iota.
        erewrite RM_bind_Ok by apply N3. erewrite RM_bind_Ok by (by apply staticEntry_ok).
        cbn [app fst]. apply V3, Hne; auto.
      * intros [He _] e. unfold h3DecodeField. rewrite K1, K2, K3. cbv iota.
        erewrite RM_bind_Ok by apply N3. erewrite RM_bind_Ok by (by apply staticEntry_ok).
        by apply V4.
  - (* indexed *)
    rewrite (proj2 (Z.leb_le 0 i)) by lia.
    destruct (prefInt_roundtrip 3 6 i) as (nb & nt & N1 & N2 & N3); [lia..|].
    change (3 * 2 ^ 6) with (Z.lor 128 64) in N1. destruct (line_kind nb) as (Hk & _ & _).
    exists nb, nt. split; [done|split].
    + intros rest e _. unfold h3DecodeField. rewrite (Hk N2). erewrite RM_bind_Ok by apply N3.
      by apply staticEntry_ok.
    + intros [_ Hnot]. exfalso. apply Hnot. by eapply list_elem_of_lookup_2.
Qed.
End FieldCodec.

(** ** Header blocks *)

Definition putHeader (h : gmap string string) (kv : string * string) : gmap string string :=
  <[fst kv := snd kv]> h.

#[global] Instance emptyLiteral_dec kv : Decision (emptyLiteral kv).
Proof. unfold emptyLiteral. apply _. Defined.

(** What decoding an encoded header list must give: the map of the headers (a
    later duplicate wins), except that a trailing empty literal is refused. *)
Definition decodeSpec (hs : list (string * string)) (h : gmap string string) : res (gmap string string) :=
  match last hs with
  | Some kv => if decide (emptyLiteral kv) then Err errH3QPACK else Ok (fold_left putHeader hs h)
  | None => Ok h
  end.

Lemma appendPrefixedInt_app b first prefix v :
  appendPrefixedInt b first prefix v = b ++ appendPrefixedInt [] first prefix v.
Proof. unfold appendPrefixedInt. by case_tests. Qed.

Lemma appendPrefixedString_app b first prefix s :
  appendPrefixedString b first prefix s = b ++ appendPrefixedString [] first prefix s.
Proof. unfold appendPrefixedString. by rewrite appendPrefixedInt_app, <- app_assoc. Qed.

Lemma h3EncodeHeader_app b kv : h3EncodeHeader b kv = b ++ h3EncodeHeader [] kv.
Proof.
  destruct kv as [n v]. unfold h3EncodeHeader. destruct (findStatic _ _ _ _ _) as [x y].
  case_tests; rewrite 1?appendPrefixedInt_app; try done;
    rewrite appendPrefixedString_app, (appendPrefixedString_app (_ [] _ _ _));
    rewrite ?(appendPrefixedInt_app b), ?(appendPrefixedString_app b); by rewrite app_assoc.
Qed.

Lemma h3EncodeHeaders_app hs b : fold_left h3EncodeHeader hs b = b ++ fold_left h3EncodeHeader hs [].
Proof.
  revert b. induction hs as [|kv hs IH]; intros b; simpl; [by rewrite app_nil_r|].
  rewrite IH, (IH (h3EncodeHeader [] kv)), h3EncodeHeader_app. by rewrite app_assoc.
Qed.

Section Blocks.
Variable huff : bytes -> option string.

Lemma h3DecodeLoop_spec hs fuel h e :
  Forall fitsMemory hs -> (length hs <= fuel)%nat ->
  fst (h3DecodeLoop huff fuel h (Rd (fold_left h3EncodeHeader hs []) e)) = decodeSpec hs h.
Proof.
  revert fuel h. induction hs as [|kv hs IH]; intros fuel h Hf Hl; [by destruct fuel|].
  apply Forall_cons in Hf as [Hkv Hf]. destruct fuel as [|fuel]; [simpl in Hl; lia|].
  destruct (h3EncodeHeader_field huff kv Hkv) as (b & tail & E1 & E2 & E3).
  cbn [fold_left]. rewrite h3EncodeHeaders_app, E1. cbn [app h3DecodeLoop rd_buf].
  erewrite RM_bind_Ok by reflexivity. cbn [rd_err].
  destruct hs as [|kv' hs].
  - cbn [fold_left]. rewrite app_nil_r. unfold decodeSpec. cbn [last]. case_decide as Hd.
    + specialize (E3 Hd e). unfold mbind, RM_bind.
      destruct (h3DecodeField huff b (Rd tail e)) as [[?|?|?] ?]; simpl in *; congruence.
    + specialize (E2 [] e ltac:(done)). rewrite app_nil_r in E2. erewrite RM_bind_Ok by done.
      by destruct fuel.
  - assert (Hne : fold_left h3EncodeHeader (kv' :: hs) [] <> []).
    { apply Forall_cons in Hf as [Hkv' _]. cbn [fold_left].
      destruct (h3EncodeHeader_field huff kv' Hkv') as (b' & tail' & E1' & _).
      rewrite h3EncodeHeaders_app, E1'. discriminate. }
    erewrite RM_bind_Ok by (by apply E2). rewrite IH by (auto; simpl in *; lia).
    unfold decodeSpec. change (last (kv :: kv' :: hs)) with (last (kv' :: hs)).
    destruct (last (kv' :: hs)) eqn:El; [done|]. by apply last_None in El.
Qed.

Lemma length_h3EncodeHeaders hs b :
  Forall fitsMemory hs -> (length hs + length b <= length (fold_left h3EncodeHeader hs b))%nat.
Proof.
  revert b. induction hs as [|kv hs IH]; intros b Hf; simpl; [lia|].
  apply Forall_cons in Hf as [Hkv Hf]. destruct (h3EncodeHeader_field huff kv Hkv) as (c & t & E & _).
  specialize (IH (h3EncodeHeader b kv) Hf). rewrite E, length_app in IH. rewrite E. simpl in IH. lia.
Qed.

Lemma h3DecodeHeaders_encode hs :
  Forall fitsMemory hs -> h3DecodeHeaders huff (h3EncodeHeaders hs) = decodeSpec hs ∅.
Proof.
  intros Hf. unfold h3DecodeHeaders, h3EncodeHeaders.
  rewrite h3EncodeHeaders_app. cbn [app].
  erewrite RM_bind_Ok by reflexivity. erewrite RM_bind_Ok by reflexivity.
  apply h3DecodeLoop_spec; [done|].
  pose proof (length_h3EncodeHeaders hs [] Hf) as H. simpl in *. lia.
Qed.

(** C39: decoding the block [h3EncodeHeaders] produces gives back exactly the
    headers (the last of several with one name) unless the last header is a literal with
    an empty value; in that one case, and in no other, the decoder refuses the block its
    own encoder built, since [bytes.Reader.Read] reports EOF for the empty string at the
    end of the block. The Huffman decoder is never consulted. *)
Theorem h3_headers_roundtrip (hs : list (string * string)) (Hfit : Forall fitsMemory hs) :
  h3DecodeHeaders huff (h3EncodeHeaders hs)
  = match last hs with
    | Some (name, value) =>
        if decide (value = "" /\ (name, value) ∉ h3StaticTable) then Err errH3QPACK
        else Ok (fold_left putHeader hs ∅)
    | None => Ok ∅
    end.
Proof.
  rewrite h3DecodeHeaders_encode by done. unfold decodeSpec. destruct (last hs) as [[name value]|]; [|done].
  by apply decide_ext.
Qed.

(** When the last header is a literal with an empty value, the decoder
    refuses the block its own encoder built: [bytes.Reader.Read] reports EOF for the
    empty string at the end of the block. *)
Theorem h3_trailing_empty_literal_refused (hs : list (string * string)) (kv : string * string)
    (Hfit : Forall fitsMemory (hs ++ [kv])) (Hempty : emptyLiteral kv) :
  h3DecodeHeaders huff (h3EncodeHeaders (hs ++ [kv])) = Err errH3QPACK.
Proof.
  rewrite h3DecodeHeaders_encode by done. unfold decodeSpec. rewrite last_snoc. by rewrite decide_True.
Qed.
End Blocks.

Lemma h3_headers_roundtrip_witness :
  h3DecodeHeaders (fun _ => None) (h3EncodeHeaders [(":status", "200"); ("x", ""); ("origin", "a")])
  = Ok (fold_left putHeader [(":status", "200"); ("x", ""); ("origin", "a")] ∅).
Proof.
  rewrite (h3_headers_roundtrip (fun _ => None)) by (repeat constructor; vm_compute; congruence).
  cbn [last]. rewrite decide_False; [reflexivity|]. intros [H _]. discriminate H.
Defined.

Lemma h3_trailing_empty_literal_refused_witness :
  h3DecodeHeaders (fun _ => None) (h3EncodeHeaders ([(":status", "200")] ++ [("x", "")])) = Err errH3QPACK.
Proof.
  apply h3_trailing_empty_literal_refused.
  - repeat constructor; vm_compute; congruence.
  - split; [reflexivity|]. apply (bool_decide_unpack _). vm_compute. exact I.
Defined.

(** A peer can crash the client: this thirteen-byte header block (an indexed
    line whose index overflows [int64]) passes the upper bound test and indexes the
    static table with a negative number, whatever the Huffman decoder does. *)
Theorem h3_decode_negative_index_panics (huff : bytes -> option string) :
  h3DecodeHeaders huff
    [Byte.x00; Byte.x00; Byte.xff; Byte.x80; Byte.x80; Byte.x80; Byte.x80; Byte.x80; Byte.x80; Byte.x80;
     Byte.x80; Byte.x80; Byte.x01] = Panic "index out of range".
Proof. reflexivity. Qed.
