(* ===== verification/WSConn.v ===== *)
(** * WebSocket connections

    The [WSConn] interface of src/internal/ws_api.go as a class, and the framed
    connection that implements it over an HTTP/2 or HTTP/3 stream
    ([framedWSConn], src/internal/ws_h2.go), and the adapter over the
    coder/websocket library (src/internal/ws_coder.go). *)

From stdpp Require Import pretty.
From S2P Require Import Prelude WSFrame.

(** ** Interfaces *)

(** [io.ReadWriteCloser], write side: [Write] returns [(n, err)]. *)
Class RWCloser (Strm : Type) := {
  rwc_write : bytes -> Strm -> Z * option gerror * Strm;
  rwc_close : Strm -> option gerror * Strm }.

(** [WSConn]: the context of each call is part of the connection's state. *)
Class WSConn (C : Type) := {
  ws_read : C -> res (Z * bytes) * C;
  ws_write : Z -> bytes -> C -> res unit * C;
  ws_close : Z -> string -> C -> res unit * C }.

(** What the world supplies at each consultation: [ctx.Err()] and [rand.Read]. *)
Record env := { ctxErr : nat -> option gerror; randKey : nat -> res bytes }.

(** ** [framedWSConn] *)

Module Framed.
Section Framed.
Context {Strm : Type} `{!RWCloser Strm}.

Record t := Conn { br : rd; s : Strm; closeSent : bool; ev : env; tick : nat }.

Definition set_br (c : t) (r : rd) : t := Conn r (s c) (closeSent c) (ev c) (tick c).
Definition set_s (c : t) (s' : Strm) : t := Conn (br c) s' (closeSent c) (ev c) (tick c).
Definition next (c : t) : t := Conn (br c) (s c) (closeSent c) (ev c) (S (tick c)).
Definition ctx_Err (c : t) : option gerror * t := (ctxErr (ev c) (tick c), next c).
Definition rand_Read (c : t) : res bytes * t := (randKey (ev c) (tick c), next c).

(** The loop [for len(remaining) > 0] around [s.Write]; every round but the last
    drops at least one byte, so [len(frame)] rounds suffice. *)
Fixpoint writeLoop (fuel : nat) (remaining : bytes) (st : Strm) : res unit * Strm :=
  match remaining with
  | [] => (Ok tt, st)
  | _ :: _ =>
      match fuel with
      | O => (Panic "out of fuel", st)
      | S k =>
          match rwc_write remaining st with
          | (_, Some err, st) => (Err err, st)
          | (n, None, st) =>
              if n <=? 0 then (Err io_ErrShortWrite, st)
              else if zlen remaining <? n then (Panic "slice bounds out of range", st)
              else writeLoop k (drop (Z.to_nat n) remaining) st
          end
      end
  end.

(** [(c *framedWSConn) writeRaw(frame []byte) error]. *)
Definition writeRaw (frame : bytes) (c : t) : res unit * t :=
  if closeSent c then (Err io_EOF, c)
  else let '(r, st) := writeLoop (length frame) frame (s c) in (r, set_s c st).

(** [(c *framedWSConn) sendClose(payload []byte) error]. *)
Definition sendClose (payload : bytes) (c : t) : res unit * t :=
  let '(key, c) := rand_Read c in
  match buildFrame key WSMessageClose payload true with
  | Ok frame =>
      if closeSent c then (Ok tt, c)
      else
        let c := Conn (br c) (s c) true (ev c) (tick c) in
        let '(r, st) := writeLoop (length frame) frame (s c) in (r, set_s c st)
  | Err e => (Err e, c)
  | Panic w => (Panic w, c)
  end.

(** [(c *framedWSConn) Write(ctx, typ, data) error]. *)
Definition Write (typ : Z) (data : bytes) (c : t) : res unit * t :=
  let '(err, c) := ctx_Err c in
  match err with
  | Some e => (Err e, c)
  | None =>
      let '(key, c) := rand_Read c in
      match buildFrame key typ data true with
      | Ok frame => writeRaw frame c
      | Err e => (Err e, c)
      | Panic w => (Panic w, c)
      end
  end.

(** [_ = op(c)]: the error is dropped, a panic still unwinds the caller. *)
Definition ignoreErr {A} (op : res unit * t) (k : t -> res A * t) : res A * t :=
  match op with
  | (Panic w, c) => (Panic w, c)
  | (_, c) => k c
  end.

(** [_ = c.s.Close()]. *)
Definition closeStream (c : t) : t := set_s c (snd (rwc_close (s c))).

(** [(c *framedWSConn) readFragmentedMessage(ctx, firstType, firstPayload, false)]
    past its first line, with [buf] the payload gathered so far. A frame takes at
    least two bytes, so the length of the input bounds the rounds. *)
Fixpoint readFragments (fuel : nat) (firstType : Z) (buf : bytes) (c : t) : res (Z * bytes) * t :=
  match fuel with
  | O => (Panic "out of fuel", c)
  | S k =>
      let '(err, c) := ctx_Err c in
      match err with
      | Some e => (Err e, c)
      | None =>
          match readFrame false (br c) with
          | (Err e, r) => (Err e, set_br c r)
          | (Panic w, r) => (Panic w, set_br c r)
          | (Ok (op2, p2, fin2), r) =>
              let c := set_br c r in
              if op2 =? WSMessagePing then
                ignoreErr (Write WSMessagePong p2 c) (readFragments k firstType buf)
              else if op2 =? WSMessagePong then readFragments k firstType buf c
              else if op2 =? WSMessageClose then
                ignoreErr (sendClose p2 c) (fun c => (Err io_EOF, closeStream c))
              else if op2 =? WSMessageContinuation then
                if fin2 then (Ok (firstType, buf ++ p2), c)
                else readFragments k firstType (buf ++ p2) c
              else (Err (errMsg ("websocket protocol error: expected continuation, got opcode=" +:+ pretty op2)), c)
          end
      end
  end.

(** [readFragmentedMessage(ctx, firstType, firstPayload, firstFIN)]. *)
Definition readFragmentedMessage (fuel : nat) (firstType : Z) (firstPayload : bytes) (firstFIN : bool) (c : t)
  : res (Z * bytes) * t :=
  if firstFIN then (Ok (firstType, firstPayload), c)
  else readFragments fuel firstType firstPayload c.

(** The loop of [(c *framedWSConn) Read(ctx)]. *)
Fixpoint readLoop (fuel : nat) (c : t) : res (Z * bytes) * t :=
  match fuel with
  | O => (Panic "out of fuel", c)
  | S k =>
      let '(err, c) := ctx_Err c in
      match err with
      | Some e => (Err e, c)
      | None =>
          match readFrame false (br c) with
          | (Err e, r) => (Err e, set_br c r)
          | (Panic w, r) => (Panic w, set_br c r)
          | (Ok (typ, payload, fin), r) =>
              let c := set_br c r in
              if typ =? WSMessagePing then ignoreErr (Write WSMessagePong payload c) (readLoop k)
              else if typ =? WSMessagePong then readLoop k c
              else if typ =? WSMessageClose then
                ignoreErr (sendClose payload c) (fun c => (Err io_EOF, closeStream c))
              else if typ =? WSMessageContinuation then
                (Err (errMsg "websocket protocol error: unexpected continuation frame"), c)
              else if (typ =? WSMessageText) || (typ =? WSMessageBinary) then
                if fin then (Ok (typ, payload), c)
                else readFragmentedMessage k typ payload fin c
              else (Err (errMsg ("websocket protocol error: reserved opcode=" +:+ pretty typ)), c)
          end
      end
  end.

(** [(c *framedWSConn) Read(ctx) (WSMessageType, []byte, error)]. *)
Definition Read (c : t) : res (Z * bytes) * t := readLoop (S (length (rd_buf (br c)))) c.

(** [(c *framedWSConn) Close(code, reason) error]; the stream itself is closed by a
    timer 150 ms later, which is not part of this call. *)
Definition Close (code : Z) (reason : string) (c : t) : res unit * t :=
  let payload := if negb (code =? 0) then be_bytes 2 (u16 code) ++ str2b reason else [] in
  ignoreErr (sendClose payload c) (fun c => (Ok tt, c)).

(** [newFramedWSConn(s)]. *)
Definition newFramedWSConn (input : rd) (st : Strm) (e : env) : t := Conn input st false e 0.
End Framed.
Arguments t Strm : clear implicits.
End Framed.

#[export] Instance framedWSConn {Strm : Type} `{!RWCloser Strm} : WSConn (Framed.t Strm) := {
  ws_read := Framed.Read; ws_write := Framed.Write; ws_close := Framed.Close }.

(** ** [coderConn]: the adapter over coder/websocket *)

(** [*websocket.Conn] of github.com/coder/websocket: its message types are 1 (text)
    and 2 (binary). *)
Class CoderLib (X : Type) := {
  lib_read : X -> res (Z * bytes) * X;
  lib_write : Z -> bytes -> X -> res unit * X;
  lib_close : Z -> string -> X -> res unit * X }.

Module Coder.
Section Coder.
Context {X : Type} `{!CoderLib X}.
Definition MessageText : Z := 1.
Definition MessageBinary : Z := 2.

Record coderConn := { c : X }.

(** [(c *coderConn) Read(ctx)]. *)
Definition Read (cc : coderConn) : res (Z * bytes) * coderConn :=
  let '(r, x) := lib_read (c cc) in
  (match r with
   | Ok (mt, data) =>
       if mt =? MessageText then Ok (WSMessageText, data)
       else if mt =? MessageBinary then Ok (WSMessageBinary, data)
       else Ok (WSMessageBinary, data)
   | Err e => Err e
   | Panic w => Panic w
   end, {| c := x |}).

(** [(c *coderConn) Write(ctx, typ, data)]. *)
Definition Write (typ : Z) (data : bytes) (cc : coderConn) : res unit * coderConn :=
  let mt := if typ =? WSMessageText then MessageText else MessageBinary in
  let '(r, x) := lib_write mt data (c cc) in (r, {| c := x |}).

(** [(c *coderConn) Close(code, reason)]. *)
Definition Close (code : Z) (reason : string) (cc : coderConn) : res unit * coderConn :=
  let '(r, x) := lib_close code reason (c cc) in (r, {| c := x |}).
End Coder.
Arguments coderConn X : clear implicits.
End Coder.

#[export] Instance coderWSConn {X : Type} `{!CoderLib X} : WSConn (Coder.coderConn X) := {
  ws_read := Coder.Read; ws_write := Coder.Write; ws_close := Coder.Close }.

(** ** What clients may rely on *)

(** Reading a connection yields data messages only: control frames are handled
    below the interface. *)
Class DataOnly (C : Type) `{!WSConn C} : Prop := {
  data_only : forall c typ data c',
    ws_read c = (Ok (typ, data), c') -> typ = WSMessageText \/ typ = WSMessageBinary }.

(** The [io.Writer] contract: no more bytes are reported than were offered. *)
Class WriterOk (Strm : Type) `{!RWCloser Strm} : Prop := {
  writer_bound : forall p st n st', rwc_write p st = (n, None, st') -> n <= zlen p }.

Module FramedFacts.
Import Framed.
Section Facts.
Context {Strm : Type} `{!RWCloser Strm}.
Implicit Types c : Framed.t Strm.

(** Writing touches the stream and the clock, never the input. *)
Definition sameInput c c' : Prop := br c' = br c /\ ev c' = ev c.

Lemma Write_sameInput typ d c : sameInput c (snd (Write typ d c)).
Proof.
  unfold Write, writeRaw, sameInput. simpl. repeat case_match; simplify_eq; simpl; auto;
    destruct (writeLoop _ _ _); auto.
Qed.

Lemma sendClose_sameInput p c : sameInput c (snd (sendClose p c)).
Proof.
  unfold sendClose, sameInput. simpl. repeat case_match; simplify_eq; simpl; auto.
Qed.

(** *** Totality *)

Lemma writeLoop_total `{!WriterOk Strm} fuel p st w :
  (length p <= fuel)%nat -> fst (writeLoop fuel p st) <> Panic w.
Proof.
  revert p st. induction fuel as [|fuel IH]; intros [|b p] st Hl; simpl in Hl; try lia; try done.
  cbn [writeLoop]. destruct (rwc_write (b :: p) st) as [[n [e|]] st'] eqn:E; [done|].
  case_match eqn:E1; [done|]. case_match eqn:E2.
  - apply writer_bound in E. zbool. lia.
  - apply IH. zbool. rewrite length_drop. simpl length. lia.
Qed.

Lemma buildFrame_no_panic key typ p m w :
  (forall w', key <> Panic w') -> buildFrame key typ p m <> Panic w.
Proof. intros H. unfold buildFrame. destruct m; [|done]. destruct key as [k|e|w']; try done. Qed.

Section Total.
Context `{!WriterOk Strm}.

(** [rand.Read] returns or fails; it does not panic. *)
Definition randOk c : Prop := forall n w, randKey (ev c) n <> Panic w.

Lemma Write_no_panic typ d c w : randOk c -> fst (Write typ d c) <> Panic w.
Proof.
  intros Hr. unfold Write, ctx_Err, rand_Read. destruct (ctxErr _ _); [done|]. simpl.
  pose proof (fun w => buildFrame_no_panic (randKey (ev c) (S (tick c))) typ d true w (Hr _)) as Hb.
  destruct (buildFrame _ _ _ _) as [f|e|w'] eqn:E; simpl; [|done|by destruct (Hb w')].
  unfold writeRaw. case_match; [done|].
  pose proof (writeLoop_total (length f) f (s c) w ltac:(lia)) as H1.
  simpl. by destruct (writeLoop _ f _).
Qed.

Lemma sendClose_no_panic p c w : randOk c -> fst (sendClose p c) <> Panic w.
Proof.
  intros Hr. unfold sendClose, rand_Read. simpl.
  pose proof (fun w => buildFrame_no_panic (randKey (ev c) (tick c)) WSMessageClose p true w (Hr _)) as Hb.
  destruct (buildFrame _ _ _ _) as [f|e|w'] eqn:E; simpl; [|done|by destruct (Hb w')].
  case_match; [done|]. pose proof (writeLoop_total (length f) f (s c) w ltac:(lia)) as H1.
  by destruct (writeLoop _ f _).
Qed.

Lemma ignoreErr_no_panic {A} (op : res unit * Framed.t Strm) (k : Framed.t Strm -> res A * Framed.t Strm) w :
  (forall w', fst op <> Panic w') -> fst (k (snd op)) <> Panic w -> fst (ignoreErr op k) <> Panic w.
Proof. destruct op as [[?|?|w'] c]; simpl; auto. intros H. by destruct (H w'). Qed.

Lemma readFragments_no_panic fuel ft buf c w :
  randOk c -> (length (rd_buf (br c)) < fuel)%nat -> fst (readFragments fuel ft buf c) <> Panic w.
Proof.
  revert buf c. induction fuel as [|fuel IH]; intros buf c Hr Hl; [lia|].
  cbn [readFragments]. unfold ctx_Err. destruct (ctxErr _ _); [done|].
  change (br (next c)) with (br c).
  destruct (readFrame false (br c)) as [[[[op p] fin]|e|w'] r] eqn:E;
    [|done|by apply nopanic_readFrame in E].
  apply consumes_readFrame in E.
  case_match; [apply ignoreErr_no_panic; [by intros; apply Write_no_panic|]|].
  { destruct (Write_sameInput WSMessagePong p (set_br (next c) r)) as [Hb He].
    apply IH; [|rewrite Hb; simpl; lia]. unfold randOk. by rewrite He. }
  case_match; [apply IH; simpl; [done|lia]|].
  case_match; [apply ignoreErr_no_panic; [by intros; apply sendClose_no_panic|done]|].
  repeat case_match; try done. apply IH; simpl; [done|lia].
Qed.

Lemma readLoop_no_panic fuel c w :
  randOk c -> (length (rd_buf (br c)) < fuel)%nat -> fst (readLoop fuel c) <> Panic w.
Proof.
  revert c. induction fuel as [|fuel IH]; intros c Hr Hl; [lia|].
  cbn [readLoop]. unfold ctx_Err. destruct (ctxErr _ _); [done|].
  change (br (next c)) with (br c).
  destruct (readFrame false (br c)) as [[[[op p] fin]|e|w'] r] eqn:E;
    [|done|by apply nopanic_readFrame in E].
  apply consumes_readFrame in E.
  case_match; [apply ignoreErr_no_panic; [by intros; apply Write_no_panic|]|].
  { destruct (Write_sameInput WSMessagePong p (set_br (next c) r)) as [Hb He].
    apply IH; [|rewrite Hb; simpl; lia]. unfold randOk. by rewrite He. }
  case_match; [apply IH; simpl; [done|lia]|].
  case_match; [apply ignoreErr_no_panic; [by intros; apply sendClose_no_panic|done]|].
  case_match; [done|]. case_match; [|done]. destruct fin; [done|].
  apply readFragments_no_panic; simpl; [done|lia].
Qed.
End Total.

(** *** Data messages only *)

Lemma ignoreErr_Ok {A} (op : res unit * Framed.t Strm) (k : Framed.t Strm -> res A * Framed.t Strm) a c' :
  ignoreErr op k = (Ok a, c') -> k (snd op) = (Ok a, c').
Proof. by destruct op as [[?|?|?] ?]. Qed.

Lemma readFragments_type fuel ft buf c typ d c' :
  readFragments fuel ft buf c = (Ok (typ, d), c') -> typ = ft.
Proof.
  revert buf c. induction fuel as [|fuel IH]; intros buf c; [done|].
  cbn [readFragments]. unfold ctx_Err. destruct (ctxErr _ _); [done|].
  destruct (readFrame _ _) as [[[[op p] fin]|e|w] r]; [|done|done].
  case_match; [intros E%ignoreErr_Ok; by apply IH in E|].
  case_match; [intros E; by apply IH in E|].
  case_match; [intros E%ignoreErr_Ok; done|].
  case_match; [|done]. case_match; [congruence|]. intros E; by apply IH in E.
Qed.

Lemma readLoop_type fuel c typ d c' :
  readLoop fuel c = (Ok (typ, d), c') -> typ = WSMessageText \/ typ = WSMessageBinary.
Proof.
  revert c. induction fuel as [|fuel IH]; intros c; [done|].
  cbn [readLoop]. unfold ctx_Err. destruct (ctxErr _ _); [done|].
  destruct (readFrame _ _) as [[[[op p] fin]|e|w] r]; [|done|done].
  case_match; [intros E%ignoreErr_Ok; by apply IH in E|].
  case_match; [intros E; by apply IH in E|].
  case_match; [intros E%ignoreErr_Ok; done|].
  case_match; [done|]. case_match eqn:Ht; [|done].
  assert (op = WSMessageText \/ op = WSMessageBinary) by (apply orb_true_iff in Ht as [?|?]; zbool; auto).
  destruct fin; [by intros [= <- <- <-]|]. intros E%readFragments_type. by subst.
Qed.

(** *** Fragmented messages *)

(** What may come between the fragments of a message. *)
Inductive midFrame := MidPing (p : bytes) | MidPong (p : bytes) | MidFragment (p : bytes).

Definition midBytes (m : midFrame) : bytes :=
  match m with
  | MidPing p => srvFrame true WSMessagePing p
  | MidPong p => srvFrame true WSMessagePong p
  | MidFragment p => srvFrame false WSMessageContinuation p
  end.
Definition midPayload (m : midFrame) : bytes := match m with MidFragment p => p | _ => [] end.
Definition midFits (m : midFrame) : Prop :=
  match m with MidPing p | MidPong p | MidFragment p => zlen p <= wsMaxPayload end.

(** A context that is never cancelled, and a random source that works. *)
Definition quietEnv (e : env) : Prop :=
  (forall n, ctxErr e n = None) /\ (forall n w, randKey e n <> Panic w).

Lemma readFragments_spec `{!WriterOk Strm} mids fuel ft buf final rest e c :
  (length mids < fuel)%nat -> Forall midFits mids -> zlen final <= wsMaxPayload ->
  quietEnv (ev c) ->
  br c = Rd (concat (map midBytes mids) ++ srvFrame true WSMessageContinuation final ++ rest) e ->
  exists c', readFragments fuel ft buf c = (Ok (ft, buf ++ concat (map midPayload mids) ++ final), c')
    /\ br c' = Rd rest e.
Proof.
  revert mids buf c. induction fuel as [|fuel IH]; intros mids buf c Hl Hm Hf Hq Hbr; [lia|].
  cbn [readFragments]. unfold ctx_Err. rewrite (proj1 Hq). change (br (next c)) with (br c). rewrite Hbr.
  destruct mids as [|m mids].
  - cbn [map concat app]. rewrite readFrame_srvFrame by (done || vm_compute; split; congruence).
    eexists. split; [reflexivity|done].
  - apply Forall_cons in Hm as [Hm1 Hm]. cbn [map concat]. rewrite <- app_assoc.
    destruct m as [p|p|p]; cbn [midBytes midPayload app] in *;
      rewrite readFrame_srvFrame by (done || vm_compute; split; congruence);
      cbv zeta; match goal with |- context [set_br _ ?r] => set (c1 := set_br (next c) r) end.
    + change (WSMessagePing =? WSMessagePing) with true. cbv iota.
      destruct (Write WSMessagePong p c1) as [o c2] eqn:Ew.
      pose proof (Write_no_panic WSMessagePong p c1) as Hnp.
      destruct (Write_sameInput WSMessagePong p c1) as [Hb He]. rewrite Ew in *. cbn [fst snd] in *.
      assert (Hi : forall k : Framed.t Strm -> res (Z * bytes) * Framed.t Strm, ignoreErr (o, c2) k = k c2).
      { intros k. destruct o as [u|er|w]; [done|done|]. exfalso. by apply (Hnp w (proj2 Hq)). }
      rewrite Hi. apply IH; auto; [simpl in *; lia|by rewrite He].
    + change (WSMessagePong =? WSMessagePing) with false.
      change (WSMessagePong =? WSMessagePong) with true. cbv iota. apply IH; auto. simpl in *; lia.
    + change (WSMessageContinuation =? WSMessagePing) with false.
      change (WSMessageContinuation =? WSMessagePong) with false.
      change (WSMessageContinuation =? WSMessageClose) with false.
      change (WSMessageContinuation =? WSMessageContinuation) with true. cbv iota.
      destruct (IH mids (buf ++ p) c1) as (c' & E & Hc'); auto; [simpl in *; lia|].
      exists c'. rewrite E. by rewrite <- !app_assoc.
Qed.

Definition isControl (m : midFrame) : Prop := match m with MidFragment _ => False | _ => True end.

Lemma readLoop_controls `{!WriterOk Strm} pre fuel rest e c :
  (length pre <= fuel)%nat -> Forall midFits pre -> Forall isControl pre -> quietEnv (ev c) ->
  br c = Rd (concat (map midBytes pre) ++ rest) e ->
  exists c', readLoop fuel c = readLoop (fuel - length pre) c' /\ br c' = Rd rest e /\ ev c' = ev c.
Proof.
  revert fuel c. induction pre as [|m pre IH]; intros fuel c Hl Hm Hc Hq Hbr.
  { exists c. simpl. by rewrite Nat.sub_0_r. }
  apply Forall_cons in Hm as [Hm1 Hm]. apply Forall_cons in Hc as [Hc1 Hc].
  destruct fuel as [|fuel]; [simpl in Hl; lia|]. cbn [readLoop length Nat.sub].
  unfold ctx_Err. rewrite (proj1 Hq). change (br (next c)) with (br c). rewrite Hbr.
  cbn [map concat]. rewrite <- app_assoc.
  destruct m as [p|p|p]; [| |done]; cbn [midBytes] in *;
    rewrite readFrame_srvFrame by (done || vm_compute; split; congruence);
    cbv zeta; match goal with |- context [set_br _ ?r] => set (c1 := set_br (next c) r) end.
  - change (WSMessagePing =? WSMessagePing) with true. cbv iota.
    destruct (Write WSMessagePong p c1) as [o c2] eqn:Ew.
    pose proof (Write_no_panic WSMessagePong p c1) as Hnp.
    destruct (Write_sameInput WSMessagePong p c1) as [Hb He]. rewrite Ew in *. cbn [fst snd] in *.
    assert (Hi : ignoreErr (o, c2) (readLoop fuel) = readLoop fuel c2).
    { destruct o as [u|er|w]; [done|done|]. exfalso. by apply (Hnp w (proj2 Hq)). }
    rewrite Hi. destruct (IH fuel c2) as (c' & E & Hb' & He'); auto; [simpl in *; lia|by rewrite He|].
    exists c'. rewrite He', He. auto.
  - change (WSMessagePong =? WSMessagePing) with false.
    change (WSMessagePong =? WSMessagePong) with true. cbv iota.
    destruct (IH fuel c1) as (c' & E & Hb' & He'); auto; [simpl in *; lia|]. exists c'. by rewrite He'.
Qed.

Lemma length_midBytes l : (2 * length l <= length (concat (map midBytes l)))%nat.
Proof. induction l as [|m l IH]; simpl; [lia|]. rewrite length_app. destruct m; simpl; lia. Qed.

Lemma Read_fragmented `{!WriterOk Strm} pre typ first mids final rest e c :
  typ = WSMessageText \/ typ = WSMessageBinary ->
  Forall midFits pre -> Forall isControl pre -> Forall midFits mids ->
  zlen first <= wsMaxPayload -> zlen final <= wsMaxPayload -> quietEnv (ev c) ->
  br c = Rd (concat (map midBytes pre) ++ srvFrame false typ first ++ concat (map midBytes mids)
             ++ srvFrame true WSMessageContinuation final ++ rest) e ->
  exists c', Read c = (Ok (typ, first ++ concat (map midPayload mids) ++ final), c') /\ br c' = Rd rest e.
Proof.
  intros Ht Hp Hc Hm Hf1 Hf2 Hq Hbr. unfold Read.
  pose proof (length_midBytes pre) as L1. pose proof (length_midBytes mids) as L2.
  set (N := S (length (rd_buf (br c)))).
  assert (HN : (length pre + length mids + 3 <= N)%nat).
  { unfold N. rewrite Hbr. cbn [rd_buf]. rewrite !length_app. simpl. lia. }
  destruct (readLoop_controls pre N _ e c ltac:(lia) Hp Hc Hq Hbr) as (c1 & -> & Hb1 & He1).
  destruct (N - length pre)%nat as [|k] eqn:Ek; [lia|].
  cbn [readLoop]. unfold ctx_Err. rewrite He1, (proj1 Hq). change (br (next c1)) with (br c1). rewrite Hb1.
  rewrite readFrame_srvFrame by (auto; destruct Ht as [-> | ->]; vm_compute; split; congruence).
  cbv zeta. match goal with |- context [set_br _ ?r] => set (c2 := set_br (next c1) r) end.
  assert (Hgo : exists c', readFragments k typ first c2
     = (Ok (typ, first ++ concat (map midPayload mids) ++ final), c') /\ br c' = Rd rest e).
  { apply readFragments_spec; auto; [lia|]. unfold c2. simpl. by rewrite He1. }
  destruct Ht as [-> | ->]; exact Hgo.
Qed.

(** *** Nothing is written after a close frame *)

Section CloseGate.
(** The bytes a stream has accepted; closing the stream does not change them. *)
Context (written : Strm -> bytes) (Hclose : forall st, written (snd (rwc_close st)) = written st).

Inductive op := OpWrite (typ : Z) (data : bytes) | OpRead | OpClose (code : Z) (reason : string).
Definition runOp c (o : op) : Framed.t Strm :=
  match o with
  | OpWrite typ data => snd (Write typ data c)
  | OpRead => snd (Read c)
  | OpClose code reason => snd (Close code reason c)
  end.

Definition gated c c' : Prop :=
  closeSent c = true -> closeSent c' = true /\ written (s c') = written (s c).

#[local] Instance gated_preorder : PreOrder gated.
Proof.
  split; [by intros c|]. intros a b d H1 H2 Ha. destruct (H1 Ha) as [Hb E1], (H2 Hb) as [Hd E2].
  split; congruence.
Qed.

Lemma gated_set_br c r : gated c (set_br c r).
Proof. done. Qed.
Lemma gated_next c : gated c (next c).
Proof. done. Qed.
Lemma gated_closeStream c : gated c (closeStream c).
Proof. intros H. split; [done|]. apply Hclose. Qed.

Lemma Write_gated typ d c : gated c (snd (Write typ d c)).
Proof.
  intros H. unfold Write, ctx_Err, rand_Read, writeRaw. simpl.
  destruct (ctxErr _ _); [done|]. simpl. destruct (buildFrame _ _ _ _); simpl; [|done|done].
  by rewrite H.
Qed.

Lemma sendClose_gated p c : gated c (snd (sendClose p c)).
Proof.
  intros H. unfold sendClose, rand_Read. simpl. destruct (buildFrame _ _ _ _); simpl; [|done|done].
  by rewrite H.
Qed.

Lemma ignoreErr_gated {A} c (o : res unit * Framed.t Strm) (k : Framed.t Strm -> res A * Framed.t Strm) :
  gated c (snd o) -> (forall d, gated d (snd (k d))) -> gated c (snd (ignoreErr o k)).
Proof. intros H1 H2. destruct o as [[?|?|?] d]; simpl in *; try done; (etransitivity; [exact H1|apply H2]). Qed.

Lemma readFragments_gated fuel ft buf c : gated c (snd (readFragments fuel ft buf c)).
Proof.
  revert buf c. induction fuel as [|fuel IH]; intros buf c; [by intros H|].
  cbn [readFragments]. unfold ctx_Err. destruct (ctxErr _ _); [done|].
  destruct (readFrame _ _) as [[[[o p] fin]|e|w] r]; [|done|done]. cbv zeta.
  assert (Hc : gated c (set_br (next c) r)) by done. etransitivity; [exact Hc|].
  repeat case_match; try reflexivity; try apply IH; apply ignoreErr_gated;
    auto using Write_gated, sendClose_gated, gated_closeStream.
Qed.

Lemma readLoop_gated fuel c : gated c (snd (readLoop fuel c)).
Proof.
  revert c. induction fuel as [|fuel IH]; intros c; [by intros H|].
  cbn [readLoop]. unfold ctx_Err. destruct (ctxErr _ _); [done|].
  destruct (readFrame _ _) as [[[[o p] fin]|e|w] r]; [|done|done]. cbv zeta.
  assert (Hc : gated c (set_br (next c) r)) by done. etransitivity; [exact Hc|].
  unfold readFragmentedMessage. repeat case_match; try reflexivity; try apply IH;
    try apply readFragments_gated; apply ignoreErr_gated;
    auto using Write_gated, sendClose_gated, gated_closeStream.
Qed.

Lemma runOp_gated c o : gated c (runOp c o).
Proof.
  destruct o; simpl; [apply Write_gated|apply readLoop_gated|].
  unfold Close. apply ignoreErr_gated; [apply sendClose_gated|reflexivity].
Qed.

Lemma runOps_gated c os : gated c (fold_left runOp os c).
Proof. revert c. induction os as [|o os IH]; intros c; simpl; [reflexivity|]. by rewrite (runOp_gated c o) at 1. Qed.
End CloseGate.

(** *** Short writes *)

Section WriteLog.
(** A writer that accepts the first [n] bytes it is offered when it reports [n]. *)
Context (written : Strm -> bytes)
  (Hlog : forall p st n err st', rwc_write p st = (n, err, st') ->
     0 <= n <= zlen p /\ written st' = written st ++ take (Z.to_nat n) p).

Lemma writeLoop_log fuel p st r st' :
  writeLoop fuel p st = (r, st') -> (length p <= fuel)%nat ->
  exists sent, written st' = written st ++ sent /\ sent `prefix_of` p
    /\ (r = Ok tt -> sent = p) /\ (forall w, r <> Panic w).
Proof.
  revert p st. induction fuel as [|fuel IH]; intros [|b p] st E Hl; simpl in Hl; try lia.
  1,2: simpl in E; simplify_eq; exists []; rewrite app_nil_r; repeat split; auto using prefix_nil; done.
  cbn [writeLoop] in E. destruct (rwc_write (b :: p) st) as [[n [err|]] st1] eqn:Ew.
  - simplify_eq. destruct (Hlog _ _ _ _ _ Ew) as [Hn Hw]. eexists. split; [exact Hw|].
    split; [apply prefix_take|]. split; [done|congruence].
  - destruct (Hlog _ _ _ _ _ Ew) as [Hn Hw].
    destruct (Z.leb_spec n 0) as [Hz|Hz].
    + simplify_eq. eexists. split; [exact Hw|]. split; [apply prefix_take|]. split; [done|congruence].
    + rewrite (proj2 (Z.ltb_ge _ _)) in E by lia.
      destruct (IH _ _ E) as (sent & E1 & (tl & E2) & E3 & E4).
      { rewrite length_drop. simpl length. lia. }
      exists (take (Z.to_nat n) (b :: p) ++ sent). rewrite E1, Hw, <- app_assoc. split; [done|].
      assert (Hs : take (Z.to_nat n) (b :: p) ++ drop (Z.to_nat n) (b :: p) = b :: p) by apply take_drop.
      split; [exists tl; by rewrite <- app_assoc, <- E2, Hs|]. split; [|done].
      intros ->. by rewrite E3, Hs.
Qed.

Lemma sendClose_log p c key :
  closeSent c = false -> randKey (ev c) (tick c) = Ok key ->
  exists frame sent, buildFrame (Ok key) WSMessageClose p true = Ok frame
    /\ written (s (snd (sendClose p c))) = written (s c) ++ sent /\ sent `prefix_of` frame
    /\ (fst (sendClose p c) = Ok tt -> sent = frame) /\ closeSent (snd (sendClose p c)) = true.
Proof.
  intros Hc Hk. unfold sendClose, rand_Read. rewrite Hk, buildFrame_eq.
  set (frame := _ :: _). clearbody frame. change (closeSent (next c)) with (closeSent c).
  rewrite Hc. cbv zeta iota. change (s (Conn _ _ _ _ _)) with (s c).
  destruct (writeLoop (length frame) frame (s c)) as [r st'] eqn:E.
  destruct (writeLoop_log _ _ _ _ _ E ltac:(lia)) as (sent & E1 & E2 & E3 & _).
  exists frame, sent. repeat split; auto.
Qed.
End WriteLog.

Lemma Close_snd code reason c :
  0 < code < 2 ^ 16 ->
  snd (Close code reason c) = snd (sendClose (be_bytes 2 code ++ str2b reason) c).
Proof.
  intros H. unfold Close, u16. rewrite (proj2 (Z.eqb_neq code 0)), (Z.mod_small code) by lia.
  by destruct (sendClose _ c) as [[?|?|?] ?].
Qed.
End Facts.
End FramedFacts.

(** ** Concrete connections *)

(** A stream in memory that takes at most [chunk] bytes per write. *)
Record memStream := { mem_written : bytes; mem_chunk : Z; mem_closed : bool }.

#[export] Instance memStream_rwc : RWCloser memStream := {
  rwc_write p st :=
    let n := Z.min (Z.max 0 (mem_chunk st)) (zlen p) in
    (n, None, {| mem_written := mem_written st ++ take (Z.to_nat n) p;
                 mem_chunk := mem_chunk st; mem_closed := mem_closed st |});
  rwc_close st :=
    (None, {| mem_written := mem_written st; mem_chunk := mem_chunk st; mem_closed := true |}) }.

Lemma memStream_log p st n err st' :
  rwc_write p st = (n, err, st') ->
  0 <= n <= zlen p /\ mem_written st' = mem_written st ++ take (Z.to_nat n) p.
Proof. intros [= <- _ <-]. pose proof (zlen_nonneg p). split; [lia|done]. Qed.

#[export] Instance memStream_ok : WriterOk memStream.
Proof. constructor. intros p st n st' E. apply memStream_log in E as [? _]. lia. Qed.

#[export] Instance framed_data_only {Strm : Type} `{!RWCloser Strm} : DataOnly (Framed.t Strm).
Proof. constructor. intros c typ d c' E. exact (FramedFacts.readLoop_type _ _ _ _ _ E). Qed.

#[export] Instance coder_data_only {X : Type} `{!CoderLib X} : DataOnly (Coder.coderConn X).
Proof.
  constructor. intros cc typ d cc' E. simpl in E. unfold Coder.Read in E.
  destruct (lib_read (Coder.c cc)) as [[[mt dt]|e|w] x]; [|done|done].
  destruct (mt =? Coder.MessageText), (mt =? Coder.MessageBinary); simplify_eq; auto.
Qed.

(** An environment with one mask key and no cancellation, for the examples. *)
Definition demoEnv : env :=
  {| ctxErr := fun _ => None; randKey := fun _ => Ok [Byte.x01; Byte.x02; Byte.x03; Byte.x04] |}.
Definition demoConn (input : bytes) : Framed.t memStream :=
  Framed.newFramedWSConn (Rd input io_EOF)
    {| mem_written := []; mem_chunk := 5; mem_closed := false |} demoEnv.

Lemma demo_quiet input : FramedFacts.quietEnv (Framed.ev (demoConn input)).
Proof. split; intros; [done|discriminate]. Qed.

(** ** Properties *)

(** [Read] always returns: on any input it yields a text or binary message
    or an error, never loops for ever and never panics, whatever the stream does
    within the [io.Writer] contract. *)
Theorem framed_read_total {Strm : Type} `{!RWCloser Strm} `{!WriterOk Strm} (c : Framed.t Strm)
    (Hrand : FramedFacts.randOk c) :
  (exists typ data, fst (Framed.Read c) = Ok (typ, data)
     /\ (typ = WSMessageText \/ typ = WSMessageBinary))
  \/ (exists e, fst (Framed.Read c) = Err e).
Proof.
  pose proof (fun w => FramedFacts.readLoop_no_panic _ c w Hrand (Nat.lt_succ_diag_r _)) as Hp.
  fold (Framed.Read c) in Hp. destruct (Framed.Read c) as [[[typ d]|e|w] c'] eqn:E; simpl.
  - left. exists typ, d. split; [done|]. exact (FramedFacts.readLoop_type _ _ _ _ _ E).
  - right. eauto.
  - exfalso. by apply (Hp w).
Qed.

Lemma framed_read_total_witness :
  let c := demoConn (srvFrame true WSMessageBinary [Byte.x68]) in
  (exists typ data, fst (Framed.Read c) = Ok (typ, data)
     /\ (typ = WSMessageText \/ typ = WSMessageBinary)) \/ (exists e, fst (Framed.Read c) = Err e).
Proof. apply framed_read_total. intros n w. discriminate. Defined.

(** A message the server splits into fragments, with pings and pongs before
    and between them, is delivered by one [Read] as the concatenation of its
    fragments, with the type of its first frame, and reading stops right after it. *)
Theorem framed_read_reassembles {Strm : Type} `{!RWCloser Strm} `{!WriterOk Strm}
    (pre mids : list FramedFacts.midFrame) (typ : Z) (first final rest : bytes) (e : gerror) (c : Framed.t Strm)
    (Htyp : typ = WSMessageText \/ typ = WSMessageBinary)
    (Hpre : Forall FramedFacts.midFits pre) (Hctl : Forall FramedFacts.isControl pre)
    (Hmids : Forall FramedFacts.midFits mids)
    (Hfirst : zlen first <= wsMaxPayload) (Hfinal : zlen final <= wsMaxPayload)
    (Henv : FramedFacts.quietEnv (Framed.ev c))
    (Hinput : Framed.br c = Rd (concat (map FramedFacts.midBytes pre) ++ srvFrame false typ first
       ++ concat (map FramedFacts.midBytes mids) ++ srvFrame true WSMessageContinuation final ++ rest) e) :
  exists c', Framed.Read c = (Ok (typ, first ++ concat (map FramedFacts.midPayload mids) ++ final), c')
    /\ Framed.br c' = Rd rest e.
Proof. by apply (FramedFacts.Read_fragmented pre typ first mids final rest e). Qed.

Lemma framed_read_reassembles_witness :
  let c := demoConn (srvFrame true WSMessagePing [Byte.x70] ++ srvFrame false WSMessageText [Byte.x61]
     ++ (srvFrame true WSMessagePong [] ++ srvFrame false WSMessageContinuation [Byte.x62])
     ++ srvFrame true WSMessageContinuation [Byte.x63] ++ [Byte.xff]) in
  exists c', Framed.Read c = (Ok (WSMessageText, [Byte.x61; Byte.x62; Byte.x63]), c')
    /\ Framed.br c' = Rd [Byte.xff] io_EOF.
Proof.
  apply (framed_read_reassembles [FramedFacts.MidPing [Byte.x70]]
    [FramedFacts.MidPong []; FramedFacts.MidFragment [Byte.x62]] WSMessageText [Byte.x61] [Byte.x63] [Byte.xff] io_EOF);
    try (repeat constructor; vm_compute; congruence); try (left; reflexivity); try apply demo_quiet;
    vm_compute; congruence.
Defined.

(** Closing sends one masked close frame carrying the code and the reason
    (short writes are continued, never repeated), marks the connection, and from then
    on no sequence of writes, reads and closes sends another byte. *)
Theorem framed_close_once {Strm : Type} `{!RWCloser Strm} (written : Strm -> bytes)
    (Hlog : forall p st n err st', rwc_write p st = (n, err, st') ->
       0 <= n <= zlen p /\ written st' = written st ++ take (Z.to_nat n) p)
    (Hclose : forall st, written (snd (rwc_close st)) = written st)
    (c : Framed.t Strm) (key : bytes) (code : Z) (reason : string) (ops : list FramedFacts.op)
    (Hopen : Framed.closeSent c = false) (Hkey : randKey (Framed.ev c) (Framed.tick c) = Ok key)
    (Hcode : 0 < code < 2 ^ 16) :
  let c1 := snd (Framed.Close code reason c) in
  exists frame sent,
    buildFrame (Ok key) WSMessageClose (be_bytes 2 code ++ str2b reason) true = Ok frame
    /\ sent `prefix_of` frame
    /\ written (Framed.s (fold_left FramedFacts.runOp ops c1)) = written (Framed.s c) ++ sent.
Proof.
  cbv zeta. rewrite FramedFacts.Close_snd by done.
  set (p := be_bytes 2 code ++ str2b reason).
  destruct (FramedFacts.sendClose_log written Hlog p c key Hopen Hkey) as (frame & sent & E1 & E2 & E3 & _ & E5).
  exists frame, sent. split; [done|]. split; [done|].
  destruct (FramedFacts.runOps_gated written Hclose _ ops E5) as [_ ->]. exact E2.
Qed.

Lemma framed_close_once_witness :
  let c1 := snd (Framed.Close 1000 "bye" (demoConn [])) in
  exists frame sent,
    buildFrame (Ok [Byte.x01; Byte.x02; Byte.x03; Byte.x04]) WSMessageClose (be_bytes 2 1000 ++ str2b "bye") true
      = Ok frame
    /\ sent `prefix_of` frame
    /\ mem_written (Framed.s (fold_left FramedFacts.runOp
          [FramedFacts.OpWrite WSMessageBinary [Byte.x78]; FramedFacts.OpClose 1000 "again"] c1)) = [] ++ sent.
Proof.
  apply (framed_close_once mem_written memStream_log (fun _ => eq_refl) (demoConn [])); [reflexivity|reflexivity|lia].
Defined.
