(* ===== verification/GoNum.v ===== *)
(** * Go's numbers and times

    64-bit integers with wrap-around, [float64] as IEEE 754 binary64
    (round to nearest even, the conversions of amd64), [time.Duration] and
    [time.Time]: what the balancer, the health checks and the configuration
    compute with. *)

From Stdlib Require Export Floats.SpecFloat.
From S2P Require Import Prelude.

(** ** 64-bit integers *)

Definition minInt64 : Z := - 2 ^ 63.
Definition maxInt64 : Z := 2 ^ 63 - 1.
Definition isI64 (z : Z) : Prop := minInt64 <= z <= maxInt64.

Lemma i64_range z : isI64 (i64 z).
Proof.
  unfold isI64, i64, minInt64, maxInt64.
  pose proof (Z.mod_pos_bound (z + 2 ^ 63) (2 ^ 64) ltac:(lia)). lia.
Qed.
Lemma i64_small z : isI64 z -> i64 z = z.
Proof. unfold isI64, i64, minInt64, maxInt64. intros. rewrite Z.mod_small; lia. Qed.
Lemma i64_idemp z : i64 (i64 z) = i64 z.
Proof. apply i64_small, i64_range. Qed.

#[export] Hint Resolve i64_range : gobytes.
#[export] Hint Rewrite i64_idemp : goz.

(** ** [float64] *)

Abbreviation float64 := spec_float.

Definition f64_add (x y : float64) : float64 := SFadd 53 1024 x y.
Definition f64_mul (x y : float64) : float64 := SFmul 53 1024 x y.
Definition f64_div (x y : float64) : float64 := SFdiv 53 1024 x y.
Definition f64_ltb (x y : float64) : bool := SFltb x y.
Definition f64_leb (x y : float64) : bool := SFleb x y.
Definition f64_eqb (x y : float64) : bool := SFeqb x y.

(** [float64(i)] of an integer. *)
Definition f64_of_int (z : Z) : float64 := binary_normalize 53 1024 z 0 false.

(** A decimal constant of the source, [num/den], rounded once to the nearest double. *)
Definition f64_const (num den : Z) : float64 := f64_div (f64_of_int num) (f64_of_int den).

(** The integer part of a finite value, [None] for an infinity or a NaN. *)
Definition f64_trunc (x : float64) : option Z :=
  match x with
  | S754_zero _ => Some 0
  | S754_finite sg m e =>
      let a := if 0 <=? e then Z.pos m * 2 ^ e else Z.pos m / 2 ^ (- e) in
      Some (if sg then - a else a)
  | _ => None
  end.

(** [int64(x)]: truncation; a value that does not fit gives [math.MinInt64], as
    the conversion instruction of amd64 does. *)
Definition f64_to_int64 (x : float64) : Z :=
  match f64_trunc x with
  | Some z => if (minInt64 <=? z) && (z <=? maxInt64) then z else minInt64
  | None => minInt64
  end.

Lemma f64_to_int64_range x : isI64 (f64_to_int64 x).
Proof.
  unfold f64_to_int64, isI64. destruct (f64_trunc x); [case_tests; zbool|]; unfold minInt64, maxInt64 in *; lia.
Qed.

(** Comparison is a lexicographic order on a key, NaN apart. *)
Definition f64_key (x : float64) : option (Z * Z * Z) :=
  match x with
  | S754_nan => None
  | S754_infinity true => Some (-2, 0, 0)
  | S754_finite true m e => Some (-1, - e, - Z.pos m)
  | S754_zero _ => Some (0, 0, 0)
  | S754_finite false m e => Some (1, e, Z.pos m)
  | S754_infinity false => Some (2, 0, 0)
  end.
Definition key_lt (a b : Z * Z * Z) : Prop :=
  let '(a1, a2, a3) := a in let '(b1, b2, b3) := b in
  a1 < b1 \/ (a1 = b1 /\ (a2 < b2 \/ (a2 = b2 /\ a3 < b3))).

Lemma pos_compare_cont_eq m1 m2 : Pos.compare_cont Eq m1 m2 = (Z.pos m1 ?= Z.pos m2).
Proof. done. Qed.

Lemma f64_ltb_key x y :
  f64_ltb x y = true <-> exists a b, f64_key x = Some a /\ f64_key y = Some b /\ key_lt a b.
Proof.
  unfold f64_ltb, SFltb, SFcompare.
  split.
  - destruct x as [[]|[]| |[] m e], y as [[]|[]| |[] m' e']; simpl; try done; intros H;
      (eexists _, _; split; [done|]; split; [done|]); simpl; try lia;
      destruct (Z.compare_spec e e'); try done; try lia;
      rewrite pos_compare_cont_eq in H; destruct (Z.compare_spec (Z.pos m) (Z.pos m')); try done; lia.
  - intros (a & b & Ha & Hb & Hk).
    destruct x as [[]|[]| |[] m e], y as [[]|[]| |[] m' e']; simpl in *; simplify_eq; simpl in Hk; try lia; try done;
      destruct (Z.compare_spec e e'); try done; try lia;
      rewrite pos_compare_cont_eq; destruct (Z.compare_spec (Z.pos m) (Z.pos m')); try done; lia.
Qed.

Lemma f64_ltb_trans x y z : f64_ltb x y = true -> f64_ltb y z = true -> f64_ltb x z = true.
Proof.
  rewrite !f64_ltb_key. intros (a & b & Ha & Hb & H1) (b' & c & Hb' & Hc & H2).
  rewrite Hb in Hb'. injection Hb' as <-. exists a, c. repeat split; [done..|].
  destruct a as [[? ?] ?], b as [[? ?] ?], c as [[? ?] ?]. simpl in *. lia.
Qed.

Lemma f64_ltb_irrefl x : f64_ltb x x = false.
Proof.
  destruct (f64_ltb x x) eqn:E; [|done]. apply f64_ltb_key in E as (a & b & Ha & Hb & H).
  rewrite Ha in Hb. injection Hb as <-. destruct a as [[? ?] ?]. simpl in H. lia.
Qed.

(** The order is total up to NaN: what is not below [y] while [y] is below [z] is not above it. *)
Lemma f64_ltb_not_trans x y z : f64_ltb x z = false -> f64_ltb y z = true -> f64_ltb x y = false.
Proof.
  intros H1 H2. destruct (f64_ltb x y) eqn:E; [|done].
  by rewrite (f64_ltb_trans _ _ _ E H2) in H1.
Qed.

(** ** [time.Duration] *)

Definition Millisecond : Z := 1000000.
Definition Second : Z := 1000 * Millisecond.

(** [d.Milliseconds()]: division truncates towards zero. *)
Definition Milliseconds (d : Z) : Z := Z.quot d Millisecond.

(** Sum, difference and product of [int64] values. *)
Definition add64 (a b : Z) : Z := i64 (a + b).
Definition sub64 (a b : Z) : Z := i64 (a - b).
Definition mul64 (a b : Z) : Z := i64 (a * b).

(** ** [time.Time]: nanoseconds from the zero time *)

Definition timeZero : Z := 0.
Definition Before (t u : Z) : bool := t <? u.
Definition After (t u : Z) : bool := u <? t.
Definition timeAdd (t d : Z) : Z := t + d.

(** [t.Sub(u)] saturates at the ends of [int64]. *)
Definition timeSub (t u : Z) : Z := Z.max minInt64 (Z.min maxInt64 (t - u)).

(** ** Jitter (src/internal/util.go, src/internal/rand.go) *)

(** [randInt63n(n)], where [rng n] is what [rng.Int63n(n)] draws. *)
Definition randInt63n (rng : Z -> Z) (n : Z) : Z := if n <=? 0 then 0 else rng n.

(** The contract of [math/rand]: a draw below a positive bound. *)
Definition rngOk (rng : Z -> Z) : Prop := forall n, 0 < n -> 0 <= rng n < n.

(** [applyJitter(d, jitter)]. *)
Definition applyJitter (rng : Z -> Z) (d jitter : Z) : Z :=
  if jitter <=? 0 then d
  else
    let j := sub64 (randInt63n rng (add64 (mul64 2 jitter) 1)) jitter in
    if add64 d j <? 0 then d else add64 d j.

(** [minDur(a, b)]. *)
Definition minDur (a b : Z) : Z := if a <? b then a else b.

(** The jitter stays in its band and never makes a waiting time negative, as long
    as twice the jitter and the sum fit 64 bits. *)
Lemma applyJitter_bounds rng d jitter :
  rngOk rng -> 0 <= d -> 0 <= jitter -> 2 * jitter + 1 <= maxInt64 -> d + jitter <= maxInt64 ->
  d - jitter <= applyJitter rng d jitter <= d + jitter /\ 0 <= applyJitter rng d jitter.
Proof.
  unfold maxInt64. intros Hr Hd Hj H2 H3. unfold applyJitter, randInt63n.
  destruct (jitter <=? 0) eqn:E; zbool; [lia|].
  unfold add64, mul64, sub64. rewrite (i64_small (2 * jitter)) by (unfold isI64, minInt64, maxInt64; lia).
  rewrite (i64_small (2 * jitter + 1)) by (unfold isI64, minInt64, maxInt64; lia).
  rewrite (proj2 (Z.leb_gt _ _)) by lia. pose proof (Hr (2 * jitter + 1) ltac:(lia)) as Hb.
  rewrite (i64_small (rng _ - jitter)) by (unfold isI64, minInt64, maxInt64; lia).
  rewrite (i64_small (d + _)) by (unfold isI64, minInt64, maxInt64; lia).
  case_tests; zbool; lia.
Qed.

(** A value that is not below [z] and not NaN is above whatever is below [z]. *)
Lemma f64_ltb_not_total x y z :
  f64_ltb x z = false -> f64_ltb y z = true -> f64_key x <> None -> f64_ltb y x = true.
Proof.
  intros H1 H2 Hx. apply f64_ltb_key in H2 as (b & c & Hb & Hc & H2). apply f64_ltb_key.
  destruct (f64_key x) as [a|] eqn:Ha; [|done]. exists b, a. repeat split; [done..|].
  assert (~ key_lt a c) as Hn.
  { intros Hk. assert (f64_ltb x z = true) by (apply f64_ltb_key; eauto). congruence. }
  destruct a as [[? ?] ?], b as [[? ?] ?], c as [[? ?] ?]. simpl in *. lia.
Qed.

Lemma f64_ltb_asym x y : f64_ltb x y = true -> f64_ltb y x = false.
Proof.
  intros H. destruct (f64_ltb y x) eqn:E; [|done].
  by rewrite <- (f64_ltb_irrefl x), (f64_ltb_trans _ _ _ H E).
Qed.
