(* ===== verification/GoNet.v ===== *)
(** * Host, port and address strings

    The parts of Go's [net], [net/netip] and [strconv] the program calls on
    address strings: [SplitHostPort], [JoinHostPort], [ParseIP], [IP.String],
    [Itoa] and [ParseUint]. Strings are byte sequences. *)

From S2P Require Import Prelude.

(** ** Strings *)

Definition ch (z : Z) : byte := z2b z.
Definition cColon : byte := Byte.x3a.
Definition cDot : byte := Byte.x2e.
Definition cLBr : byte := Byte.x5b.
Definition cRBr : byte := Byte.x5d.
Definition cPercent : byte := Byte.x25.

(** [strings.IndexByte] and [strings.LastIndexByte]; [None] is -1. *)
Fixpoint indexByte (s : bytes) (c : byte) : option nat :=
  match s with
  | [] => None
  | b :: s' => if decide (b = c) then Some O else S <$> indexByte s' c
  end.
Fixpoint lastIndexByte (s : bytes) (c : byte) : option nat :=
  match s with
  | [] => None
  | b :: s' =>
      match lastIndexByte s' c with
      | Some i => Some (S i)
      | None => if decide (b = c) then Some O else None
      end
  end.
Definition containsByte (s : bytes) (c : byte) : bool := bool_decide (is_Some (indexByte s c)).
Definition countByte (s : bytes) (c : byte) : Z := zlen (filter (fun b => b = c) s).

(** ** [strconv] *)

Definition isDigit (b : byte) : bool := (48 <=? b2z b) && (b2z b <=? 57).

Fixpoint itoaLoop (fuel : nat) (z : Z) (acc : bytes) : bytes :=
  match fuel with
  | O => acc
  | S k => let acc := ch (48 + z mod 10) :: acc in
           if z / 10 =? 0 then acc else itoaLoop k (z / 10) acc
  end.
(** [strconv.Itoa] of a non-negative [int] (at most 19 digits). *)
Definition itoa (z : Z) : bytes := itoaLoop 20 z [].

Fixpoint decVal (acc : Z) (s : bytes) : option Z :=
  match s with
  | [] => Some acc
  | b :: s' => if isDigit b then decVal (acc * 10 + (b2z b - 48)) s' else None
  end.
(** [strconv.ParseUint(s, 10, bits)]: a syntax or a range error is [None]. *)
Definition parseUint (bits : Z) (s : bytes) : option Z :=
  match s with
  | [] => None
  | _ => match decVal 0 s with
         | Some v => if v <? 2 ^ bits then Some v else None
         | None => None
         end
  end.

(** ** [net.SplitHostPort] and [net.JoinHostPort] *)

Definition addrErr {A} (addr : bytes) (why : string) : res A :=
  Err (errMsg ("address " +:+ b2str addr +:+ ": " +:+ why)).

Definition SplitHostPort (hostport : bytes) : res (bytes * bytes) :=
  match lastIndexByte hostport cColon with
  | None => addrErr hostport "missing port in address"
  | Some i =>
      let finish (host : bytes) (j k : nat) : res (bytes * bytes) :=
        if containsByte (drop j hostport) cLBr then addrErr hostport "unexpected '[' in address"
        else if containsByte (drop k hostport) cRBr then addrErr hostport "unexpected ']' in address"
        else Ok (host, drop (S i) hostport) in
      if bool_decide (head hostport = Some cLBr) then
        match indexByte hostport cRBr with
        | None => addrErr hostport "missing ']' in address"
        | Some e =>
            if decide (S e = length hostport) then addrErr hostport "missing port in address"
            else if decide (S e = i) then finish (drop 1 (take e hostport)) 1%nat (S e)
            else if bool_decide (hostport !! S e = Some cColon) then addrErr hostport "too many colons in address"
            else addrErr hostport "missing port in address"
        end
      else
        let host := take i hostport in
        if containsByte host cColon then addrErr hostport "too many colons in address"
        else finish host O O
  end.

Definition JoinHostPort (host port : bytes) : bytes :=
  if containsByte host cColon then [cLBr] ++ host ++ [cRBr; cColon] ++ port
  else host ++ [cColon] ++ port.

(** ** [netip.ParseAddr] *)

(** The loop of [parseIPv4Fields]: [first] says that no character was read yet,
    [dot] that the last one was a dot. *)
Fixpoint parse4Loop (fields : list Z) (val : Z) (digLen : nat) (first dot : bool) (s : bytes) : option (list Z) :=
  match s with
  | [] => if (length fields <? 3)%nat then None else Some (fields ++ [val])
  | c :: s' =>
      if isDigit c then
        if (digLen =? 1)%nat && (val =? 0) then None
        else let val := val * 10 + (b2z c - 48) in
             if 255 <? val then None else parse4Loop fields val (S digLen) false false s'
      else if decide (c = cDot) then
        if first || bool_decide (s' = []) || dot then None
        else if (length fields =? 3)%nat then None
        else parse4Loop (fields ++ [val]) 0 O false true s'
      else None
  end.
Definition parse4 (s : bytes) : option (list Z) :=
  match s with [] => None | _ => parse4Loop [] 0 O true false s end.

Definition hexVal (c : byte) : option Z :=
  let z := b2z c in
  if (48 <=? z) && (z <=? 57) then Some (z - 48)
  else if (97 <=? z) && (z <=? 102) then Some (z - 87)
  else if (65 <=? z) && (z <=? 70) then Some (z - 55)
  else None.

(** The hexadecimal number at the front: its digit count, its value and the rest. *)
Fixpoint hexRun (off : nat) (acc : Z) (s : bytes) : option (nat * Z * bytes) :=
  match s with
  | [] => Some (off, acc, [])
  | c :: s' =>
      match hexVal c with
      | None => Some (off, acc, s)
      | Some d =>
          let acc := acc * 16 + d in
          if (3 <? off)%nat then None else if 65535 <? acc then None else hexRun (S off) acc s'
      end
  end.

(** The loop of [parseIPv6], at most eight rounds: the 16-bit groups so far, the
    position of the ellipsis and what is left of the string when the loop ends. *)
Fixpoint parse6Loop (rounds : nat) (acc : list Z) (ell : option nat) (s : bytes)
  : option (list Z * option nat * bytes) :=
  match rounds with
  | O => Some (acc, ell, s)
  | S k =>
      match hexRun O 0 s with
      | None => None
      | Some (off, v, s1) =>
          if (off =? 0)%nat then None
          else if bool_decide (head s1 = Some cDot) then
            if bool_decide (ell = None) && negb (length acc =? 6)%nat then None
            else if (8 <? length acc + 2)%nat then None
            else match parse4 s with
                 | Some [a; b; c; d] => Some (acc ++ [a * 256 + b; c * 256 + d], ell, [])
                 | _ => None
                 end
          else
            let acc := acc ++ [v] in
            match s1 with
            | [] => Some (acc, ell, [])
            | c :: s2 =>
                if decide (c <> cColon) then None
                else match s2 with
                | [] => None
                | c2 :: s3 =>
                    if decide (c2 = cColon) then
                      if bool_decide (ell = None) then
                        match s3 with
                        | [] => Some (acc, Some (length acc), [])
                        | _ => parse6Loop k acc (Some (length acc)) s3
                        end
                      else None
                    else parse6Loop k acc ell s2
                end
            end
      end
  end.

(** Expansion of the ellipsis, and the tests on the length. *)
Definition finish6 (r : list Z * option nat * bytes) : option (list Z) :=
  let '(acc, ell, s) := r in
  match s with
  | _ :: _ => None
  | [] =>
      if (length acc <? 8)%nat then
        match ell with
        | None => None
        | Some p => Some (take p acc ++ replicate (8 - length acc) 0 ++ drop p acc)
        end
      else match ell with Some _ => None | None => Some acc end
  end.

(** [parseIPv6] of a string without a zone: its eight 16-bit groups. *)
Definition parse6 (s : bytes) : option (list Z) :=
  match s with
  | c1 :: c2 :: s' =>
      if bool_decide (c1 = cColon) && bool_decide (c2 = cColon) then
        match s' with
        | [] => Some (replicate 8 0)
        | _ => parse6Loop 8 [] (Some O) s' ≫= finish6
        end
      else parse6Loop 8 [] None s ≫= finish6
  | _ => parse6Loop 8 [] None s ≫= finish6
  end.

Definition groupBytes (gs : list Z) : bytes := gs ≫= fun g => [z2b (Z.shiftr g 8); z2b g].

(** The prefix of an IPv4 address in 16-byte form. *)
Definition v4InV6Prefix : bytes := replicate 10 Byte.x00 ++ [Byte.xff; Byte.xff].

(** [net.ParseIP]: the 16-byte form. The first dot, colon or percent sign decides
    the family; an address with a zone is refused. *)
Fixpoint addrKind (s : bytes) : option byte :=
  match s with
  | [] => None
  | c :: s' => if decide (c = cDot \/ c = cColon \/ c = cPercent) then Some c else addrKind s'
  end.
Definition ParseIP (s : bytes) : option bytes :=
  match addrKind s with
  | Some c =>
      if decide (c = cDot) then (fun fs => v4InV6Prefix ++ (z2b <$> fs)) <$> parse4 s
      else if decide (c = cColon) then
        if containsByte s cPercent then None else groupBytes <$> parse6 s
      else None
  | None => None
  end.

(** [ip.To4()] and [ip.To16()] of a 4- or 16-byte address, [None] for nil. *)
Definition To4 (ip : bytes) : option bytes :=
  if (length ip =? 4)%nat then Some ip
  else if (length ip =? 16)%nat && bool_decide (take 12 ip = v4InV6Prefix) then Some (drop 12 ip)
  else None.
Definition To16 (ip : bytes) : option bytes :=
  if (length ip =? 4)%nat then Some (v4InV6Prefix ++ ip)
  else if (length ip =? 16)%nat then Some ip
  else None.

(** ** [IP.String] *)

Definition joinWith (sep : bytes) (l : list bytes) : bytes :=
  match l with
  | [] => []
  | x :: l' => x ++ (l' ≫= fun y => sep ++ y)
  end.

Definition string4 (ip : bytes) : bytes := joinWith [cDot] ((fun b => itoa (b2z b)) <$> ip).

Fixpoint bytesGroups (ip : bytes) : list Z :=
  match ip with
  | a :: b :: r => (b2z a * 256 + b2z b) :: bytesGroups r
  | _ => []
  end.

Definition hexCh (d : Z) : byte := ch (if d <? 10 then 48 + d else 87 + d).
(** [appendHex]: four digits at most, no leading zeros. *)
Definition hex16 (x : Z) : bytes :=
  (if 0x1000 <=? x then [hexCh (Z.shiftr x 12)] else []) ++
  (if 0x100 <=? x then [hexCh (Z.land (Z.shiftr x 8) 15)] else []) ++
  (if 0x10 <=? x then [hexCh (Z.land (Z.shiftr x 4) 15)] else []) ++
  [hexCh (Z.land x 15)].

Fixpoint zeroRun (gs : list Z) : nat :=
  match gs with
  | g :: gs' => if g =? 0 then S (zeroRun gs') else O
  | [] => O
  end.
(** The first longest run of at least two zero groups, as start and end. *)
Fixpoint findRun (i : nat) (gs : list Z) (best : option (nat * nat)) : option (nat * nat) :=
  match gs with
  | [] => best
  | _ :: gs' =>
      let l := zeroRun gs in
      let cur := match best with Some (a, b) => (b - a)%nat | None => O end in
      findRun (S i) gs' (if (2 <=? l)%nat && (cur <? l)%nat then Some (i, (i + l)%nat) else best)
  end.
Definition string6 (ip : bytes) : bytes :=
  let gs := bytesGroups ip in
  match findRun O gs None with
  | None => joinWith [cColon] (hex16 <$> gs)
  | Some (zs, ze) =>
      joinWith [cColon] (hex16 <$> take zs gs) ++ [cColon; cColon] ++ joinWith [cColon] (hex16 <$> drop ze gs)
  end.

(** [net.IP(b).String()] for the two lengths the program uses. *)
Definition ipString (ip : bytes) : bytes :=
  match To4 ip with
  | Some p4 => string4 p4
  | None => string6 ip
  end.

#[global] Instance byte_countable : Countable byte :=
  inj_countable' Byte.to_N (fun n => default Byte.x00 (Byte.of_N n)) ltac:(intros b; simpl; by rewrite Byte.of_to_N).

#[global] Arguments parse4 : simpl never.
#[global] Arguments hex16 : simpl never.
#[global] Arguments itoa : simpl never.

(** ** Lemmas *)

(** *** Searching *)

Lemma indexByte_None s c : indexByte s c = None <-> c ∉ s.
Proof.
  induction s as [|b s IH]; simpl.
  - split; [by intros _ []%elem_of_nil|done].
  - rewrite not_elem_of_cons. case_decide; [naive_solver|].
    rewrite fmap_None, IH. naive_solver.
Qed.

Lemma containsByte_spec s c : containsByte s c = bool_decide (c ∈ s).
Proof.
  unfold containsByte. apply bool_decide_ext. rewrite <- not_eq_None_Some, indexByte_None.
  split; [|tauto]. intros H. destruct (decide (c ∈ s)); [done|]. by destruct H.
Qed.

Lemma lastIndexByte_app l c r : c ∉ r -> lastIndexByte (l ++ c :: r) c = Some (length l).
Proof.
  intros Hr. induction l as [|b l IH]; simpl; [|by rewrite IH].
  assert (lastIndexByte r c = None) as ->.
  { induction r as [|b r IH]; [done|]. simpl. apply not_elem_of_cons in Hr as [? Hr].
    rewrite IH by done. by rewrite decide_False. }
  by rewrite decide_True.
Qed.

Lemma indexByte_app l c r : c ∉ l -> indexByte (l ++ c :: r) c = Some (length l).
Proof.
  induction l as [|b l IH]; simpl; intros Hl; [by rewrite decide_True|].
  apply not_elem_of_cons in Hl as [? Hl]. rewrite decide_False by done. by rewrite IH.
Qed.

(** *** [SplitHostPort] inverts [JoinHostPort] *)

(** No bracket in the host, nothing but an unbracketed, colon-free port. *)
Definition hostOk (h : bytes) : Prop := cLBr ∉ h /\ cRBr ∉ h.
Definition portOk (p : bytes) : Prop := cColon ∉ p /\ cLBr ∉ p /\ cRBr ∉ p.

Lemma split_join host port :
  hostOk host -> portOk port -> SplitHostPort (JoinHostPort host port) = Ok (host, port).
Proof.
  intros [Hl Hr] (Hc & Hp1 & Hp2). unfold JoinHostPort. rewrite containsByte_spec.
  case_bool_decide as Hin; unfold SplitHostPort.
  - replace ([cLBr] ++ host ++ [cRBr; cColon] ++ port) with ((cLBr :: host ++ [cRBr]) ++ cColon :: port)
      by (simpl; by rewrite <- app_assoc).
    rewrite lastIndexByte_app by done. simpl head. rewrite bool_decide_true by done.
    replace ((cLBr :: host ++ [cRBr]) ++ cColon :: port) with ((cLBr :: host) ++ cRBr :: cColon :: port)
      by (simpl; by rewrite <- app_assoc).
    rewrite indexByte_app by (apply not_elem_of_cons; done).
    simpl length. rewrite !length_app. simpl length.
    rewrite decide_False by lia. rewrite decide_True by lia.
    rewrite !containsByte_spec. rewrite !bool_decide_false.
    + f_equal. f_equal.
      * change (S (length host)) with (length (cLBr :: host)). by rewrite take_app_length.
      * replace (S (S (length host + 1))) with (length ((cLBr :: host) ++ [cRBr; cColon])) by (rewrite length_app; simpl; lia).
        replace ((cLBr :: host) ++ cRBr :: cColon :: port) with (((cLBr :: host) ++ [cRBr; cColon]) ++ port)
          by (by rewrite <- app_assoc). by rewrite drop_app_length.
    + replace (S (S (length host))) with (length ((cLBr :: host) ++ [cRBr])) by (rewrite length_app; simpl; lia).
      replace ((cLBr :: host) ++ cRBr :: cColon :: port) with (((cLBr :: host) ++ [cRBr]) ++ cColon :: port)
        by (by rewrite <- app_assoc). rewrite drop_app_length.
      rewrite not_elem_of_cons. by split.
    + simpl. rewrite drop_0. rewrite elem_of_app, !elem_of_cons. naive_solver.
  - change (host ++ [cColon] ++ port) with (host ++ cColon :: port).
    rewrite lastIndexByte_app by done.
    rewrite bool_decide_false; [|destruct host as [|b host]; simpl; [done|]; intros [= ->]; apply Hl; by left].
    rewrite take_app_length, !containsByte_spec, drop_0. rewrite !bool_decide_false.
    + f_equal. f_equal. replace (S (length host)) with (length (host ++ [cColon])) by (rewrite length_app; simpl; lia).
      replace (host ++ cColon :: port) with ((host ++ [cColon]) ++ port) by (by rewrite <- app_assoc).
      by rewrite drop_app_length.
    + rewrite elem_of_app, elem_of_cons. naive_solver.
    + rewrite elem_of_app, elem_of_cons. naive_solver.
    + done.
Qed.

(** *** Decimal numbers *)

Lemma isDigit_ch d : 0 <= d < 10 -> isDigit (ch (48 + d)) = true /\ b2z (ch (48 + d)) - 48 = d.
Proof. intros. unfold isDigit, ch. rewrite b2z_z2b_small by lia. split; [|lia]. apply andb_true_iff. split; apply Z.leb_le; lia. Qed.

Lemma decVal_app a l1 l2 : decVal a (l1 ++ l2) = decVal a l1 ≫= fun v => decVal v l2.
Proof. revert a. induction l1 as [|b l1 IH]; intros a; simpl; [done|]. by case_match. Qed.

Lemma itoaLoop_spec fuel z acc :
  0 <= z < 10 ^ Z.of_nat fuel ->
  exists ds, itoaLoop fuel z acc = ds ++ acc /\ Forall (fun b => isDigit b = true) ds
    /\ (forall a, decVal a ds = Some (a * 10 ^ zlen ds + z)) /\ (fuel = O \/ ds <> []).
Proof.
  revert z acc. induction fuel as [|fuel IH]; intros z acc Hz.
  - exists []. simpl. repeat split; [constructor| |by left]. intros a. f_equal. change (10 ^ Z.of_nat 0) with 1 in Hz.
    rewrite zlen_nil. lia.
  - cbn [itoaLoop]. pose proof (Z.mod_pos_bound z 10 ltac:(lia)) as Hm.
    destruct (isDigit_ch _ Hm) as [Hd Hv]. pose proof (Z.div_mod z 10 ltac:(lia)).
    case_match eqn:E; zbool.
    + exists [ch (48 + z mod 10)]. repeat split; [by repeat constructor| |by right]. intros a. simpl.
      rewrite Hd, Hv. f_equal. unfold zlen; simpl. change (10 ^ 1) with 10. lia.
    + assert (0 <= z / 10 < 10 ^ Z.of_nat fuel).
      { split; [apply Z.div_pos; lia|]. apply Z.div_lt_upper_bound; [lia|].
        replace (Z.of_nat (S fuel)) with (1 + Z.of_nat fuel) in Hz by lia.
        rewrite Z.pow_add_r in Hz by lia. lia. }
      destruct (IH (z / 10) (ch (48 + z mod 10) :: acc) ltac:(done)) as (ds & E1 & E2 & E3 & _).
      exists (ds ++ [ch (48 + z mod 10)]). rewrite E1, <- app_assoc. split; [done|]. split.
      { apply Forall_app; split; [done|by repeat constructor]. }
      split; [|right; by destruct ds]. intros a. rewrite decVal_app, E3. simpl. rewrite Hd, Hv. f_equal.
      rewrite zlen_app. change (zlen [_]) with 1. rewrite Z.pow_add_r by (pose proof (zlen_nonneg ds); lia). lia.
Qed.

Lemma itoa_spec z :
  0 <= z < 10 ^ 19 ->
  Forall (fun b => isDigit b = true) (itoa z) /\ itoa z <> [] /\ decVal 0 (itoa z) = Some z.
Proof.
  intros Hz. destruct (itoaLoop_spec 20 z []) as (ds & E1 & E2 & E3 & [?|E4]); [lia|done|].
  rewrite app_nil_r in E1. unfold itoa. rewrite E1. split; [done|]. split; [done|by rewrite E3].
Qed.

(** *** Dotted IPv4 addresses *)

(** An octet is read back, whatever follows it. *)
Lemma parse4Loop_octet a fields first dot rest :
  exists k, (0 < k)%nat
    /\ parse4Loop fields 0 O first dot (itoa (b2z a) ++ rest) = parse4Loop fields (b2z a) k false false rest.
Proof. exists (length (itoa (b2z a))). destruct a; (split; [apply Nat.ltb_lt|]; reflexivity). Qed.

Lemma parse4Loop_dot fields val k first rest :
  rest <> [] -> (length fields < 3)%nat ->
  parse4Loop fields val k false first (cDot :: rest) =
  if first then None else parse4Loop (fields ++ [val]) 0 O false true rest.
Proof.
  intros Hr Hf. cbn [parse4Loop]. change (isDigit cDot) with false. rewrite decide_True by done.
  rewrite bool_decide_false by done. simpl. destruct first; [done|].
  by rewrite (proj2 (Nat.eqb_neq _ _)) by lia.
Qed.

Lemma itoa_b2z_nonempty a rest : itoa (b2z a) ++ rest <> [].
Proof. by destruct a. Qed.

Lemma parse4_string4 a b c d :
  parse4 (string4 [a; b; c; d]) = Some [b2z a; b2z b; b2z c; b2z d].
Proof.
  unfold string4, joinWith. simpl. rewrite !app_nil_r.
  assert (Hp : forall s, s <> [] -> parse4 s = parse4Loop [] 0 O true false s) by (by intros []).
  rewrite Hp by apply itoa_b2z_nonempty. clear Hp.
  edestruct (parse4Loop_octet a) as (k1 & _ & ->). rewrite parse4Loop_dot by (apply itoa_b2z_nonempty || (simpl; lia)).
  edestruct (parse4Loop_octet b) as (k2 & _ & ->). rewrite parse4Loop_dot by (apply itoa_b2z_nonempty || (simpl; lia)).
  edestruct (parse4Loop_octet c) as (k3 & _ & ->).
  rewrite parse4Loop_dot by ((apply itoa_spec; pose proof (b2z_range d); lia) || (simpl; lia)).
  rewrite <- (app_nil_r (itoa (b2z d))).
  edestruct (parse4Loop_octet d) as (k4 & _ & ->). done.
Qed.

Lemma addrKind_digits l c rest :
  Forall (fun b => isDigit b = true) l -> c = cDot \/ c = cColon \/ c = cPercent ->
  addrKind (l ++ c :: rest) = Some c.
Proof.
  intros Hl Hc. induction Hl as [|b l Hb _ IH]; simpl; [by rewrite decide_True|].
  rewrite decide_False; [done|]. intros [-> | [-> | ->]]; discriminate Hb.
Qed.

Lemma ParseIP_string4 ip :
  length ip = 4%nat -> ParseIP (string4 ip) = Some (v4InV6Prefix ++ ip).
Proof.
  intros Hl. destruct ip as [|a [|b [|c [|d [|? ?]]]]]; try done. unfold ParseIP.
  assert (Hk : addrKind (string4 [a; b; c; d]) = Some cDot).
  { unfold string4, joinWith. simpl. apply addrKind_digits; [|by left]. by apply itoa_spec; pose proof (b2z_range a); lia. }
  rewrite Hk, decide_True by done. rewrite parse4_string4. simpl. by rewrite !z2b_b2z.
Qed.

(** *** IPv6 addresses *)

Definition isGroup (g : Z) : Prop := 0 <= g < 65536.

Lemma hexVal_hexCh d : 0 <= d < 16 -> hexVal (hexCh d) = Some d.
Proof.
  intros H. assert (E : d = 0 \/ d = 1 \/ d = 2 \/ d = 3 \/ d = 4 \/ d = 5 \/ d = 6 \/ d = 7 \/ d = 8
    \/ d = 9 \/ d = 10 \/ d = 11 \/ d = 12 \/ d = 13 \/ d = 14 \/ d = 15) by lia.
  by destruct_or! E; subst.
Qed.

Lemma hexRun_step off acc d s :
  0 <= d < 16 -> (off <= 3)%nat -> acc * 16 + d <= 65535 ->
  hexRun off acc (hexCh d :: s) = hexRun (S off) (acc * 16 + d) s.
Proof.
  intros Hd Ho Ha. cbn [hexRun]. rewrite hexVal_hexCh by done.
  rewrite (proj2 (Nat.ltb_ge _ _)) by lia. by rewrite (proj2 (Z.ltb_ge _ _)) by lia.
Qed.

(** The digits of a group, most significant first. *)
Lemma land_15 z : Z.land z 15 = z mod 16.
Proof. change 15 with (Z.ones 4). by rewrite Z.land_ones by lia. Qed.

Lemma hexRun_hex16 g s :
  isGroup g -> (forall c, head s = Some c -> hexVal c = None) ->
  exists off, (0 < off)%nat /\ hexRun O 0 (hex16 g ++ s) = Some (off, g, s).
Proof.
  intros Hg Hs. unfold isGroup in Hg.
  assert (Hend : forall off acc, hexRun off acc s = Some (off, acc, s)).
  { intros. destruct s as [|c s]; [done|]. cbn [hexRun]. by rewrite Hs. }
  unfold hex16. rewrite !land_15, !Z.shiftr_div_pow2 by lia.
  change (2 ^ 12) with 4096. change (2 ^ 8) with 256. change (2 ^ 4) with 16.
  pose proof (Z.mod_pos_bound g 16 ltac:(lia)). pose proof (Z.mod_pos_bound (g / 16) 16 ltac:(lia)).
  pose proof (Z.mod_pos_bound (g / 256) 16 ltac:(lia)).
  pose proof (Z.div_mod g 16 ltac:(lia)). pose proof (Z.div_mod (g / 16) 16 ltac:(lia)) as Hd1.
  pose proof (Z.div_mod (g / 256) 16 ltac:(lia)) as Hd2.
  rewrite Z.div_div in Hd1, Hd2 by lia. change (16 * 16) with 256 in Hd1. change (256 * 16) with 4096 in Hd2.
  assert (0 <= g / 4096 < 16) by (split; [apply Z.div_pos|apply Z.div_lt_upper_bound]; lia).
  destruct (Z.leb_spec 0x1000 g); [|destruct (Z.leb_spec 0x100 g); [|destruct (Z.leb_spec 0x10 g)]].
  - rewrite (proj2 (Z.leb_le 256 g)), (proj2 (Z.leb_le 16 g)) by lia. simpl app.
    rewrite !hexRun_step by lia. rewrite Hend. exists 4%nat. split; [lia|]. f_equal. f_equal. f_equal. lia.
  - rewrite (proj2 (Z.leb_le 16 g)) by lia. simpl app.
    rewrite !hexRun_step by lia. rewrite Hend. exists 3%nat. split; [lia|]. f_equal. f_equal. f_equal. lia.
  - simpl app. rewrite !hexRun_step by lia. rewrite Hend. exists 2%nat. split; [lia|]. f_equal. f_equal. f_equal. lia.
  - simpl app. rewrite !hexRun_step by lia. rewrite Hend. exists 1%nat. split; [lia|]. f_equal. f_equal. f_equal. lia.
Qed.

(** *** Groups and the ellipsis *)

(** The text between two colons: what may follow a group. *)
Lemma hexVal_colon : hexVal cColon = None.
Proof. done. Qed.

Lemma hex16_head g : isGroup g -> exists d s, 0 <= d < 16 /\ hex16 g = hexCh d :: s.
Proof.
  intros Hg. unfold isGroup in Hg. unfold hex16. rewrite !land_15, !Z.shiftr_div_pow2 by lia.
  case_tests; zbool; simpl; eexists _, _; (split; [|reflexivity]);
    try (apply Z.mod_pos_bound; lia).
  all: split; [apply Z.div_pos; lia|apply Z.div_lt_upper_bound; lia].
Qed.

Lemma hexCh_not_colon d : 0 <= d < 16 -> hexCh d <> cColon.
Proof. intros H E. pose proof (hexVal_hexCh d H) as H1. by rewrite E in H1. Qed.

Definition groupText (gs : list Z) : bytes := joinWith [cColon] (hex16 <$> gs).

Lemma groupText_cons g g' gs : groupText (g :: g' :: gs) = hex16 g ++ cColon :: groupText (g' :: gs).
Proof. done. Qed.

Lemma groupText_head g gs : isGroup g -> exists d s, 0 <= d < 16 /\ groupText (g :: gs) = hexCh d :: s.
Proof.
  intros Hg. destruct (hex16_head g Hg) as (d & s & Hd & E). unfold groupText, joinWith. simpl. rewrite E.
  eexists d, _. by split.
Qed.

(** One group followed by the end, by a colon and more, or by an ellipsis. *)
Lemma parse6Loop_last k acc ell g :
  isGroup g -> parse6Loop (S k) acc ell (hex16 g) = Some (acc ++ [g], ell, []).
Proof.
  intros Hg. cbn [parse6Loop]. rewrite <- (app_nil_r (hex16 g)).
  destruct (hexRun_hex16 g [] Hg) as (off & Ho & ->); [done|].
  by rewrite (proj2 (Nat.eqb_neq _ _)) by lia.
Qed.

Lemma parse6Loop_more k acc ell g d s :
  isGroup g -> 0 <= d < 16 ->
  parse6Loop (S k) acc ell (hex16 g ++ cColon :: hexCh d :: s) = parse6Loop k (acc ++ [g]) ell (hexCh d :: s).
Proof.
  intros Hg Hd. cbn [parse6Loop].
  destruct (hexRun_hex16 g (cColon :: hexCh d :: s) Hg) as (off & Ho & ->); [by intros c [= <-]|].
  rewrite (proj2 (Nat.eqb_neq _ _)) by lia. simpl. by rewrite (decide_False (P := hexCh d = cColon)) by by apply hexCh_not_colon.
Qed.

Lemma parse6Loop_ellipsis k acc g s :
  isGroup g ->
  parse6Loop (S k) acc None (hex16 g ++ cColon :: cColon :: s) =
  match s with
  | [] => Some (acc ++ [g], Some (length (acc ++ [g])), [])
  | _ => parse6Loop k (acc ++ [g]) (Some (length (acc ++ [g]))) s
  end.
Proof.
  intros Hg. cbn [parse6Loop].
  destruct (hexRun_hex16 g (cColon :: cColon :: s) Hg) as (off & Ho & ->); [by intros c [= <-]|].
  by rewrite (proj2 (Nat.eqb_neq _ _)) by lia.
Qed.

Lemma parse6Loop_groups gs k acc ell g :
  isGroup g -> Forall isGroup gs -> (length gs <= k)%nat ->
  parse6Loop (S k) acc ell (groupText (g :: gs)) = Some (acc ++ g :: gs, ell, []).
Proof.
  revert k acc g. induction gs as [|g' gs IH]; intros k acc g Hg Hgs Hk.
  - change (groupText [g]) with (hex16 g ++ []). rewrite app_nil_r. by apply parse6Loop_last.
  - inversion_clear Hgs as [|? ? Hg' Hgs']. rewrite groupText_cons.
    destruct (groupText_head g' gs Hg') as (d & s & Hd & E). rewrite E, parse6Loop_more by done.
    rewrite <- E. simpl in Hk. destruct k as [|k]; [lia|]. rewrite IH by (done || lia). by rewrite <- app_assoc.
Qed.

Lemma parse6Loop_prefix gs k acc g s :
  isGroup g -> Forall isGroup gs -> (length gs <= k)%nat ->
  parse6Loop (S k) acc None (groupText (g :: gs) ++ cColon :: cColon :: s) =
  match s with
  | [] => Some (acc ++ g :: gs, Some (length (acc ++ g :: gs)), [])
  | _ => parse6Loop (k - length gs) (acc ++ g :: gs) (Some (length (acc ++ g :: gs))) s
  end.
Proof.
  revert k acc g. induction gs as [|g' gs IH]; intros k acc g Hg Hgs Hk.
  - change (groupText [g]) with (hex16 g ++ []). rewrite app_nil_r, parse6Loop_ellipsis by done. by rewrite Nat.sub_0_r.
  - inversion_clear Hgs as [|? ? Hg' Hgs']. rewrite groupText_cons, <- app_assoc. simpl app.
    destruct (groupText_head g' gs Hg') as (d & t & Hd & E). rewrite E. simpl app. rewrite parse6Loop_more by done.
    change (hexCh d :: t ++ ?x) with ((hexCh d :: t) ++ x). rewrite <- E.
    simpl in Hk. destruct k as [|k]; [lia|]. rewrite IH by (done || lia).
    by rewrite <- !app_assoc.
Qed.

(** *** [ParseIP] inverts [IP.String] *)

Lemma zeroRun_spec gs : (zeroRun gs <= length gs)%nat /\ take (zeroRun gs) gs = replicate (zeroRun gs) 0.
Proof.
  induction gs as [|g gs [IH1 IH2]]; [done|]. simpl. destruct (Z.eqb_spec g 0) as [->|]; simpl; [|split; [lia|done]].
  split; [lia|by f_equal].
Qed.

(** A run: at least two groups, all zero, inside the list. *)
Definition isRun (gs : list Z) (zs ze : nat) : Prop :=
  (zs + 2 <= ze <= length gs)%nat /\ take (ze - zs) (drop zs gs) = replicate (ze - zs) 0.

Lemma findRun_spec pre gs best r :
  (forall zs ze, best = Some (zs, ze) -> isRun (pre ++ gs) zs ze) ->
  findRun (length pre) gs best = Some r -> isRun (pre ++ gs) (fst r) (snd r).
Proof.
  revert pre best. induction gs as [|g gs IH]; intros pre best Hb E.
  - simpl in E. subst. destruct r. by apply Hb.
  - cbn [findRun] in E. replace (pre ++ g :: gs) with ((pre ++ [g]) ++ gs) in * by (by rewrite <- app_assoc).
    replace (S (length pre)) with (length (pre ++ [g])) in E by (rewrite length_app; simpl; lia).
    destruct (zeroRun_spec (g :: gs)) as [Hl Hz]. set (l := zeroRun (g :: gs)) in *. clearbody l.
    eapply IH; [|exact E]. intros zs ze H. destruct (_ && _) eqn:Ht; [|by apply Hb].
    injection H as <- <-. apply andb_true_iff in Ht as [Ht _]. apply Nat.leb_le in Ht.
    rewrite <- app_assoc. change ([g] ++ gs) with (g :: gs).
    unfold isRun. rewrite drop_app_length, length_app.
    replace (length pre + l - length pre)%nat with l by lia. split; [lia|done].
Qed.

Lemma isRun_split gs zs ze :
  isRun gs zs ze -> gs = take zs gs ++ replicate (ze - zs) 0 ++ drop ze gs.
Proof.
  intros [Hl Hz]. rewrite <- Hz. rewrite <- (take_drop zs gs) at 1. f_equal.
  rewrite <- (take_drop (ze - zs) (drop zs gs)) at 1. f_equal. rewrite drop_drop. f_equal. lia.
Qed.

(** Reading back the groups printed with or without an ellipsis. *)
Lemma parse6_plain gs :
  length gs = 8%nat -> Forall isGroup gs -> parse6 (groupText gs) = Some gs.
Proof.
  intros Hl Hg. destruct gs as [|g gs]; [done|]. inversion_clear Hg as [|? ? Hg1 Hg2].
  assert (E : parse6 (groupText (g :: gs)) = parse6Loop 8 [] None (groupText (g :: gs)) ≫= finish6).
  { destruct (groupText_head g gs Hg1) as (d & s & Hd & ->). unfold parse6. destruct s as [|c s]; [done|].
    by rewrite (bool_decide_false (hexCh d = cColon)) by by apply hexCh_not_colon. }
  rewrite E, parse6Loop_groups by (done || (simpl in Hl; lia)). simpl app.
  cbn [mbind option_bind]. unfold finish6. by rewrite Hl.
Qed.

Lemma parse6_ellipsis pre post :
  (length pre + length post <= 6)%nat -> Forall isGroup pre -> Forall isGroup post ->
  parse6 (groupText pre ++ cColon :: cColon :: groupText post)
  = Some (pre ++ replicate (8 - (length pre + length post)) 0 ++ post).
Proof.
  intros Hl Hpre Hpost.
  assert (Hfin : forall acc, acc = pre ++ post -> finish6 (acc, Some (length pre), []) =
    Some (pre ++ replicate (8 - (length pre + length post)) 0 ++ post)).
  { intros acc ->. unfold finish6. rewrite length_app. rewrite (proj2 (Nat.ltb_lt _ _)) by lia.
    by rewrite take_app_length, drop_app_length. }
  destruct pre as [|g pre].
  - simpl app. unfold parse6. rewrite !bool_decide_true by done. simpl andb. cbv iota.
    destruct post as [|g post]; [done|]. inversion_clear Hpost as [|? ? Hg Hpost'].
    destruct (groupText_head g post Hg) as (d & s & Hd & E). rewrite E. rewrite <- E.
    rewrite parse6Loop_groups by (done || (simpl in Hl; lia)). simpl app. cbn [mbind option_bind].
    by apply (Hfin (g :: post)).
  - inversion_clear Hpre as [|? ? Hg Hpre'].
    assert (E : forall t, parse6 (groupText (g :: pre) ++ t) = parse6Loop 8 [] None (groupText (g :: pre) ++ t) ≫= finish6).
    { intros t. destruct (groupText_head g pre Hg) as (d & s & Hd & ->). unfold parse6. simpl app.
      destruct (s ++ t) as [|c s']; [done|].
      by rewrite (bool_decide_false (hexCh d = cColon)) by by apply hexCh_not_colon. }
    rewrite E, parse6Loop_prefix by (done || (simpl in Hl; lia)). simpl in Hl. simpl app.
    destruct post as [|g2 post].
    { cbn [mbind option_bind groupText joinWith fmap list_fmap]. rewrite app_nil_r in Hfin. by apply (Hfin (g :: pre)). }
    inversion_clear Hpost as [|? ? Hg2 Hpost'].
    destruct (groupText_head g2 post Hg2) as (d & s & Hd & E2). rewrite E2. rewrite <- E2. simpl in Hl.
    replace (7 - length pre)%nat with (S (6 - length pre)) by lia.
    rewrite parse6Loop_groups by (done || lia). cbn [mbind option_bind]. by apply Hfin.
Qed.

(** The characters of a printed address. *)
Definition hexOrColon (b : byte) : Prop := b = cColon \/ is_Some (hexVal b).

Lemma hexOrColon_hexCh d : 0 <= d < 16 -> hexOrColon (hexCh d).
Proof. intros H. right. rewrite hexVal_hexCh by done. by eexists. Qed.

Lemma hex16_chars g : isGroup g -> Forall hexOrColon (hex16 g).
Proof.
  intros Hg. unfold isGroup in Hg. unfold hex16. rewrite !land_15, !Z.shiftr_div_pow2 by lia.
  apply Forall_app_2; [|apply Forall_app_2; [|apply Forall_app_2]]; case_tests; try (by constructor);
    apply Forall_singleton, hexOrColon_hexCh; try (apply Z.mod_pos_bound; lia). zbool.
  split; [apply Z.div_pos; lia|apply Z.div_lt_upper_bound; lia].
Qed.

Lemma groupText_chars gs : Forall isGroup gs -> Forall hexOrColon (groupText gs).
Proof.
  intros H. destruct H as [|g gs Hg Hgs]; [constructor|]. unfold groupText, joinWith. simpl.
  apply Forall_app_2; [by apply hex16_chars|]. induction Hgs as [|g' gs' Hg' _ IH]; [constructor|].
  simpl. constructor; [by left|]. apply Forall_app_2; [by apply hex16_chars|done].
Qed.

Lemma addrKind_colon s : Forall hexOrColon s -> cColon ∈ s -> addrKind s = Some cColon.
Proof.
  intros H. induction H as [|b s Hb _ IH]; [by intros []%elem_of_nil|]. intros Hin. simpl.
  case_decide as Hd.
  - destruct Hd as [-> | [-> | ->]]; [|done|]; destruct Hb as [?|[? ?]]; done.
  - apply IH. apply elem_of_cons in Hin as [Heq|]; [|done]. exfalso. apply Hd. right. by left.
Qed.

Lemma chars_not_in s c : Forall hexOrColon s -> c <> cColon -> hexVal c = None -> c ∉ s.
Proof.
  intros H Hc Hx Hin. rewrite Forall_forall in H. destruct (H c Hin) as [?|[? E]]; [done|]. by rewrite Hx in E.
Qed.

Lemma bytesGroups_groupBytes n ip :
  length ip = (2 * n)%nat ->
  Forall isGroup (bytesGroups ip) /\ length (bytesGroups ip) = n /\ groupBytes (bytesGroups ip) = ip.
Proof.
  revert ip. induction n as [|n IH]; intros [|a [|b ip]] Hl; simpl in Hl; try lia; [by repeat constructor|].
  destruct (IH ip ltac:(lia)) as (H1 & H2 & H3). pose proof (b2z_range a). pose proof (b2z_range b).
  cbn [bytesGroups]. split; [constructor; [unfold isGroup; lia|done]|]. split; [simpl; lia|].
  change (groupBytes (?g :: ?gs)) with ([z2b (Z.shiftr g 8); z2b g] ++ groupBytes gs). rewrite H3. simpl app. rewrite Z.shiftr_div_pow2 by lia. change (2 ^ 8) with 256.
  rewrite Z.div_add_l, (Z.div_small (b2z b)) by lia. rewrite Z.add_0_r, z2b_b2z. f_equal. f_equal.
  apply b2z_inj. rewrite b2z_z2b, Z.add_comm, Z.mod_add by lia. apply Z.mod_small; lia.
Qed.

Lemma string6_spec ip :
  length ip = 16%nat ->
  parse6 (string6 ip) = Some (bytesGroups ip) /\ Forall hexOrColon (string6 ip) /\ cColon ∈ string6 ip.
Proof.
  intros Hl. destruct (bytesGroups_groupBytes 8 ip Hl) as (Hg & Hn & _).
  unfold string6. destruct (findRun 0 (bytesGroups ip) None) as [[zs ze]|] eqn:E.
  - pose proof (findRun_spec [] (bytesGroups ip) None (zs, ze)) as Hr. simpl in Hr.
    specialize (Hr ltac:(done) E). pose proof (isRun_split _ _ _ Hr) as Hs. destruct Hr as [Hr _].
    fold (groupText (take zs (bytesGroups ip))). fold (groupText (drop ze (bytesGroups ip))).
    assert (Forall isGroup (take zs (bytesGroups ip)) /\ Forall isGroup (drop ze (bytesGroups ip))) as [H1 H2]
      by (split; [by apply Forall_take|by apply Forall_drop]).
    split; [|split].
    + change ([cColon; cColon] ++ ?x) with (cColon :: cColon :: x).
      rewrite parse6_ellipsis by (done || (rewrite length_take, length_drop; lia)).
      f_equal. etransitivity; [|symmetry; exact Hs]. rewrite length_take, length_drop, Hn.
      f_equal. f_equal. f_equal. lia.
    + apply Forall_app_2; [by apply groupText_chars|].
      constructor; [by left|]. constructor; [by left|]. by apply groupText_chars.
    + rewrite elem_of_app. right. by left.
  - fold (groupText (bytesGroups ip)). split; [by apply parse6_plain|]. split; [by apply groupText_chars|].
    destruct (bytesGroups ip) as [|g [|g' gs]]; try done. rewrite groupText_cons, elem_of_app. right. by left.
Qed.

Lemma ParseIP_string6 ip : length ip = 16%nat -> ParseIP (string6 ip) = Some ip.
Proof.
  intros Hl. destruct (string6_spec ip Hl) as (H1 & H2 & H3). unfold ParseIP.
  rewrite addrKind_colon by done. rewrite decide_False, decide_True by done.
  rewrite containsByte_spec, bool_decide_false by (by apply (chars_not_in _ _ H2)).
  rewrite H1. simpl. f_equal. by apply (bytesGroups_groupBytes 8).
Qed.

(** *** What [ParseIP] accepts holds no bracket *)

Definition addrChar (b : byte) : Prop := b = cDot \/ hexOrColon b.

Lemma isDigit_addrChar b : isDigit b = true -> addrChar b.
Proof. unfold isDigit. intros H. right. right. unfold hexVal. rewrite H. by eexists. Qed.

Lemma parse4Loop_chars s : forall fields val k first dot r,
  parse4Loop fields val k first dot s = Some r -> Forall addrChar s.
Proof.
  induction s as [|c s IH]; intros fields val k first dot r; [constructor|].
  cbn [parse4Loop]. destruct (isDigit c) eqn:E.
  - repeat (case_match; try done). intros Hr. constructor; [by apply isDigit_addrChar|by eapply IH].
  - case_decide; [|done]. repeat (case_match; try done). intros Hr. constructor; [by left|by eapply IH].
Qed.

Lemma parse4_chars s r : parse4 s = Some r -> Forall addrChar s.
Proof. destruct s; [done|]. apply parse4Loop_chars. Qed.

Lemma hexRun_chars s : forall off acc off' v s1,
  hexRun off acc s = Some (off', v, s1) -> exists pre, s = pre ++ s1 /\ Forall addrChar pre.
Proof.
  induction s as [|c s IH]; intros off acc off' v s1; cbn [hexRun].
  - intros [= <- <- <-]. by exists [].
  - destruct (hexVal c) eqn:E.
    + repeat (case_match; try done). intros Hr. destruct (IH _ _ _ _ _ Hr) as (pre & -> & Hp).
      exists (c :: pre). split; [done|]. constructor; [right; right; by eexists|done].
    + intros [= <- <- <-]. by exists [].
Qed.

Lemma parse6Loop_chars rounds : forall acc ell s acc' ell',
  parse6Loop rounds acc ell s = Some (acc', ell', []) -> Forall addrChar s.
Proof.
  induction rounds as [|k IH]; intros acc ell s acc' ell'; cbn [parse6Loop].
  - by intros [= <- <- ->].
  - destruct (hexRun 0 0 s) as [[[off v] s1]|] eqn:E; [|done].
    destruct (hexRun_chars _ _ _ _ _ _ E) as (pre & Hs & Hp).
    repeat (case_match; try done); subst; intros Hr; simplify_eq; try (by eapply parse4_chars).
    + by rewrite app_nil_r.
    + apply Forall_app_2; [done|]. constructor; [right; left; by apply dec_stable|]. by constructor; [right; left|].
    + apply Forall_app_2; [done|]. constructor; [right; left; by apply dec_stable|].
      constructor; [by right; left|by eapply IH].
    + apply Forall_app_2; [done|]. constructor; [right; left; by apply dec_stable|by eapply IH].
Qed.

Lemma ParseIP_hostOk s a : ParseIP s = Some a -> hostOk s.
Proof.
  intros H. assert (Hc : Forall addrChar s).
  { unfold ParseIP in H. repeat (case_match; try done).
    - apply fmap_Some in H as (fs & Hf & _). by eapply parse4_chars.
    - apply fmap_Some in H as (gs & Hf & _). clear -Hf.
      assert (Hfin : forall ell t g, parse6Loop 8 [] ell t ≫= finish6 = Some g -> Forall addrChar t).
      { intros ell t g Hb. apply bind_Some in Hb as ([[acc ell'] r] & H1 & H2).
        destruct r; [by eapply parse6Loop_chars|done]. }
      unfold parse6 in Hf. destruct s as [|c1 [|c2 s]]; [by eapply Hfin..|].
      destruct (_ && _) eqn:E; [|by eapply Hfin]. apply andb_true_iff in E as [E1%bool_decide_eq_true E2%bool_decide_eq_true].
      subst. constructor; [by right; left|]. constructor; [by right; left|].
      destruct s; [constructor|by eapply Hfin]. }
  rewrite Forall_forall in Hc. split; intros Hin; destruct (Hc _ Hin) as [?|[?|[? ?]]]; done.
Qed.
