(* ===== verification/GoCrypto.v ===== *)
(** * SHA-1 and Base64

    What src/internal/rfc8441_raw_h2.go uses of crypto/sha1 and encoding/base64,
    executable, with the facts the WebSocket handshake needs. *)

From S2P Require Import Prelude.

(** ** SHA-1 *)

(** Rotation of a 32-bit word to the left. *)
Definition rotl (n x : Z) : Z := Z.lor (u32 (Z.shiftl x n)) (Z.shiftr x (32 - n)).

(** The padded message: a one bit, zeros, the length in bits. *)
Definition sha1Pad (m : bytes) : bytes :=
  m ++ Byte.x80 :: replicate (Z.to_nat ((55 - zlen m) mod 64)) Byte.x00 ++ be_bytes 8 (8 * zlen m).

(** The list cut in pieces of [n], the last one possibly shorter. *)
Fixpoint chunks {A} (fuel n : nat) (l : list A) : list (list A) :=
  match fuel, l with
  | S k, _ :: _ => take n l :: chunks k n (drop n l)
  | _, _ => []
  end.
Definition chunksOf {A} (n : nat) (l : list A) : list (list A) := chunks (length l) n l.

(** The message schedule, last word first. *)
Fixpoint sha1Extend (k : nat) (ws : list Z) : list Z :=
  match k with
  | O => ws
  | S k =>
      let w i := nth i ws 0 in
      sha1Extend k (rotl 1 (Z.lxor (Z.lxor (w 2%nat) (w 7%nat)) (Z.lxor (w 13%nat) (w 15%nat))) :: ws)
  end.
Definition sha1Schedule (block : bytes) : list Z := reverse (sha1Extend 64 (reverse (be_val <$> chunksOf 4 block))).

Definition sha1State : Type := Z * Z * Z * Z * Z.
Definition sha1F (t : nat) (b c d : Z) : Z * Z :=
  if (t <? 20)%nat then (Z.lxor (Z.land b (Z.lxor c d)) d, 0x5A827999)
  else if (t <? 40)%nat then (Z.lxor (Z.lxor b c) d, 0x6ED9EBA1)
  else if (t <? 60)%nat then (Z.lor (Z.land (Z.lor b c) d) (Z.land b c), 0x8F1BBCDC)
  else (Z.lxor (Z.lxor b c) d, 0xCA62C1D6).
Definition sha1Round (st : sha1State * nat) (w : Z) : sha1State * nat :=
  let '((a, b, c, d, e), t) := st in
  let '(f, k) := sha1F t b c d in
  ((u32 (rotl 5 a + f + e + w + k), a, rotl 30 b, c, d), S t).
Definition sha1Block (h : sha1State) (block : bytes) : sha1State :=
  let '((a, b, c, d, e), _) := fold_left sha1Round (sha1Schedule block) (h, 0%nat) in
  let '(h0, h1, h2, h3, h4) := h in
  (u32 (h0 + a), u32 (h1 + b), u32 (h2 + c), u32 (h3 + d), u32 (h4 + e)).

(** [sha1.Sum(m)]. *)
Definition sha1Sum (m : bytes) : bytes :=
  let '(a, b, c, d, e) :=
    fold_left sha1Block (chunksOf 64 (sha1Pad m)) (0x67452301, 0xEFCDAB89, 0x98BADCFE, 0x10325476, 0xC3D2E1F0) in
  be_bytes 4 a ++ be_bytes 4 b ++ be_bytes 4 c ++ be_bytes 4 d ++ be_bytes 4 e.

(** ** Base64 *)

Definition b64Alphabet : bytes := str2b "ABCDEFGHIJKLMNOPQRSTUVWXYZabcdefghijklmnopqrstuvwxyz0123456789+/".
Definition b64Char (v : Z) : byte := nth (Z.to_nat (Z.land v 63)) b64Alphabet Byte.x00.
Definition cPad : byte := Byte.x3d.

(** [base64.StdEncoding.EncodeToString(src)]. *)
Fixpoint b64Encode (src : bytes) : bytes :=
  match src with
  | x :: y :: z :: rest =>
      let v := b2z x * 65536 + b2z y * 256 + b2z z in
      b64Char (Z.shiftr v 18) :: b64Char (Z.shiftr v 12) :: b64Char (Z.shiftr v 6) :: b64Char v :: b64Encode rest
  | [x; y] =>
      let v := b2z x * 65536 + b2z y * 256 in
      [b64Char (Z.shiftr v 18); b64Char (Z.shiftr v 12); b64Char (Z.shiftr v 6); cPad]
  | [x] => let v := b2z x * 65536 in [b64Char (Z.shiftr v 18); b64Char (Z.shiftr v 12); cPad; cPad]
  | [] => []
  end.

(** ** Facts *)

Lemma length_sha1Sum m : length (sha1Sum m) = 20%nat.
Proof. unfold sha1Sum. destruct (fold_left _ _ _) as [[[[a b] c] d] e]. by rewrite !length_app, !length_be_bytes. Qed.

Lemma length_b64Encode src : zlen (b64Encode src) = 4 * ((zlen src + 2) / 3).
Proof.
  remember (length src) as n eqn:Hn. revert src Hn. induction (lt_wf n) as [n _ IH]. intros [|x [|y [|z rest]]] ->; try done.
  cbn [b64Encode]. rewrite !zlen_cons, (IH (length rest)) by (simpl; lia).
  replace (1 + (1 + (1 + zlen rest)) + 2) with (zlen rest + 2 + 1 * 3) by lia. rewrite Z.div_add by lia. lia.
Qed.

Lemma chunks_concat {A} fuel n (l : list A) : (0 < n)%nat -> (length l <= fuel)%nat -> concat (chunks fuel n l) = l.
Proof.
  intros Hn. revert l. induction fuel as [|k IH]; intros [|x l] Hl; simpl in *; try done; [lia|].
  change (x :: l) with ([x] ++ l). rewrite IH by (rewrite length_drop; simpl; lia). apply take_drop.
Qed.
Lemma chunksOf_concat {A} n (l : list A) : (0 < n)%nat -> concat (chunksOf n l) = l.
Proof. intros Hn. by apply chunks_concat. Qed.

(** The test vectors of FIPS 180 and RFC 4648. *)
Example sha1_abc : b64Encode (sha1Sum (str2b "abc")) = str2b "qZk+NkcGgWq6PiVxeFDCbJzQ2J0=".
Proof. vm_compute. reflexivity. Qed.
Example sha1_two_blocks :
  b64Encode (sha1Sum (str2b "abcdbcdecdefdefgefghfghighijhijkijkljklmklmnlmnomnopnopq")) = str2b "hJg+RBw70m66rkqh+VEp5eVGcPE=".
Proof. vm_compute. reflexivity. Qed.
Example b64_vectors : b64Encode <$> [str2b ""; str2b "f"; str2b "fo"; str2b "foo"; str2b "foob"]
  = [str2b ""; str2b "Zg=="; str2b "Zm8="; str2b "Zm9v"; str2b "Zm9vYg=="].
Proof. vm_compute. reflexivity. Qed.
