(* ===== verification/SocksAddr.v ===== *)
(** * SOCKS addresses

    The address codec of src/internal/socksaddr.go, the reading of an address
    from a stream ([readAddrPort], src/internal/socks5.go), and the two ways a
    UDP session computes the key of a peer (src/internal/outline_udp_session.go). *)

From S2P Require Import Prelude GoNet.

(** [b\[lo:hi\]] of a byte slice and the index expression [b\[i\]]. *)
Definition sliceR (b : bytes) (lo hi : nat) : res bytes :=
  if ((hi <? lo) || (length b <? hi))%nat then Panic "slice bounds out of range"
  else Ok (take (hi - lo) (drop lo b)).
Definition indexR (b : bytes) (i : nat) : res byte :=
  match b !! i with Some x => Ok x | None => Panic "index out of range" end.

(** [parseSocksAddrAt(b, off)]: host, port and the offset after the port. *)
Definition parseSocksAddrAt (b : bytes) (off : nat) : res (bytes * bytes * nat) :=
  if (length b <? off + 1)%nat then Err (errMsg "short")
  else
    atyp ← indexR b off;
    let off := S off in
    '(host, off) ←
      (if b2z atyp =? 1 then
         if (length b <? off + 4 + 2)%nat then Err (errMsg "short ipv4")
         else a ← sliceR b off (off + 4); Ok (ipString a, (off + 4)%nat)
       else if b2z atyp =? 3 then
         if (length b <? off + 1)%nat then Err (errMsg "short domain len")
         else
           l ← indexR b off;
           let l := Z.to_nat (b2z l) in
           let off := S off in
           if (length b <? off + l + 2)%nat then Err (errMsg "short domain")
           else h ← sliceR b off (off + l); Ok (h, (off + l)%nat)
       else if b2z atyp =? 4 then
         if (length b <? off + 16 + 2)%nat then Err (errMsg "short ipv6")
         else a ← sliceR b off (off + 16); Ok (ipString a, (off + 16)%nat)
       else Err (errMsg "bad atyp"));
    p ← sliceR b off (off + 2);
    Ok (host, itoa (be_val p), (off + 2)%nat).

(** [parseSocksAddrFromPlain(plain)]. *)
Definition parseSocksAddrFromPlain (plain : bytes) : res (bytes * bytes * nat) := parseSocksAddrAt plain 0.

(** [readAddrPort(r, atyp)]. *)
Definition readAddrPort (atyp : byte) : RM (bytes * bytes) :=
  host ←
    (if b2z atyp =? 1 then b ← readFull 4; mret (ipString b)
     else if b2z atyp =? 3 then
       l ← readFull 1;
       readFull (b2z (default Byte.x00 (head l)))
     else if b2z atyp =? 4 then b ← readFull 16; mret (ipString b)
     else rm_err (errMsg "bad atyp"));
  pb ← readFull 2;
  mret (host, itoa (be_val pb)).

(** ** Keys of UDP peers *)

(** [addrKey]: the address type, 16 address bytes (four for IPv4), port, domain. *)
Record addrKey := AddrKey { atyp : byte; ip : bytes; port : Z; domain : bytes }.

#[global] Instance addrKey_eq_dec : EqDecision addrKey.
Proof. solve_decision. Defined.
#[global] Instance addrKey_countable : Countable addrKey :=
  inj_countable' (fun k => (atyp k, ip k, port k, domain k))
    (fun '(a, i, p, d) => AddrKey a i p d) ltac:(by intros []).

Definition zeroIP : bytes := replicate 16 Byte.x00.
Definition ip4Key (a : bytes) : bytes := a ++ replicate 12 Byte.x00.

(** [parseAddrKeyFromPlain(plain)]: [Ok None] is the result with [ok = false]. *)
Definition parseAddrKeyFromPlain (plain : bytes) : res (option (addrKey * nat)) :=
  if (length plain <? 1)%nat then Ok None
  else
    t ← indexR plain 0;
    let off := 1%nat in
    r ←
      (if b2z t =? 1 then
         if (length plain <? off + 4 + 2)%nat then Ok None
         else a ← sliceR plain off (off + 4); Ok (Some (ip4Key a, [], (off + 4)%nat))
       else if b2z t =? 4 then
         if (length plain <? off + 16 + 2)%nat then Ok None
         else a ← sliceR plain off (off + 16); Ok (Some (a, [], (off + 16)%nat))
       else if b2z t =? 3 then
         if (length plain <? off + 1)%nat then Ok None
         else
           l ← indexR plain off;
           let l := Z.to_nat (b2z l) in
           let off := S off in
           if (length plain <? off + l + 2)%nat then Ok None
           else d ← sliceR plain off (off + l); Ok (Some (zeroIP, d, (off + l)%nat))
       else Ok None);
    match r with
    | None => Ok None
    | Some (a, d, off) =>
        p1 ← indexR plain off; p2 ← indexR plain (S off);
        Ok (Some (AddrKey t a (Z.lor (Z.shiftl (b2z p1) 8) (b2z p2)) d, (off + 2)%nat))
    end.

(** [addrKeyFromHostPort(hp)]. *)
Definition addrKeyFromHostPort (hp : bytes) : option addrKey :=
  match SplitHostPort hp with
  | Ok (host, portStr) =>
      match parseUint 16 portStr with
      | None => None
      | Some p =>
          match ParseIP host with
          | Some a =>
              match To4 a with
              | Some a4 => Some (AddrKey Byte.x01 (ip4Key a4) p [])
              | None => Some (AddrKey Byte.x04 a p [])
              end
          | None => Some (AddrKey Byte.x03 zeroIP p host)
          end
      end
  | _ => None
  end.

#[local] Arguments be_bytes : simpl never.

(** ** Lemmas *)

(** An encoded address: its type byte, its body, and how it is shown and keyed. *)
Inductive saddr :=
| A4 (a : bytes)
| A6 (a : bytes)
| ADomain (d : bytes).

Definition addrWF (a : saddr) : Prop :=
  match a with
  | A4 a => length a = 4%nat
  | A6 a => length a = 16%nat
  | ADomain d => (length d <= 255)%nat
  end.
Definition addrType (a : saddr) : byte :=
  match a with A4 _ => Byte.x01 | A6 _ => Byte.x04 | ADomain _ => Byte.x03 end.
Definition addrBody (a : saddr) : bytes :=
  match a with A4 a => a | A6 a => a | ADomain d => z2b (zlen d) :: d end.
Definition encodeAddr (a : saddr) (p : Z) : bytes := addrType a :: addrBody a ++ be_bytes 2 p.
Definition addrHost (a : saddr) : bytes :=
  match a with A4 a => ipString a | A6 a => ipString a | ADomain d => d end.
Definition addrKeyOf (a : saddr) (p : Z) : addrKey :=
  match a with
  | A4 a => AddrKey Byte.x01 (ip4Key a) p []
  | A6 a => AddrKey Byte.x04 a p []
  | ADomain d => AddrKey Byte.x03 zeroIP p d
  end.

Lemma sliceR_app pre mid post :
  sliceR (pre ++ mid ++ post) (length pre) (length pre + length mid) = Ok mid.
Proof.
  unfold sliceR. rewrite (proj2 (Nat.ltb_ge _ _)), (proj2 (Nat.ltb_ge _ _)) by (rewrite ?length_app; lia). simpl.
  rewrite drop_app_length. replace (length pre + length mid - length pre)%nat with (length mid) by lia.
  by rewrite take_app_length.
Qed.

Lemma sliceR_at b pre mid post lo hi :
  b = pre ++ mid ++ post -> lo = length pre -> hi = (length pre + length mid)%nat -> sliceR b lo hi = Ok mid.
Proof. intros -> -> ->. apply sliceR_app. Qed.

Lemma indexR_app pre x post : indexR (pre ++ x :: post) (length pre) = Ok x.
Proof. unfold indexR. by rewrite list_lookup_middle. Qed.

Lemma indexR_at b pre x post i : b = pre ++ x :: post -> i = length pre -> indexR b i = Ok x.
Proof. intros -> ->. apply indexR_app. Qed.

Lemma length_encodeAddr a p : length (encodeAddr a p) = (3 + length (addrBody a))%nat.
Proof. unfold encodeAddr. simpl. rewrite length_app, length_be_bytes. lia. Qed.

(** Two bytes and the port they carry. *)
Lemma be_bytes2_val x y : be_bytes 2 (be_val [x; y]) = [x; y] /\ 0 <= be_val [x; y] < 65536.
Proof.
  pose proof (be_val_bound [x; y]) as Hb. change (2 ^ (8 * zlen [x; y])) with 65536 in Hb. split; [|done].
  unfold be_val in *. rewrite be_acc_cons. rewrite be_acc_cons. unfold be_acc, be_bytes; cbn [fold_left].
  change (8 * Z.of_nat 0) with 0. change (8 * Z.of_nat 1) with 8. rewrite Z.shiftr_0_r, Z.shiftr_div_pow2 by lia. change (2 ^ 8) with 256. rewrite !Z.mul_0_l, !Z.add_0_l.
  pose proof (b2z_range x); pose proof (b2z_range y).
  rewrite Z.div_add_l, (Z.div_small (b2z y)), Z.add_0_r, z2b_b2z by lia. f_equal. f_equal.
  apply b2z_inj. rewrite b2z_z2b, Z.add_comm, Z.mod_add by lia. apply Z.mod_small; lia.
Qed.

Lemma be_val2 x y : be_val [x; y] = Z.lor (Z.shiftl (b2z x) 8) (b2z y).
Proof. done. Qed.

Lemma b2z_len_domain (d : bytes) : (length d <= 255)%nat -> Z.to_nat (b2z (z2b (zlen d))) = length d.
Proof. intros. unfold zlen. rewrite b2z_z2b_small; lia. Qed.

Lemma encodeAddr_app pre a p rest :
  pre ++ encodeAddr a p ++ rest = (pre ++ [addrType a]) ++ addrBody a ++ be_bytes 2 p ++ rest.
Proof. unfold encodeAddr. simpl. by rewrite <- !app_assoc. Qed.

(** Parsing an encoded address anywhere in a buffer. *)
Lemma parseSocksAddrAt_encode pre a p rest :
  addrWF a -> 0 <= p < 65536 ->
  parseSocksAddrAt (pre ++ encodeAddr a p ++ rest) (length pre)
  = Ok (addrHost a, itoa p, (length pre + length (encodeAddr a p))%nat).
Proof.
  intros Hw Hp. rewrite length_encodeAddr, encodeAddr_app.
  set (b := (pre ++ [addrType a]) ++ addrBody a ++ be_bytes 2 p ++ rest).
  assert (Hlen : length b = (length pre + 3 + length (addrBody a) + length rest)%nat)
    by (unfold b; rewrite !length_app, length_be_bytes; simpl; lia).
  assert (Hpt : sliceR b (length pre + 1 + length (addrBody a)) (length pre + 1 + length (addrBody a) + 2) = Ok (be_bytes 2 p)).
  { apply (sliceR_at _ (pre ++ [addrType a] ++ addrBody a) _ rest);
      [unfold b; by rewrite <- !app_assoc|rewrite !length_app; simpl; lia|rewrite !length_app, length_be_bytes; simpl; lia]. }
  unfold parseSocksAddrAt. rewrite (proj2 (Nat.ltb_ge _ _)) by lia.
  rewrite (indexR_at b pre (addrType a) (addrBody a ++ be_bytes 2 p ++ rest) (length pre))
    by (done || (unfold b; by rewrite <- app_assoc)).
  cbn [mbind res_bind]. destruct a as [a|a|d]; simpl in Hw; cbn [addrType addrBody addrHost] in *.
  - change (b2z Byte.x01 =? 1) with true. cbn iota.
    rewrite (proj2 (Nat.ltb_ge _ _)) by lia.
    rewrite (sliceR_at b (pre ++ [Byte.x01]) a (be_bytes 2 p ++ rest)) by (done || (rewrite length_app; simpl; lia)).
    cbn [mbind res_bind]. rewrite Hw in Hpt.
    replace (S (length pre) + 4)%nat with (length pre + 1 + 4)%nat by lia. rewrite Hpt. cbn [mbind res_bind].
    rewrite be_val_be_bytes by lia. do 2 f_equal. lia.
  - change (b2z Byte.x04 =? 1) with false. change (b2z Byte.x04 =? 3) with false. change (b2z Byte.x04 =? 4) with true. cbn iota.
    rewrite (proj2 (Nat.ltb_ge _ _)) by lia.
    rewrite (sliceR_at b (pre ++ [Byte.x04]) a (be_bytes 2 p ++ rest)) by (done || (rewrite length_app; simpl; lia)).
    cbn [mbind res_bind]. rewrite Hw in Hpt.
    replace (S (length pre) + 16)%nat with (length pre + 1 + 16)%nat by lia. rewrite Hpt. cbn [mbind res_bind].
    rewrite be_val_be_bytes by lia. do 2 f_equal. lia.
  - change (b2z Byte.x03 =? 1) with false. change (b2z Byte.x03 =? 3) with true. cbn iota. simpl length in *.
    rewrite (proj2 (Nat.ltb_ge _ _)) by lia.
    rewrite (indexR_at b (pre ++ [Byte.x03]) (z2b (zlen d)) (d ++ be_bytes 2 p ++ rest))
      by (done || (rewrite length_app; simpl; lia)).
    cbn [mbind res_bind]. rewrite b2z_len_domain by done. rewrite (proj2 (Nat.ltb_ge _ _)) by lia.
    rewrite (sliceR_at b (pre ++ [Byte.x03; z2b (zlen d)]) d (be_bytes 2 p ++ rest))
      by ((unfold b; by rewrite <- !app_assoc) || (rewrite length_app; simpl; lia)).
    cbn [mbind res_bind].
    replace (S (S (length pre)) + length d)%nat with (length pre + 1 + S (length d))%nat by lia.
    rewrite Hpt. cbn [mbind res_bind]. rewrite be_val_be_bytes by lia. do 2 f_equal. lia.
Qed.

Lemma parseAddrKeyFromPlain_encode a p rest :
  addrWF a -> 0 <= p < 65536 ->
  parseAddrKeyFromPlain (encodeAddr a p ++ rest) = Ok (Some (addrKeyOf a p, length (encodeAddr a p))).
Proof.
  intros Hw Hp. rewrite length_encodeAddr. change (encodeAddr a p ++ rest) with ([] ++ encodeAddr a p ++ rest).
  rewrite encodeAddr_app. set (b := ([] ++ [addrType a]) ++ addrBody a ++ be_bytes 2 p ++ rest).
  assert (Hlen : length b = (3 + length (addrBody a) + length rest)%nat)
    by (unfold b; rewrite !length_app, length_be_bytes; simpl; lia).
  destruct (be_bytes 2 p) as [|x [|y [|? ?]]] eqn:Ebe; try (apply (f_equal length) in Ebe; rewrite length_be_bytes in Ebe; discriminate Ebe).
  assert (Hv : Z.lor (Z.shiftl (b2z x) 8) (b2z y) = p) by (rewrite <- be_val2, <- Ebe; apply be_val_be_bytes; lia).
  assert (H1 : indexR b (1 + length (addrBody a)) = Ok x).
  { apply (indexR_at _ (addrType a :: addrBody a) _ (y :: rest)); [unfold b; by simpl|done]. }
  assert (H2 : indexR b (S (1 + length (addrBody a))) = Ok y).
  { apply (indexR_at _ (addrType a :: addrBody a ++ [x]) _ rest);
      [unfold b; simpl; by rewrite <- app_assoc|simpl; rewrite length_app; simpl; lia]. }
  unfold parseAddrKeyFromPlain. rewrite (proj2 (Nat.ltb_ge _ _)) by lia.
  rewrite (indexR_at b [] (addrType a) (addrBody a ++ x :: y :: rest) 0) by done.
  cbn [mbind res_bind]. destruct a as [a|a|d]; simpl in Hw; cbn [addrType addrBody addrKeyOf] in *.
  - change (b2z Byte.x01 =? 1) with true. cbn iota. rewrite (proj2 (Nat.ltb_ge _ _)) by lia.
    rewrite (sliceR_at b [Byte.x01] a (x :: y :: rest)) by (done || (simpl; lia)).
    cbn [mbind res_bind]. rewrite Hw in H1, H2. cbn [Nat.add] in *. rewrite H1. cbn [mbind res_bind]. rewrite H2.
    cbn [mbind res_bind]. rewrite Hv, Hw. done.
  - change (b2z Byte.x04 =? 1) with false. change (b2z Byte.x04 =? 4) with true. cbn iota. rewrite (proj2 (Nat.ltb_ge _ _)) by lia.
    rewrite (sliceR_at b [Byte.x04] a (x :: y :: rest)) by (done || (simpl; lia)).
    cbn [mbind res_bind]. rewrite Hw in H1, H2. cbn [Nat.add] in *. rewrite H1. cbn [mbind res_bind]. rewrite H2.
    cbn [mbind res_bind]. rewrite Hv, Hw. done.
  - change (b2z Byte.x03 =? 1) with false. change (b2z Byte.x03 =? 4) with false. change (b2z Byte.x03 =? 3) with true.
    cbn iota. simpl length in *. rewrite (proj2 (Nat.ltb_ge _ _)) by lia.
    rewrite (indexR_at b [Byte.x03] (z2b (zlen d)) (d ++ x :: y :: rest)) by done.
    cbn [mbind res_bind]. rewrite b2z_len_domain by done. rewrite (proj2 (Nat.ltb_ge _ _)) by lia.
    rewrite (sliceR_at b [Byte.x03; z2b (zlen d)] d (x :: y :: rest)) by done.
    cbn [mbind res_bind]. cbn [Nat.add] in *. rewrite H1. cbn [mbind res_bind]. rewrite H2. cbn [mbind res_bind].
    rewrite Hv. do 3 f_equal. lia.
Qed.

Lemma readAddrPort_encode a p rest e :
  addrWF a -> 0 <= p < 65536 ->
  readAddrPort (addrType a) (Rd (addrBody a ++ be_bytes 2 p ++ rest) e) = (Ok (addrHost a, itoa p), Rd rest e).
Proof.
  intros Hw Hp.
  assert (Hport : forall h : bytes, (pb ← readFull 2; mret (h, itoa (be_val pb))) (Rd (be_bytes 2 p ++ rest) e)
    = (Ok (h, itoa p), Rd rest e)).
  { intros h. rewrite (RM_bind_Ok _ _ _ (be_bytes 2 p) (Rd rest e)).
    - by rewrite be_val_be_bytes by lia.
    - apply readFull_app. unfold zlen. by rewrite length_be_bytes. }
  unfold readAddrPort. destruct a as [a|a|d]; simpl in Hw; cbn [addrType addrBody addrHost].
  - change (b2z Byte.x01 =? 1) with true. cbn iota.
    rewrite (RM_bind_Ok _ _ _ (ipString a) (Rd (be_bytes 2 p ++ rest) e)); [apply Hport|].
    erewrite RM_bind_Ok; [reflexivity|]. apply readFull_app. unfold zlen. by rewrite Hw.
  - change (b2z Byte.x04 =? 1) with false. change (b2z Byte.x04 =? 3) with false. change (b2z Byte.x04 =? 4) with true. cbn iota.
    rewrite (RM_bind_Ok _ _ _ (ipString a) (Rd (be_bytes 2 p ++ rest) e)); [apply Hport|].
    erewrite RM_bind_Ok; [reflexivity|]. apply readFull_app. unfold zlen. by rewrite Hw.
  - change (b2z Byte.x03 =? 1) with false. change (b2z Byte.x03 =? 3) with true. cbn iota.
    rewrite (RM_bind_Ok _ _ _ d (Rd (be_bytes 2 p ++ rest) e)); [apply Hport|].
    erewrite RM_bind_Ok; [|apply (readFull_app [z2b (zlen d)]); done].
    simpl. apply readFull_app. unfold zlen in *. rewrite b2z_z2b_small; lia.
Qed.

(** Cutting [n] bytes and a port off a long enough buffer. *)
Lemma cut_port n (r : bytes) :
  (n + 2 <= length r)%nat ->
  exists body p rest, r = body ++ be_bytes 2 p ++ rest /\ length body = n /\ 0 <= p < 65536.
Proof.
  intros H. rewrite <- (take_drop n r). pose proof (length_drop r n) as Hd.
  destruct (drop n r) as [|x [|y rest]]; simpl in Hd; try lia.
  destruct (be_bytes2_val x y) as [E1 E2].
  exists (take n r), (be_val [x; y]), rest. rewrite E1, length_take. split; [done|]. split; [lia|done].
Qed.

Lemma cut_addr pre t (body rest : bytes) a p :
  addrType a = t -> addrBody a = body ->
  pre ++ t :: body ++ be_bytes 2 p ++ rest = pre ++ encodeAddr a p ++ rest.
Proof. intros <- <-. unfold encodeAddr. simpl. by rewrite <- app_assoc. Qed.

(** Every buffer either holds an encoded address at [length pre] or is refused. *)
Lemma parseSocksAddrAt_cases pre r :
  (exists a p rest, addrWF a /\ 0 <= p < 65536 /\ pre ++ r = pre ++ encodeAddr a p ++ rest)
  \/ (exists e, parseSocksAddrAt (pre ++ r) (length pre) = Err e).
Proof.
  unfold parseSocksAddrAt. rewrite length_app. case_match; [right; eauto|].
  destruct r as [|t r]; [simpl in *; rewrite Nat.add_0_r in *; apply Nat.ltb_ge in H; lia|]. clear H.
  rewrite (indexR_app pre t r). cbn [mbind res_bind].
  destruct (b2z t =? 1) eqn:E1; [|destruct (b2z t =? 3) eqn:E3; [|destruct (b2z t =? 4) eqn:E4; [|right; eauto]]].
  - case_match eqn:Hg; [right; eauto|]. left. apply Nat.ltb_ge in Hg. simpl in Hg. zbool.
    destruct (cut_port 4 r ltac:(lia)) as (body & p & rest & -> & Hb & Hp).
    exists (A4 body), p, rest. split; [done|]. split; [done|]. apply cut_addr; [|done]. by apply b2z_inj.
  - case_match eqn:Hg; [right; eauto|]. apply Nat.ltb_ge in Hg. simpl in Hg. zbool.
    destruct r as [|l r]; [simpl in Hg; lia|].
    rewrite (indexR_at _ (pre ++ [t]) l r) by ((by rewrite <- app_assoc) || (rewrite length_app; simpl; lia)).
    cbn [mbind res_bind]. case_match eqn:Hg2; [right; eauto|]. left. apply Nat.ltb_ge in Hg2. simpl in Hg2.
    pose proof (b2z_range l).
    destruct (cut_port (Z.to_nat (b2z l)) r ltac:(lia)) as (body & p & rest & -> & Hb & Hp).
    exists (ADomain body), p, rest. split; [simpl; lia|]. split; [done|].
    change (t :: l :: body ++ ?x) with (t :: (l :: body) ++ x).
    apply cut_addr; [by apply b2z_inj|]. simpl. f_equal. unfold zlen. rewrite Hb, Z2Nat.id by lia. apply z2b_b2z.
  - case_match eqn:Hg; [right; eauto|]. left. apply Nat.ltb_ge in Hg. simpl in Hg. zbool.
    destruct (cut_port 16 r ltac:(lia)) as (body & p & rest & -> & Hb & Hp).
    exists (A6 body), p, rest. split; [done|]. split; [done|]. apply cut_addr; [|done]. by apply b2z_inj.
Qed.

Lemma parseAddrKeyFromPlain_cases b :
  (exists a p rest, addrWF a /\ 0 <= p < 65536 /\ b = encodeAddr a p ++ rest)
  \/ parseAddrKeyFromPlain b = Ok None.
Proof.
  unfold parseAddrKeyFromPlain. destruct b as [|t r]; [by right|]. change (length (t :: r) <? 1)%nat with false. cbn iota.
  change (indexR (t :: r) 0) with (Ok t). cbn [mbind res_bind].
  destruct (b2z t =? 1) eqn:E1; [|destruct (b2z t =? 4) eqn:E4; [|destruct (b2z t =? 3) eqn:E3; [|by right]]].
  - case_match eqn:Hg; [by right|]. left. apply Nat.ltb_ge in Hg. simpl in Hg. zbool.
    destruct (cut_port 4 r ltac:(lia)) as (body & p & rest & -> & Hb & Hp).
    exists (A4 body), p, rest. split; [done|]. split; [done|]. apply (cut_addr []); [|done]. by apply b2z_inj.
  - case_match eqn:Hg; [by right|]. left. apply Nat.ltb_ge in Hg. simpl in Hg. zbool.
    destruct (cut_port 16 r ltac:(lia)) as (body & p & rest & -> & Hb & Hp).
    exists (A6 body), p, rest. split; [done|]. split; [done|]. apply (cut_addr []); [|done]. by apply b2z_inj.
  - case_match eqn:Hg; [by right|]. apply Nat.ltb_ge in Hg. simpl in Hg. zbool.
    destruct r as [|l r]; [simpl in Hg; lia|]. change (indexR (t :: l :: r) 1) with (Ok l).
    cbn [mbind res_bind]. case_match eqn:Hg2; [by right|]. left. apply Nat.ltb_ge in Hg2. simpl in Hg2.
    pose proof (b2z_range l).
    destruct (cut_port (Z.to_nat (b2z l)) r ltac:(lia)) as (body & p & rest & -> & Hb & Hp).
    exists (ADomain body), p, rest. split; [simpl; lia|]. split; [done|].
    change (t :: l :: body ++ ?x) with (t :: (l :: body) ++ x).
    apply (cut_addr []); [by apply b2z_inj|]. simpl. f_equal. unfold zlen. rewrite Hb, Z2Nat.id by lia. apply z2b_b2z.
Qed.

(** *** Host strings and keys *)

Lemma digits_portOk p : 0 <= p < 65536 -> portOk (itoa p) /\ parseUint 16 (itoa p) = Some p.
Proof.
  intros Hp. destruct (itoa_spec p ltac:(lia)) as (Hd & Hne & Hv). split.
  - rewrite Forall_forall in Hd. unfold portOk. repeat split; intros Hin; by specialize (Hd _ Hin).
  - unfold parseUint. destruct (itoa p) eqn:E; [done|]. rewrite Hv.
    by rewrite (proj2 (Z.ltb_lt p (2 ^ 16))) by lia.
Qed.

Lemma joinWith_Forall (P : byte -> Prop) sep l :
  Forall P sep -> Forall (Forall P) l -> Forall P (joinWith sep l).
Proof.
  intros Hs Hl. destruct Hl as [|x l Hx Hl]; [constructor|]. simpl. apply Forall_app_2; [done|].
  induction Hl as [|y l Hy _ IH]; [constructor|]. simpl. repeat apply Forall_app_2; done.
Qed.

Lemma string4_hostOk a : hostOk (string4 a).
Proof.
  assert (H : Forall (fun b => isDigit b = true \/ b = cDot) (string4 a)).
  { apply joinWith_Forall; [repeat constructor; by right|]. apply Forall_fmap, Forall_true. intros b. simpl.
    pose proof (b2z_range b). destruct (itoa_spec (b2z b) ltac:(lia)) as (Hd & _).
    eapply Forall_impl; [exact Hd|]. by left. }
  rewrite Forall_forall in H. split; intros Hin; by destruct (H _ Hin).
Qed.

Lemma string6_hostOk a : length a = 16%nat -> hostOk (string6 a).
Proof. intros Hl. destruct (string6_spec a Hl) as (_ & H & _). split; by apply (chars_not_in _ _ H). Qed.

Lemma ipString_hostOk a : (length a = 4 \/ length a = 16)%nat -> hostOk (ipString a).
Proof.
  intros Hl. unfold ipString. destruct (To4 a) eqn:E; [apply string4_hostOk|].
  destruct Hl as [Hl|Hl]; [|by apply string6_hostOk]. unfold To4 in E. by rewrite Hl in E.
Qed.

Lemma ParseIP_ipString a :
  (length a = 4 \/ length a = 16)%nat -> ParseIP (ipString a) = To16 a.
Proof.
  intros Hl. unfold ipString, To16. destruct (To4 a) as [a4|] eqn:E.
  - unfold To4 in E. destruct Hl as [Hl|Hl]; rewrite Hl in *; simpl in *.
    + simplify_eq. by apply ParseIP_string4.
    + case_bool_decide as Hp; simplify_eq. rewrite ParseIP_string4 by (rewrite length_drop; lia).
      f_equal. rewrite <- (take_drop 12 a) at 2. by rewrite Hp.
  - unfold To4 in E. destruct Hl as [Hl|Hl]; rewrite Hl in *; simpl in *; [done|]. by apply ParseIP_string6.
Qed.

Lemma To4_prefix a : length a = 4%nat -> To4 (v4InV6Prefix ++ a) = Some a.
Proof. destruct a as [|? [|? [|? [|? [|? ?]]]]]; done. Qed.

(** An IPv4 address in IPv6 form. *)
Definition mapped (a : bytes) : bool := bool_decide (take 12 a = v4InV6Prefix).

(** The key computed from the printed form of an address is the key of the address,
    except that an IPv4-mapped IPv6 address is keyed as IPv4. *)
Definition hostKeyOf (a : saddr) (p : Z) : addrKey :=
  match a with
  | A4 a => addrKeyOf (A4 a) p
  | A6 a => if mapped a then addrKeyOf (A4 (drop 12 a)) p else addrKeyOf (A6 a) p
  | ADomain d => addrKeyOf (ADomain d) p
  end.

(** A domain is printed as it is: it must not be read back as an address or break the brackets. *)
Definition domainOk (a : saddr) : Prop :=
  match a with ADomain d => hostOk d /\ ParseIP d = None | _ => True end.

Lemma addrKeyFromHostPort_spec a p :
  addrWF a -> domainOk a -> 0 <= p < 65536 ->
  addrKeyFromHostPort (JoinHostPort (addrHost a) (itoa p)) = Some (hostKeyOf a p).
Proof.
  intros Hw Hd Hp. destruct (digits_portOk p Hp) as [Hpo Hpu]. unfold addrKeyFromHostPort.
  destruct a as [a|a|d]; simpl in *.
  - rewrite split_join by (done || apply ipString_hostOk; auto). rewrite Hpu, ParseIP_ipString by auto.
    unfold To16. rewrite Hw. cbn [Nat.eqb]. by rewrite To4_prefix.
  - rewrite split_join by (done || apply ipString_hostOk; auto). rewrite Hpu, ParseIP_ipString by auto.
    unfold To16, To4, mapped. rewrite Hw. cbn [Nat.eqb andb].
    rewrite Hw. cbn [Nat.eqb andb]. by destruct (bool_decide (take 12 a = v4InV6Prefix)).
  - destruct Hd as [Hh Hn]. rewrite split_join by done. by rewrite Hpu, Hn.
Qed.

(** ** Properties *)

(** C40: the SOCKS address parser is total and exact. At any offset within a buffer it
    returns (h, port, off) if and only if an encoded IPv4, IPv6 or domain address with a
    16-bit port starts there, h is its printed host, port the decimal port and off the
    offset of the first byte after it; every other buffer is refused with an error,
    never with a panic. The encodings are those of RFC 1928: type 1 and 4 bytes, type 4
    and 16 bytes, or type 3, a length byte and the name; then the big-endian port. *)
Theorem socks_addr_parse_exact (pre r : bytes) :
  (forall h port off,
     parseSocksAddrAt (pre ++ r) (length pre) = Ok (h, port, off)
     <-> exists a p rest, addrWF a /\ 0 <= p < 65536 /\ r = encodeAddr a p ++ rest
           /\ h = addrHost a /\ port = itoa p /\ off = (length pre + length (encodeAddr a p))%nat)
  /\ (forall w, parseSocksAddrAt (pre ++ r) (length pre) <> Panic w)
  /\ (forall a p, encodeAddr a p = match a with
        | A4 ip => Byte.x01 :: ip | A6 ip => Byte.x04 :: ip
        | ADomain d => Byte.x03 :: z2b (zlen d) :: d end ++ [z2b (p / 256); z2b p]).
Proof.
  split; [|split].
  - intros h port off. split.
    + intros E. destruct (parseSocksAddrAt_cases pre r) as [(a & p & rest & Hw & Hp & Er)|[e He]]; [|congruence].
      apply app_inv_head in Er. subst r. rewrite parseSocksAddrAt_encode in E by done. exists a, p, rest. naive_solver.
    + intros (a & p & rest & Hw & Hp & -> & -> & -> & ->). by apply parseSocksAddrAt_encode.
  - intros w E. destruct (parseSocksAddrAt_cases pre r) as [(a & p & rest & Hw & Hp & Er)|[e He]]; [|congruence].
    rewrite Er, parseSocksAddrAt_encode in E by done. congruence.
  - intros a p. unfold encodeAddr, be_bytes. change (8 * Z.of_nat 1) with 8. change (8 * Z.of_nat 0) with 0.
    rewrite Z.shiftr_0_r, Z.shiftr_div_pow2 by lia. by destruct a.
Qed.

(** Replies of a UDP session find their subscriber: the key computed from an
    incoming packet's header is the key under which [Subscribe] filed the printed
    address of that peer, for IPv4, IPv6 and domain peers; the only exception is an
    IPv6 address that embeds an IPv4 one, which is filed under the IPv4 address. *)
Theorem udp_reply_key_agrees (a : saddr) (p : Z) (data : bytes)
    (Hwf : addrWF a) (Hdom : domainOk a) (Hport : 0 <= p < 65536) :
  exists k off host port,
    parseAddrKeyFromPlain (encodeAddr a p ++ data) = Ok (Some (k, off))
    /\ parseSocksAddrFromPlain (encodeAddr a p ++ data) = Ok (host, port, off)
    /\ drop off (encodeAddr a p ++ data) = data
    /\ (addrKeyFromHostPort (JoinHostPort host port) = Some k
        <-> (forall b, a = A6 b -> mapped b = false)).
Proof.
  exists (addrKeyOf a p), (length (encodeAddr a p)), (addrHost a), (itoa p).
  split; [by apply parseAddrKeyFromPlain_encode|].
  split; [by apply (parseSocksAddrAt_encode [])|]. split; [by rewrite drop_app_length|].
  rewrite addrKeyFromHostPort_spec by done. destruct a as [a|a|d]; simpl; try naive_solver.
  destruct (mapped a) eqn:Em; split; try done.
  - intros H. by rewrite (H a eq_refl) in Em.
  - by intros _ b [= <-].
Qed.

Lemma udp_reply_key_agrees_witness :
  exists k off host port,
    parseAddrKeyFromPlain (encodeAddr (A4 [Byte.x01; Byte.x01; Byte.x01; Byte.x01]) 53 ++ [Byte.xaa]) = Ok (Some (k, off))
    /\ parseSocksAddrFromPlain (encodeAddr (A4 [Byte.x01; Byte.x01; Byte.x01; Byte.x01]) 53 ++ [Byte.xaa]) = Ok (host, port, off)
    /\ drop off (encodeAddr (A4 [Byte.x01; Byte.x01; Byte.x01; Byte.x01]) 53 ++ [Byte.xaa]) = [Byte.xaa]
    /\ (addrKeyFromHostPort (JoinHostPort host port) = Some k
        <-> (forall b, A4 [Byte.x01; Byte.x01; Byte.x01; Byte.x01] = A6 b -> mapped b = false)).
Proof. apply udp_reply_key_agrees; [reflexivity|exact I|lia]. Defined.
