(* ===== verification/Config.v ===== *)
(** * Configuration

    The configuration records of src/internal/config.go, the defaults [LoadConfig]
    fills in, and [normalizeHostPort]. Reading the file and decoding YAML are
    parameters. Durations are nanoseconds, strings byte sequences. *)

From S2P Require Import Prelude GoNum GoNet.

Record TunConfig := {
  Device : bytes; MTU : Z; NetNS : bytes; Tun_Debug : bool;
  UDPMaxFlows : Z; UDPIdleTimeout : Z; UDPGCInterval : Z; UDPFlowIdleTimeout : Z; UDPMaxDstPerPort : Z }.

Record HealthcheckConfig := {
  Interval : Z; Timeout : Z; FailThreshold : Z; SuccessThreshold : Z;
  MinInterval : Z; MaxInterval : Z; Jitter : Z; BackoffFactor : float64; RTTScale : float64 }.

Record SelectionConfig := {
  StickyTTL : Z; Cooldown : Z; MinSwitch : Z;
  WarmStandbyN : Z; WarmStandbyInterval : Z;
  StandbyKeepalive : bool; StandbyKeepaliveInterval : Z; StandbyKeepaliveProbeTimeout : Z }.

Record UpstreamConfig := {
  Name : bytes; Weight : float64; TCPWSS : bytes; UDPWSS : bytes; Cipher : bytes; Secret : bytes }.

Record ProbeConfig := {
  EnableTCP : bool; EnableUDP : bool; Probe_Timeout : Z;
  TCPTarget : bytes; UDPTarget : bytes; DNSName : bytes; DNSType : bytes }.

Record Config := {
  Listen_SOCKS5 : bytes; Tun : TunConfig; WebSocket_Debug : bool;
  Healthcheck : HealthcheckConfig; Selection : SelectionConfig;
  Upstreams : list UpstreamConfig; Probe : ProbeConfig; DisableProbes : bool; Fwmark : Z }.

(** [normalizeHostPort(s)]. *)
Definition normalizeHostPort (s : bytes) : bytes :=
  match SplitHostPort s with
  | Ok _ => s
  | _ =>
      if (2 <=? countByte s cColon) && negb (bool_decide (head s = Some cLBr)) then
        match lastIndexByte s cColon with
        | None => s
        | Some idx =>
            if ((0 <? idx) && (idx <? length s - 1))%nat then
              let host := take idx s in
              let port := drop (S idx) s in
              if ((0 <? length port)%nat && forallb isDigit port) && bool_decide (is_Some (ParseIP host))
              then [cLBr] ++ host ++ [cRBr; cColon] ++ port
              else s
            else s
        end
      else s
  end.

(** [if x == 0 { x = d }] on integers, floats and strings. *)
Definition orZ (x d : Z) : Z := if x =? 0 then d else x.
Definition orF (x d : float64) : float64 := if f64_eqb x (S754_zero false) then d else x.
Definition orS (x d : bytes) : bytes := match x with [] => d | _ => x end.

(** The defaults of [LoadConfig], past the two error returns. *)
Definition tunDefaults (t : TunConfig) : TunConfig := {|
  Device := Device t; MTU := orZ (MTU t) 1500; NetNS := NetNS t; Tun_Debug := Tun_Debug t;
  UDPMaxFlows := orZ (UDPMaxFlows t) 4096;
  UDPIdleTimeout := orZ (UDPIdleTimeout t) (60 * Second);
  UDPGCInterval := orZ (UDPGCInterval t) (10 * Second);
  UDPFlowIdleTimeout := orZ (UDPFlowIdleTimeout t) (30 * Second);
  UDPMaxDstPerPort := orZ (UDPMaxDstPerPort t) 512 |}.

Definition hcDefaults (h : HealthcheckConfig) : HealthcheckConfig := {|
  Interval := orZ (Interval h) (5 * Second);
  Timeout := orZ (Timeout h) (3 * Second);
  FailThreshold := orZ (FailThreshold h) 2;
  SuccessThreshold := orZ (SuccessThreshold h) 1;
  MinInterval := orZ (MinInterval h) (1 * Second);
  MaxInterval := orZ (MaxInterval h) (30 * Second);
  Jitter := orZ (Jitter h) (200 * Millisecond);
  BackoffFactor := orF (BackoffFactor h) (f64_const 16 10);
  RTTScale := orF (RTTScale h) (f64_const 25 100) |}.

Definition selDefaults (s : SelectionConfig) : SelectionConfig := {|
  StickyTTL := orZ (StickyTTL s) (60 * Second);
  Cooldown := orZ (Cooldown s) (20 * Second);
  MinSwitch := orZ (MinSwitch s) (20 * Millisecond);
  WarmStandbyN := orZ (WarmStandbyN s) 2;
  WarmStandbyInterval := orZ (WarmStandbyInterval s) (2 * Second);
  StandbyKeepalive := StandbyKeepalive s;
  StandbyKeepaliveInterval := orZ (StandbyKeepaliveInterval s) (15 * Second);
  StandbyKeepaliveProbeTimeout := orZ (StandbyKeepaliveProbeTimeout s) (1200 * Millisecond) |}.

Definition probeDefaults (p : ProbeConfig) : ProbeConfig :=
  let both := negb (EnableTCP p) && negb (EnableUDP p) in {|
  EnableTCP := both || EnableTCP p;
  EnableUDP := both || EnableUDP p;
  Probe_Timeout := orZ (Probe_Timeout p) (2 * Second);
  TCPTarget := orS (TCPTarget p) (str2b "example.com:80");
  UDPTarget := normalizeHostPort (orS (UDPTarget p) (str2b "1.1.1.1:53"));
  DNSName := orS (DNSName p) (str2b "example.com");
  DNSType := orS (DNSType p) (str2b "A") |}.

Definition weightDefault (u : UpstreamConfig) : UpstreamConfig := {|
  Name := Name u;
  Weight := if f64_leb (Weight u) (S754_zero false) then f64_of_int 1 else Weight u;
  TCPWSS := TCPWSS u; UDPWSS := UDPWSS u; Cipher := Cipher u; Secret := Secret u |}.

Definition applyDefaults (c : Config) : Config := {|
  Listen_SOCKS5 := Listen_SOCKS5 c; Tun := tunDefaults (Tun c); WebSocket_Debug := WebSocket_Debug c;
  Healthcheck := hcDefaults (Healthcheck c); Selection := selDefaults (Selection c);
  Upstreams := weightDefault <$> Upstreams c; Probe := probeDefaults (Probe c);
  DisableProbes := DisableProbes c; Fwmark := Fwmark c |}.

Section LoadConfig.
(** [os.ReadFile] and [yaml.Unmarshal] into a zero [Config]. *)
Context (readFile : bytes -> res bytes) (unmarshal : bytes -> res Config).

(** [LoadConfig(path)]. *)
Definition LoadConfig (path : bytes) : res Config :=
  b ← readFile path; c ← unmarshal b; Ok (applyDefaults c).
End LoadConfig.

(** ** Lemmas *)

Lemma orZ_idemp x d : d <> 0 -> orZ (orZ x d) d = orZ x d.
Proof. intros. unfold orZ. destruct (x =? 0) eqn:E; [by rewrite (proj2 (Z.eqb_neq _ _))|by rewrite E]. Qed.
Lemma orF_idemp x d : f64_eqb d (S754_zero false) = false -> orF (orF x d) d = orF x d.
Proof. intros H. unfold orF. destruct (f64_eqb x _) eqn:E; [by rewrite H|by rewrite E]. Qed.
Lemma orS_idemp x d : orS (orS x d) d = orS x d.
Proof. by destruct x, d. Qed.
Lemma orZ_nonzero x d : d <> 0 -> orZ x d <> 0.
Proof. unfold orZ. case_tests; zbool; done. Qed.

Lemma isDigit_portOk p : forallb isDigit p = true -> portOk p.
Proof.
  rewrite forallb_forall. intros H. unfold portOk.
  repeat split; intros Hin; apply list_elem_of_In in Hin; by specialize (H _ Hin).
Qed.


Lemma lastIndexByte_Some s c i :
  lastIndexByte s c = Some i -> exists l r, s = l ++ c :: r /\ length l = i /\ c ∉ r.
Proof.
  revert i. induction s as [|b s IH]; intros i; [done|]. simpl.
  destruct (lastIndexByte s c) as [j|] eqn:E.
  - intros [= <-]. destruct (IH j eq_refl) as (l & r & -> & <- & Hr). exists (b :: l), r. done.
  - case_decide; [|done]. intros [= <-]. subst. exists [], s. split; [done|]. split; [done|].
    clear IH. induction s as [|b s IHs]; [by intros []%elem_of_nil|]. simpl in E.
    destruct (lastIndexByte s c); [done|]. case_decide; [done|]. apply not_elem_of_cons. split; [done|by apply IHs].
Qed.

Lemma countByte_app l r c : countByte (l ++ r) c = countByte l c + countByte r c.
Proof. unfold countByte. by rewrite filter_app, zlen_app. Qed.

Lemma countByte_pos s c : 0 < countByte s c -> c ∈ s.
Proof.
  unfold countByte. intros H. destruct (filter _ s) as [|x f] eqn:E; [done|].
  assert (Hx : x ∈ x :: f) by by left. rewrite <- E in Hx. apply list_elem_of_filter in Hx as [-> ?]. done.
Qed.

Lemma countByte_none s c : c ∉ s -> countByte s c = 0.
Proof.
  intros H. unfold countByte. destruct (filter _ s) as [|x f] eqn:E; [done|]. exfalso.
  assert (Hx : x ∈ x :: f) by by left. rewrite <- E in Hx. apply list_elem_of_filter in Hx as [-> ?]. done.
Qed.

Lemma drop_S_app (l r : bytes) c : drop (S (length l)) (l ++ c :: r) = r.
Proof. induction l; [done|]. simpl. done. Qed.

(** Either nothing changes or brackets are put around an address before its port. *)
Lemma normalizeHostPort_cases s :
  normalizeHostPort s = s
  \/ exists host port a, s = host ++ cColon :: port /\ ParseIP host = Some a /\ cColon ∈ host
       /\ forallb isDigit port = true /\ port <> [] /\ normalizeHostPort s = JoinHostPort host port.
Proof.
  unfold normalizeHostPort. destruct (SplitHostPort s) as [?|?|?]; [by left|..];
  (destruct (_ && negb _) eqn:Eg; [|by left]; destruct (lastIndexByte s cColon) as [idx|] eqn:Ei; [|by left];
   destruct (_ && (_ <? _)%nat) eqn:Er; [|by left]; destruct (_ && bool_decide _) eqn:Ep; [|by left]; right;
   apply lastIndexByte_Some in Ei as (l & r & -> & <- & Hr);
   rewrite take_app_length in *;
   replace (drop (S (length l)) (l ++ cColon :: r)) with r in *
     by (by rewrite drop_S_app);
   apply andb_true_iff in Ep as [[Hl Hd]%andb_true_iff [a Ha]%bool_decide_eq_true]; apply Nat.ltb_lt in Hl;
   apply andb_true_iff in Eg as [Hc _]; apply Z.leb_le in Hc;
   rewrite countByte_app in Hc; change (cColon :: r) with ([cColon] ++ r) in Hc;
   rewrite countByte_app, (countByte_none r) in Hc by done; change (countByte [cColon] cColon) with 1 in Hc;
   assert (Hin : cColon ∈ l) by (apply countByte_pos; lia);
   exists l, r, a; repeat split; try done; [intros ->; simpl in Hl; lia|];
   unfold JoinHostPort; by rewrite containsByte_spec, bool_decide_true).
Qed.

Lemma normalizeHostPort_idemp s : normalizeHostPort (normalizeHostPort s) = normalizeHostPort s.
Proof.
  destruct (normalizeHostPort_cases s) as [E|(host & port & a & _ & Ha & _ & Hd & _ & ->)]; [by rewrite !E|].
  unfold normalizeHostPort. rewrite split_join; [done|by eapply ParseIP_hostOk|by apply isDigit_portOk].
Qed.

Lemma weightDefault_pos u : f64_leb (Weight (weightDefault u)) (S754_zero false) = false.
Proof. simpl. case_match; [reflexivity|done]. Qed.

Lemma weightDefault_idemp u : weightDefault (weightDefault u) = weightDefault u.
Proof. unfold weightDefault at 1. rewrite weightDefault_pos. by destruct u. Qed.

Lemma tunDefaults_idemp t : tunDefaults (tunDefaults t) = tunDefaults t.
Proof. unfold tunDefaults; simpl. by rewrite !orZ_idemp. Qed.
Lemma hcDefaults_idemp h : hcDefaults (hcDefaults h) = hcDefaults h.
Proof. unfold hcDefaults; simpl. rewrite !orZ_idemp by done. by rewrite !orF_idemp by reflexivity. Qed.
Lemma selDefaults_idemp s : selDefaults (selDefaults s) = selDefaults s.
Proof. unfold selDefaults; simpl. by rewrite !orZ_idemp. Qed.
Lemma probeDefaults_idemp p : probeDefaults (probeDefaults p) = probeDefaults p.
Proof.
  unfold probeDefaults; simpl. rewrite orZ_idemp, !orS_idemp by done.
  assert (orS (normalizeHostPort (orS (UDPTarget p) (str2b "1.1.1.1:53"))) (str2b "1.1.1.1:53")
    = normalizeHostPort (orS (UDPTarget p) (str2b "1.1.1.1:53"))) as ->.
  { set (t := orS (UDPTarget p) _). assert (t <> []) by (unfold t; by destruct (UDPTarget p)).
    destruct (normalizeHostPort_cases t) as [->|(h & q & a & _ & _ & _ & _ & _ & ->)]; [by destruct t|].
    unfold JoinHostPort. case_match; [done|]. by destruct h. }
  rewrite normalizeHostPort_idemp. by destruct (EnableTCP p), (EnableUDP p).
Qed.

Lemma applyDefaults_idemp c : applyDefaults (applyDefaults c) = applyDefaults c.
Proof.
  unfold applyDefaults; simpl.
  rewrite tunDefaults_idemp, hcDefaults_idemp, selDefaults_idemp, probeDefaults_idemp. f_equal.
  rewrite <- list_fmap_compose. apply list_fmap_ext. intros i u _. apply weightDefault_idemp.
Qed.

(** ** Properties *)

(** A configuration that was loaded is complete: every load of a readable,
    well-formed file succeeds, no duration, threshold or limit is left at zero, at
    least one probe is enabled, every upstream's weight is positive (or NaN), and
    loading the effective configuration again changes nothing. *)
Theorem load_config_complete (readFile : bytes -> res bytes) (unmarshal : bytes -> res Config)
    (path b : bytes) (c0 : Config)
    (Hread : readFile path = Ok b) (Hyaml : unmarshal b = Ok c0) :
  exists c, LoadConfig readFile unmarshal path = Ok c
    /\ applyDefaults c = c
    /\ Interval (Healthcheck c) <> 0 /\ Timeout (Healthcheck c) <> 0
    /\ FailThreshold (Healthcheck c) <> 0 /\ SuccessThreshold (Healthcheck c) <> 0
    /\ MinInterval (Healthcheck c) <> 0 /\ MaxInterval (Healthcheck c) <> 0
    /\ WarmStandbyInterval (Selection c) <> 0 /\ StandbyKeepaliveInterval (Selection c) <> 0
    /\ UDPMaxFlows (Tun c) <> 0 /\ UDPGCInterval (Tun c) <> 0
    /\ EnableTCP (Probe c) || EnableUDP (Probe c) = true
    /\ Forall (fun u => f64_leb (Weight u) (S754_zero false) = false) (Upstreams c)
    /\ (Interval (Healthcheck c0) <> 0 -> Interval (Healthcheck c) = Interval (Healthcheck c0)).
Proof.
  exists (applyDefaults c0). unfold LoadConfig. rewrite Hread. cbn [mbind res_bind]. rewrite Hyaml. split; [done|].
  split; [apply applyDefaults_idemp|]. cbn [applyDefaults Healthcheck hcDefaults Interval Timeout FailThreshold
    SuccessThreshold MinInterval MaxInterval Selection selDefaults WarmStandbyInterval StandbyKeepaliveInterval Tun
    tunDefaults UDPMaxFlows UDPGCInterval Probe probeDefaults EnableTCP EnableUDP Upstreams].
  repeat (split; [by apply orZ_nonzero|]).
  split; [by destruct (EnableTCP (Probe c0)), (EnableUDP (Probe c0))|].
  split; [|unfold orZ; case_match; zbool; done].
  apply Forall_fmap, Forall_true. intros u. apply weightDefault_pos.
Qed.

(** C39: [normalizeHostPort] keeps a string that [net.SplitHostPort] accepts,
    brackets exactly an IP address in front of an all-digit port so that
    the result splits into that address and that port, and otherwise leaves its
    input alone; normalizing twice is normalizing once. *)
Theorem normalize_host_port_correct (s : bytes) :
  normalizeHostPort (normalizeHostPort s) = normalizeHostPort s
  /\ ((exists hp, SplitHostPort s = Ok hp) -> normalizeHostPort s = s)
  /\ (normalizeHostPort s = s
      \/ exists host port a, s = host ++ cColon :: port /\ ParseIP host = Some a
           /\ forallb isDigit port = true /\ port <> []
           /\ SplitHostPort (normalizeHostPort s) = Ok (host, port)).
Proof.
  split; [apply normalizeHostPort_idemp|]. split; [intros [hp E]; unfold normalizeHostPort; by rewrite E|].
  destruct (normalizeHostPort_cases s) as [->|(host & port & a & Hs & Ha & _ & Hd & Hne & ->)]; [by left|right].
  exists host, port, a. repeat split; try done.
  apply split_join; [by eapply ParseIP_hostOk|by apply isDigit_portOk].
Qed.

(** An IPv6 address written without a port is not left alone: when its last
    group is all digits and the rest is an address too, that group becomes a port. *)
Theorem normalize_mangles_bare_ipv6 :
  is_Some (ParseIP (str2b "fe80::1:53")) /\
  normalizeHostPort (str2b "fe80::1:53") = str2b "[fe80::1]:53".
Proof. split; [vm_compute; by eexists|by vm_compute]. Qed.

Definition zeroConfig : Config := {|
  Listen_SOCKS5 := []; Tun := {| Device := []; MTU := 0; NetNS := []; Tun_Debug := false; UDPMaxFlows := 0;
    UDPIdleTimeout := 0; UDPGCInterval := 0; UDPFlowIdleTimeout := 0; UDPMaxDstPerPort := 0 |};
  WebSocket_Debug := false;
  Healthcheck := {| Interval := 0; Timeout := 0; FailThreshold := 0; SuccessThreshold := 0; MinInterval := 0;
    MaxInterval := 0; Jitter := 0; BackoffFactor := S754_zero false; RTTScale := S754_zero false |};
  Selection := {| StickyTTL := 0; Cooldown := 0; MinSwitch := 0; WarmStandbyN := 0; WarmStandbyInterval := 0;
    StandbyKeepalive := false; StandbyKeepaliveInterval := 0; StandbyKeepaliveProbeTimeout := 0 |};
  Upstreams := []; Probe := {| EnableTCP := false; EnableUDP := false; Probe_Timeout := 0; TCPTarget := [];
    UDPTarget := []; DNSName := []; DNSType := [] |}; DisableProbes := false; Fwmark := 0 |}.

Lemma load_config_complete_witness :
  exists c, LoadConfig (fun _ => Ok []) (fun _ => Ok zeroConfig) [] = Ok c
    /\ applyDefaults c = c
    /\ Interval (Healthcheck c) <> 0 /\ Timeout (Healthcheck c) <> 0
    /\ FailThreshold (Healthcheck c) <> 0 /\ SuccessThreshold (Healthcheck c) <> 0
    /\ MinInterval (Healthcheck c) <> 0 /\ MaxInterval (Healthcheck c) <> 0
    /\ WarmStandbyInterval (Selection c) <> 0 /\ StandbyKeepaliveInterval (Selection c) <> 0
    /\ UDPMaxFlows (Tun c) <> 0 /\ UDPGCInterval (Tun c) <> 0
    /\ EnableTCP (Probe c) || EnableUDP (Probe c) = true
    /\ Forall (fun u => f64_leb (Weight u) (S754_zero false) = false) (Upstreams c)
    /\ (Interval (Healthcheck zeroConfig) <> 0 -> Interval (Healthcheck c) = Interval (Healthcheck zeroConfig)).
Proof. apply (load_config_complete _ _ [] []); reflexivity. Defined.
