(* ===== verification/Metrics.v ===== *)
(** * Metrics

    The telemetry of src/internal/metrics.go: the counters and gauges, the
    observations the other components make ([mev]) and how each changes the
    telemetry, the classification of failures and the text the handler serves. *)

From stdpp Require Import sorting.
From S2P Require Import Prelude GoNum GoNet.

Record telemetry := {
  enabled : bool;
  selectedTotal : gmap bytes Z; failuresTotal : gmap bytes Z; m_healthy : gmap bytes float64;
  wsPackets : gmap bytes Z; wsBytes : gmap bytes Z;
  wsDialSum : gmap bytes float64; wsDialCount : gmap bytes Z;
  upstreamBytes : gmap bytes Z; tunPackets : gmap bytes Z; tunBytes : gmap bytes Z;
  tunDrops : gmap bytes Z; tunErrors : gmap bytes Z;
  probeRuns : gmap bytes Z; probeDurSum : gmap bytes float64; probeDurCount : gmap bytes Z }.

(** The zero value of the package variable [metrics]. *)
Definition telemetryZero : telemetry := {|
  enabled := false; selectedTotal := ∅; failuresTotal := ∅; m_healthy := ∅; wsPackets := ∅; wsBytes := ∅;
  wsDialSum := ∅; wsDialCount := ∅; upstreamBytes := ∅; tunPackets := ∅; tunBytes := ∅; tunDrops := ∅;
  tunErrors := ∅; probeRuns := ∅; probeDurSum := ∅; probeDurCount := ∅ |}.

(** [EnablePrometheusMetrics()]. *)
Definition EnablePrometheusMetrics (t : telemetry) : telemetry :=
  if enabled t then t else {|
  enabled := true; selectedTotal := ∅; failuresTotal := ∅; m_healthy := ∅; wsPackets := ∅; wsBytes := ∅;
  wsDialSum := ∅; wsDialCount := ∅; upstreamBytes := ∅; tunPackets := ∅; tunBytes := ∅; tunDrops := ∅;
  tunErrors := ∅; probeRuns := ∅; probeDurSum := ∅; probeDurCount := ∅ |}.

(** ** Failure classes *)

Definition toLowerByte (b : byte) : byte :=
  if (65 <=? b2z b) && (b2z b <=? 90) then z2b (b2z b + 32) else b.
(** [strings.ToLower] of an ASCII string. *)
Definition toLower (s : bytes) : bytes := toLowerByte <$> s.

Fixpoint isPrefix (p s : bytes) : bool :=
  match p, s with
  | [], _ => true
  | a :: p', b :: s' => bool_decide (a = b) && isPrefix p' s'
  | _ :: _, [] => false
  end.
(** [strings.Contains(s, sub)]. *)
Fixpoint contains (sub s : bytes) : bool :=
  isPrefix sub s || match s with [] => false | _ :: s' => contains sub s' end.

(** [err.Error()]. *)
Fixpoint errorText (e : gerror) : string :=
  match e with
  | io_EOF => "EOF"
  | io_ErrUnexpectedEOF => "unexpected EOF"
  | io_ErrShortWrite => "short write"
  | io_ErrClosedPipe => "io: read/write on closed pipe"
  | net_ErrClosed => "use of closed network connection"
  | os_ErrDeadlineExceeded => "i/o timeout"
  | syscall_EPIPE => "broken pipe"
  | syscall_ECONNRESET => "connection reset by peer"
  | context_Canceled => "context canceled"
  | context_DeadlineExceeded => "context deadline exceeded"
  | errSentinel name => name
  | errMsg text => text
  | errWrap pre inner post => pre +:+ errorText inner +:+ post
  end.

(** [failureReason(err)]. *)
Definition failureReason (err : option gerror) : bytes :=
  match err with
  | None => str2b "unknown"
  | Some e =>
      let e := toLower (str2b (errorText e)) in
      let has w := contains (str2b w) e in
      if has "timeout" || has "deadline" then str2b "timeout"
      else if has "tls" || has "x509" || has "certificate" then str2b "tls"
      else if has "dns" || has "no such host" then str2b "dns"
      else if has "refused" then str2b "refused"
      else str2b "other"
  end.

(** ** Observations *)

Inductive mev :=
| observeSelection (upstream proto : bytes)
| observeFailure (upstream proto : bytes) (err : option gerror)
| setHealthy (upstream proto : bytes) (healthy : bool)
| observeWSFrame (direction : bytes) (n : Z)
| observeDial (upstream proto : bytes) (d : Z)
| observeUpstreamTraffic (upstream proto direction : bytes) (n : Z)
| observeTunFrame (direction : bytes) (n : Z)
| observeTunDrop (reason : bytes)
| observeTunError (operation : bytes)
| observeProbe (upstream proto stage : bytes) (err : option gerror) (d : Z).

(** [d.Seconds()]. *)
Definition Seconds (d : Z) : float64 :=
  f64_add (f64_of_int (Z.quot d Second)) (f64_div (f64_of_int (Z.rem d Second)) (f64_of_int 1000000000)).

(** [m[k] += n] on a map of [uint64] and of [float64]; a missing key counts as zero. *)
Definition addU (m : gmap bytes Z) (k : bytes) (n : Z) : gmap bytes Z :=
  <[k := u64 (default 0 (m !! k) + u64 n)]> m.
Definition addF (m : gmap bytes float64) (k : bytes) (x : float64) : gmap bytes float64 :=
  <[k := f64_add (default (S754_zero false) (m !! k)) x]> m.

Definition kUpstream (u p : bytes) : bytes := str2b "upstream=" ++ u ++ str2b ",proto=" ++ p.
Definition kFailure (u p : bytes) (err : option gerror) : bytes :=
  kUpstream u p ++ str2b ",reason=" ++ failureReason err.
Definition kDir (d : bytes) : bytes := str2b "dir=" ++ d.
Definition kTraffic (u p d : bytes) : bytes := kUpstream u p ++ str2b ",dir=" ++ d.
Definition kProbe (u p stage : bytes) (err : option gerror) : bytes :=
  kUpstream u p ++ str2b ",stage=" ++ stage ++ str2b ",result="
  ++ (match err with None => str2b "ok" | Some _ => str2b "error" end).

(** The body of each observation, past the test of [metrics.enabled]. *)
Definition record (t : telemetry) (e : mev) : telemetry :=
  let 'Build_telemetry en sel fail hl wp wb ds dc ub tp tb td te pr ps pc := t in
  match e with
  | observeSelection u p => Build_telemetry en (addU sel (kUpstream u p) 1) fail hl wp wb ds dc ub tp tb td te pr ps pc
  | observeFailure u p err => Build_telemetry en sel (addU fail (kFailure u p err) 1) hl wp wb ds dc ub tp tb td te pr ps pc
  | setHealthy u p h =>
      Build_telemetry en sel fail (<[kUpstream u p := if h then f64_of_int 1 else S754_zero false]> hl)
        wp wb ds dc ub tp tb td te pr ps pc
  | observeWSFrame d n =>
      Build_telemetry en sel fail hl (addU wp (kDir d) 1) (addU wb (kDir d) n) ds dc ub tp tb td te pr ps pc
  | observeDial u p d =>
      Build_telemetry en sel fail hl wp wb (addF ds (kUpstream u p) (Seconds d)) (addU dc (kUpstream u p) 1)
        ub tp tb td te pr ps pc
  | observeUpstreamTraffic u p d n =>
      Build_telemetry en sel fail hl wp wb ds dc (addU ub (kTraffic u p d) n) tp tb td te pr ps pc
  | observeTunFrame d n =>
      Build_telemetry en sel fail hl wp wb ds dc ub (addU tp (kDir d) 1) (addU tb (kDir d) n) td te pr ps pc
  | observeTunDrop r =>
      Build_telemetry en sel fail hl wp wb ds dc ub tp tb (addU td (str2b "reason=" ++ r) 1) te pr ps pc
  | observeTunError op =>
      Build_telemetry en sel fail hl wp wb ds dc ub tp tb td (addU te (str2b "op=" ++ op) 1) pr ps pc
  | observeProbe u p stage err d =>
      Build_telemetry en sel fail hl wp wb ds dc ub tp tb td te (addU pr (kProbe u p stage err) 1)
        (addF ps (kProbe u p stage err) (Seconds d)) (addU pc (kProbe u p stage err) 1)
  end.

(** Each observation does nothing while metrics are disabled. *)
Definition observe (t : telemetry) (e : mev) : telemetry := if enabled t then record t e else t.

(** ** The text format *)

(** [strings.Split(s, sep)] and [strings.SplitN(s, sep, 2)] for a one-byte separator. *)
Fixpoint split (c : byte) (s : bytes) : list bytes :=
  match s with
  | [] => [[]]
  | b :: s' =>
      if decide (b = c) then [] :: split c s'
      else match split c s' with
           | p :: ps => (b :: p) :: ps
           | [] => [[b]]
           end
  end.
Definition splitN2 (c : byte) (s : bytes) : list bytes :=
  match indexByte s c with
  | None => [s]
  | Some i => [take i s; drop (S i) s]
  end.

Definition cComma : byte := Byte.x2c.
Definition cEq : byte := Byte.x3d.
Definition cQuote : byte := Byte.x22.
Definition cBackslash : byte := Byte.x5c.

Definition escapeQuotes (s : bytes) : bytes :=
  s ≫= fun b => if decide (b = cQuote) then [cBackslash; cQuote] else [b].

(** [toPromLabels(s)]. *)
Definition promLabel (p : bytes) : bytes :=
  match splitN2 cEq p with
  | [k; v] => k ++ [cEq; cQuote] ++ escapeQuotes v ++ [cQuote]
  | _ => p
  end.
Definition toPromLabels (s : bytes) : bytes := joinWith [cComma] (promLabel <$> split cComma s).

(** [sort.Strings]: byte-wise lexicographic order. *)
Fixpoint bytes_leb (a b : bytes) : bool :=
  match a, b with
  | [], _ => true
  | _ :: _, [] => false
  | x :: a', y :: b' => if b2z x <? b2z y then true else if b2z y <? b2z x then false else bytes_leb a' b'
  end.
Definition bytes_le (a b : bytes) : Prop := bytes_leb a b = true.
#[global] Instance bytes_le_dec a b : Decision (bytes_le a b).
Proof. unfold bytes_le. apply _. Defined.
Definition sortedKeys {A} (m : gmap bytes A) : list bytes := merge_sort bytes_le (map_to_list m).*1.

Definition cNewline : byte := Byte.x0a.
Definition cSpace : byte := Byte.x20.

(** [%d] of a [uint64] and [%.<prec>f] of a finite [float64], rounded half to even. *)
Definition fmtU (z : Z) : bytes := itoaLoop 20 z [].
Definition roundHalfEven (num den : Z) : Z :=
  let q := num / den in let r := num mod den in
  if 2 * r <? den then q else if den <? 2 * r then q + 1 else if Z.even q then q else q + 1.
Definition padLeft (n : nat) (s : bytes) : bytes := replicate (n - length s) (ch 48) ++ s.
Definition fmtF (prec : nat) (x : float64) : bytes :=
  let body (sg : bool) (n : Z) : bytes :=
    (if sg then str2b "-" else []) ++ itoaLoop 400 (n / 10 ^ Z.of_nat prec) []
    ++ (match prec with O => [] | _ => cDot :: padLeft prec (itoaLoop 400 (n mod 10 ^ Z.of_nat prec) []) end) in
  match x with
  | S754_nan => str2b "NaN"
  | S754_infinity sg => str2b (if sg then "-Inf" else "+Inf")
  | S754_zero sg => body sg 0
  | S754_finite sg m e =>
      body sg (if 0 <=? e then Z.pos m * 2 ^ e * 10 ^ Z.of_nat prec
               else roundHalfEven (Z.pos m * 10 ^ Z.of_nat prec) (2 ^ (- e)))
  end.

(** [writeCounterVec], [writeGaugeVec], [writeSummaryAsCountAndSum], [writeGauge], [writeCounter]. *)
Definition seriesLine (name labels value : bytes) : bytes :=
  name ++ str2b "{" ++ labels ++ str2b "} " ++ value ++ [cNewline].
Definition writeCounterVec (name : bytes) (data : gmap bytes Z) : bytes :=
  sortedKeys data ≫= fun k => seriesLine name (toPromLabels k) (fmtU (default 0 (data !! k))).
Definition writeGaugeVec (name : bytes) (data : gmap bytes float64) : bytes :=
  sortedKeys data ≫= fun k => seriesLine name (toPromLabels k) (fmtF 0 (default (S754_zero false) (data !! k))).
Definition writeSummaryAsCountAndSum (name : bytes) (counts : gmap bytes Z) (sums : gmap bytes float64) : bytes :=
  sortedKeys counts ≫= fun k =>
    let labels := toPromLabels k in
    seriesLine (name ++ str2b "_count") labels (fmtU (default 0 (counts !! k)))
    ++ seriesLine (name ++ str2b "_sum") labels (fmtF 6 (default (S754_zero false) (sums !! k))).
Definition writeGauge (name : bytes) (v : float64) : bytes := name ++ [cSpace] ++ fmtF 6 v ++ [cNewline].
Definition writeCounter (name : bytes) (v : float64) : bytes := name ++ [cSpace] ++ fmtF 0 v ++ [cNewline].

(** The fields of [runtime.MemStats] that are reported; [PauseNs] has 256 entries. *)
Record MemStats := { Alloc : Z; HeapInuse : Z; HeapIdle : Z; HeapReleased : Z; Sys : Z; PauseNs : list Z; NumGC : Z }.

(** [writeRuntimeMemoryMetrics(w)]; [ms.NumGC + 255] is a [uint32] sum. *)
Definition writeRuntimeMemoryMetrics (ms : MemStats) : bytes :=
  writeGauge (str2b "outlinews_go_mem_alloc_bytes") (f64_of_int (Alloc ms))
  ++ writeGauge (str2b "outlinews_go_heap_inuse_bytes") (f64_of_int (HeapInuse ms))
  ++ writeGauge (str2b "outlinews_go_heap_idle_bytes") (f64_of_int (HeapIdle ms))
  ++ writeGauge (str2b "outlinews_go_heap_released_bytes") (f64_of_int (HeapReleased ms))
  ++ writeGauge (str2b "outlinews_go_mem_sys_bytes") (f64_of_int (Sys ms))
  ++ writeGauge (str2b "outlinews_go_gc_last_pause_seconds")
       (f64_div (f64_of_int (default 0 (PauseNs ms !! Z.to_nat (u32 (NumGC ms + 255) mod 256)))) (f64_of_int 1000000000))
  ++ writeCounter (str2b "outlinews_go_gc_cycles_total") (f64_of_int (NumGC ms)).

(** [metricsHandler]: status and body. *)
Definition metricsHandler (t : telemetry) (ms : MemStats) : Z * bytes :=
  if negb (enabled t) then (503, str2b "# metrics disabled" ++ [cNewline])
  else (200,
    writeCounterVec (str2b "outlinews_upstream_selected_total") (selectedTotal t)
    ++ writeCounterVec (str2b "outlinews_upstream_failures_total") (failuresTotal t)
    ++ writeGaugeVec (str2b "outlinews_upstream_healthy") (m_healthy t)
    ++ writeCounterVec (str2b "outlinews_ws_packets_total") (wsPackets t)
    ++ writeCounterVec (str2b "outlinews_ws_bytes_total") (wsBytes t)
    ++ writeSummaryAsCountAndSum (str2b "outlinews_ws_dial_duration_seconds") (wsDialCount t) (wsDialSum t)
    ++ writeCounterVec (str2b "outlinews_upstream_bytes_total") (upstreamBytes t)
    ++ writeCounterVec (str2b "outlinews_tun_packets_total") (tunPackets t)
    ++ writeCounterVec (str2b "outlinews_tun_bytes_total") (tunBytes t)
    ++ writeCounterVec (str2b "outlinews_tun_drops_total") (tunDrops t)
    ++ writeCounterVec (str2b "outlinews_tun_errors_total") (tunErrors t)
    ++ writeCounterVec (str2b "outlinews_probe_runs_total") (probeRuns t)
    ++ writeSummaryAsCountAndSum (str2b "outlinews_probe_duration_seconds") (probeDurCount t) (probeDurSum t)
    ++ writeRuntimeMemoryMetrics ms).

(** ** Lemmas *)

(** *** The key order *)

Lemma bytes_leb_total a b : bytes_leb a b = false -> bytes_leb b a = true.
Proof.
  revert b. induction a as [|x a IH]; intros [|y b]; simpl; try done.
  destruct (Z.ltb_spec (b2z x) (b2z y)); [done|]. destruct (Z.ltb_spec (b2z y) (b2z x)); [done|]. apply IH.
Qed.
#[global] Instance bytes_le_total : Total bytes_le.
Proof. intros a b. unfold bytes_le. destruct (bytes_leb a b) eqn:E; [by left|right]. by apply bytes_leb_total. Qed.
#[global] Instance bytes_le_trans : Transitive bytes_le.
Proof.
  unfold bytes_le. intros a b c. revert b c. induction a as [|x a IH]; intros [|y b] [|z c]; simpl; try done.
  destruct (Z.ltb_spec (b2z x) (b2z y)), (Z.ltb_spec (b2z y) (b2z x)), (Z.ltb_spec (b2z y) (b2z z)),
    (Z.ltb_spec (b2z z) (b2z y)), (Z.ltb_spec (b2z x) (b2z z)), (Z.ltb_spec (b2z z) (b2z x)); try done; try lia.
  apply IH.
Qed.

Lemma sortedKeys_spec {A} (m : gmap bytes A) :
  Sorted bytes_le (sortedKeys m) /\ NoDup (sortedKeys m) /\ forall k, k ∈ sortedKeys m <-> is_Some (m !! k).
Proof.
  unfold sortedKeys. pose proof (merge_sort_Permutation bytes_le (map_to_list m).*1) as Hp.
  split; [apply Sorted_merge_sort; apply _|]. split; [rewrite Hp; apply NoDup_fst_map_to_list|].
  intros k. rewrite Hp, list_elem_of_fmap. split.
  - intros ([k' v] & -> & H%elem_of_map_to_list). by eexists.
  - intros [v H]. exists (k, v). by rewrite elem_of_map_to_list.
Qed.

(** *** Counters *)

Lemma u64_add_u64 a b : u64 (u64 a + b) = u64 (a + b).
Proof. unfold u64. by rewrite Zplus_mod_idemp_l. Qed.
Lemma u64_add_u64_r a b : u64 (a + u64 b) = u64 (a + b).
Proof. unfold u64. by rewrite Zplus_mod_idemp_r. Qed.

(** What an observation adds to the series of a counter. *)
Definition addition := mev -> option (bytes * Z).
Definition total (f : addition) (k : bytes) (es : list mev) : Z :=
  foldr (fun e acc => match f e with Some (k', n) => if decide (k' = k) then n + acc else acc | None => acc end) 0 es.

(** A field that follows [f] event by event holds its totals modulo 2^64. *)
Definition follows (field : telemetry -> gmap bytes Z) (f : addition) : Prop :=
  forall t e, field (record t e) = match f e with Some (k, n) => addU (field t) k n | None => field t end.
Definition u64map (m : gmap bytes Z) : Prop := forall k, u64 (default 0 (m !! k)) = default 0 (m !! k).

Lemma u64map_empty : u64map ∅.
Proof. intros k. by rewrite lookup_empty. Qed.
Lemma u64map_addU m k n : u64map m -> u64map (addU m k n).
Proof.
  intros H k'. unfold addU. destruct (decide (k = k')) as [->|].
  - rewrite lookup_insert_eq. simpl. unfold u64. by rewrite Z.mod_mod.
  - rewrite lookup_insert_ne by done. apply H.
Qed.

Lemma record_enabled t e : enabled (record t e) = enabled t.
Proof. by destruct t, e. Qed.

Lemma counter_total field f es t k :
  follows field f -> u64map (field t) -> enabled t = true ->
  default 0 (field (fold_left observe es t) !! k) = u64 (default 0 (field t !! k) + total f k es).
Proof.
  intros Hf. revert t. induction es as [|e es IH]; intros t Hm Ht; simpl; [by rewrite Z.add_0_r, Hm|].
  unfold observe at 2. rewrite Ht.
  assert (Hm' : u64map (field (record t e))).
  { rewrite Hf. destruct (f e) as [[k' n]|]; [by apply u64map_addU|done]. }
  rewrite IH by (done || by rewrite record_enabled). rewrite Hf. destruct (f e) as [[k' n]|]; [|done].
  unfold addU. destruct (decide (k' = k)) as [->|Hne].
  - rewrite lookup_insert_eq. simpl. rewrite u64_add_u64, <- Z.add_assoc.
    rewrite <- (u64_add_u64_r _ (u64 n + _)), u64_add_u64, u64_add_u64_r. done.
  - by rewrite lookup_insert_ne.
Qed.

Lemma counter_total_empty field f es k :
  follows field f -> field (EnablePrometheusMetrics telemetryZero) = ∅ ->
  default 0 (field (fold_left observe es (EnablePrometheusMetrics telemetryZero)) !! k) = u64 (total f k es).
Proof.
  intros Hf He. rewrite (counter_total field f) by (done || (rewrite He; apply u64map_empty)).
  by rewrite He, lookup_empty.
Qed.

(** *** Labels *)

Lemma split_app c l r : c ∉ l -> split c (l ++ c :: r) = l :: split c r.
Proof.
  induction l as [|b l IH]; simpl; intros Hl; [by rewrite decide_True|].
  apply not_elem_of_cons in Hl as [? Hl]. rewrite decide_False, IH by done. done.
Qed.
Lemma split_last c l : c ∉ l -> split c l = [l].
Proof.
  induction l as [|b l IH]; simpl; intros Hl; [done|].
  apply not_elem_of_cons in Hl as [? Hl]. by rewrite decide_False, IH.
Qed.
Lemma escapeQuotes_id s : cQuote ∉ s -> escapeQuotes s = s.
Proof.
  induction s as [|b s IH]; intros H; [done|]. apply not_elem_of_cons in H as [? H].
  change (escapeQuotes (b :: s)) with ((if decide (b = cQuote) then [cBackslash; cQuote] else [b]) ++ escapeQuotes s).
  rewrite decide_False, IH by done. done.
Qed.
Lemma promLabel_kv k v :
  cEq ∉ k -> cQuote ∉ v -> promLabel (k ++ cEq :: v) = k ++ [cEq; cQuote] ++ v ++ [cQuote].
Proof.
  intros Hk Hv. unfold promLabel, splitN2. rewrite indexByte_app by done. rewrite take_app_length.
  assert (drop (S (length k)) (k ++ cEq :: v) = v) as -> by (clear; by induction k).
  by rewrite escapeQuotes_id.
Qed.

Lemma toPromLabels_kUpstream u p :
  cComma ∉ u /\ cQuote ∉ u -> cComma ∉ p /\ cQuote ∉ p ->
  toPromLabels (kUpstream u p)
  = str2b "upstream=" ++ [cQuote] ++ u ++ [cQuote] ++ str2b ",proto=" ++ [cQuote] ++ p ++ [cQuote].
Proof.
  intros [Hu1 Hu2] [Hp1 Hp2]. unfold toPromLabels, kUpstream.
  change (str2b ",proto=" ++ p) with (cComma :: str2b "proto=" ++ p). rewrite app_assoc.
  rewrite split_app by (rewrite elem_of_app; intros [H|H]; [by vm_compute in H; set_unfold in H; naive_solver|done]).
  rewrite split_last by (rewrite elem_of_app; intros [H|H]; [by vm_compute in H; set_unfold in H; naive_solver|done]).
  cbn [fmap list_fmap joinWith].
  change (str2b "upstream=" ++ u) with (str2b "upstream" ++ cEq :: u).
  change (str2b "proto=" ++ p) with (str2b "proto" ++ cEq :: p).
  rewrite !promLabel_kv; [|by vm_compute; set_solver|done|by vm_compute; set_solver|done].
  simpl. by rewrite <- !app_assoc.
Qed.

(** ** Properties *)

(** The counters count: after any sequence of observations on enabled metrics,
    every selection, failure, probe, drop and byte counter holds the total of the
    observations of its series modulo 2^64, and while metrics are disabled
    observations leave everything unchanged. *)
Theorem metrics_counters_total (es : list mev) (k : bytes) :
  let t := fold_left observe es (EnablePrometheusMetrics telemetryZero) in
  default 0 (selectedTotal t !! k)
    = u64 (total (fun e => match e with observeSelection u p => Some (kUpstream u p, 1) | _ => None end) k es)
  /\ default 0 (failuresTotal t !! k)
    = u64 (total (fun e => match e with observeFailure u p err => Some (kFailure u p err, 1) | _ => None end) k es)
  /\ default 0 (upstreamBytes t !! k)
    = u64 (total (fun e => match e with observeUpstreamTraffic u p d n => Some (kTraffic u p d, n) | _ => None end) k es)
  /\ default 0 (wsBytes t !! k)
    = u64 (total (fun e => match e with observeWSFrame d n => Some (kDir d, n) | _ => None end) k es)
  /\ default 0 (tunDrops t !! k)
    = u64 (total (fun e => match e with observeTunDrop r => Some (str2b "reason=" ++ r, 1) | _ => None end) k es)
  /\ default 0 (probeRuns t !! k)
    = u64 (total (fun e => match e with observeProbe u p s err d => Some (kProbe u p s err, 1) | _ => None end) k es)
  /\ fold_left observe es telemetryZero = telemetryZero.
Proof.
  intros t. unfold t.
  do 6 (split; [apply counter_total_empty; [by intros [] []|done]|]).
  clear t. induction es as [|e es IH]; [done|]. exact IH.
Qed.

(** The served text has a line for every series of a counter, with its value,
    in byte order of the keys and without repetition, and a series of an upstream
    and a protocol is labelled with exactly these two values as long as they hold
    no comma and no quote. *)
Theorem metrics_text_series (m : gmap bytes Z) (name u p : bytes) (v : Z)
    (Hu : cComma ∉ u /\ cQuote ∉ u) (Hp : cComma ∉ p /\ cQuote ∉ p) (Hv : m !! kUpstream u p = Some v) :
  exists before after,
    sortedKeys m = before ++ kUpstream u p :: after
    /\ Sorted bytes_le (sortedKeys m) /\ NoDup (sortedKeys m)
    /\ let line k := seriesLine name (toPromLabels k) (fmtU (default 0 (m !! k))) in
       writeCounterVec name m = (before ≫= line)
         ++ (name ++ str2b "{upstream=" ++ [cQuote] ++ u ++ [cQuote] ++ str2b ",proto=" ++ [cQuote] ++ p ++ [cQuote]
             ++ str2b "} " ++ fmtU v ++ [cNewline])
         ++ (after ≫= line).
Proof.
  destruct (sortedKeys_spec m) as (H1 & H2 & H3).
  assert (Hk : kUpstream u p ∈ sortedKeys m) by (apply H3; by eexists).
  apply list_elem_of_split in Hk as (before & after & E). exists before, after.
  do 3 (split; [done|]). intros line. unfold writeCounterVec. fold line. rewrite E, bind_app. f_equal.
  cbn [mbind list_bind]. f_equal. unfold line. rewrite Hv, toPromLabels_kUpstream by done.
  unfold seriesLine. simpl default. change (str2b "{upstream=") with (str2b "{" ++ str2b "upstream=").
  by rewrite <- !app_assoc.
Qed.

Lemma metrics_text_series_witness :
  let m := {[ kUpstream (str2b "a") (str2b "tcp") := 7 ]} : gmap bytes Z in
  exists before after,
    sortedKeys m = before ++ kUpstream (str2b "a") (str2b "tcp") :: after
    /\ Sorted bytes_le (sortedKeys m) /\ NoDup (sortedKeys m)
    /\ let line k := seriesLine (str2b "n") (toPromLabels k) (fmtU (default 0 (m !! k))) in
       writeCounterVec (str2b "n") m = (before ≫= line)
         ++ (str2b "n" ++ str2b "{upstream=" ++ [cQuote] ++ str2b "a" ++ [cQuote] ++ str2b ",proto=" ++ [cQuote]
             ++ str2b "tcp" ++ [cQuote] ++ str2b "} " ++ fmtU 7 ++ [cNewline])
         ++ (after ≫= line).
Proof. apply metrics_text_series; [split; vm_compute; set_solver..|reflexivity]. Defined.

(** An upstream name with a comma, or with a backslash at its end, breaks the
    label syntax: the comma splits the value, the backslash escapes its closing quote. *)
Theorem metrics_label_injection :
  toPromLabels (kUpstream (str2b "a,b") (str2b "tcp"))
    = str2b "upstream=" ++ [cQuote] ++ str2b "a" ++ [cQuote] ++ str2b ",b,proto=" ++ [cQuote] ++ str2b "tcp" ++ [cQuote]
  /\ toPromLabels (kUpstream [cBackslash] (str2b "tcp"))
    = str2b "upstream=" ++ [cQuote; cBackslash; cQuote] ++ str2b ",proto=" ++ [cQuote] ++ str2b "tcp" ++ [cQuote].
Proof. by split; vm_compute. Qed.
