(* ===== verification/HealthCheck.v ===== *)
(** * Health state of an upstream endpoint

    The per-protocol state [hcState] of src/internal/lb.go, the update after a
    check ([applyHCResult]) and the adaptive interval until the next one. *)

From S2P Require Import Prelude GoNum Config Metrics.

Record hcState := {
  healthy : bool; failCount : Z; successCount : Z; inFlight : bool;
  lastError : option gerror; lastCheckTime : Z; lastRTT : Z; rttEWMA : Z; nextHC : Z; hcEvery : Z }.

(** The zero value, as [NewLoadBalancer] leaves it. *)
Definition hcZero : hcState := {|
  healthy := false; failCount := 0; successCount := 0; inFlight := false; lastError := None;
  lastCheckTime := timeZero; lastRTT := 0; rttEWMA := 0; nextHC := timeZero; hcEvery := 0 |}.

Definition setInFlight (h : hcState) (b : bool) : hcState := {|
  healthy := healthy h; failCount := failCount h; successCount := successCount h; inFlight := b;
  lastError := lastError h; lastCheckTime := lastCheckTime h; lastRTT := lastRTT h; rttEWMA := rttEWMA h;
  nextHC := nextHC h; hcEvery := hcEvery h |}.

Section Intervals.
Context (hc : HealthcheckConfig).

(** The two bounds at the end of both interval functions. *)
Definition clampInterval (next : Z) : Z :=
  let next := if next <? MinInterval hc then MinInterval hc else next in
  if MaxInterval hc <? next then MaxInterval hc else next.

(** [nextIntervalOnFailure(h)]. *)
Definition nextIntervalOnFailure (h : hcState) : Z :=
  let base := MinInterval hc in
  let base := if 0 <? hcEvery h then hcEvery h else base in
  let base := if healthy h then MinInterval hc else base in
  clampInterval (f64_to_int64 (f64_mul (f64_of_int base) (BackoffFactor hc))).

(** [nextIntervalOnSuccess(h)]. *)
Definition nextIntervalOnSuccess (h : hcState) : Z :=
  let base := hcEvery h in
  let base := if base =? 0 then Interval hc else base in
  let base := if successCount h <? 3 then minDur base (Interval hc) else base in
  let add := f64_to_int64 (f64_mul (f64_of_int (rttEWMA h)) (RTTScale hc)) in
  clampInterval (add64 (f64_to_int64 (f64_mul (f64_of_int base) (f64_const 12 10))) add).

(** [applyHCResult(h, err, rtt, name, proto)]: [now] is the first reading of the
    clock, [now'] the one the next check is scheduled from. *)
Definition applyHCResult (rng : Z -> Z) (now now' : Z) (err : option gerror) (rtt : Z) (name proto : bytes)
    (h : hcState) : hcState * list mev :=
  match err with
  | Some _ =>
      let fail := add64 (failCount h) 1 in
      let down := FailThreshold hc <=? fail in
      let h := {| healthy := if down then false else healthy h; failCount := fail; successCount := 0;
                  inFlight := inFlight h; lastError := err; lastCheckTime := now; lastRTT := lastRTT h;
                  rttEWMA := rttEWMA h; nextHC := nextHC h; hcEvery := hcEvery h |} in
      let every := nextIntervalOnFailure h in
      ({| healthy := healthy h; failCount := failCount h; successCount := successCount h;
          inFlight := inFlight h; lastError := lastError h; lastCheckTime := lastCheckTime h; lastRTT := lastRTT h;
          rttEWMA := rttEWMA h; nextHC := timeAdd now' (applyJitter rng every (Jitter hc)); hcEvery := every |},
       if down then [setHealthy name proto false] else [])
  | None =>
      let succ := add64 (successCount h) 1 in
      let ewma := if rttEWMA h =? 0 then rtt
                  else f64_to_int64 (f64_add (f64_mul (f64_of_int (rttEWMA h)) (f64_const 8 10))
                                             (f64_mul (f64_of_int rtt) (f64_const 2 10))) in
      let up := SuccessThreshold hc <=? succ in
      let h := {| healthy := if up then true else healthy h; failCount := 0; successCount := succ;
                  inFlight := inFlight h; lastError := None; lastCheckTime := now; lastRTT := rtt;
                  rttEWMA := ewma; nextHC := nextHC h; hcEvery := hcEvery h |} in
      let every := nextIntervalOnSuccess h in
      ({| healthy := healthy h; failCount := failCount h; successCount := successCount h;
          inFlight := inFlight h; lastError := lastError h; lastCheckTime := lastCheckTime h; lastRTT := lastRTT h;
          rttEWMA := rttEWMA h; nextHC := timeAdd now' (applyJitter rng every (Jitter hc)); hcEvery := every |},
       if up then [setHealthy name proto true] else [])
  end.
End Intervals.

(** ** The intervals are bounded *)

Lemma clampInterval_bounds hc z :
  MinInterval hc <= MaxInterval hc -> MinInterval hc <= clampInterval hc z <= MaxInterval hc.
Proof. intros. unfold clampInterval. case_tests; zbool; lia. Qed.

Lemma applyHCResult_every hc rng now now' err rtt name proto h :
  MinInterval hc <= MaxInterval hc ->
  MinInterval hc <= hcEvery (fst (applyHCResult hc rng now now' err rtt name proto h)) <= MaxInterval hc.
Proof. intros. destruct err; simpl; by apply clampInterval_bounds. Qed.

(** ** Thresholds as an automaton on the history of outcomes *)

(** What the thresholds promise: the endpoint is up or down, with the length of
    the current streak of equal outcomes, positive for successes. *)
Record updown := { up : bool; streak : Z }.
Definition specStep (ft st : Z) (s : updown) (ok : bool) : updown :=
  if ok then let k := Z.max (streak s) 0 + 1 in {| up := if st <=? k then true else up s; streak := k |}
  else let k := Z.max (- streak s) 0 + 1 in {| up := if ft <=? k then false else up s; streak := - k |}.

(** The counters hold one streak, and [n] more outcomes cannot overflow them. *)
Definition countersOk (n : Z) (h : hcState) : Prop :=
  0 <= failCount h /\ 0 <= successCount h /\ (failCount h = 0 \/ successCount h = 0)
  /\ failCount h + n <= maxInt64 /\ successCount h + n <= maxInt64.
Definition absHC (h : hcState) : updown := {| up := healthy h; streak := successCount h - failCount h |}.

Definition isOk (err : option gerror) : bool := match err with None => true | Some _ => false end.

(** One check refines one step of the automaton. *)
Lemma applyHCResult_refines hc rng now now' err rtt name proto h n :
  countersOk (n + 1) h -> 0 <= n ->
  let h' := fst (applyHCResult hc rng now now' err rtt name proto h) in
  absHC h' = specStep (FailThreshold hc) (SuccessThreshold hc) (absHC h) (isOk err) /\ countersOk n h'.
Proof.
  unfold countersOk, absHC. intros (Hf & Hs & Hx & Hm1 & Hm2) Hn.
  unfold maxInt64 in *.
  destruct err; simpl; unfold specStep, add64; simpl; rewrite i64_small by (unfold isI64, minInt64, maxInt64; lia).
  - replace (Z.max (- (successCount h - failCount h)) 0 + 1) with (failCount h + 1) by lia. split; [|lia]. f_equal; lia.
  - replace (Z.max (successCount h - failCount h) 0 + 1) with (successCount h + 1) by lia. split; [|lia]. f_equal; lia.
Qed.

(** A check as the scheduler sees it: clock readings, random draws, outcome, round trip. *)
Record check := { ck_now : Z; ck_now' : Z; ck_rng : Z -> Z; ck_err : option gerror; ck_rtt : Z }.
Definition runCheck (hc : HealthcheckConfig) (name proto : bytes) (h : hcState) (c : check) : hcState :=
  fst (applyHCResult hc (ck_rng c) (ck_now c) (ck_now' c) (ck_err c) (ck_rtt c) name proto h).

Lemma runChecks_refines hc name proto cs h :
  countersOk (zlen cs) h ->
  absHC (fold_left (runCheck hc name proto) cs h)
  = fold_left (specStep (FailThreshold hc) (SuccessThreshold hc)) (isOk ∘ ck_err <$> cs) (absHC h).
Proof.
  revert h. induction cs as [|c cs IH]; intros h Hc; [done|]. cbn [fold_left fmap list_fmap].
  rewrite zlen_cons, Z.add_comm in Hc.
  destruct (applyHCResult_refines hc (ck_rng c) (ck_now c) (ck_now' c) (ck_err c) (ck_rtt c) name proto h _ Hc
    (zlen_nonneg _)) as [H1 H2].
  rewrite IH by done. f_equal. exact H1.
Qed.

(** ** What the automaton means, on histories with the latest outcome first *)

Fixpoint lead (b : bool) (l : list bool) : nat :=
  match l with
  | x :: l' => if Bool.eqb x b then S (lead b l') else O
  | [] => O
  end.

Lemma lead_replicate b n l : (n <= lead b (replicate n b ++ l))%nat.
Proof. induction n as [|n IH]; simpl; [lia|]. rewrite Bool.eqb_reflx. lia. Qed.
Lemma lead_split b n l : (n <= lead b l)%nat -> l = replicate n b ++ drop n l.
Proof.
  revert l. induction n as [|n IH]; intros l H; [done|]. destruct l as [|x l]; simpl in H; [lia|].
  destruct (Bool.eqb_spec x b) as [->|]; [|lia]. simpl. f_equal. apply IH. lia.
Qed.

(** No [ft] failures in a row. *)
Definition noRun (ft : nat) (l : list bool) : Prop := forall a b, l <> a ++ replicate ft false ++ b.
(** Enough successes in a row at some point, and no long run of failures since. *)
Definition upSince (ft st : nat) (l : list bool) : Prop :=
  exists recent older, l = recent ++ replicate st true ++ older /\ noRun ft recent.

Lemma noRun_tail ft x l : noRun ft (x :: l) -> noRun ft l.
Proof. intros H a b E. apply (H (x :: a) b). simpl. by f_equal. Qed.
Lemma noRun_nil ft : (0 < ft)%nat -> noRun ft [].
Proof. intros H a b E. destruct ft; [lia|]. by destruct a. Qed.
Lemma noRun_true ft l : (0 < ft)%nat -> noRun ft l -> noRun ft (true :: l).
Proof.
  intros Hf H a b E. destruct a as [|x a]; [destruct ft; [lia|done]|]. simplify_eq/=. by apply (H a b).
Qed.
Lemma noRun_false ft l t : (lead false (false :: l ++ t) < ft)%nat -> noRun ft l -> noRun ft (false :: l).
Proof.
  intros Hl H a b E. destruct a as [|x a]; simplify_eq/=; [|by apply (H a b)].
  pose proof (lead_replicate false ft (b ++ t)) as Hr. rewrite app_assoc, <- E in Hr. simpl in *. lia.
Qed.

Lemma upSince_ok ft st l :
  (0 < ft)%nat -> upSince ft st (true :: l) <-> (st <= lead true (true :: l))%nat \/ upSince ft st l.
Proof.
  intros Hf. split.
  - intros ([|x recent] & older & E & Hn); simplify_eq/=.
    + left. pose proof (lead_replicate true st older) as Hr. by rewrite <- E in Hr.
    + right. exists recent, older. split; [done|]. by eapply noRun_tail.
  - intros [H|(recent & older & -> & Hn)].
    + exists [], (drop st (true :: l)). split; [by apply lead_split|by apply noRun_nil].
    + exists (true :: recent), older. split; [done|by apply noRun_true].
Qed.

Lemma upSince_fail ft st l :
  (0 < ft)%nat -> (0 < st)%nat ->
  upSince ft st (false :: l) <-> (lead false (false :: l) < ft)%nat /\ upSince ft st l.
Proof.
  intros Hf Hs. split.
  - intros ([|x recent] & older & E & Hn); [destruct st; [lia|done]|]. injection E as <- E. split.
    + destruct (Nat.lt_ge_cases (lead false (false :: l)) ft) as [|Hge]; [done|exfalso].
      apply lead_split in Hge. rewrite E in Hge. set (t := drop ft _) in Hge. clearbody t.
      destruct (Nat.le_gt_cases ft (length (false :: recent))) as [Hl|Hl].
      * apply (Hn [] (drop ft (false :: recent))). simpl app at 1.
        apply (f_equal (take ft)) in Hge. rewrite (take_app_le (replicate _ _)) in Hge by (rewrite length_replicate; lia).
        change (false :: recent ++ ?y) with ((false :: recent) ++ y) in Hge. rewrite take_app_le in Hge by done.
        rewrite (take_ge (replicate _ _)) in Hge by (rewrite length_replicate; lia).
        rewrite <- Hge. symmetry. apply take_drop.
      * apply (f_equal (fun y => y !! length (false :: recent))) in Hge.
        change (false :: recent ++ ?y) with ((false :: recent) ++ y) in Hge.
        rewrite lookup_app_r, Nat.sub_diag in Hge by done. destruct st; [lia|]. simpl (_ !! 0%nat) in Hge.
        rewrite lookup_app_l in Hge by (rewrite length_replicate; lia).
        rewrite lookup_replicate_2 in Hge by lia. done.
    + exists recent, older. split; [done|by eapply noRun_tail].
  - intros [Hl (recent & older & -> & Hn)]. exists (false :: recent), older. split; [done|].
    by eapply noRun_false.
Qed.

(** The automaton's state after a history, latest outcome first. *)
Definition specRun (ft st : Z) (l : list bool) : updown :=
  foldr (fun ok s => specStep ft st s ok) {| up := false; streak := 0 |} l.

Lemma specRun_streak ft st l :
  streak (specRun ft st l) = Z.of_nat (lead true l) - Z.of_nat (lead false l).
Proof.
  assert (Hx : forall l, lead true l = O \/ lead false l = O) by (intros [|[] ?]; simpl; auto).
  induction l as [|x l IH]; [done|]. cbn [specRun foldr]. fold (specRun ft st l). unfold specStep.
  pose proof (Hx l). destruct x; simpl; rewrite IH; lia.
Qed.

Lemma specRun_up ft st l :
  0 < ft -> 0 < st -> up (specRun ft st l) = true <-> upSince (Z.to_nat ft) (Z.to_nat st) l.
Proof.
  intros Hf Hs. induction l as [|x l IH].
  - split; [done|]. intros (recent & older & E & _). destruct recent; [|done].
    destruct (Z.to_nat st) eqn:E1; [lia|done].
  - cbn [specRun foldr]. fold (specRun ft st l). pose proof (specRun_streak ft st (x :: l)) as Hk.
    cbn [specRun foldr] in Hk. fold (specRun ft st l) in Hk. unfold specStep in *.
    destruct x; simpl streak in Hk; simpl up.
    + rewrite upSince_ok by lia. rewrite Hk. cbn [lead Bool.eqb] in *.
      destruct (Z.leb_spec st (Z.of_nat (S (lead true l)) - Z.of_nat 0)); [split; [left; lia|done]|].
      rewrite IH. split; [by right|]. intros [?|?]; [lia|done].
    + rewrite upSince_fail by lia.
      replace (Z.max (- streak (specRun ft st l)) 0 + 1) with (Z.of_nat (lead false (false :: l))) in *
        by (cbn [lead Bool.eqb] in *; lia).
      destruct (Z.leb_spec ft (Z.of_nat (lead false (false :: l)))); [split; [done|lia]|].
      rewrite IH. split; [intros; split; [lia|done]|tauto].
Qed.

(** From the latest outcome first to chronological order. *)
Lemma upSince_chrono ft st l :
  upSince ft st (reverse l) <->
  exists pre post, l = pre ++ replicate st true ++ post /\ forall a b, post <> a ++ replicate ft false ++ b.
Proof.
  split.
  - intros (recent & older & E & Hn). exists (reverse older), (reverse recent). split.
    + apply (f_equal reverse) in E. by rewrite reverse_involutive, !reverse_app, reverse_replicate, <- app_assoc in E.
    + intros a b E2. apply (f_equal reverse) in E2. rewrite reverse_involutive, !reverse_app, reverse_replicate, <- app_assoc in E2.
      by apply Hn in E2.
  - intros (pre & post & -> & Hn). exists (reverse post), (reverse pre). split.
    + by rewrite !reverse_app, reverse_replicate, <- app_assoc.
    + intros a b E2. apply (f_equal reverse) in E2. rewrite reverse_involutive, !reverse_app, reverse_replicate, <- app_assoc in E2.
      by apply Hn in E2.
Qed.

Lemma specRun_fold ft st l s :
  fold_left (specStep ft st) l s = foldr (fun ok s => specStep ft st s ok) s (reverse l).
Proof.
  revert s. induction l as [|x l IH]; intros s; [done|]. cbn [fold_left].
  rewrite IH, reverse_cons, foldr_app. done.
Qed.

(** ** Properties *)

(** C33: after every check, whatever its outcome, the next one is due no earlier
    than now and within one jitter of an interval between [MinInterval] and
    [MaxInterval]. *)
Theorem hc_next_check_bounded (hc : HealthcheckConfig) (rng : Z -> Z) (now now' : Z) (err : option gerror) (rtt : Z)
    (name proto : bytes) (h : hcState)
    (Hrng : rngOk rng) (Hmin : 0 <= MinInterval hc) (Hmm : MinInterval hc <= MaxInterval hc)
    (Hj : 0 <= Jitter hc) (Hfit : MaxInterval hc + Jitter hc <= maxInt64) (Hfit2 : 2 * Jitter hc + 1 <= maxInt64) :
  let h' := fst (applyHCResult hc rng now now' err rtt name proto h) in
  MinInterval hc <= hcEvery h' <= MaxInterval hc
  /\ now' <= nextHC h'
  /\ now' + hcEvery h' - Jitter hc <= nextHC h' <= now' + hcEvery h' + Jitter hc.
Proof.
  intros h'. pose proof (applyHCResult_every hc rng now now' err rtt name proto h Hmm) as He. fold h' in He.
  split; [done|].
  assert (Hn : nextHC h' = now' + applyJitter rng (hcEvery h') (Jitter hc)) by (unfold h'; by destruct err).
  pose proof (applyJitter_bounds rng (hcEvery h') (Jitter hc) Hrng ltac:(lia) Hj Hfit2 ltac:(lia)). lia.
Qed.

(** The default configuration. *)
Definition hcDemo : HealthcheckConfig := hcDefaults (Healthcheck zeroConfig).
Definition ckDemo (err : option gerror) : check :=
  {| ck_now := 5; ck_now' := 6; ck_rng := fun _ => 0; ck_err := err; ck_rtt := 30000000 |}.

Lemma hc_next_check_bounded_witness :
  let h' := fst (applyHCResult hcDemo (fun _ => 0) 5 6 None 30000000 [] [] hcZero) in
  MinInterval hcDemo <= hcEvery h' <= MaxInterval hcDemo
  /\ 6 <= nextHC h'
  /\ 6 + hcEvery h' - Jitter hcDemo <= nextHC h' <= 6 + hcEvery h' + Jitter hcDemo.
Proof.
  apply hc_next_check_bounded; [intros n Hn; split; [reflexivity|exact Hn]|vm_compute; congruence..].
Defined.
