(* ===== verification/LoadBalancer.v ===== *)
(** * Load balancer: state and selection

    [UpstreamState] and [LoadBalancer] of src/internal/lb.go, the scoring of
    candidates, the sticky selection with hysteresis, the ranking for warm
    standby and the reports of failures. A pointer to an upstream is its index
    in the pool, which never changes after construction. [C] is the type of the
    WebSocket connections kept as warm standby. *)

From S2P Require Import Prelude GoNum GoNet Config Metrics HealthCheck.

Record UpstreamState {C : Type} := {
  cfg : UpstreamConfig; tcp : hcState; udp : hcState;
  tcpCooldownUntil : Z; udpCooldownUntil : Z;
  standbyTCP : option C; standbyUDP : option C }.
Arguments UpstreamState C : clear implicits.

Record LoadBalancer {C : Type} := {
  hc : HealthcheckConfig; sel : SelectionConfig; probe : ProbeConfig; fwmark : Z;
  pool : list (UpstreamState C);
  current : option nat; stickyUntil : Z;
  lastSelectionLog : gmap bytes bytes; lastSelectionLogAt : gmap bytes Z;
  dialSem : Z; probeSem : Z; probeDialSem : Z }.
Arguments LoadBalancer C : clear implicits.

(** The capacities of the three semaphores. *)
Definition dialLimit : Z := 32.
Definition probeParallelLimit : Z := 2.
Definition probeDialParallelLimit : Z := 4.
Definition repeatedSelectionLogInterval : Z := 30 * Second.

(** What an operation shows outside: a metric, or a line that names the selected upstream. *)
Inductive ev :=
| EvMetric (m : mev)
| EvSelected (proto upstream reason : bytes).

Definition sTCP : bytes := str2b "tcp".
Definition sUDP : bytes := str2b "udp".

Section LB.
Context {C : Type}.
Implicit Types (lb : LoadBalancer C) (s : UpstreamState C).

(** [NewLoadBalancer(ups, hc, sel, probe, fwmark)]. *)
Definition newUpstream (u : UpstreamConfig) : UpstreamState C := {|
  cfg := u; tcp := hcZero; udp := hcZero; tcpCooldownUntil := timeZero; udpCooldownUntil := timeZero;
  standbyTCP := None; standbyUDP := None |}.
Definition NewLoadBalancer (ups : list UpstreamConfig) (h : HealthcheckConfig) (se : SelectionConfig)
    (p : ProbeConfig) (fw : Z) : LoadBalancer C := {|
  hc := h; sel := se; probe := p; fwmark := fw; pool := newUpstream <$> ups;
  current := None; stickyUntil := timeZero; lastSelectionLog := ∅; lastSelectionLogAt := ∅;
  dialSem := 0; probeSem := 0; probeDialSem := 0 |}.

(** *** Updates *)

Definition setPool (lb : LoadBalancer C) (p : list (UpstreamState C)) : LoadBalancer C := {|
  hc := hc lb; sel := sel lb; probe := probe lb; fwmark := fwmark lb; pool := p;
  current := current lb; stickyUntil := stickyUntil lb;
  lastSelectionLog := lastSelectionLog lb; lastSelectionLogAt := lastSelectionLogAt lb;
  dialSem := dialSem lb; probeSem := probeSem lb; probeDialSem := probeDialSem lb |}.
Definition setSticky (lb : LoadBalancer C) (c : option nat) (t : Z) : LoadBalancer C := {|
  hc := hc lb; sel := sel lb; probe := probe lb; fwmark := fwmark lb; pool := pool lb;
  current := c; stickyUntil := t;
  lastSelectionLog := lastSelectionLog lb; lastSelectionLogAt := lastSelectionLogAt lb;
  dialSem := dialSem lb; probeSem := probeSem lb; probeDialSem := probeDialSem lb |}.
Definition setLog (lb : LoadBalancer C) (l : gmap bytes bytes) (a : gmap bytes Z) : LoadBalancer C := {|
  hc := hc lb; sel := sel lb; probe := probe lb; fwmark := fwmark lb; pool := pool lb;
  current := current lb; stickyUntil := stickyUntil lb; lastSelectionLog := l; lastSelectionLogAt := a;
  dialSem := dialSem lb; probeSem := probeSem lb; probeDialSem := probeDialSem lb |}.
Definition setSems (lb : LoadBalancer C) (d p pd : Z) : LoadBalancer C := {|
  hc := hc lb; sel := sel lb; probe := probe lb; fwmark := fwmark lb; pool := pool lb;
  current := current lb; stickyUntil := stickyUntil lb;
  lastSelectionLog := lastSelectionLog lb; lastSelectionLogAt := lastSelectionLogAt lb;
  dialSem := d; probeSem := p; probeDialSem := pd |}.
Definition setEndpoint (isTCP : bool) (s : UpstreamState C) (h : hcState) (cool : Z) : UpstreamState C :=
  if isTCP then {| cfg := cfg s; tcp := h; udp := udp s; tcpCooldownUntil := cool;
                   udpCooldownUntil := udpCooldownUntil s; standbyTCP := standbyTCP s; standbyUDP := standbyUDP s |}
  else {| cfg := cfg s; tcp := tcp s; udp := h; tcpCooldownUntil := tcpCooldownUntil s;
          udpCooldownUntil := cool; standbyTCP := standbyTCP s; standbyUDP := standbyUDP s |}.
Definition endpoint (isTCP : bool) (s : UpstreamState C) : hcState := if isTCP then tcp s else udp s.
Definition cooldown (isTCP : bool) (s : UpstreamState C) : Z :=
  if isTCP then tcpCooldownUntil s else udpCooldownUntil s.

(** [DisableBackgroundProbes()]; [now i] is the clock when upstream [i] is set. *)
Definition forceUp (now : Z) (h : hcState) : hcState := {|
  healthy := true; failCount := 0; successCount := 1; inFlight := inFlight h; lastError := None;
  lastCheckTime := now; lastRTT := lastRTT h; rttEWMA := rttEWMA h; nextHC := nextHC h; hcEvery := hcEvery h |}.
Definition DisableBackgroundProbes (now : nat -> Z) lb : LoadBalancer C :=
  setPool lb (imap (fun i s =>
    {| cfg := cfg s; tcp := forceUp (now i) (tcp s); udp := forceUp (now i) (udp s);
       tcpCooldownUntil := timeZero; udpCooldownUntil := timeZero;
       standbyTCP := standbyTCP s; standbyUDP := standbyUDP s |}) (pool lb)).

(** [logSelectionIfChanged(proto, upstream, reason)] at time [now]. *)
Definition logSelectionIfChanged (now : Z) (proto upstream reason : bytes) lb : LoadBalancer C * list ev :=
  let k := upstream ++ str2b "|" ++ reason in
  let prev := default [] (lastSelectionLog lb !! proto) in
  let lastAt := default timeZero (lastSelectionLogAt lb !! proto) in
  if bool_decide (prev = k) && (timeSub now lastAt <? repeatedSelectionLogInterval) then (lb, [])
  else (setLog lb (<[proto := k]> (lastSelectionLog lb)) (<[proto := now]> (lastSelectionLogAt lb)),
        [EvSelected proto upstream reason]).

(** The score of a candidate: the body of the loop of [pickBestCandidateByEndpoint]
    past the tests of health and cooldown (and of the loop of [pickTopN]). *)
Definition score (hcc : HealthcheckConfig) (now : Z) (h : hcState) (w : float64) : float64 :=
  let base := f64_of_int (Milliseconds (rttEWMA h)) in
  let base := if f64_leb base (S754_zero false) then f64_of_int 1000 else base in
  let staleness := timeSub now (lastCheckTime h) in
  let stalePenalty :=
    if mul64 2 (Interval hcc) <? staleness then f64_mul (f64_of_int (Milliseconds staleness)) (f64_const 2 10)
    else S754_zero false in
  let failPenalty := f64_mul (f64_of_int (failCount h)) (f64_of_int 500) in
  let errPenalty := match lastError h with Some _ => f64_of_int 500 | None => S754_zero false end in
  let w := if f64_leb w (S754_zero false) then f64_of_int 1 else w in
  f64_mul (f64_add (f64_add (f64_add base stalePenalty) failPenalty) errPenalty) (f64_div (f64_of_int 1) w).

Definition maxScore : float64 := f64_of_int 1000000000000000000.

(** The test that does not [continue]. *)
Definition eligible (isTCP : bool) (now : Z) s : bool :=
  negb (negb (healthy (endpoint isTCP s)) || Before now (cooldown isTCP s)).
Definition scoreOf (hcc : HealthcheckConfig) (isTCP : bool) (now : Z) s : float64 :=
  score hcc now (endpoint isTCP s) (Weight (cfg s)).

(** The loop over the pool: index, [best], [bestScore] and [bestRTT]. *)
Fixpoint pickLoop (hcc : HealthcheckConfig) (isTCP : bool) (now : Z) (skip : nat -> bool) (i : nat)
    (p : list (UpstreamState C)) (best : option nat) (bestScore : float64) (bestRTT : Z)
    : option nat * float64 * Z :=
  match p with
  | [] => (best, bestScore, bestRTT)
  | s :: p' =>
      if skip i || negb (eligible isTCP now s) then pickLoop hcc isTCP now skip (S i) p' best bestScore bestRTT
      else
        let sc := scoreOf hcc isTCP now s in
        if f64_ltb sc bestScore then pickLoop hcc isTCP now skip (S i) p' (Some i) sc (rttEWMA (endpoint isTCP s))
        else pickLoop hcc isTCP now skip (S i) p' best bestScore bestRTT
  end.

(** [pickBestCandidateByEndpoint(pool, now, isTCP)]. *)
Definition pickBestCandidateByEndpoint (isTCP : bool) (now : Z) lb : res (nat * Z) :=
  match pickLoop (hc lb) isTCP now (fun _ => false) 0 (pool lb) None maxScore 0 with
  | (Some b, _, rtt) => Ok (b, rtt)
  | (None, _, _) => Err (errMsg "no healthy upstreams")
  end.

Definition nameOf lb (i : nat) : bytes :=
  match pool lb !! i with Some s => Name (cfg s) | None => [] end.

(** [cur.tcp.healthy && now.After(cur.tcpCooldownUntil)]. *)
Definition curOK (now : Z) lb (i : nat) : bool :=
  match pool lb !! i with
  | Some s => healthy (tcp s) && After now (tcpCooldownUntil s)
  | None => false
  end.
Definition curRTT lb (i : nat) : Z :=
  match pool lb !! i with Some s => rttEWMA (tcp s) | None => 0 end.

(** [cur != best && curOK && curRTT > 0 && bestRTT > 0] and [curRTT-bestRTT < lb.sel.MinSwitch]. *)
Definition keepCurrent (now : Z) lb (cur best : nat) (bestRTT : Z) : bool :=
  (negb (cur =? best)%nat && curOK now lb cur && (0 <? curRTT lb cur) && (0 <? bestRTT))
  && (sub64 (curRTT lb cur) bestRTT <? MinSwitch (sel lb)).

(** Make [i] the current upstream and return it: the tail shared by both TCP returns. *)
Definition select (now nowLog : Z) (i : nat) (reason : bytes) lb : res nat * LoadBalancer C * list ev :=
  let lb := setSticky lb (Some i) (timeAdd now (StickyTTL (sel lb))) in
  let '(lb, evs) := logSelectionIfChanged nowLog sTCP (nameOf lb i) reason lb in
  (Ok i, lb, evs ++ [EvMetric (observeSelection (nameOf lb i) sTCP)]).

(** [pickByEndpoint(isTCP)]; [nowLog] is the clock in [logSelectionIfChanged]. *)
Definition pickByEndpoint (isTCP : bool) (now nowLog : Z) lb : res nat * LoadBalancer C * list ev :=
  let sticky :=
    match current lb with
    | Some cur => if isTCP && Before now (stickyUntil lb) && curOK now lb cur then Some cur else None
    | None => None
    end in
  match sticky with
  | Some cur => (Ok cur, lb, [EvMetric (observeSelection (nameOf lb cur) sTCP)])
  | None =>
      match pickBestCandidateByEndpoint isTCP now lb with
      | Ok (best, bestRTT) =>
          if isTCP then
            match current lb with
            | Some cur =>
                if keepCurrent now lb cur best bestRTT then select now nowLog cur (str2b "hysteresis") lb
                else select now nowLog best (str2b "best-candidate") lb
            | None => select now nowLog best (str2b "best-candidate") lb
            end
          else
            let '(lb, evs) := logSelectionIfChanged nowLog sUDP (nameOf lb best) (str2b "best-candidate") lb in
            (Ok best, lb, evs ++ [EvMetric (observeSelection (nameOf lb best) sUDP)])
      | Err e => (Err e, lb, [])
      | Panic w => (Panic w, lb, [])
      end
  end.

Definition PickTCP := pickByEndpoint true.
Definition PickUDP := pickByEndpoint false.

(** [ReportTCPFailure(s, err)] and [ReportUDPFailure(s, err)]; [None] is a nil upstream. *)
Definition failEndpoint (hcc : HealthcheckConfig) (rng : Z -> Z) (now : Z) (err : option gerror) (h : hcState) : hcState := {|
  healthy := false; failCount := add64 (failCount h) 1; successCount := 0; inFlight := inFlight h;
  lastError := err; lastCheckTime := lastCheckTime h; lastRTT := lastRTT h; rttEWMA := rttEWMA h;
  nextHC := timeAdd now (applyJitter rng (MinInterval hcc) (Jitter hcc)); hcEvery := MinInterval hcc |}.
Definition reportFailure (isTCP : bool) (rng : Z -> Z) (now : Z) (i : nat) (err : option gerror) lb
  : LoadBalancer C * list ev :=
  (setPool lb (alter (fun s => setEndpoint isTCP s (failEndpoint (hc lb) rng now err (endpoint isTCP s))
                                 (timeAdd now (Cooldown (sel lb)))) i (pool lb)),
   [EvMetric (observeFailure (nameOf lb i) (if isTCP then sTCP else sUDP) err)]).
Definition ReportTCPFailure (rng : Z -> Z) (now : Z) (u : option nat) (err : option gerror) lb
  : LoadBalancer C * list ev :=
  match u with
  | None => (lb, [])
  | Some i =>
      let '(lb, evs) := reportFailure true rng now i err lb in
      (if bool_decide (current lb = Some i) then setSticky lb (current lb) timeZero else lb, evs)
  end.
Definition ReportUDPFailure (rng : Z -> Z) (now : Z) (u : option nat) (err : option gerror) lb
  : LoadBalancer C * list ev :=
  match u with None => (lb, []) | Some i => reportFailure false rng now i err lb end.

(** [pickTopN(now, n)]; every round but the last takes an upstream out, so the size
    of the pool bounds the rounds. *)
Fixpoint topLoop (fuel : nat) (now : Z) (n : Z) lb (out : list nat) : list nat :=
  match fuel with
  | O => out
  | S k =>
      if zlen out <? n then
        match pickLoop (hc lb) true now (fun i => bool_decide (i ∈ out)) 0 (pool lb) None maxScore 0 with
        | (Some b, _, _) => topLoop k now n lb (out ++ [b])
        | (None, _, _) => out
        end
      else out
  end.
Definition pickTopN (now : Z) (n : Z) lb : list nat := topLoop (S (length (pool lb))) now n lb [].
End LB.

(** ** Selection picks the first best candidate *)

Section PickFacts.
Context {C : Type}.
Implicit Types (lb : LoadBalancer C) (s : UpstreamState C) (p : list (UpstreamState C)).

Section Loop.
Context (hcc : HealthcheckConfig) (isTCP : bool) (now : Z) (skip : nat -> bool).

(** The [j]-th entry of the part of the pool that starts at index [i] is a candidate. *)
Definition cand (i : nat) p (j : nat) s : Prop :=
  p !! j = Some s /\ skip (i + j)%nat = false /\ eligible isTCP now s = true.
Abbreviation sc := (scoreOf hcc isTCP now).

Lemma pickLoop_spec p i best bs rtt :
  let '(b', bs', r') := pickLoop hcc isTCP now skip i p best bs rtt in
  (b' = best /\ bs' = bs /\ r' = rtt /\ forall j s, cand i p j s -> f64_ltb (sc s) bs = false)
  \/ exists j s, cand i p j s /\ b' = Some (i + j)%nat /\ bs' = sc s /\ r' = rttEWMA (endpoint isTCP s)
      /\ f64_ltb (sc s) bs = true
      /\ (forall j' s', cand i p j' s' -> f64_ltb (sc s') (sc s) = false)
      /\ (forall j' s', cand i p j' s' -> (j' < j)%nat -> f64_key (sc s') <> None -> f64_ltb (sc s) (sc s') = true).
Proof.
  revert i best bs rtt. induction p as [|s0 p IH]; intros i best bs rtt; simpl.
  { left. repeat split. intros j s [H _]. done. }
  assert (Hshift : forall j s, cand i (s0 :: p) (S j) s <-> cand (S i) p j s).
  { intros j s. unfold cand. simpl. by replace (i + S j)%nat with (S i + j)%nat by lia. }
  assert (Hzero : forall s, cand i (s0 :: p) 0 s <-> s = s0 /\ skip i = false /\ eligible isTCP now s0 = true).
  { intros s. unfold cand. simpl. rewrite Nat.add_0_r. split; [intros ([= ->] & ? & ?)|intros (-> & ? & ?)]; auto. }
  destruct (skip i || negb (eligible isTCP now s0)) eqn:Et.
  - specialize (IH (S i) best bs rtt). destruct (pickLoop _ _ _ _ _ _ _ _ _) as [[b' bs'] r'].
    assert (Hno : forall s, ~ cand i (s0 :: p) 0 s).
    { intros s (-> & H1 & H2)%Hzero. by rewrite H1, H2 in Et. }
    destruct IH as [(-> & -> & -> & H)|(j & s & Hc & -> & -> & -> & H1 & H2 & H3)]; [left|right].
    + repeat split. intros [|j] s Hc; [by apply Hno in Hc|]. apply Hshift in Hc. by eapply H.
    + exists (S j), s. rewrite Hshift. split; [done|]. repeat split; try done; [f_equal; lia|..].
      * intros [|j'] s' Hc'; [by apply Hno in Hc'|]. apply Hshift in Hc'. by eapply H2.
      * intros [|j'] s' Hc' Hl Hk; [by apply Hno in Hc'|]. apply Hshift in Hc'. apply (H3 j'); [done|lia|done].
  - apply orb_false_iff in Et as [Hs0 He0%negb_false_iff].
    destruct (f64_ltb (sc s0) bs) eqn:El.
    + specialize (IH (S i) (Some i) (sc s0) (rttEWMA (endpoint isTCP s0))).
      destruct (pickLoop _ _ _ _ _ _ _ _ _) as [[b' bs'] r'].
      destruct IH as [(-> & -> & -> & H)|(j & s & Hc & -> & -> & -> & H1 & H2 & H3)]; right.
      * exists 0%nat, s0. rewrite Hzero, Nat.add_0_r. repeat split; try done; [|lia].
        intros [|j'] s' Hc'; [apply Hzero in Hc' as (-> & _); apply f64_ltb_irrefl|]. apply Hshift in Hc'. by eapply H.
      * exists (S j), s. rewrite Hshift. split; [done|]. repeat split; try done; [f_equal; lia|by eapply f64_ltb_trans|..].
        -- intros [|j'] s' Hc'; [apply Hzero in Hc' as (-> & _); by apply f64_ltb_asym|]. apply Hshift in Hc'. by eapply H2.
        -- intros [|j'] s' Hc' Hl Hk; [by apply Hzero in Hc' as (-> & _)|]. apply Hshift in Hc'. apply (H3 j'); [done|lia|done].
    + specialize (IH (S i) best bs rtt). destruct (pickLoop _ _ _ _ _ _ _ _ _) as [[b' bs'] r'].
      destruct IH as [(-> & -> & -> & H)|(j & s & Hc & -> & -> & -> & H1 & H2 & H3)]; [left|right].
      * repeat split. intros [|j] s Hc; [by apply Hzero in Hc as (-> & _)|]. apply Hshift in Hc. by eapply H.
      * exists (S j), s. rewrite Hshift. split; [done|]. repeat split; try done; [f_equal; lia|..].
        -- intros [|j'] s' Hc'; [apply Hzero in Hc' as (-> & _); by eapply f64_ltb_not_trans|].
           apply Hshift in Hc'. by eapply H2.
        -- intros [|j'] s' Hc' Hl Hk; [apply Hzero in Hc' as (-> & _); by eapply f64_ltb_not_total|].
           apply Hshift in Hc'. apply (H3 j'); [done|lia|done].
Qed.
End Loop.

(** A candidate of the whole pool. *)
Definition candidate (isTCP : bool) (now : Z) lb (i : nat) s : Prop :=
  pool lb !! i = Some s /\ eligible isTCP now s = true.
Definition scoreIn (isTCP : bool) (now : Z) lb s : float64 := scoreOf (hc lb) isTCP now s.

Lemma pickBest_spec isTCP now lb :
  match pickBestCandidateByEndpoint isTCP now lb with
  | Ok (b, rtt) => exists s, candidate isTCP now lb b s /\ rtt = rttEWMA (endpoint isTCP s)
      /\ f64_ltb (scoreIn isTCP now lb s) maxScore = true
      /\ (forall i s', candidate isTCP now lb i s' ->
            f64_ltb (scoreIn isTCP now lb s') (scoreIn isTCP now lb s) = false)
      /\ (forall i s', candidate isTCP now lb i s' -> (i < b)%nat -> f64_key (scoreIn isTCP now lb s') <> None ->
            f64_ltb (scoreIn isTCP now lb s) (scoreIn isTCP now lb s') = true)
  | Err e => e = errMsg "no healthy upstreams"
      /\ forall i s, candidate isTCP now lb i s -> f64_ltb (scoreIn isTCP now lb s) maxScore = false
  | Panic _ => False
  end.
Proof.
  unfold pickBestCandidateByEndpoint.
  pose proof (pickLoop_spec (hc lb) isTCP now (fun _ => false) (pool lb) 0 None maxScore 0) as H.
  assert (Hc : forall i s, candidate isTCP now lb i s -> cand isTCP now (fun _ => false) 0 (pool lb) i s)
    by (by intros i s [? ?]).
  destruct (pickLoop _ _ _ _ _ _ _ _ _) as [[b' bs'] r'].
  destruct H as [(-> & -> & -> & H)|(j & s & (Hp & _ & He) & -> & -> & -> & H1 & H2 & H3)].
  - split; [done|]. intros i s Hi. by eapply H, Hc.
  - exists s. split; [done|]. split; [done|]. split; [done|]. split; [intros i s' Hi; by eapply H2, Hc|].
    intros i s' Hi Hl Hk. by apply (H3 i); [apply Hc|lia|].
Qed.
End PickFacts.

(** ** Sticky selection *)

Section StickyFacts.
Context {C : Type}.
Implicit Types (lb : LoadBalancer C) (s : UpstreamState C).

Lemma logSelection_frame now proto u r lb lb' evs :
  logSelectionIfChanged now proto u r lb = (lb', evs) ->
  pool lb' = pool lb /\ current lb' = current lb /\ stickyUntil lb' = stickyUntil lb /\ sel lb' = sel lb /\ hc lb' = hc lb.
Proof. unfold logSelectionIfChanged. case_match; intros [= <- <-]; done. Qed.

Lemma select_spec now nowLog i reason lb r lb' evs :
  select now nowLog i reason lb = (r, lb', evs) ->
  r = Ok i /\ pool lb' = pool lb /\ current lb' = Some i /\ stickyUntil lb' = now + StickyTTL (sel lb).
Proof.
  unfold select. destruct (logSelectionIfChanged _ _ _ _ _) as [lb1 evs1] eqn:E.
  apply logSelection_frame in E as (E1 & E2 & E3 & _). intros [= <- <- <-]. rewrite E1, E2, E3. done.
Qed.

(** Healthy and out of its cooldown. *)
Definition usable (now : Z) lb (i : nat) : Prop :=
  exists s, pool lb !! i = Some s /\ healthy (tcp s) = true /\ tcpCooldownUntil s <= now.

Lemma curOK_usable now lb i : curOK now lb i = true -> usable now lb i.
Proof.
  unfold curOK, After. case_match eqn:E; [|done]. intros [H1 H2]%andb_true_iff. zbool. exists u. repeat split; auto; lia.
Qed.

Lemma eligible_spec isTCP now s :
  eligible isTCP now s = true <-> healthy (endpoint isTCP s) = true /\ cooldown isTCP s <= now.
Proof.
  unfold eligible, Before. rewrite negb_true_iff, orb_false_iff, negb_false_iff, Z.ltb_ge. done.
Qed.

(** What a selection of an upstream for TCP guarantees. *)
Lemma pickTCP_spec now nowLog lb r lb' evs :
  pickByEndpoint true now nowLog lb = (r, lb', evs) ->
  match r with
  | Ok i =>
      usable now lb i /\ pool lb' = pool lb /\ current lb' = Some i
      /\ (lb' = lb /\ now < stickyUntil lb \/ stickyUntil lb' = now + StickyTTL (sel lb))
      /\ (forall c, current lb = Some c -> c <> i -> curOK now lb c = true ->
            stickyUntil lb <= now /\ (curRTT lb c <= 0 \/ curRTT lb i <= 0
                                      \/ MinSwitch (sel lb) <= sub64 (curRTT lb c) (curRTT lb i)))
  | Err e => lb' = lb /\ forall i s, candidate true now lb i s -> f64_ltb (scoreIn true now lb s) maxScore = false
  | Panic _ => False
  end.
Proof.
  unfold pickByEndpoint. intros E.
  destruct (match current lb with Some _ => _ | None => _ end) as [cur|] eqn:Es.
  - destruct (current lb) as [c|] eqn:Ec; [|done]. case_match eqn:Et; [|done]. injection Es as ->. injection E as <- <- <-.
    cbn [andb] in Et. apply andb_true_iff in Et as [Et1 Et2]. unfold Before in Et1. zbool.
    split; [by apply curOK_usable|]. split; [done|]. split; [done|]. split; [by left|]. intros c' [= ->] Hne. done.
  - pose proof (pickBest_spec true now lb) as Hb.
    destruct (pickBestCandidateByEndpoint true now lb) as [[best rtt]|e|w]; [|by destruct Hb; simplify_eq|done].
    destruct Hb as (s & [Hs He] & -> & _ & _ & _). apply eligible_spec in He as [Hh Hcd].
    assert (Hbest : usable now lb best) by (exists s; done).
    assert (Hrtt : curRTT lb best = rttEWMA (tcp s)) by (unfold curRTT; by rewrite Hs).
    cbn [endpoint] in E. rewrite <- Hrtt in E.
    assert (Hsticky : forall c, current lb = Some c -> curOK now lb c = true -> stickyUntil lb <= now).
    { intros c Hc Hok. rewrite Hc, Hok in Es. unfold Before in Es. cbn [andb] in Es.
      destruct (Z.ltb_spec now (stickyUntil lb)); [done|lia]. }
    destruct (current lb) as [c|] eqn:Ec.
    + destruct (keepCurrent now lb c best (curRTT lb best)) eqn:Ek; apply select_spec in E as (-> & -> & -> & ->).
      * unfold keepCurrent in Ek. repeat rewrite andb_true_iff in Ek. destruct Ek as [[[[Hn Hok] _] _] _].
        split; [by apply curOK_usable|]. repeat split; [by right|naive_solver..].
      * split; [done|]. repeat split; [by right|by eapply Hsticky|]. simplify_eq.
        unfold keepCurrent in Ek. rewrite H1 in Ek. rewrite (proj2 (Nat.eqb_neq c0 best)) in Ek by done.
        cbn [negb andb] in Ek.
        destruct (Z.ltb_spec 0 (curRTT lb c0)); [|by left]. destruct (Z.ltb_spec 0 (curRTT lb best)); [|by right; left].
        right; right. cbn [andb] in Ek. by apply Z.ltb_ge in Ek.
    + apply select_spec in E as (-> & -> & -> & ->). split; [done|]. by repeat split; [right|..].
Qed.

(** *** Reports *)

Lemma alter_endpoint lb i f s j :
  pool lb !! j = Some s ->
  alter f i (pool lb) !! j = Some (if decide (i = j) then f s else s).
Proof.
  intros Hs. destruct (decide (i = j)) as [->|Hne].
  - by rewrite list_lookup_alter_eq, Hs.
  - by rewrite list_lookup_alter_ne.
Qed.

(** The operations between two health checks. *)
Inductive op :=
| OpPick (isTCP : bool) (now nowLog : Z)
| OpReportTCP (rng : Z -> Z) (now : Z) (u : option nat) (err : option gerror)
| OpReportUDP (rng : Z -> Z) (now : Z) (u : option nat) (err : option gerror).
Definition runOp lb (o : op) : LoadBalancer C :=
  match o with
  | OpPick isTCP now nowLog => snd (fst (pickByEndpoint isTCP now nowLog lb))
  | OpReportTCP rng now u err => fst (ReportTCPFailure rng now u err lb)
  | OpReportUDP rng now u err => fst (ReportUDPFailure rng now u err lb)
  end.

Definition sems lb : Z * Z * Z := (dialSem lb, probeSem lb, probeDialSem lb).
Lemma logSelection_sems now proto u r lb : sems (fst (logSelectionIfChanged now proto u r lb)) = sems lb.
Proof. unfold logSelectionIfChanged. by case_match. Qed.
Lemma pick_sems isTCP now nowLog lb : sems (snd (fst (pickByEndpoint isTCP now nowLog lb))) = sems lb.
Proof.
  assert (Hs : forall i reason, sems (snd (fst (select now nowLog i reason lb))) = sems lb).
  { intros i reason. unfold select.
    match goal with |- context [logSelectionIfChanged ?a ?b ?c ?d ?e] =>
      pose proof (logSelection_sems a b c d e) as H; destruct (logSelectionIfChanged a b c d e) end. exact H. }
  unfold pickByEndpoint. destruct (match current lb with Some _ => _ | None => _ end); [done|].
  destruct (pickBestCandidateByEndpoint isTCP now lb) as [[b rtt]|e|w]; [|done|done]. destruct isTCP.
  - destruct (current lb); [destruct (keepCurrent _ _ _ _ _)|]; apply Hs.
  - match goal with |- context [logSelectionIfChanged ?a ?b ?c ?d ?e] => pose proof (logSelection_sems a b c d e) as H; destruct (logSelectionIfChanged a b c d e) end.
    exact H.
Qed.

Lemma pick_pool isTCP now nowLog lb : pool (snd (fst (pickByEndpoint isTCP now nowLog lb))) = pool lb.
Proof.
  assert (Hs : forall i reason, pool (snd (fst (select now nowLog i reason lb))) = pool lb).
  { intros i reason. destruct (select now nowLog i reason lb) as [[r lb'] evs] eqn:E. by apply select_spec in E as (_ & E & _). }
  unfold pickByEndpoint. destruct (match current lb with Some _ => _ | None => _ end); [done|].
  destruct (pickBestCandidateByEndpoint isTCP now lb) as [[b rtt]|e|w]; [|done|done]. destruct isTCP.
  - destruct (current lb); [destruct (keepCurrent _ _ _ _ _)|]; apply Hs.
  - destruct (logSelectionIfChanged _ _ _ _ _) eqn:E. by apply logSelection_frame in E as (E1 & _).
Qed.

(** The TCP side of an upstream is down. *)
Definition tcpDown (i : nat) lb : Prop := forall s, pool lb !! i = Some s -> healthy (tcp s) = false.

Lemma reportFailure_down isTCP rng now j err lb i :
  tcpDown i lb -> tcpDown i (fst (reportFailure isTCP rng now j err lb)).
Proof.
  intros H s. simpl. destruct (pool lb !! i) as [s0|] eqn:E.
  - rewrite (alter_endpoint lb j _ s0 i E). intros [= <-]. case_decide; [|by apply H].
    destruct isTCP; simpl; [done|by apply H].
  - intros Hl. apply lookup_ge_None in E. apply lookup_lt_Some in Hl. rewrite length_alter in Hl. lia.
Qed.

Lemma ReportTCPFailure_pool rng now u err lb :
  pool (fst (ReportTCPFailure rng now u err lb))
  = match u with None => pool lb | Some i => pool (fst (reportFailure true rng now i err lb)) end.
Proof. unfold ReportTCPFailure. destruct u; [|done]. simpl. by case_bool_decide. Qed.

Lemma runOp_down i o lb : tcpDown i lb -> tcpDown i (runOp lb o).
Proof.
  intros H. destruct o as [isTCP now nowLog|rng now u err|rng now u err]; simpl.
  - unfold tcpDown. by rewrite pick_pool.
  - unfold tcpDown. rewrite ReportTCPFailure_pool. destruct u; [|done]. by apply reportFailure_down.
  - destruct u; [|done]. by apply reportFailure_down.
Qed.

Lemma reported_down rng now i err lb : tcpDown i (fst (ReportTCPFailure rng now (Some i) err lb)).
Proof.
  intros s. rewrite ReportTCPFailure_pool. simpl. destruct (pool lb !! i) as [s0|] eqn:E.
  - rewrite (alter_endpoint lb i _ s0 i E), decide_True by done. by intros [= <-].
  - intros Hl. apply lookup_ge_None in E. apply lookup_lt_Some in Hl. rewrite length_alter in Hl. lia.
Qed.
End StickyFacts.

(** ** Ranking for warm standby *)

Section TopFacts.
Context {C : Type}.
Implicit Types (lb : LoadBalancer C) (s : UpstreamState C).

(** The candidate at an index, and that one is not better than another. *)
Definition notBetter (now : Z) lb (i j : nat) : Prop :=
  forall si sj, candidate true now lb i si -> candidate true now lb j sj ->
    f64_ltb (scoreIn true now lb si) (scoreIn true now lb sj) = false.

(** The ranking so far: distinct candidates, best first, none outside better than one inside. *)
Record ranking (now : Z) lb (out : list nat) : Prop := {
  rk_nodup : NoDup out;
  rk_cand : Forall (fun i => exists s, candidate true now lb i s
                      /\ f64_ltb (scoreIn true now lb s) maxScore = true) out;
  rk_order : forall a b i j, out !! a = Some i -> out !! b = Some j -> (a < b)%nat -> notBetter now lb j i;
  rk_best : forall i j, i ∈ out -> j ∉ out -> notBetter now lb j i }.

Lemma ranking_length now lb out : ranking now lb out -> (length out <= length (pool lb))%nat.
Proof.
  intros [Hn Hc _ _]. rewrite <- (length_seq (length (pool lb)) 0).
  apply submseteq_length, NoDup_submseteq; [done|]. intros i Hi.
  rewrite Forall_forall in Hc. destruct (Hc i Hi) as (s & [Hs _] & _).
  apply lookup_lt_Some in Hs. apply elem_of_seq. lia.
Qed.

(** No candidate is left. *)
Definition exhausted (now : Z) lb (out : list nat) : Prop :=
  forall i s, candidate true now lb i s -> f64_ltb (scoreIn true now lb s) maxScore = true -> i ∈ out.

Lemma topLoop_spec fuel now n lb out :
  ranking now lb out -> zlen out <= Z.max 0 n -> (S (length (pool lb)) <= fuel + length out)%nat ->
  let out' := topLoop fuel now n lb out in
  ranking now lb out' /\ zlen out' <= Z.max 0 n /\ (zlen out' = Z.max 0 n \/ exhausted now lb out').
Proof.
  revert out. induction fuel as [|fuel IH]; intros out Hr Hn Hf; simpl.
  - pose proof (ranking_length _ _ _ Hr). lia.
  - destruct (Z.ltb_spec (zlen out) n) as [Hlt|Hge]; [|split; [done|]; split; [done|]; left; pose proof (zlen_nonneg out); lia].
    pose proof (pickLoop_spec (hc lb) true now (fun i => bool_decide (i ∈ out)) (pool lb) 0 None maxScore 0) as H.
    destruct (pickLoop _ _ _ _ _ _ _ _ _) as [[b' bs'] r'].
    assert (Hc : forall i s, candidate true now lb i s -> i ∉ out ->
      cand true now (fun i => bool_decide (i ∈ out)) 0 (pool lb) i s).
    { intros i s [? ?] Hi. repeat split; [done|by apply bool_decide_false|done]. }
    destruct H as [(-> & -> & -> & H)|(j & s & (Hp & Hsk & He) & -> & -> & -> & H1 & H2 & H3)].
    + split; [done|]. split; [done|]. right. intros i s Hi Hs. destruct (decide (i ∈ out)) as [|Hi']; [done|].
      specialize (H i s (Hc i s Hi Hi')). unfold scoreIn in Hs. congruence.
    + simpl in Hsk. apply bool_decide_eq_false in Hsk. cbn [Nat.add] in *.
      assert (Hj : candidate true now lb j s) by done.
      apply IH; [|rewrite zlen_app; unfold zlen in *; simpl; lia|rewrite length_app; simpl; lia].
      constructor.
      * apply NoDup_app. split; [apply rk_nodup with now lb; done|]. split; [|apply NoDup_singleton].
        by intros i Hi ->%list_elem_of_singleton.
      * apply Forall_app_2; [by destruct Hr|]. apply Forall_singleton. by exists s.
      * intros a b i k Ha Hb Hab. apply lookup_app_Some in Hb as [Hb|[Hb1 Hb]].
        -- rewrite lookup_app_l in Ha by (apply lookup_lt_Some in Hb; lia). by eapply (rk_order _ _ _ Hr).
        -- destruct (b - length out)%nat eqn:Eb; [|done]. injection Hb as <-.
           rewrite lookup_app_l in Ha by lia. apply list_elem_of_lookup_2 in Ha. by apply (rk_best _ _ _ Hr).
      * intros i k Hi Hk. rewrite elem_of_app, list_elem_of_singleton in Hi. rewrite elem_of_app in Hk.
        destruct Hi as [Hi| ->]; [apply (rk_best _ _ _ Hr); tauto|].
        intros sk sj Hck Hcj. destruct Hcj as [Hcj _]. rewrite Hp in Hcj. injection Hcj as <-.
        apply (H2 k). apply Hc; tauto.
Qed.
End TopFacts.

(** ** Properties *)

(** C1: the candidate that selection settles on is eligible (healthy and out of
    its cooldown), no eligible upstream has a lower score, an earlier one in the
    pool has a strictly higher one, and selection fails only when no eligible
    upstream has a score below 1e18. *)
Theorem lb_pick_best_candidate {C : Type} (isTCP : bool) (now : Z) (lb : LoadBalancer C) :
  match pickBestCandidateByEndpoint isTCP now lb with
  | Ok (b, rtt) => exists s, candidate isTCP now lb b s /\ rtt = rttEWMA (endpoint isTCP s)
      /\ f64_ltb (scoreIn isTCP now lb s) maxScore = true
      /\ (forall i s', candidate isTCP now lb i s' ->
            f64_ltb (scoreIn isTCP now lb s') (scoreIn isTCP now lb s) = false)
      /\ (forall i s', candidate isTCP now lb i s' -> (i < b)%nat -> f64_key (scoreIn isTCP now lb s') <> None ->
            f64_ltb (scoreIn isTCP now lb s) (scoreIn isTCP now lb s') = true)
  | Err e => e = errMsg "no healthy upstreams"
      /\ forall i s, candidate isTCP now lb i s -> f64_ltb (scoreIn isTCP now lb s) maxScore = false
  | Panic _ => False
  end.
Proof. apply pickBest_spec. Qed.

(** A TCP selection returns a healthy upstream out of its cooldown and makes
    it current; it leaves a current upstream that is still usable only after its
    sticky period, and then only when a round-trip time is unknown or the new one
    is better by at least [MinSwitch]; an error changes nothing. *)
Theorem lb_pick_tcp_sound {C : Type} (now nowLog : Z) (lb lb' : LoadBalancer C) (r : res nat) (evs : list ev)
    (Hpick : PickTCP now nowLog lb = (r, lb', evs)) :
  match r with
  | Ok i =>
      usable now lb i /\ pool lb' = pool lb /\ current lb' = Some i
      /\ (lb' = lb /\ now < stickyUntil lb \/ stickyUntil lb' = now + StickyTTL (sel lb))
      /\ (forall c, current lb = Some c -> c <> i -> curOK now lb c = true ->
            stickyUntil lb <= now /\ (curRTT lb c <= 0 \/ curRTT lb i <= 0
                                      \/ MinSwitch (sel lb) <= sub64 (curRTT lb c) (curRTT lb i)))
  | Err e => lb' = lb /\ forall i s, candidate true now lb i s -> f64_ltb (scoreIn true now lb s) maxScore = false
  | Panic _ => False
  end.
Proof. by apply (pickTCP_spec now nowLog lb r lb' evs). Qed.

(** Within the sticky period the same upstream is returned, with no other
    change of the balancer, for as long as it stays healthy and out of cooldown. *)
Theorem lb_sticky_stable {C : Type} (now nowLog : Z) (lb lb' : LoadBalancer C) (i : nat) (evs : list ev)
    (ticks : list (Z * Z))
    (Hpick : PickTCP now nowLog lb = (Ok i, lb', evs))
    (Hwithin : Forall (fun t => fst t < stickyUntil lb') ticks)
    (Hok : Forall (fun t => curOK (fst t) lb' i = true) ticks) :
  Forall (fun t => PickTCP (fst t) (snd t) lb' = (Ok i, lb', [EvMetric (observeSelection (nameOf lb' i) sTCP)])) ticks.
Proof.
  apply pickTCP_spec in Hpick as (_ & _ & Hc & _). rewrite Forall_forall in *. intros t Ht.
  unfold PickTCP, pickByEndpoint. rewrite Hc. cbn [andb]. unfold Before.
  by rewrite (proj2 (Z.ltb_lt _ _) (Hwithin t Ht)), (Hok t Ht).
Qed.

(** After a TCP failure is reported, the upstream is not selected for TCP by
    any later pick, whatever selections and reports come in between, until a check
    marks it up again; a UDP health state is not touched, other upstreams are not
    touched, and the sticky period of the failed upstream is over. *)
Theorem lb_failure_quarantine {C : Type} (rng : Z -> Z) (now : Z) (i : nat) (err : option gerror)
    (lb : LoadBalancer C) (ops : list op) (now' nowLog' : Z) :
  let lb1 := fst (ReportTCPFailure rng now (Some i) err lb) in
  fst (fst (PickTCP now' nowLog' (fold_left runOp ops lb1))) <> Ok i
  /\ (forall j, (udp <$> pool lb1 !! j) = (udp <$> pool lb !! j))
  /\ (forall j, j <> i -> pool lb1 !! j = pool lb !! j)
  /\ (current lb = Some i -> stickyUntil lb1 = timeZero).
Proof.
  intros lb1. split; [|split; [|split]].
  - assert (Hd : tcpDown i (fold_left runOp ops lb1)).
    { assert (H1 : tcpDown i lb1) by apply reported_down. clearbody lb1.
      revert lb1 H1. induction ops as [|o ops IH]; intros lb1 H1; [done|]. by apply IH, runOp_down. }
    destruct (PickTCP now' nowLog' _) as [[r lb'] evs] eqn:E. intros Hr. simpl in Hr. subst r.
    apply pickTCP_spec in E as ((s & Hs & Hh & _) & _). by rewrite (Hd s Hs) in Hh.
  - intros j. unfold lb1. rewrite ReportTCPFailure_pool. simpl. destruct (pool lb !! j) as [s|] eqn:E.
    + rewrite (alter_endpoint lb i _ s j E). by case_decide.
    + apply lookup_ge_None in E. rewrite lookup_ge_None_2; [done|by rewrite length_alter].
  - intros j Hj. unfold lb1. rewrite ReportTCPFailure_pool. simpl. by rewrite list_lookup_alter_ne.
  - intros Hc. unfold lb1, ReportTCPFailure. simpl. by rewrite bool_decide_true.
Qed.

(** The ranking for warm standby lists at most [n] distinct eligible
    upstreams, best score first, no upstream outside it beats one inside, and it is
    shorter than [n] only when every eligible upstream is in it. *)
Theorem lb_top_n_correct {C : Type} (now n : Z) (lb : LoadBalancer C) :
  let out := pickTopN now n lb in
  ranking now lb out /\ zlen out <= Z.max 0 n /\ (zlen out = Z.max 0 n \/ exhausted now lb out).
Proof.
  apply topLoop_spec; [constructor; try done; [constructor|set_solver]|unfold zlen; simpl; lia|simpl; lia].
Qed.

(** A pool of two upstreams, both marked up at time 1. *)
Definition upDemo (name : string) : UpstreamConfig := {|
  Name := str2b name; Weight := f64_of_int 1; TCPWSS := str2b "wss://h/tcp"; UDPWSS := str2b "wss://h/udp";
  Cipher := str2b "chacha20-ietf-poly1305"; Secret := str2b "s" |}.
Definition lbDemo : LoadBalancer unit :=
  DisableBackgroundProbes (fun _ => 1)
    (NewLoadBalancer [upDemo "a"; upDemo "b"] hcDemo (selDefaults (Selection zeroConfig)) (Probe zeroConfig) 0).

Lemma lb_pick_tcp_sound_witness :
  PickTCP 100 100 lbDemo = (Ok 0%nat, snd (fst (PickTCP 100 100 lbDemo)), snd (PickTCP 100 100 lbDemo))
  /\ usable 100 lbDemo 0.
Proof.
  split; [vm_compute; reflexivity|].
  refine (proj1 (lb_pick_tcp_sound 100 100 lbDemo (snd (fst (PickTCP 100 100 lbDemo))) (Ok 0%nat)
    (snd (PickTCP 100 100 lbDemo)) _)).
  vm_compute; reflexivity.
Defined.

Lemma lb_sticky_stable_witness :
  let lb' := snd (fst (PickTCP 100 100 lbDemo)) in
  Forall (fun t => PickTCP (fst t) (snd t) lb' = (Ok 0%nat, lb', [EvMetric (observeSelection (nameOf lb' 0) sTCP)]))
    [(200, 200); (300, 300)].
Proof.
  apply (lb_sticky_stable 100 100 lbDemo (snd (fst (PickTCP 100 100 lbDemo))) 0 (snd (PickTCP 100 100 lbDemo))).
  - vm_compute; reflexivity.
  - repeat constructor.
  - repeat constructor.
Defined.
