(* ===== verification/GoURL.v ===== *)
(** * URLs

    The parts of Go's [net/url] the program uses: escaping, [ParseQuery] and
    [Values], [Parse], [EscapedPath], [Hostname] and [Port]. Strings are byte
    sequences; user information is kept undecoded. *)

From S2P Require Import Prelude GoNet Metrics.

(** ** Escaping *)

Inductive encoding :=
| encodePath | encodeHost | encodeZone | encodeUserPassword | encodeQueryComponent | encodeFragment.

#[global] Instance encoding_eq_dec : EqDecision encoding.
Proof. solve_decision. Defined.

Definition inSet (c : byte) (s : string) : bool := bool_decide (c ∈ str2b s).
Definition isAlnum (c : byte) : bool :=
  let z := b2z c in
  ((97 <=? z) && (z <=? 122)) || ((65 <=? z) && (z <=? 90)) || ((48 <=? z) && (z <=? 57)).

(** Characters that a host may hold unescaped; the last one is the quotation mark. *)
Definition hostSafe (c : byte) : bool := inSet c "!$&'()*+,;=:[]<>" || bool_decide (c = cQuote).

(** [shouldEscape(c, mode)]. *)
Definition shouldEscape (c : byte) (mode : encoding) : bool :=
  if isAlnum c then false
  else if (bool_decide (mode = encodeHost) || bool_decide (mode = encodeZone)) && hostSafe c then false
  else if inSet c "-_.~" then false
  else if inSet c "$&+,/:;=?@" && negb (bool_decide (mode = encodeHost) || bool_decide (mode = encodeZone)) then
    match mode with
    | encodePath => bool_decide (c = ch 63)
    | encodeUserPassword => inSet c "@/?:"
    | encodeQueryComponent => true
    | encodeFragment => false
    | _ => true
    end
  else if bool_decide (mode = encodeFragment) && inSet c "!()*" then false
  else true.

Definition upperHex (d : Z) : byte := ch (if d <? 10 then 48 + d else 55 + d).
Definition cPlus : byte := Byte.x2b.

(** [escape(s, mode)]. *)
Definition escapeByte (mode : encoding) (c : byte) : bytes :=
  if shouldEscape c mode then
    if bool_decide (c = cSpace) && bool_decide (mode = encodeQueryComponent) then [cPlus]
    else [cPercent; upperHex (Z.shiftr (b2z c) 4); upperHex (Z.land (b2z c) 15)]
  else [c].
Definition escape (mode : encoding) (s : bytes) : bytes := s ≫= escapeByte mode.

(** [unescape(s, mode)]. *)
Fixpoint unescape (mode : encoding) (s : bytes) : option bytes :=
  match s with
  | [] => Some []
  | c :: s' =>
      if decide (c = cPercent) then
        match s' with
        | h :: l :: s'' =>
            match hexVal h, hexVal l with
            | Some a, Some b =>
                let v := z2b (a * 16 + b) in
                let is25 := bool_decide (h = ch 50) && bool_decide (l = ch 53) in
                if bool_decide (mode = encodeHost) && (a <? 8) && negb is25 then None
                else if bool_decide (mode = encodeZone) && negb is25 && negb (bool_decide (v = cSpace))
                        && shouldEscape v encodeHost then None
                else cons v <$> unescape mode s''
            | _, _ => None
            end
        | _ => None
        end
      else if decide (c = cPlus) then
        cons (if bool_decide (mode = encodeQueryComponent) then cSpace else cPlus) <$> unescape mode s'
      else if (bool_decide (mode = encodeHost) || bool_decide (mode = encodeZone)) && (b2z c <? 0x80)
              && shouldEscape c mode then None
      else cons c <$> unescape mode s'
  end.

Definition QueryEscape : bytes -> bytes := escape encodeQueryComponent.
Definition QueryUnescape : bytes -> option bytes := unescape encodeQueryComponent.

(** ** Query values *)

(** [url.Values]: each key has its values in order. *)
Abbreviation Values := (gmap bytes (list bytes)).

Definition cAmp : byte := Byte.x26.
Definition cSemi : byte := Byte.x3b.
Definition cSlash : byte := Byte.x2f.
Definition cQuestion : byte := Byte.x3f.
Definition cHash : byte := Byte.x23.
Definition cAt : byte := Byte.x40.

(** [strings.Cut(s, sep)] for a one-byte separator. *)
Definition cut (c : byte) (s : bytes) : bytes * bytes :=
  match indexByte s c with
  | None => (s, [])
  | Some i => (take i s, drop (S i) s)
  end.

(** One round of [parseQuery] on the text between two ampersands. *)
Definition parsePair (m : Values) (pair : bytes) : Values :=
  if containsByte pair cSemi then m
  else match pair with
  | [] => m
  | _ =>
      let '(k, v) := cut cEq pair in
      match QueryUnescape k, QueryUnescape v with
      | Some k, Some v => <[k := default [] (m !! k) ++ [v]]> m
      | _, _ => m
      end
  end.

(** [ParseQuery], its error ignored as [u.Query()] does. *)
Definition parseQuery (query : bytes) : Values := fold_left parsePair (split cAmp query) ∅.

(** [v.Get(key)], [v.Del(key)] and [v.Encode()]. *)
Definition Get (v : Values) (key : bytes) : bytes :=
  match v !! key with Some (x :: _) => x | _ => [] end.
Definition Del (key : bytes) (v : Values) : Values := delete key v.
Definition encodePair (k v : bytes) : bytes := QueryEscape k ++ cEq :: QueryEscape v.
Definition encodePairs (v : Values) : list bytes :=
  sortedKeys v ≫= fun k => encodePair k <$> default [] (v !! k).
Definition Encode (v : Values) : bytes := joinWith [cAmp] (encodePairs v).

(** ** URLs *)

Record URL := {
  Scheme : bytes; Opaque : bytes; User : option bytes; Host : bytes; Path : bytes; RawPath : bytes;
  OmitHost : bool; ForceQuery : bool; RawQuery : bytes; Fragment : bytes }.

Definition Query (u : URL) : Values := parseQuery (RawQuery u).
Definition setRawQuery (u : URL) (q : bytes) : URL := {|
  Scheme := Scheme u; Opaque := Opaque u; User := User u; Host := Host u; Path := Path u; RawPath := RawPath u;
  OmitHost := OmitHost u; ForceQuery := ForceQuery u; RawQuery := q; Fragment := Fragment u |}.
Definition setPathTo (u : URL) (p rp : bytes) : URL := {|
  Scheme := Scheme u; Opaque := Opaque u; User := User u; Host := Host u; Path := p; RawPath := rp;
  OmitHost := OmitHost u; ForceQuery := ForceQuery u; RawQuery := RawQuery u; Fragment := Fragment u |}.
Definition setScheme (u : URL) (s : bytes) : URL := {|
  Scheme := s; Opaque := Opaque u; User := User u; Host := Host u; Path := Path u; RawPath := RawPath u;
  OmitHost := OmitHost u; ForceQuery := ForceQuery u; RawQuery := RawQuery u; Fragment := Fragment u |}.

(** [validEncoded(s, encodePath)]. *)
Definition validEncodedPath (s : bytes) : bool :=
  forallb (fun c => inSet c "!$&'()*+,;=:@" || inSet c "[]" || bool_decide (c = cPercent)
                    || negb (shouldEscape c encodePath)) s.

(** [u.EscapedPath()]. *)
Definition EscapedPath (u : URL) : bytes :=
  if negb (bool_decide (RawPath u = [])) && validEncodedPath (RawPath u)
     && bool_decide (unescape encodePath (RawPath u) = Some (Path u)) then RawPath u
  else if bool_decide (Path u = str2b "*") then str2b "*"
  else escape encodePath (Path u).

(** [splitHostPort] of the package, for [Hostname] and [Port]. *)
Definition validOptionalPort (p : bytes) : bool :=
  match p with
  | [] => true
  | c :: p' => bool_decide (c = cColon) && forallb isDigit p'
  end.
Definition urlSplitHostPort (hostPort : bytes) : bytes * bytes :=
  let '(host, port) :=
    match lastIndexByte hostPort cColon with
    | Some i => if validOptionalPort (drop i hostPort) then (take i hostPort, drop (S i) hostPort) else (hostPort, [])
    | None => (hostPort, [])
    end in
  if bool_decide (head host = Some cLBr) && bool_decide (last host = Some cRBr)
  then (drop 1 (take (length host - 1) host), port) else (host, port).
Definition Hostname (u : URL) : bytes := fst (urlSplitHostPort (Host u)).
Definition Port (u : URL) : bytes := snd (urlSplitHostPort (Host u)).

(** [getScheme]: [None] is the error, [Some ([], s)] no scheme. *)
Fixpoint getSchemeLoop (i : nat) (pre rest : bytes) : option (bytes * bytes) :=
  match rest with
  | [] => Some ([], pre)
  | c :: rest' =>
      let z := b2z c in
      if ((97 <=? z) && (z <=? 122)) || ((65 <=? z) && (z <=? 90)) then getSchemeLoop (S i) (pre ++ [c]) rest'
      else if ((48 <=? z) && (z <=? 57)) || inSet c "+-." then
        if (i =? 0)%nat then Some ([], pre ++ rest) else getSchemeLoop (S i) (pre ++ [c]) rest'
      else if decide (c = cColon) then
        if (i =? 0)%nat then None else Some (pre, rest')
      else Some ([], pre ++ rest)
  end.

(** [strings.Index(s, sub)]. *)
Fixpoint indexSub (sub s : bytes) : option nat :=
  if isPrefix sub s then Some O
  else match s with [] => None | _ :: s' => S <$> indexSub sub s' end.

(** [parseHost(host)]: brackets around an IP literal, a zone, a port, and unescaping. *)
Definition parseHost (host : bytes) : option bytes :=
  if bool_decide (head host = Some cLBr) then
    match lastIndexByte host cRBr with
    | None => None
    | Some i =>
        if negb (validOptionalPort (drop (S i) host)) then None
        else match indexSub (str2b "%25") (take i host) with
        | Some zone =>
            h1 ← unescape encodeHost (take zone host);
            h2 ← unescape encodeZone (drop zone (take i host));
            h3 ← unescape encodeHost (drop i host);
            Some (h1 ++ h2 ++ h3)
        | None => unescape encodeHost host
        end
    end
  else
    match lastIndexByte host cColon with
    | Some i => if validOptionalPort (drop i host) then unescape encodeHost host else None
    | None => unescape encodeHost host
    end.

Definition validUserinfo (s : bytes) : bool :=
  forallb (fun c => isAlnum c || inSet c "-._:~!$&'()*+,;=%@") s.

(** [parseAuthority]. *)
Definition parseAuthority (authority : bytes) : option (option bytes * bytes) :=
  match lastIndexByte authority cAt with
  | None => (fun h => (None, h)) <$> parseHost authority
  | Some i =>
      match parseHost (drop (S i) authority) with
      | None => None
      | Some h =>
          let ui := take i authority in
          if validUserinfo ui && bool_decide (is_Some (unescape encodeUserPassword ui)) then Some (Some ui, h) else None
      end
  end.

Definition isCTL (c : byte) : bool := (b2z c <? 0x20) || (b2z c =? 0x7f).
Definition hasPrefix (p : string) (s : bytes) : bool := isPrefix (str2b p) s.
Definition zeroURL : URL := {| Scheme := []; Opaque := []; User := None; Host := []; Path := []; RawPath := [];
  OmitHost := false; ForceQuery := false; RawQuery := []; Fragment := [] |}.

(** [parse(rawURL, false)]. *)
Definition parseURL (raw : bytes) : option URL :=
  if existsb isCTL raw then None
  else if bool_decide (raw = str2b "*") then Some (setPathTo zeroURL (str2b "*") [])
  else
    '(scheme, rest) ← getSchemeLoop O [] raw;
    let scheme := toLower scheme in
    let force := bool_decide (last rest = Some cQuestion) && (countByte rest cQuestion =? 1) in
    let '(rest, rawq) := if force then (take (length rest - 1) rest, []) else cut cQuestion rest in
    let build (user : option bytes) (host : bytes) (omit : bool) (rest : bytes) : option URL :=
      path ← unescape encodePath rest;
      Some {| Scheme := scheme; Opaque := []; User := user; Host := host; Path := path;
              RawPath := if bool_decide (escape encodePath path = rest) then [] else rest;
              OmitHost := omit; ForceQuery := force; RawQuery := rawq; Fragment := [] |} in
    if negb (hasPrefix "/" rest) && negb (bool_decide (scheme = [])) then
      Some {| Scheme := scheme; Opaque := rest; User := None; Host := []; Path := []; RawPath := [];
              OmitHost := false; ForceQuery := force; RawQuery := rawq; Fragment := [] |}
    else if negb (hasPrefix "/" rest) && containsByte (fst (cut cSlash rest)) cColon then None
    else if (negb (bool_decide (scheme = [])) || negb (hasPrefix "///" rest)) && hasPrefix "//" rest then
      let authority := drop 2 rest in
      let '(authority, rest) :=
        match indexByte authority cSlash with
        | Some i => (take i authority, drop i authority)
        | None => (authority, [])
        end in
      '(user, host) ← parseAuthority authority;
      build user host false rest
    else build None [] (negb (bool_decide (scheme = [])) && hasPrefix "/" rest) rest.

(** [url.Parse(rawURL)]. *)
Definition Parse (raw : bytes) : res URL :=
  let '(u, frag) := cut cHash raw in
  match parseURL u with
  | None => Err (errMsg ("parse " +:+ b2str u))
  | Some url =>
      match frag with
      | [] => Ok url
      | _ =>
          match unescape encodeFragment frag with
          | None => Err (errMsg ("parse " +:+ b2str raw))
          | Some f => Ok {| Scheme := Scheme url; Opaque := Opaque url; User := User url; Host := Host url;
              Path := Path url; RawPath := RawPath url; OmitHost := OmitHost url; ForceQuery := ForceQuery url;
              RawQuery := RawQuery url; Fragment := f |}
          end
      end
  end.

(** ** Lemmas *)

(** *** Escaping *)

Lemma unescape_escapeByte c rest :
  QueryUnescape (escapeByte encodeQueryComponent c ++ rest) = cons c <$> QueryUnescape rest.
Proof. destruct c; reflexivity. Qed.

Lemma QueryUnescape_QueryEscape s : QueryUnescape (QueryEscape s) = Some s.
Proof.
  induction s as [|c s IH]; [done|]. change (QueryEscape (c :: s)) with (escapeByte encodeQueryComponent c ++ QueryEscape s).
  by rewrite unescape_escapeByte, IH.
Qed.

(** Characters that an escaped component never holds. *)
Definition queryDelim (b : byte) : bool := bool_decide (b = cAmp) || bool_decide (b = cEq) || bool_decide (b = cSemi).
Lemma QueryEscape_chars s : Forall (fun b => queryDelim b = false) (QueryEscape s).
Proof.
  induction s as [|c s IH]; [constructor|]. change (QueryEscape (c :: s)) with (escapeByte encodeQueryComponent c ++ QueryEscape s).
  apply Forall_app_2; [|done]. destruct c; repeat (constructor; [reflexivity|]); constructor.
Qed.
Lemma QueryEscape_not_in s b : queryDelim b = true -> b ∉ QueryEscape s.
Proof. intros Hb Hin. pose proof (QueryEscape_chars s) as H. rewrite Forall_forall in H. specialize (H _ Hin). congruence. Qed.

(** *** Encoding and parsing queries *)

Definition addValue (m : Values) (kv : bytes * bytes) : Values := <[kv.1 := default [] (m !! kv.1) ++ [kv.2]]> m.

Lemma cut_app c l r : c ∉ l -> cut c (l ++ c :: r) = (l, r).
Proof.
  intros H. unfold cut. rewrite indexByte_app by done. rewrite take_app_length. f_equal. clear. by induction l.
Qed.

Lemma parsePair_encode m k v : parsePair m (encodePair k v) = addValue m (k, v).
Proof.
  unfold parsePair, encodePair. rewrite containsByte_spec, bool_decide_false.
  - rewrite cut_app by (by apply QueryEscape_not_in). rewrite !QueryUnescape_QueryEscape.
    by destruct (QueryEscape k).
  - rewrite elem_of_app, elem_of_cons. intros [H|[H|H]]; [|done|];
      (eapply QueryEscape_not_in; [|exact H]; reflexivity).
Qed.

Lemma encodePair_amp k v : cAmp ∉ encodePair k v.
Proof.
  unfold encodePair. rewrite elem_of_app, elem_of_cons.
  intros [H|[H|H]]; [|done|]; (eapply QueryEscape_not_in; [|exact H]; reflexivity).
Qed.

Lemma split_joinWith c (l : list bytes) :
  l <> [] -> Forall (fun p => c ∉ p) l -> split c (joinWith [c] l) = l.
Proof.
  intros Hne Hl. destruct Hl as [|x l Hx Hl]; [done|]. clear Hne. simpl.
  revert x Hx. induction Hl as [|y l Hy _ IH]; intros x Hx; [by rewrite app_nil_r; apply split_last|].
  simpl. rewrite split_app by done. f_equal. by apply IH.
Qed.

Definition valuesOf (k : bytes) (ps : list (bytes * bytes)) : list bytes := (filter (fun kv => kv.1 = k) ps).*2.

Lemma fold_addValue ps m k :
  fold_left addValue ps m !! k = match valuesOf k ps with [] => m !! k | vs => Some (default [] (m !! k) ++ vs) end.
Proof.
  revert m. induction ps as [|[k0 v0] ps IH]; intros m; [done|]. cbn [fold_left]. rewrite IH.
  unfold valuesOf, addValue. rewrite filter_cons. cbn [fst snd]. destruct (decide (k0 = k)) as [->|Hne].
  - rewrite lookup_insert_eq. change (((k, v0) :: ?l).*2) with (v0 :: l.*2). cbn iota.
    destruct ((filter _ ps).*2); [done|]. simpl default. by rewrite <- app_assoc.
  - by rewrite lookup_insert_ne.
Qed.

Definition pairsOf (v : Values) : list (bytes * bytes) :=
  sortedKeys v ≫= fun k => (fun x => (k, x)) <$> default [] (v !! k).

Lemma valuesOf_app k a b : valuesOf k (a ++ b) = valuesOf k a ++ valuesOf k b.
Proof. unfold valuesOf. by rewrite filter_app, fmap_app. Qed.

Lemma valuesOf_key k k0 (xs : list bytes) :
  valuesOf k ((fun x => (k0, x)) <$> xs) = if decide (k0 = k) then xs else [].
Proof.
  unfold valuesOf. induction xs as [|x xs IH]; [by case_decide|].
  cbn [fmap list_fmap]. rewrite filter_cons. cbn [fst]. destruct (decide (k0 = k)); [|done].
  change (((k0, x) :: ?l).*2) with (x :: l.*2). by rewrite IH.
Qed.

Lemma valuesOf_pairsOf v k : valuesOf k (pairsOf v) = default [] (v !! k).
Proof.
  destruct (sortedKeys_spec v) as (_ & Hn & Hin). unfold pairsOf.
  assert (H : forall l, NoDup l -> valuesOf k (l ≫= fun k => (fun x => (k, x)) <$> default [] (v !! k))
    = if decide (k ∈ l) then default [] (v !! k) else []).
  { induction 1 as [|x l Hx Hl IH]; [done|]. cbn [mbind list_bind]. rewrite valuesOf_app, valuesOf_key, IH.
    destruct (decide (x = k)) as [->|Hne].
    - rewrite (decide_False (P := k ∈ l)) by done. rewrite decide_True by by left. by rewrite app_nil_r.
    - simpl. apply decide_ext. rewrite elem_of_cons. naive_solver. }
  rewrite H by done. case_decide as Hk; [done|]. rewrite Hin in Hk. by destruct (v !! k); [destruct Hk|].
Qed.

(** Values without empty lists survive encoding and parsing. *)
Definition valuesWF (v : Values) : Prop := forall k xs, v !! k = Some xs -> xs <> [].

Lemma parseQuery_Encode v : valuesWF v -> parseQuery (Encode v) = v.
Proof.
  intros Hwf. unfold parseQuery, Encode.
  assert (E : encodePairs v = (fun kv => encodePair kv.1 kv.2) <$> pairsOf v).
  { unfold encodePairs, pairsOf. induction (sortedKeys v) as [|k l IH]; [done|].
    cbn [mbind list_bind]. rewrite fmap_app, IH. f_equal. by rewrite <- list_fmap_compose. }
  assert (Hfold : fold_left parsePair (encodePairs v) ∅ = v).
  { rewrite E. assert (Hf : forall ps m, fold_left parsePair ((fun kv => encodePair kv.1 kv.2) <$> ps) m = fold_left addValue ps m).
    { induction ps as [|[k x] ps IH]; intros m; [done|]. cbn [fmap list_fmap fold_left]. by rewrite IH, parsePair_encode. }
    rewrite Hf. apply map_eq. intros k. rewrite fold_addValue, valuesOf_pairsOf, lookup_empty.
    destruct (v !! k) as [xs|] eqn:Ek; simpl; [|done]. destruct xs; [by apply Hwf in Ek|done]. }
  destruct (encodePairs v) as [|p ps] eqn:Ep; [exact Hfold|].
  rewrite split_joinWith; [done|done|]. rewrite E. apply Forall_fmap, Forall_true. intros [k x]. apply encodePair_amp.
Qed.

Lemma parsePair_WF m p : valuesWF m -> valuesWF (parsePair m p).
Proof.
  intros H. unfold parsePair. repeat case_match; try done. intros k xs.
  rewrite lookup_insert_Some. intros [[_ <-]|[_ Hk]]; [by destruct (default [] _)|by eapply H].
Qed.
Lemma parseQuery_WF q : valuesWF (parseQuery q).
Proof.
  unfold parseQuery. assert (H : valuesWF ∅) by (by intros k xs; rewrite lookup_empty).
  revert H. generalize (∅ : Values). induction (split cAmp q) as [|p ps IH]; intros m H; [done|].
  simpl. by apply IH, parsePair_WF.
Qed.
Lemma Del_WF k v : valuesWF v -> valuesWF (Del k v).
Proof. intros H k' xs. unfold Del. rewrite lookup_delete_Some. intros [_ ?]. by eapply H. Qed.
