(* ===== verification/Transport.v ===== *)
(** * Transport selection

    The transport hints in an upstream's URL and the order in which the
    handshakes are tried: src/internal/ws.go, with the URL rewriting of
    src/internal/rfc8441_raw_h2.go ([cleanedRequestURI]) and
    src/internal/h3_healthcheck.go ([h3HealthcheckURL]) and the time-outs of
    src/internal/lb.go that depend on the hints. *)

From S2P Require Import Prelude GoNum GoNet Metrics GoURL WSFrame WSConn.

(** ** Hints *)

Record hints := { tryH2 : bool; h2Only : bool; tryH3 : bool; h3Only : bool; connectOnly : bool }.

Definition getIs (q : Values) (key value : string) : bool := bool_decide (Get q (str2b key) = str2b value).

(** [parseTransportHints(q)]. *)
Definition parseTransportHints (q : Values) : hints :=
  let tryH2 := getIs q "h2" "1" || getIs q "http2" "1" || getIs q "h2c" "1" || getIs q "rfc8441" "1" in
  let h2Only := getIs q "h2" "only" || getIs q "http2" "only" || getIs q "h2only" "1" || getIs q "rfc8441" "only" in
  let tryH3 := getIs q "h3" "1" || getIs q "http3" "1" || getIs q "quic" "1" || getIs q "rfc9220" "1" in
  let h3Only := getIs q "h3" "only" || getIs q "http3" "only" || getIs q "h3only" "1" || getIs q "quic" "only"
                || getIs q "rfc9220" "only" in
  let connectOnly := getIs q "connect" "only" || getIs q "extended_connect" "only" || getIs q "extended-connect" "only"
                     || getIs q "connect_protocol" "only" in
  let tryH3 := if h3Only then true else tryH3 in
  let tryH2 := if h2Only then true else tryH2 in
  let connectOnly := if h2Only || h3Only then true else connectOnly in
  {| tryH2 := tryH2; h2Only := h2Only; tryH3 := tryH3; h3Only := h3Only; connectOnly := connectOnly |}.

(** [isWebSocketLikeScheme(s)]. *)
Definition isWebSocketLikeScheme (s : bytes) : bool :=
  let s := toLower s in
  bool_decide (s = str2b "ws") || bool_decide (s = str2b "wss") || bool_decide (s = str2b "http")
  || bool_decide (s = str2b "https").

(** [upstreamFromURL(u)]; [None] is a nil pointer. *)
Definition upstreamFromURL (u : option URL) : bytes * bytes :=
  match u with
  | None => (str2b "unknown", str2b "tcp")
  | Some u =>
      let name := match Host u with [] => str2b "unknown" | _ => Host u end in
      if contains (str2b "udp") (toLower (Path u)) then (name, str2b "udp") else (name, str2b "tcp")
  end.

(** ** Rewritten URLs *)

(** [stripHealthcheckQueryParams(u)]. *)
Definition stripHealthcheckQueryParams (u : option URL) : option URL :=
  (fun u => setRawQuery u (Encode (Del (str2b "test_path") (Del (str2b "health_path") (Del (str2b "hc_path") (Query u))))))
  <$> u.

Definition isSpace (c : byte) : bool := inSet c " " || ((9 <=? b2z c) && (b2z c <=? 13)).
Fixpoint trimLeft (s : bytes) : bytes :=
  match s with
  | [] => []
  | c :: s' => if isSpace c then trimLeft s' else s
  end.
(** [strings.TrimSpace] of an ASCII string. *)
Definition TrimSpace (s : bytes) : bytes := reverse (trimLeft (reverse (trimLeft s))).

(** [h3HealthcheckURL(u)]. *)
Definition h3HealthcheckURL (u : option URL) : option URL :=
  (fun u =>
     let q := Query u in
     let hcPath := TrimSpace (Get q (str2b "hc_path")) in
     let hcPath := match hcPath with [] => TrimSpace (Get q (str2b "health_path")) | _ => hcPath end in
     let hcPath := match hcPath with [] => TrimSpace (Get q (str2b "test_path")) | _ => hcPath end in
     let q := Del (str2b "test_path") (Del (str2b "health_path") (Del (str2b "hc_path") q)) in
     let u := setRawQuery u (Encode q) in
     match hcPath with
     | [] => u
     | _ => setPathTo u (if hasPrefix "/" hcPath then hcPath else cSlash :: hcPath) []
     end)
  <$> u.

Definition controlParams : list string :=
  ["h2"; "http2"; "h2only"; "h2c"; "h3"; "http3"; "h3only"; "quic"; "test_path"; "health_path"; "hc_path"].

(** [cleanedRequestURI(u)]. *)
Definition cleanedRequestURI (u : URL) : bytes :=
  let q := fold_left (fun q k => Del (str2b k) q) controlParams (Query u) in
  let path := match EscapedPath u with [] => str2b "/" | p => p end in
  match Encode q with
  | [] => path
  | qs => path ++ cQuestion :: qs
  end.

(** ** Time-outs that depend on the hints *)

Definition h3HandshakeTimeout : Z := 12 * Second.
Definition h3HealthcheckMinTimeout : Z := h3HandshakeTimeout.

(** [wsDialTimeoutForURL(base, rawurl)]. *)
Definition wsDialTimeoutForURL (base : Z) (rawurl : bytes) : Z :=
  if base <=? 0 then base
  else match Parse rawurl with
  | Ok u =>
      let h := parseTransportHints (Query u) in
      if (tryH3 h || h3Only h) && (base <? h3HealthcheckMinTimeout) then h3HealthcheckMinTimeout else base
  | _ => base
  end.

(** [shouldUseH3Healthcheck(rawurl)]. *)
Definition shouldUseH3Healthcheck (rawurl : bytes) : bool :=
  match Parse rawurl with
  | Ok u => let h := parseTransportHints (Query u) in tryH3 h || h3Only h
  | _ => false
  end.

(** ** Dialling *)

Definition errRFC8441NotSupported : gerror := errSentinel "rfc8441 not supported by transport".

(** The three handshakes and the clock, acting on a world [W]. *)
Class Dialers (C W : Type) := {
  dialRFC9220 : URL -> W -> res C * W;
  dialRFC8441 : URL -> W -> res C * W;
  dialCoderWebSocket : URL -> W -> res C * W;
  clock : W -> Z * W }.

Section Dial.
Context {C W : Type} `{!Dialers C W}.

(** The successful return: the dial time is observed. *)
Definition dialed (upstream proto : bytes) (start : Z) (c : C) (w : W) : res C * W * list mev :=
  let '(now, w) := clock w in (Ok c, w, [observeDial upstream proto (timeSub now start)]).

(** The last attempt: HTTP/1.1 upgrade, unless extended CONNECT is required. *)
Definition dialH1 (h : hints) (upstream proto : bytes) (start : Z) (uDial : URL) (w : W) : res C * W * list mev :=
  if connectOnly h then
    (Err (errMsg "extended-connect-only mode blocks h1 websocket upgrade fallback"), w, [])
  else
    match dialCoderWebSocket uDial w with
    | (Ok c, w) => dialed upstream proto start c w
    | (Err e, w) => (Err e, w, [])
    | (Panic p, w) => (Panic p, w, [])
    end.

(** From the test of [h2Only] on, with the value [tryH2'] of [tryH2] by then. *)
Definition dialH2 (h : hints) (tryH2' : bool) (upstream proto : bytes) (start : Z) (u uDial : URL) (w : W)
  : res C * W * list mev :=
  if h2Only h then
    if negb (isWebSocketLikeScheme (Scheme u)) then
      (Err (errMsg ("h2-only mode requires ws/wss URL, got scheme=" +:+ b2str (Scheme u))), w, [])
    else match dialRFC8441 uDial w with
    | (Ok c, w) => dialed upstream proto start c w
    | (Err e, w) => (Err (errWrap "h2-only connect failed: " e ""), w, [])
    | (Panic p, w) => (Panic p, w, [])
    end
  else if tryH2' && isWebSocketLikeScheme (Scheme u) then
    match dialRFC8441 uDial w with
    | (Ok c, w) => dialed upstream proto start c w
    | (Err e, w) =>
        if negb (errors_Is e errRFC8441NotSupported) then (Err e, w, [])
        else dialH1 h upstream proto start uDial w
    | (Panic p, w) => (Panic p, w, [])
    end
  else dialH1 h upstream proto start uDial w.

(** [DialWSStream(ctx, rawurl, fwmark)]. *)
Definition DialWSStream (rawurl : bytes) (w : W) : res C * W * list mev :=
  let '(start, w) := clock w in
  match Parse rawurl with
  | Err e => (Err e, w, [])
  | Panic p => (Panic p, w, [])
  | Ok u =>
      let '(upstream, proto) := upstreamFromURL (Some u) in
      let uDial := default u (stripHealthcheckQueryParams (Some u)) in
      let h := parseTransportHints (Query u) in
      if tryH3 h && isWebSocketLikeScheme (Scheme u) then
        match dialRFC9220 uDial w with
        | (Ok c, w) => dialed upstream proto start c w
        | (Err e, w) =>
            if h3Only h then (Err (errWrap "h3-only connect failed: " e ""), w, [])
            else dialH2 h true upstream proto start u uDial w
        | (Panic p, w) => (Panic p, w, [])
        end
      else if h3Only h then
        (Err (errMsg ("h3-only mode requires ws/wss URL, got scheme=" +:+ b2str (Scheme u))), w, [])
      else dialH2 h (tryH2 h) upstream proto start u uDial w
  end.

(** [ProbeWSS(ctx, rawurl, fwmark)]: the round-trip time, and the connection closed again. *)
Definition ProbeWSS `{!WSConn C} (rawurl : bytes) (w : W) : res Z * option C * W * list mev :=
  let '(start, w) := clock w in
  match DialWSStream rawurl w with
  | (Err e, w, evs) => (Err e, None, w, evs)
  | (Panic p, w, evs) => (Panic p, None, w, evs)
  | (Ok c, w, evs) =>
      let '(now, w) := clock w in
      match ws_close WSStatusNormalClosure "probe" c with
      | (Panic p, c) => (Panic p, Some c, w, evs)
      | (_, c) => (Ok (timeSub now start), Some c, w, evs)
      end
  end.
End Dial.

(** ** Lemmas *)

Definition hcParams : list string := ["hc_path"; "health_path"; "test_path"].
Definition withoutHC (q : Values) : Values :=
  Del (str2b "test_path") (Del (str2b "health_path") (Del (str2b "hc_path") q)).

Lemma Query_withoutHC u : Query (setRawQuery u (Encode (withoutHC (Query u)))) = withoutHC (Query u).
Proof. apply parseQuery_Encode. do 3 apply Del_WF. apply parseQuery_WF. Qed.

Lemma Get_Del k k' q : k <> k' -> Get (Del k q) k' = Get q k'.
Proof. intros H. unfold Get, Del. by rewrite lookup_delete_ne. Qed.

Lemma Get_withoutHC q k : k ∉ (str2b <$> hcParams) -> Get (withoutHC q) k = Get q k.
Proof.
  intros H. unfold hcParams in H. cbn [fmap list_fmap] in H. rewrite !not_elem_of_cons in H. destruct H as (H1 & H2 & H3 & _).
  unfold withoutHC. rewrite !Get_Del by congruence. done.
Qed.

(** Removing the health-check parameters leaves the hints alone. *)
Lemma hints_withoutHC q : parseTransportHints (withoutHC q) = parseTransportHints q.
Proof.
  unfold parseTransportHints, getIs. rewrite !Get_withoutHC; [done|..]; compute_done.
Qed.

(** ** A world that records the attempts *)

Inductive attempt := H3 | H2 | H1.

#[global] Instance attempt_eq_dec : EqDecision attempt.
Proof. solve_decision. Defined.

(** The attempts made so far with their URL, the outcome of each transport, the time. *)
Record recW (C : Type) := { rlog : list (attempt * URL); rout : attempt -> res C; rtime : Z }.
Arguments rlog {C} _.
Arguments rout {C} _ _.
Arguments rtime {C} _.
Definition recAttempt {C} (a : attempt) (u : URL) (w : recW C) : res C * recW C :=
  (rout w a, {| rlog := rlog w ++ [(a, u)]; rout := rout w; rtime := rtime w |}).

#[export] Instance recDialers C : Dialers C (recW C) := {
  dialRFC9220 := recAttempt H3; dialRFC8441 := recAttempt H2; dialCoderWebSocket := recAttempt H1;
  clock w := (rtime w, w) }.

Lemma hints_only q :
  let h := parseTransportHints q in
  (h3Only h = true -> tryH3 h = true /\ connectOnly h = true) /\ (h2Only h = true -> tryH2 h = true /\ connectOnly h = true).
Proof.
  unfold parseTransportHints. cbv zeta. cbn [h3Only tryH3 connectOnly h2Only tryH2].
  split; intros ->; [by rewrite orb_true_r|done].
Qed.

(** ** The policy as a relation between the attempts made and the result *)

Section Policy.
Context {C : Type} (h : hints) (ws : bool) (out : attempt -> res C).

Inductive run1 : list attempt -> res C -> Prop :=
| r1_blocked e : connectOnly h = true -> run1 [] (Err e)
| r1_ok c : connectOnly h = false -> out H1 = Ok c -> run1 [H1] (Ok c)
| r1_err e : connectOnly h = false -> out H1 = Err e -> run1 [H1] (Err e).

Inductive run2 : list attempt -> res C -> Prop :=
| r2_scheme e : h2Only h = true -> ws = false -> run2 [] (Err e)
| r2_ok c : ws = true -> out H2 = Ok c -> run2 [H2] (Ok c)
| r2_err e e' : ws = true -> out H2 = Err e ->
    h2Only h = true \/ errors_Is e errRFC8441NotSupported = false -> run2 [H2] (Err e')
| r2_fall e l r : h2Only h = false -> ws = true -> out H2 = Err e -> errors_Is e errRFC8441NotSupported = true ->
    run1 l r -> run2 (H2 :: l) r
| r2_skip l r : h2Only h = false -> run1 l r -> run2 l r.

Inductive run3 : list attempt -> res C -> Prop :=
| r3_ok c : tryH3 h && ws = true -> out H3 = Ok c -> run3 [H3] (Ok c)
| r3_only e e' : tryH3 h && ws = true -> out H3 = Err e -> h3Only h = true -> run3 [H3] (Err e')
| r3_fall e l r : tryH3 h && ws = true -> out H3 = Err e -> h3Only h = false -> run2 l r -> run3 (H3 :: l) r
| r3_scheme e : tryH3 h && ws = false -> h3Only h = true -> run3 [] (Err e)
| r3_skip l r : tryH3 h && ws = false -> h3Only h = false -> run2 l r -> run3 l r.

Context (Hnp : forall a p, out a <> Panic p) (ud : URL).

(** From world [w] the attempts [l], all on [ud], and the result [r]. *)
Definition dials (w : recW C) (x : res C * recW C * list mev) (l : list attempt) : Prop :=
  rlog (snd (fst x)) = rlog w ++ ((fun a => (a, ud)) <$> l).

Lemma dialH1_run up pr start w :
  rout w = out ->
  exists l, dials w (dialH1 h up pr start ud w) l /\ run1 l (fst (fst (dialH1 h up pr start ud w))).
Proof.
  intros Hw. unfold dialH1, dials. destruct (connectOnly h) eqn:E; [exists []; split; [by rewrite app_nil_r|by constructor]|].
  cbn [dialCoderWebSocket recDialers]. unfold recAttempt. rewrite Hw. exists [H1].
  destruct (out H1) as [c|e|p] eqn:Eo; [split; [done|by apply r1_ok]|split; [done|by apply r1_err]|by apply Hnp in Eo].
Qed.

Lemma dialH2_run try2 up pr start u w :
  rout w = out -> isWebSocketLikeScheme (Scheme u) = ws ->
  exists l, dials w (dialH2 h try2 up pr start u ud w) l /\ run2 l (fst (fst (dialH2 h try2 up pr start u ud w))).
Proof.
  intros Hw Hs. unfold dialH2. rewrite Hs. destruct (h2Only h) eqn:E2.
  - destruct ws eqn:Ews; [|exists []; split; [unfold dials; by rewrite app_nil_r|by apply r2_scheme]].
    cbn [negb dialRFC8441 recDialers]. unfold recAttempt. rewrite Hw. exists [H2].
    destruct (out H2) as [c|e|p] eqn:Eo; [split; [done|by apply r2_ok]|split; [done|]|by apply Hnp in Eo].
    eapply r2_err; [done|exact Eo|by left].
  - destruct (dialH1_run up pr start w Hw) as (l1 & Hd1 & Hr1).
    destruct (try2 && ws) eqn:Et; [|exists l1; split; [done|by apply r2_skip]].
    apply andb_true_iff in Et as [_ Ews]. cbn [dialRFC8441 recDialers]. unfold recAttempt. rewrite Hw.
    destruct (out H2) as [c|e|p] eqn:Eo; [exists [H2]; split; [done|by apply r2_ok]| |by apply Hnp in Eo].
    destruct (errors_Is e errRFC8441NotSupported) eqn:En; cbn [negb].
    + set (w2 := Build_recW _ _ _ _). destruct (dialH1_run up pr start w2 eq_refl) as (l & Hd & Hr).
      exists (H2 :: l). split; [|by eapply r2_fall]. unfold dials in *. rewrite Hd. simpl. by rewrite <- app_assoc.
    + exists [H2]. split; [done|]. eapply r2_err; [done|exact Eo|by right].
Qed.
End Policy.

Lemma DialWSStream_run {C} rawurl u (out : attempt -> res C) t :
  Parse rawurl = Ok u -> (forall a p, out a <> Panic p) ->
  let w := {| rlog := []; rout := out; rtime := t |} in
  exists ud l, stripHealthcheckQueryParams (Some u) = Some ud /\ dials ud w (DialWSStream rawurl w) l
    /\ run3 (parseTransportHints (Query u)) (isWebSocketLikeScheme (Scheme u)) out l (fst (fst (DialWSStream rawurl w))).
Proof.
  intros Hu Hnp w. unfold DialWSStream. cbn [clock recDialers]. rewrite Hu.
  destruct (upstreamFromURL (Some u)) as [up pr]. set (ud := default u _). exists ud. set (h := parseTransportHints _).
  destruct (tryH3 h && isWebSocketLikeScheme (Scheme u)) eqn:E3.
  - cbn [dialRFC9220 recDialers]. unfold recAttempt. cbn [rout w].
    destruct (out H3) as [c|e|p] eqn:Eo; [exists [H3]; split; [done|]; split; [done|by apply r3_ok]| |by apply Hnp in Eo].
    destruct (h3Only h) eqn:Eo3; [exists [H3]; split; [done|]; split; [done|by eapply r3_only]|].
    set (w2 := Build_recW _ _ _ _).
    destruct (dialH2_run h _ out Hnp ud true up pr t u w2 eq_refl eq_refl) as (l & Hd & Hr).
    exists (H3 :: l). split; [done|]. split; [|by eapply r3_fall]. exact Hd.
  - destruct (h3Only h) eqn:Eo3; [exists []; split; [done|]; split; [done|by apply r3_scheme]|].
    destruct (dialH2_run h _ out Hnp ud (tryH2 h) up pr t u w eq_refl eq_refl) as (l & Hd & Hr).
    exists l. split; [done|]. split; [done|by apply r3_skip].
Qed.

(** Consequences of the policy, by inversion. *)
Section PolicyFacts.
Context {C : Type} (h : hints) (ws : bool) (out : attempt -> res C).
Hypothesis Hh3 : h3Only h = true -> connectOnly h = true.
Hypothesis Hh2 : h2Only h = true -> connectOnly h = true.

(** What holds of a list of attempts and a result, for any subset of transports. *)
Definition policyOk (l : list attempt) (r : res C) : Prop :=
  (H1 ∈ l -> connectOnly h = false)
  /\ (H1 ∈ l -> H2 ∈ l -> exists e, out H2 = Err e /\ errors_Is e errRFC8441NotSupported = true)
  /\ (forall c, r = Ok c -> exists a, last l = Some a /\ out a = Ok c)
  /\ (forall a c, a ∈ l -> out a = Ok c -> r = Ok c)
  /\ (forall p, r <> Panic p).

Lemma run1_ok l r : run1 h out l r -> l `sublist_of` [H1] /\ policyOk l r.
Proof.
  unfold policyOk. destruct 1 as [e H|c H Ho|e H Ho].
  - split; [by repeat constructor|]. repeat split; try done; intros * []%elem_of_nil.
  - split; [by repeat constructor|]. split; [done|]. split; [by intros _ ?%list_elem_of_singleton|].
    split; [intros c' [= <-]; by exists H1|]. split; [|done]. intros a c' ->%list_elem_of_singleton. congruence.
  - split; [by repeat constructor|]. split; [done|]. split; [by intros _ ?%list_elem_of_singleton|].
    split; [done|]. split; [|done]. intros a c' ->%list_elem_of_singleton. congruence.
Qed.

Lemma policyOk_single a r :
  a <> H1 -> (forall c, out a = Ok c <-> r = Ok c) -> (forall p, r <> Panic p) -> policyOk [a] r.
Proof.
  intros Ha Hr Hp. unfold policyOk. split; [by intros ?%list_elem_of_singleton|].
  split; [by intros ?%list_elem_of_singleton|]. split; [intros c Hc; exists a; split; [done|by apply Hr]|].
  split; [|done]. intros b c ->%list_elem_of_singleton Hb. by apply Hr.
Qed.

Lemma policyOk_cons a e l r :
  a <> H1 -> out a = Err e -> (a = H2 -> errors_Is e errRFC8441NotSupported = true) -> H2 ∉ l \/ a <> H2 ->
  policyOk l r -> policyOk (a :: l) r.
Proof.
  intros Ha He Hn Hd (P1 & P2 & P3 & P4 & P5). unfold policyOk. split; [|split; [|split; [|split]]]; try done.
  - intros [?|?]%elem_of_cons; [congruence|by apply P1].
  - intros [?|Hi]%elem_of_cons [Heq|Hj]%elem_of_cons; [congruence|congruence| |by apply P2].
    subst a. exists e. split; [done|by apply Hn].
  - intros c Hc. destruct (P3 c Hc) as (b & Hb & Hob). exists b. split; [|done]. rewrite last_cons. by rewrite Hb.
  - intros b c [->|Hb]%elem_of_cons Hob; [congruence|by eapply P4].
Qed.

Lemma run2_ok l r : run2 h ws out l r -> l `sublist_of` [H2; H1] /\ policyOk l r /\ (H1 ∈ l -> h2Only h = false).
Proof.
  destruct 1 as [e H Hw|c Hw Ho|e e' Hw Ho Hor|e l r H Hw Ho Hn Hr|l r H Hr].
  - split; [by repeat constructor|]. split; [|by intros []%elem_of_nil].
    unfold policyOk. repeat split; try done; intros * []%elem_of_nil.
  - split; [by repeat constructor|]. split; [|by intros ?%list_elem_of_singleton].
    apply policyOk_single; [done| |done]. intros c'. rewrite Ho. naive_solver.
  - split; [by repeat constructor|]. split; [|by intros ?%list_elem_of_singleton].
    apply policyOk_single; [done| |done]. intros c'. by rewrite Ho.
  - apply run1_ok in Hr as [Hs Hp]. split; [by constructor|]. split; [|done].
    eapply policyOk_cons; [done|exact Ho|done| |done]. left. intros Hi. eapply elem_of_sublist in Hi; [|exact Hs].
    by apply list_elem_of_singleton in Hi.
  - apply run1_ok in Hr as [Hs Hp]. split; [by constructor|]. done.
Qed.

Lemma run3_ok l r :
  run3 h ws out l r ->
  l `sublist_of` [H3; H2; H1] /\ policyOk l r /\ (H3 ∈ l <-> tryH3 h && ws = true)
  /\ (H1 ∈ l -> h2Only h = false /\ h3Only h = false).
Proof.
  assert (Hno : forall l, l `sublist_of` [H2; H1] -> H3 ∉ l).
  { intros l' Hs Hi. eapply elem_of_sublist in Hi; [|exact Hs]. set_solver. }
  destruct 1 as [c Ht Ho|e e' Ht Ho H3o|e l r Ht Ho H3o Hr|e Ht H3o|l r Ht H3o Hr].
  - split; [by repeat constructor|]. split; [|split; [split; [done|by left]|by intros ?%list_elem_of_singleton]].
    apply policyOk_single; [done| |done]. intros c'. rewrite Ho. naive_solver.
  - split; [by repeat constructor|]. split; [|split; [split; [done|by left]|by intros ?%list_elem_of_singleton]].
    apply policyOk_single; [done| |done]. intros c'. by rewrite Ho.
  - apply run2_ok in Hr as (Hs & Hp & Hi). split; [by constructor|].
    split; [eapply policyOk_cons; [done|exact Ho|done|by right|done]|].
    split; [split; [done|by left]|]. intros [?|Hx]%elem_of_cons; [done|]. split; [by apply Hi|done].
  - split; [by repeat constructor|]. split; [unfold policyOk; repeat split; try done; intros * []%elem_of_nil|].
    split; [split; [by intros []%elem_of_nil|congruence]|by intros []%elem_of_nil].
  - apply run2_ok in Hr as (Hs & Hp & Hi). split; [by constructor|]. split; [done|].
    split; [split; [intros Hx; by apply Hno in Hx|congruence]|]. intros Hx. split; [by apply Hi|done].
Qed.
End PolicyFacts.

(** ** Properties *)

(** Dialling follows the hints: the transports are tried in the order HTTP/3,
    HTTP/2, HTTP/1.1, each at most once and on the URL without health-check
    parameters; HTTP/3 is tried exactly when the hints ask for it on a
    WebSocket-like scheme; HTTP/1.1 is never tried when extended CONNECT (or a
    single transport) is required, and after HTTP/2 only when HTTP/2 reported that
    it is not supported; the connection returned is the one of the last attempt,
    and no attempt follows a success. *)
Theorem dial_policy {C : Type} (rawurl : bytes) (u : URL) (out : attempt -> res C) (t : Z)
    (Hurl : Parse rawurl = Ok u) (Hnp : forall a p, out a <> Panic p) :
  let h := parseTransportHints (Query u) in
  exists ud l, stripHealthcheckQueryParams (Some u) = Some ud
  /\ (let '(r, w, evs) := DialWSStream rawurl {| rlog := []; rout := out; rtime := t |} in
      rlog w = (fun a => (a, ud)) <$> l
      /\ (forall c, r = Ok c -> exists a, last l = Some a /\ out a = Ok c)
      /\ (forall a c, a ∈ l -> out a = Ok c -> r = Ok c)
      /\ (forall p, r <> Panic p))
  /\ l `sublist_of` [H3; H2; H1]
  /\ (H3 ∈ l <-> tryH3 h && isWebSocketLikeScheme (Scheme u) = true)
  /\ (H1 ∈ l -> connectOnly h = false /\ h2Only h = false /\ h3Only h = false)
  /\ (H1 ∈ l -> H2 ∈ l -> exists e, out H2 = Err e /\ errors_Is e errRFC8441NotSupported = true).
Proof.
  intros h. destruct (hints_only (Query u)) as [Hh3 Hh2]. fold h in Hh3, Hh2.
  destruct (DialWSStream_run rawurl u out t Hurl Hnp) as (ud & l & Hud & Hd & Hr).
  exists ud, l. split; [done|]. unfold dials in Hd.
  destruct (DialWSStream _ _) as [[r w] evs]. simpl in *.
  apply run3_ok in Hr as (Hs & (P1 & P2 & P3 & P4 & P5) & Hi3 & Hi1); [|tauto..].
  split; [done|]. split; [done|]. split; [done|]. split; [|done].
  intros Hx. split; [by apply P1|by apply Hi1].
Qed.

(** The URL that is dialled keeps the upstream's query except for the three
    health-check parameters, so the transport hints read from it are the same, and
    nothing else of the URL changes; the health-check URL has the same query and,
    when a health path is given, an absolute path. *)
Theorem strip_keeps_hints (u : URL) :
  exists ud uh, stripHealthcheckQueryParams (Some u) = Some ud /\ h3HealthcheckURL (Some u) = Some uh
  /\ Query ud = withoutHC (Query u) /\ Query uh = withoutHC (Query u)
  /\ parseTransportHints (Query ud) = parseTransportHints (Query u)
  /\ (forall k, k ∉ (str2b <$> hcParams) -> Get (Query ud) k = Get (Query u) k)
  /\ (forall k, k ∈ (str2b <$> hcParams) -> Get (Query ud) k = [])
  /\ Scheme ud = Scheme u /\ Host ud = Host u /\ Path ud = Path u /\ RawPath ud = RawPath u
  /\ (Path uh = Path u \/ head (Path uh) = Some cSlash).
Proof.
  eexists _, _. split; [done|]. split; [done|].
  split; [apply Query_withoutHC|]. split.
  { cbn [h3HealthcheckURL fmap option_fmap option_map]. repeat case_match; apply Query_withoutHC. }
  split; [rewrite Query_withoutHC; apply hints_withoutHC|].
  split; [intros k Hk; rewrite Query_withoutHC; by apply Get_withoutHC|]. split.
  { intros k Hk. rewrite Query_withoutHC. unfold Get, withoutHC, Del.
    unfold hcParams in Hk. cbn [fmap list_fmap] in Hk. rewrite !elem_of_cons in Hk.
    destruct Hk as [->|[->|[->|[]%elem_of_nil]]];
      repeat (rewrite lookup_delete_eq || rewrite lookup_delete_ne by compute_done); done. }
  do 4 (split; [done|]). cbn [h3HealthcheckURL fmap option_fmap option_map].
  set (hp := match TrimSpace (Get (Query u) (str2b "hc_path")) with [] => _ | _ => _ end).
  destruct (match hp with [] => _ | _ => _ end) as [|b hcp] eqn:Ep; [by left|]. right.
  cbn [setPathTo Path]. unfold hasPrefix. simpl isPrefix. case_bool_decide as Hb; [|done]. simpl.
  by rewrite <- Hb.
Qed.

(** The request path sent in the handshakes still carries the control
    parameters [rfc8441], [rfc9220] and [connect], although the parameters of the
    same meaning ([h2], [h3]) are removed from it. *)
Theorem cleaned_uri_leaks_hints :
  match Parse (str2b "wss://edge.example.com/tcp?rfc8441=only&connect=only&h2=1&foo=bar") with
  | Ok u => cleanedRequestURI u = str2b "/tcp?connect=only&foo=bar&rfc8441=only"
            /\ h2Only (parseTransportHints (Query u)) = true /\ tryH2 (parseTransportHints (Query u)) = true
  | _ => False
  end.
Proof. vm_compute. done. Qed.

Definition demoURL : bytes := str2b "wss://edge.example.com/tcp?h3=1&hc_path=%2Fh".
Definition demoParsed : URL := match Parse demoURL with Ok u => u | _ => zeroURL end.

Lemma dial_policy_witness :
  let out a := match a with H3 => Err io_EOF | H2 => Ok 7%nat | H1 => Ok 9%nat end in
  let h := parseTransportHints (Query demoParsed) in
  exists ud l, stripHealthcheckQueryParams (Some demoParsed) = Some ud
  /\ (let '(r, w, evs) := DialWSStream demoURL {| rlog := []; rout := out; rtime := 0 |} in
      rlog w = (fun a => (a, ud)) <$> l
      /\ (forall c, r = Ok c -> exists a, last l = Some a /\ out a = Ok c)
      /\ (forall a c, a ∈ l -> out a = Ok c -> r = Ok c)
      /\ (forall p, r <> Panic p))
  /\ l `sublist_of` [H3; H2; H1]
  /\ (H3 ∈ l <-> tryH3 h && isWebSocketLikeScheme (Scheme demoParsed) = true)
  /\ (H1 ∈ l -> connectOnly h = false /\ h2Only h = false /\ h3Only h = false)
  /\ (H1 ∈ l -> H2 ∈ l -> exists e, out H2 = Err e /\ errors_Is e errRFC8441NotSupported = true).
Proof. apply dial_policy; [vm_compute; reflexivity|intros [] p; discriminate]. Defined.
