(* ===== verification/H3.v ===== *)
(** * WebSocket over HTTP/3

    src/internal/ws_h3.go: the adapter of a QUIC stream that carries DATA frames
    ([h3wsStream]), the frames of the handshake, the SETTINGS of the peer, and the
    dial with its client streams and its retry; and the probe of
    src/internal/h3_healthcheck.go. The QUIC library is given by what its calls
    return. *)

From S2P Require Import Prelude GoNum GoNet Metrics GoURL Varint QPack Transport.

(** ** Constants *)

Definition h3FrameData : Z := 0x0.
Definition h3FrameHeaders : Z := 0x1.
Definition h3FrameSettings : Z := 0x4.
Definition h3StreamControl : Z := 0x0.
Definition h3StreamQpackEncoder : Z := 0x2.
Definition h3StreamQpackDecoder : Z := 0x3.
Definition h3SettingEnableConnectProtocol : Z := 0x08.
Definition h3MaxDataFrameSize : Z := 64 * 2 ^ 20.

Inductive h3ClientStreamProfile := h3ClientStreamsControlAndQPACK | h3ClientStreamsControlOnly.

(** ** [h3wsStream] *)

Module Stream.

(** The bytes to come on the QUIC stream and what is left of the last DATA frame. *)
Record h3wsStream := H3Stream { s : rd; readBuf : bytes }.

(** The loop of [Read]; a round that goes on takes a frame off the stream, at least
    two bytes, so the length of the stream bounds the rounds. *)
Fixpoint readLoop (fuel : nat) (n : nat) (st : h3wsStream) : res bytes * h3wsStream :=
  match readBuf st with
  | _ :: _ => (Ok (take n (readBuf st)), H3Stream (s st) (drop n (readBuf st)))
  | [] =>
      match fuel with
      | O => (Panic "out of fuel", st)
      | S k =>
          match (ft ← readVarint;
                 len ← readVarint;
                 if h3MaxDataFrameSize <? len
                 then rm_err (errMsg ("h3 websocket stream protocol error: DATA frame too large: " +:+ b2str (itoa len)))
                 else payload ← readFull len; mret (ft, payload)) (s st) with
          | (Ok (ft, payload), r) =>
              if negb (ft =? h3FrameData)
              then (Err (errMsg ("h3 websocket stream protocol error: non-DATA frame type=" +:+ b2str (itoa ft))), H3Stream r [])
              else readLoop k n (H3Stream r payload)
          | (Err e, r) => (Err e, H3Stream r [])
          | (Panic w, r) => (Panic w, H3Stream r [])
          end
      end
  end.

(** [Read(p)] with [len(p) = n]. *)
Definition Read (n : nat) (st : h3wsStream) : res bytes * h3wsStream := readLoop (S (length (rd_buf (s st)))) n st.

(** The frame [Write(p)] puts on the stream. *)
Definition dataFrame (p : bytes) : bytes := appendVarint (appendVarint [] h3FrameData) (zlen p) ++ p.

(** The loop of [Write] and of [h3WriteWithContext]: [wr] is what the [k]-th write of
    the stream returns for the bytes it is given, [cx] what [ctx.Err()] does before it. *)
Fixpoint writeLoop (fuel : nat) (cx : nat -> option gerror) (wr : nat -> bytes -> Z * option gerror) (k : nat)
    (remaining out : bytes) : res unit * bytes * nat :=
  match remaining with
  | [] => (Ok tt, out, k)
  | _ :: _ =>
      match fuel with
      | O => (Panic "out of fuel", out, k)
      | S f =>
          match cx k with
          | Some e => (Err (if errors_Is e context_DeadlineExceeded then errMsg "h3 write timeout" else e), out, k)
          | None =>
              match wr k remaining with
              | (_, Some e) => (Err e, out, S k)
              | (n, None) =>
                  if n <=? 0 then (Err io_ErrShortWrite, out, S k)
                  else if zlen remaining <? n then (Panic "slice bounds out of range", out, S k)
                  else writeLoop f cx wr (S k) (drop (Z.to_nat n) remaining) (out ++ take (Z.to_nat n) remaining)
              end
          end
      end
  end.

(** [Write(p)]: the result, what reached the stream, and the number of writes; the
    flush of a non-empty payload can fail. *)
Definition Write (flushErr : option gerror) (wr : nat -> bytes -> Z * option gerror) (p : bytes) : res Z * bytes :=
  match writeLoop (length (dataFrame p)) (fun _ => None) wr 0 (dataFrame p) [] with
  | (Ok _, out, _) =>
      match p, flushErr with
      | _ :: _, Some e => (Err e, out)
      | _, _ => (Ok (zlen p), out)
      end
  | (Err e, out, _) => (Err e, out)
  | (Panic w, out, _) => (Panic w, out)
  end.

(** [Close()]: the errors of closing the stream, the connection and the endpoint;
    the first one is returned, by the first call only. *)
Definition Close (closed : bool) (errs : list (option gerror)) : option gerror * bool :=
  if closed then (None, true) else (fold_left (fun r e => match r with Some _ => r | None => e end) errs None, true).
End Stream.

(** ** Handshake frames *)

(** [h3ConnectHeaderFields(u, authority)]. *)
Definition h3ConnectHeaderFields (u : URL) (authority : bytes) : list (string * string) :=
  [(":method", "CONNECT"); (":scheme", "https"); (":authority", b2str authority); (":path", b2str (cleanedRequestURI u));
   (":protocol", "websocket"); ("sec-websocket-version", "13")]
  ++ (match Get (Query u) (str2b "origin") with [] => [] | origin => [("origin", b2str origin)] end).
Definition h3ConnectHeaders (u : URL) (authority : bytes) : bytes := h3EncodeHeaders (h3ConnectHeaderFields u authority).

(** A frame: type, length and payload; [requestFrame] of the dial. *)
Definition frame (ft : Z) (payload : bytes) : bytes := appendVarint (appendVarint [] ft) (zlen payload) ++ payload.
Definition requestFrame (u : URL) (authority : bytes) : bytes := frame h3FrameHeaders (h3ConnectHeaders u authority).

Section Response.
Variable huffmanDecode : bytes -> option string.

Definition rm_lift {A} (x : res A) : RM A := fun r => (x, r).

(** [h3ReadResponseHeaders(r)]: frames of other types are skipped. The buffer of a
    frame is allocated with the length the peer announces. *)
Fixpoint responseLoop (fuel : nat) : RM (gmap string string) :=
  match fuel with
  | O => rm_panic "out of fuel"
  | S k =>
      ft ← readVarint;
      n ← readVarint;
      buf ← makeslice n (readFull n);
      if ft =? h3FrameHeaders then rm_lift (h3DecodeHeaders huffmanDecode buf) else responseLoop k
  end.
Definition h3ReadResponseHeaders (r : rd) : res (gmap string string) * rd := responseLoop (S (length (rd_buf r))) r.
End Response.

(** ** SETTINGS of the peer *)

(** The loop of [h3ParseSettingsPayload]: the settings that were read, in order. *)
Fixpoint settingsLoop (fuel : nat) (r : rd) : list (Z * Z) :=
  match fuel, rd_buf r with
  | S k, _ :: _ =>
      match readVarint r with
      | (Ok id, r) =>
          match readVarint r with
          | (Ok v, r) => (id, v) :: settingsLoop k r
          | _ => []
          end
      | _ => []
      end
  | _, _ => []
  end.
(** [h3ParseSettingsPayload(payload)], without the text for the log: at most 32
    settings are looked at, the last ENABLE_CONNECT_PROTOCOL counts. *)
Definition h3ParseSettingsPayload (payload : bytes) : bool :=
  fold_left (fun en '(id, v) => if id =? h3SettingEnableConnectProtocol then v =? 1 else en)
    (settingsLoop 32 (Rd payload io_EOF)) false.

(** [h3PeerObservations]: [settingsClosed] is whether the channel was closed. *)
Record h3PeerObservations := Obs { sawSettings : bool; enableConnectProtocol : bool; settingsClosed : bool }.
Definition newH3PeerObservations : h3PeerObservations := Obs false false false.
Definition setSettings (enable : bool) (o : h3PeerObservations) : res h3PeerObservations :=
  if negb (sawSettings o) then
    if settingsClosed o then Panic "close of closed channel" else Ok (Obs true enable true)
  else Ok (Obs true enable (settingsClosed o)).

(** [h3LogPeerControlStream(r, obs)]: up to eight frames. *)
Fixpoint controlLoop (fuel : nat) (r : rd) (o : h3PeerObservations) : res h3PeerObservations :=
  match fuel with
  | O => Ok o
  | S k =>
      match (ft ← readVarint; n ← readVarint; p ← makeslice n (readFull n); mret (ft, p)) r with
      | (Ok (ft, p), r) =>
          if ft =? h3FrameSettings then o ← setSettings (h3ParseSettingsPayload p) o; controlLoop k r o
          else controlLoop k r o
      | (Err _, _) => Ok o
      | (Panic w, _) => Panic w
      end
  end.
Definition h3LogPeerControlStream (r : rd) (o : h3PeerObservations) : res h3PeerObservations := controlLoop 8 r o.

(** ** The dial *)

(** What the dial does with QUIC, in order. Streams are numbered as they are opened. *)
Inductive qact :=
| QListen | QDial (addr : bytes) | QStartDrainer | QOpenUni | QOpenBidi
| QWrite (st : nat) (b : bytes) | QFlush (st : nat)
| QStreamClose (st : nat) | QStopDrainer | QConnClose | QEpClose.

(** What the library returns: the error of [Listen], of [Dial], of the opening of each
    stream, of each write and of [ctx.Err()] before it. *)
Record qlib := {
  l_listen : option gerror; l_dial : option gerror; l_open : nat -> option gerror;
  l_write : nat -> bytes -> Z * option gerror; l_ctx : nat -> option gerror }.

Record qstate := QState { q_log : list qact; q_streams : nat; q_writes : nat }.
Definition act (a : qact) (q : qstate) : qstate := QState (q_log q ++ [a]) (q_streams q) (q_writes q).

Section Dial.
Context (L : qlib) (huffmanDecode : bytes -> option string).

Definition QM (A : Type) : Type := qstate -> res A * qstate.
#[global] Instance QM_ret : MRet QM := fun A a q => (Ok a, q).
#[global] Instance QM_bind : MBind QM := fun A B f m q =>
  match m q with
  | (Ok a, q') => f a q'
  | (Err e, q') => (Err e, q')
  | (Panic w, q') => (Panic w, q')
  end.
Definition q_act (a : qact) : QM unit := fun q => (Ok tt, act a q).
Definition q_fail {A} (e : gerror) : QM A := fun q => (Err e, q).

(** [NewSendOnlyStream] and [NewStream]: the number of the new stream. *)
Definition openStream (a : qact) : QM nat := fun q =>
  match l_open L (q_streams q) with
  | Some e => (Err e, q)
  | None => (Ok (q_streams q), QState (q_log q ++ [a]) (S (q_streams q)) (q_writes q))
  end.

(** [h3WriteWithContext(ctx, st, b)]. *)
Definition h3WriteWithContext (st : nat) (b : bytes) : QM unit := fun q =>
  let '(r, out, k) := Stream.writeLoop (length b) (l_ctx L) (l_write L) (q_writes q) b [] in
  (r, QState (q_log q ++ match out with [] => [] | _ => [QWrite st out] end) (q_streams q) k).

(** [h3OpenClientUniStreams(ctx, c, profile)]. *)
Definition h3OpenClientUniStreams (profile : h3ClientStreamProfile) : QM unit :=
  st ← openStream QOpenUni;
  let payload := appendVarint (appendVarint [] h3SettingEnableConnectProtocol) 1 in
  _ ← h3WriteWithContext st (appendVarint [] h3StreamControl);
  _ ← h3WriteWithContext st (appendVarint [] h3FrameSettings);
  _ ← h3WriteWithContext st (appendVarint [] (zlen payload));
  _ ← h3WriteWithContext st payload;
  _ ← q_act (QFlush st);
  match profile with
  | h3ClientStreamsControlOnly => mret tt
  | h3ClientStreamsControlAndQPACK =>
      qenc ← openStream QOpenUni;
      _ ← h3WriteWithContext qenc (appendVarint [] h3StreamQpackEncoder);
      _ ← q_act (QFlush qenc);
      qdec ← openStream QOpenUni;
      _ ← h3WriteWithContext qdec (appendVarint [] h3StreamQpackDecoder);
      q_act (QFlush qdec)
  end.

(** [splitHostPortDefault(hostport, defPort)], its host; [strings.Trim(h, "\[\]")]. *)
Fixpoint trimBr (b : bytes) : bytes :=
  match b with c :: b' => if inSet c "[]" then trimBr b' else b | [] => [] end.
Definition splitHostPortDefault (hostport defPort : bytes) : bytes * bytes :=
  match SplitHostPort hostport with
  | Ok (h, p) => (reverse (trimBr (reverse (trimBr h))), p)
  | _ => (hostport, defPort)
  end.

(** Host, port and authority of the dial. *)
Definition dialHost (u : URL) : bytes :=
  match Hostname u with [] => fst (splitHostPortDefault (Host u) (str2b "443")) | h => h end.
Definition dialPort (u : URL) : bytes := match Port u with [] => str2b "443" | p => p end.
Definition dialAuthority (u : URL) : bytes := match Host u with [] => dialHost u | a => a end.

(** How the wait for the response ends: the handshake's context is done (with the
    elapsed time as it is printed), or the stream has brought its bytes. *)
Inductive awaited := CtxDone (e : gerror) (elapsed : string) | Answer (r : rd).

(** From the client streams on: the stream of the WebSocket and the bytes after the
    response. [hint] is [h3PeerSupportHint], [fmtHeaders] is [h3FormatHeaders]. *)
Definition h3Request (u : URL) (profile : h3ClientStreamProfile) (ans : awaited)
    (hint : gerror -> string) (fmtHeaders : gmap string string -> string) : QM (nat * Stream.h3wsStream) :=
  _ ← h3OpenClientUniStreams profile;
  st ← openStream QOpenBidi;
  _ ← h3WriteWithContext st (requestFrame u (dialAuthority u));
  _ ← q_act (QFlush st);
  match ans with
  | CtxDone e elapsed =>
      _ ← q_act QConnClose; _ ← q_act QEpClose;
      if errors_Is e context_DeadlineExceeded
      then q_fail (errMsg ("rfc9220 handshake timeout waiting response headers after " +:+ elapsed))
      else q_fail e
  | Answer r =>
      match h3ReadResponseHeaders huffmanDecode r with
      | (Err e, _) =>
          if bool_decide (hint e <> ""%string) then q_fail (errMsg ("rfc9220 unsupported by peer: " +:+ hint e))
          else q_fail e
      | (Panic w, _) => fun q => (Panic w, q)
      | (Ok resp, r) =>
          let status := default ""%string (resp !! ":status"%string) in
          if negb (bool_decide (status = "200"%string))
          then q_fail (errMsg ("rfc9220 connect failed: status=" +:+ status +:+ " headers=" +:+ fmtHeaders resp))
          else mret (st, Stream.H3Stream r [])
      end
  end.

(** [dialRFC9220Profile(ctx, u, profile)]. *)
Definition dialRFC9220Profile (u : URL) (profile : h3ClientStreamProfile) (ans : awaited)
    (hint : gerror -> string) (fmtHeaders : gmap string string -> string) : QM (nat * Stream.h3wsStream) := fun q =>
  if negb (bool_decide (Scheme u = str2b "wss")) && negb (bool_decide (Scheme u = str2b "https"))
  then (Err (errMsg ("rfc9220 requires wss/https, got " +:+ b2str ([cQuote] ++ Scheme u ++ [cQuote]))), q)
  else
    match l_listen L with
    | Some e => (Err e, q)
    | None =>
        let q := act QListen q in
        match l_dial L with
        | Some e => (Err e, act QEpClose q)
        | None =>
            let q := act QStartDrainer (act (QDial (JoinHostPort (dialHost u) (dialPort u))) q) in
            match h3Request u profile ans hint fmtHeaders q with
            | (Ok x, q) => (Ok x, q)
            | (Err e, q) => (Err e, act QStopDrainer q)
            | (Panic w, q) => (Panic w, act QStopDrainer q)
            end
        end
    end.

(** ** The health-check probe *)

(** [fmt.Errorf(pre + "%w", err)] around a failed call. *)
Definition wrapErr {A} (pre : string) (m : QM A) : QM A := fun q =>
  match m q with (Err e, q') => (Err (errWrap pre e ""), q') | x => x end.

(** [ProbeH3ExtendedConnect], from the client streams on; [saw] and [enable] are what
    was observed of the peer's SETTINGS after the wait, [rtt] is the elapsed time. *)
Definition probeRequest (hcURL : URL) (saw enable : bool) (r : rd) (rtt : Z) : QM Z :=
  _ ← wrapErr "h3 healthcheck: open client control streams failed: " (h3OpenClientUniStreams h3ClientStreamsControlAndQPACK);
  if negb saw then q_fail (errMsg "h3 healthcheck: peer H3 control stream SETTINGS not observed")
  else if negb enable then q_fail (errMsg "h3 healthcheck: peer SETTINGS_ENABLE_CONNECT_PROTOCOL is disabled")
  else
    st ← wrapErr "h3 healthcheck: open request stream failed: " (openStream QOpenBidi);
    _ ← wrapErr "h3 healthcheck: send CONNECT HEADERS failed: "
          (h3WriteWithContext st (requestFrame hcURL (dialAuthority hcURL)));
    _ ← q_act (QFlush st);
    match h3ReadResponseHeaders huffmanDecode r with
    | (Err e, _) => q_fail (errWrap "h3 healthcheck: read CONNECT response failed: " e "")
    | (Panic w, _) => fun q => (Panic w, q)
    | (Ok resp, _) =>
        let status := default ""%string (resp !! ":status"%string) in
        if negb (bool_decide (status = "200"%string))
        then q_fail (errMsg ("h3 healthcheck: extended CONNECT test-path failed status=" +:+ status))
        else _ ← q_act (QStreamClose st); mret rtt
    end.

(** [ProbeH3ExtendedConnect(ctx, rawurl)]: the deferred calls run on every return
    after the endpoint, the connection and the drainer are there. *)
Definition ProbeH3ExtendedConnect (rawurl : bytes) (saw enable : bool) (r : rd) (rtt : Z) : QM Z := fun q =>
  match Parse rawurl with
  | Err e => (Err e, q)
  | Panic w => (Panic w, q)
  | Ok u =>
      if negb (bool_decide (Scheme u = str2b "wss")) && negb (bool_decide (Scheme u = str2b "https"))
      then (Err (errMsg ("h3 healthcheck requires wss/https, got " +:+ b2str ([cQuote] ++ Scheme u ++ [cQuote]))), q)
      else
        let hcURL := default u (h3HealthcheckURL (Some u)) in
        match l_listen L with
        | Some e => (Err (errWrap "h3 healthcheck: quic endpoint init failed: " e ""), q)
        | None =>
            let q := act QListen q in
            match l_dial L with
            | Some e => (Err (errWrap "h3 healthcheck: quic handshake failed: " e ""), act QEpClose q)
            | None =>
                let q := act QStartDrainer (act (QDial (JoinHostPort (dialHost hcURL) (dialPort hcURL))) q) in
                let '(x, q) := probeRequest hcURL saw enable r rtt q in
                (x, act QEpClose (act QConnClose (act QStopDrainer q)))
            end
        end
  end.
End Dial.

(** [dialRFC9220(ctx, u)]: the second profile is tried when the peer complains about
    the order of frames. *)
Definition dialRFC9220 {A} (dialProfile : h3ClientStreamProfile -> res A) : res A :=
  match dialProfile h3ClientStreamsControlAndQPACK with
  | Err e =>
      if contains (str2b "expected first frame to be a HEADERS frame") (str2b (errorText e))
      then dialProfile h3ClientStreamsControlOnly else Err e
  | r => r
  end.

(** ** Lemmas *)

Lemma readVarint_put v rest e :
  0 <= v < 2 ^ 62 -> readVarint (Rd (appendVarint [] v ++ rest) e) = (Ok v, Rd rest e).
Proof. intros Hv. rewrite readVarint_appendVarint by lia. by rewrite Z.mod_small. Qed.

(** Header of a frame. *)
Lemma frame_app ft p rest : frame ft p ++ rest = appendVarint [] ft ++ appendVarint [] (zlen p) ++ p ++ rest.
Proof. unfold frame. rewrite (appendVarint_app (appendVarint [] ft)). by rewrite <- !app_assoc. Qed.
Lemma length_appendVarint v : (1 <= length (appendVarint [] v))%nat.
Proof. unfold appendVarint. case_tests; simpl; lia. Qed.
Lemma length_frame ft p : (2 + length p <= length (frame ft p))%nat.
Proof.
  pose proof (frame_app ft p []) as H. rewrite !app_nil_r in H. rewrite H, !length_app.
  pose proof (length_appendVarint ft). pose proof (length_appendVarint (zlen p)). lia.
Qed.

Lemma frame_read {A} ft p rest e (k : Z -> Z -> RM A) :
  0 <= ft < 2 ^ 62 -> zlen p < 2 ^ 62 ->
  (ft ← readVarint; n ← readVarint; k ft n) (Rd (frame ft p ++ rest) e) = k ft (zlen p) (Rd (p ++ rest) e).
Proof.
  intros Hft Hp. pose proof (zlen_nonneg p). rewrite frame_app.
  erewrite RM_bind_Ok by (by apply readVarint_put). by erewrite RM_bind_Ok by (apply readVarint_put; lia).
Qed.

Module StreamFacts.
Import Stream.

(** A sequence of DATA frames as the peer's [Write] produces it. *)
Definition frames (ps : list bytes) : bytes := ps ≫= dataFrame.
Definition sizeOk (p : bytes) : Prop := zlen p <= h3MaxDataFrameSize.

Lemma length_frames ps : (2 * length ps + length (concat ps) <= length (frames ps))%nat.
Proof.
  induction ps as [|p ps IH]; [done|].
  change (frames (p :: ps)) with (frame h3FrameData p ++ frames ps). cbn [concat length]. rewrite !length_app.
  pose proof (length_frame h3FrameData p). lia.
Qed.

Lemma readVarint_end e : readVarint (Rd [] e) = (Err e, Rd [] e).
Proof. done. Qed.

Lemma readLoop_frames fuel n ps b e :
  Forall sizeOk ps -> (length ps < fuel)%nat -> (0 < n)%nat ->
  (b ++ concat ps = [] /\ exists st, readLoop fuel n (H3Stream (Rd (frames ps) e) b) = (Err e, st))
  \/ exists q b' ps', readLoop fuel n (H3Stream (Rd (frames ps) e) b) = (Ok q, H3Stream (Rd (frames ps') e) b')
      /\ q <> [] /\ (length q <= n)%nat /\ b ++ concat ps = q ++ b' ++ concat ps' /\ Forall sizeOk ps'.
Proof.
  intros Hps. revert fuel b. induction ps as [|p ps IH]; intros fuel b Hf Hn; (destruct fuel as [|fuel]; [lia|]);
    (destruct b as [|x b]; [|right]).
  - left. split; [done|]. by eexists.
  - exists (take n (x :: b)), (drop n (x :: b)), []. split; [done|]. split; [by destruct n; [lia|]|].
    split; [rewrite length_take; lia|]. split; [by rewrite app_assoc, take_drop|done].
  - apply Forall_cons in Hps as [Hp Hps]. cbn [readLoop readBuf s]. change (frames (p :: ps)) with (frame h3FrameData p ++ frames ps).
    assert (Hlt : zlen p < 2 ^ 62) by (unfold sizeOk, h3MaxDataFrameSize in Hp; lia).
    rewrite (frame_read h3FrameData p (frames ps) e) by (done || unfold h3FrameData; lia).
    unfold sizeOk in Hp. destruct (Z.ltb_spec h3MaxDataFrameSize (zlen p)) as [|_]; [lia|].
    erewrite RM_bind_Ok by (by apply readFull_app). cbn [mret RM_ret]. change (h3FrameData =? h3FrameData) with true.
    cbn [negb]. destruct (IH Hps fuel p ltac:(simpl in Hf; lia) Hn) as [[H1 H2]|H]; [left|right]; done.
  - exists (take n (x :: b)), (drop n (x :: b)), (p :: ps). split; [done|]. split; [by destruct n; [lia|]|].
    split; [rewrite length_take; lia|]. split; [by rewrite app_assoc, take_drop|done].
Qed.

(** Reading to the end with a buffer of [n] bytes. *)
Fixpoint drain (rounds n : nat) (st : h3wsStream) : option (bytes * gerror) :=
  match rounds with
  | O => None
  | S r =>
      match Read n st with
      | (Ok q, st) => match drain r n st with Some (p, e) => Some (q ++ p, e) | None => None end
      | (Err e, _) => Some ([], e)
      | (Panic _, _) => None
      end
  end.

Lemma drain_frames rounds n ps b e :
  Forall sizeOk ps -> (0 < n)%nat -> (length (b ++ concat ps) < rounds)%nat ->
  drain rounds n (H3Stream (Rd (frames ps) e) b) = Some (b ++ concat ps, e).
Proof.
  revert ps b. induction rounds as [|r IH]; intros ps b Hps Hn Hr; [lia|]. cbn [drain]. unfold Read. cbn [s rd_buf].
  pose proof (length_frames ps).
  destruct (readLoop_frames (S (length (frames ps))) n ps b e Hps ltac:(lia) Hn)
    as [[H1 (st & ->)]|(q & b' & ps' & -> & Hq & _ & Heq & Hps')].
  - by rewrite H1.
  - rewrite Heq in *. destruct q as [|y q]; [done|]. rewrite IH; [done|done|done|]. simpl in Hr. rewrite length_app in Hr. lia.
Qed.

(** Writes that take what they are given. *)
Lemma writeLoop_all fuel cx wr k b out :
  (forall k b, b <> [] -> cx k = None /\ 1 <= fst (wr k b) <= zlen b /\ snd (wr k b) = None) -> (length b <= fuel)%nat ->
  exists k', writeLoop fuel cx wr k b out = (Ok tt, out ++ b, k').
Proof.
  intros Hw. revert k b out. induction fuel as [|fuel IH]; intros k b out Hl; (destruct b as [|x b]; [|]);
    [exists k; simpl; by rewrite app_nil_r|simpl in Hl; lia|exists k; simpl; by rewrite app_nil_r|].
  destruct (Hw k (x :: b) ltac:(done)) as (Hc & Hn & He). cbn [writeLoop]. rewrite Hc. destruct (wr k (x :: b)) as [n err].
  simpl in Hn, He. subst err. destruct (Z.leb_spec n 0); [lia|]. destruct (Z.ltb_spec (zlen (x :: b)) n); [lia|].
  destruct (IH (S k) (drop (Z.to_nat n) (x :: b)) (out ++ take (Z.to_nat n) (x :: b))) as (k' & E).
  - rewrite length_drop. simpl in *. lia.
  - exists k'. rewrite E, <- app_assoc, take_drop. done.
Qed.
End StreamFacts.

(** *** Responses *)

Section ResponseFacts.
Variable huff : bytes -> option string.

(** Frames that may precede the response. *)
Definition skippable (f : Z * bytes) : Prop :=
  0 <= fst f < 2 ^ 62 /\ fst f <> h3FrameHeaders /\ zlen (snd f) <= maxAlloc.
Definition frameBytes (fs : list (Z * bytes)) : bytes := fs ≫= fun f => frame (fst f) (snd f).

Lemma response_frame fuel ft p rest e :
  0 <= ft < 2 ^ 62 -> zlen p <= maxAlloc ->
  responseLoop huff (S fuel) (Rd (frame ft p ++ rest) e)
  = (if ft =? h3FrameHeaders then rm_lift (h3DecodeHeaders huff p) else responseLoop huff fuel) (Rd rest e).
Proof.
  intros Hft Hp. cbn [responseLoop]. unfold maxAlloc in Hp. rewrite (frame_read ft p rest e) by lia.
  pose proof (zlen_nonneg p). erewrite RM_bind_Ok; [done|]. rewrite makeslice_ok by (unfold maxAlloc; lia).
  by apply readFull_app.
Qed.

Lemma response_skip fs fuel p rest e :
  Forall skippable fs -> (length fs < fuel)%nat -> zlen p <= maxAlloc ->
  responseLoop huff fuel (Rd (frameBytes fs ++ frame h3FrameHeaders p ++ rest) e) = (h3DecodeHeaders huff p, Rd rest e).
Proof.
  intros Hfs. revert fuel. induction fs as [|[ft q] fs IH]; intros fuel Hf Hp; (destruct fuel as [|fuel]; [lia|]).
  - simpl app. rewrite response_frame by (done || unfold h3FrameHeaders; lia). done.
  - apply Forall_cons in Hfs as [(H1 & H2 & H3) Hfs]. cbn [fst snd length] in *.
    change (frameBytes ((ft, q) :: fs)) with (frame ft q ++ frameBytes fs). rewrite <- app_assoc.
    rewrite response_frame by done. rewrite (proj2 (Z.eqb_neq _ _)) by done. apply IH; [done|lia|done].
Qed.

Lemma length_frameBytes fs : (length fs <= length (frameBytes fs))%nat.
Proof.
  induction fs as [|[ft q] fs IH]; [done|]. change (frameBytes ((ft, q) :: fs)) with (frame ft q ++ frameBytes fs).
  rewrite length_app. pose proof (length_frame ft q). simpl. lia.
Qed.

Lemma response_read fs p rest e :
  Forall skippable fs -> zlen p <= maxAlloc ->
  h3ReadResponseHeaders huff (Rd (frameBytes fs ++ frame h3FrameHeaders p ++ rest) e) = (h3DecodeHeaders huff p, Rd rest e).
Proof.
  intros Hfs Hp. unfold h3ReadResponseHeaders. apply response_skip; [done| |done]. cbn [rd_buf].
  pose proof (length_frameBytes fs). rewrite length_app. lia.
Qed.

(** The fields of the CONNECT request can be decoded again. *)
Lemma connectFields_last u a kv : last (h3ConnectHeaderFields u a) = Some kv -> ~ emptyLiteral kv.
Proof.
  unfold h3ConnectHeaderFields. destruct (Get (Query u) (str2b "origin")) as [|b o] eqn:E.
  - rewrite app_nil_r. intros [= <-] [H _]. done.
  - rewrite last_snoc. intros [= <-] [H _]. done.
Qed.
End ResponseFacts.

(** *** Settings *)

Definition settingsBytes (kvs : list (Z * Z)) : bytes := kvs ≫= fun '(k, v) => appendVarint (appendVarint [] k) v.
Definition settingOk (kv : Z * Z) : Prop := 0 <= fst kv < 2 ^ 62 /\ 0 <= snd kv < 2 ^ 62.

Lemma settingsLoop_spec fuel kvs e :
  Forall settingOk kvs -> settingsLoop fuel (Rd (settingsBytes kvs) e) = take fuel kvs.
Proof.
  intros Hk. revert fuel. induction kvs as [|[k v] kvs IH]; intros [|fuel]; try done.
  apply Forall_cons in Hk as [[H1 H2] Hk]. cbn [settingsLoop rd_buf take].
  change (settingsBytes ((k, v) :: kvs)) with (appendVarint (appendVarint [] k) v ++ settingsBytes kvs).
  rewrite appendVarint_app, <- app_assoc. simpl in H1, H2.
  rewrite readVarint_put, readVarint_put, IH by done.
  pose proof (length_appendVarint k). by destruct (appendVarint [] k); [simpl in *; lia|].
Qed.

(** *** The dial *)

(** A step that neither closes the connection nor the endpoint. *)
Definition quiet {A} (m : QM A) : Prop := forall q, exists l,
  q_log (snd (m q)) = q_log q ++ l /\ QConnClose ∉ l /\ QEpClose ∉ l.

Lemma quiet_bind {A B} (m : QM A) (f : A -> QM B) : quiet m -> (forall a, quiet (f a)) -> quiet (m ≫= f).
Proof.
  intros Hm Hf q. unfold mbind, QM_bind. destruct (Hm q) as (l & E & H1 & H2). destruct (m q) as [[a|e|w] q']; simpl in E.
  - destruct (Hf a q') as (l' & E' & H3 & H4). exists (l ++ l'). rewrite E', E, <- app_assoc. set_solver.
  - exists l. done.
  - exists l. done.
Qed.
Lemma quiet_ret {A} (a : A) : quiet (mret a).
Proof. intros q. exists []. simpl. rewrite app_nil_r. set_solver. Qed.
Lemma quiet_fail {A} e : quiet (@q_fail A e).
Proof. intros q. exists []. simpl. rewrite app_nil_r. set_solver. Qed.
Lemma quiet_act a : a <> QConnClose -> a <> QEpClose -> quiet (q_act a).
Proof. intros H1 H2 q. exists [a]. set_solver. Qed.
Lemma quiet_open L a : a <> QConnClose -> a <> QEpClose -> quiet (openStream L a).
Proof.
  intros H1 H2 q. unfold openStream. destruct (l_open L _); [exists []; simpl; rewrite app_nil_r|exists [a]]; set_solver.
Qed.
Lemma quiet_write L st b : quiet (h3WriteWithContext L st b).
Proof.
  intros q. unfold h3WriteWithContext. destruct (Stream.writeLoop _ _ _ _ _ _) as [[r out] k]. simpl.
  eexists. split; [done|]. destruct out; set_solver.
Qed.
#[local] Hint Resolve quiet_ret quiet_fail quiet_write : quiet.
#[local] Hint Extern 1 (quiet (q_act _)) => apply quiet_act; discriminate : quiet.
#[local] Hint Extern 1 (quiet (openStream _ _)) => apply quiet_open; discriminate : quiet.
#[local] Hint Extern 2 (quiet (_ ≫= _)) => apply quiet_bind; [|intros] : quiet.

Lemma quiet_uni L p : quiet (h3OpenClientUniStreams L p).
Proof. unfold h3OpenClientUniStreams. repeat (apply quiet_bind; [auto with quiet|intros]). destruct p; auto 12 with quiet. Qed.

Lemma quiet_request L huff u p r hint fh : quiet (h3Request L huff u p (Answer r) hint fh).
Proof.
  unfold h3Request. apply quiet_bind; [apply quiet_uni|intros _].
  repeat (apply quiet_bind; [auto with quiet|intros]). destruct (h3ReadResponseHeaders huff r) as [[resp|e|w] r'].
  - destruct (negb _); auto with quiet.
  - destruct (bool_decide _); auto with quiet.
  - intros q. exists []. simpl. rewrite app_nil_r. set_solver.
Qed.

(** A library whose calls succeed; a write may take a part of what it is given. *)
Record libOk (L : qlib) : Prop := {
  lo_listen : l_listen L = None;
  lo_dial : l_dial L = None;
  lo_open : forall k, l_open L k = None;
  lo_write : forall k b, b <> [] -> l_ctx L k = None /\ 1 <= fst (l_write L k b) <= zlen b /\ snd (l_write L k b) = None }.

Section DialFacts.
Context (L : qlib) (HL : libOk L).

(** A step that succeeds with [a] and adds [l] to the log and [d] streams. *)
Definition does {A} (m : QM A) (n : nat) (a : A) (l : list qact) (d : nat) : Prop :=
  forall q, q_streams q = n -> exists k, m q = (Ok a, QState (q_log q ++ l) (n + d) k).

Lemma does_bind {A B} (m : QM A) (f : A -> QM B) n a l d b l' d' :
  does m n a l d -> does (f a) (n + d) b l' d' -> does (m ≫= f) n b (l ++ l') (d + d').
Proof.
  intros Hm Hf q Hq. unfold mbind, QM_bind. destruct (Hm q Hq) as (k & ->).
  destruct (Hf (QState (q_log q ++ l) (n + d) k) eq_refl) as (k' & ->). exists k'. simpl. by rewrite app_assoc, Nat.add_assoc.
Qed.
Lemma does_ret {A} (a : A) n : does (mret a) n a [] 0.
Proof. intros q Hq. exists (q_writes q). rewrite app_nil_r, Nat.add_0_r, <- Hq. by destruct q. Qed.
Lemma does_act a n : does (q_act a) n tt [a] 0.
Proof. intros q Hq. exists (q_writes q). by rewrite Nat.add_0_r, <- Hq. Qed.
Lemma does_open a n : does (openStream L a) n n [a] 1.
Proof. intros q Hq. unfold openStream. rewrite (lo_open L HL). exists (q_writes q). by rewrite Nat.add_1_r, Hq. Qed.
Lemma does_write st b n : b <> [] -> does (h3WriteWithContext L st b) n tt [QWrite st b] 0.
Proof.
  intros Hb q Hq. unfold h3WriteWithContext.
  destruct (StreamFacts.writeLoop_all (length b) (l_ctx L) (l_write L) (q_writes q) b []) as (k & ->).
  - intros k b' Hb'. by apply (lo_write L HL).
  - done.
  - exists k. rewrite app_nil_l, Nat.add_0_r, Hq. by destruct b.
Qed.

(** The log of the client streams; [n] is the number of the first one. *)
Definition uniLog (profile : h3ClientStreamProfile) (n : nat) : list qact :=
  [QOpenUni; QWrite n [Byte.x00]; QWrite n [Byte.x04]; QWrite n [Byte.x02]; QWrite n [Byte.x08; Byte.x01]; QFlush n]
  ++ match profile with
     | h3ClientStreamsControlOnly => []
     | h3ClientStreamsControlAndQPACK =>
         [QOpenUni; QWrite (S n) [Byte.x02]; QFlush (S n); QOpenUni; QWrite (S (S n)) [Byte.x03]; QFlush (S (S n))]
     end.
Definition uniCount (profile : h3ClientStreamProfile) : nat :=
  match profile with h3ClientStreamsControlOnly => 1 | h3ClientStreamsControlAndQPACK => 3 end.

Lemma does_eq {A} (m : QM A) n a l d l' d' : does m n a l d -> l = l' -> d = d' -> does m n a l' d'.
Proof. by intros ? <- <-. Qed.

Lemma does_uni profile n : does (h3OpenClientUniStreams L profile) n tt (uniLog profile n) (uniCount profile).
Proof.
  unfold h3OpenClientUniStreams. destruct profile.
  - eapply does_eq.
    + eapply does_bind; [apply does_open|]. cbv zeta. do 4 (eapply does_bind; [by apply does_write|]).
      eapply does_bind; [apply does_act|]. eapply does_bind; [apply does_open|]. eapply does_bind; [by apply does_write|].
      eapply does_bind; [apply does_act|]. eapply does_bind; [apply does_open|]. eapply does_bind; [by apply does_write|].
      apply does_act.
    + rewrite !Nat.add_0_r, !Nat.add_1_r. done.
    + done.
  - eapply does_eq.
    + eapply does_bind; [apply does_open|]. cbv zeta. do 4 (eapply does_bind; [by apply does_write|]).
      eapply does_bind; [apply does_act|]. apply does_ret.
    + done.
    + done.
Qed.

Lemma requestFrame_nonempty u a : requestFrame u a <> [].
Proof.
  intros E. pose proof (length_frame h3FrameHeaders (h3ConnectHeaders u a)) as H. unfold requestFrame in E.
  rewrite E in H. simpl in H. lia.
Qed.

Lemma does_request huff u profile r hint fh m r' :
  h3ReadResponseHeaders huff r = (Ok m, r') -> m !! ":status"%string = Some "200"%string ->
  does (h3Request L huff u profile (Answer r) hint fh) 0 (uniCount profile, Stream.H3Stream r' [])
    (uniLog profile 0 ++ [QOpenBidi; QWrite (uniCount profile) (requestFrame u (dialAuthority u)); QFlush (uniCount profile)])
    (uniCount profile + 1).
Proof.
  intros Hr Hs. unfold h3Request. rewrite Hr. eapply does_eq.
  - eapply does_bind; [apply does_uni|]. eapply does_bind; [apply does_open|].
    eapply does_bind; [apply does_write, requestFrame_nonempty|]. eapply does_bind; [apply does_act|].
    rewrite Hs. cbn [default option_bind]. rewrite bool_decide_true by done. apply does_ret.
  - done.
  - lia.
Qed.
End DialFacts.

(** ** Properties *)

(** A stream of DATA frames carries bytes: payloads written with [Write] one
    after the other, on a QUIC stream that may take them in parts, come out of [Read]
    joined together and followed by the stream's error, whatever the sizes of the
    payloads (up to the limit) and of the reader's buffer. *)
Theorem h3_stream_carries_bytes (ps : list bytes) (wr : nat -> bytes -> Z * option gerror) (n : nat) (e : gerror)
    (Hsize : Forall StreamFacts.sizeOk ps) (Hn : (0 < n)%nat)
    (Hwr : forall k b, b <> [] -> 1 <= fst (wr k b) <= zlen b /\ snd (wr k b) = None) :
  Forall (fun p => fst (Stream.Write None wr p) = Ok (zlen p)) ps
  /\ StreamFacts.drain (S (length (concat ps))) n
       (Stream.H3Stream (Rd (ps ≫= fun p => snd (Stream.Write None wr p)) e) [])
     = Some (concat ps, e).
Proof.
  assert (Hw : forall p, Stream.Write None wr p = (Ok (zlen p), Stream.dataFrame p)).
  { intros p. unfold Stream.Write.
    destruct (StreamFacts.writeLoop_all (length (Stream.dataFrame p)) (fun _ => None) wr 0 (Stream.dataFrame p) []) as (k & ->).
    - intros k b Hb. split; [done|]. by apply Hwr.
    - done.
    - by destruct p. }
  split; [apply Forall_forall; intros p _; by rewrite Hw|].
  replace (ps ≫= fun p => snd (Stream.Write None wr p)) with (StreamFacts.frames ps)
    by (unfold StreamFacts.frames; clear -Hw; induction ps as [|p ps IH]; [done|]; rewrite !bind_cons; by rewrite Hw, IH).
  apply (StreamFacts.drain_frames _ n ps []); [done|done|simpl; lia].
Qed.

(** The response is the first HEADERS frame: frames of other types before it
    are skipped and what follows it is left on the stream; but a frame that announces
    more than can be allocated makes the client panic, whatever its type. *)
Theorem h3_response_first_headers (huff : bytes -> option string) (fs : list (Z * bytes)) (hs : list (string * string))
    (rest : bytes) (e : gerror) (ft n : Z)
    (Hfs : Forall skippable fs) (Hfit : Forall fitsMemory hs) (Hblock : zlen (h3EncodeHeaders hs) <= maxAlloc)
    (Hlast : forall kv, last hs = Some kv -> ~ emptyLiteral kv)
    (Hft : 0 <= ft < 2 ^ 62) (Hn : maxAlloc < n < 2 ^ 62) :
  h3ReadResponseHeaders huff (Rd (frameBytes fs ++ frame h3FrameHeaders (h3EncodeHeaders hs) ++ rest) e)
  = (Ok (fold_left putHeader hs ∅), Rd rest e)
  /\ exists why, fst (h3ReadResponseHeaders huff (Rd (appendVarint [] ft ++ appendVarint [] n ++ rest) e)) = Panic why.
Proof.
  split.
  - rewrite response_read by done. rewrite h3DecodeHeaders_encode by done. unfold decodeSpec.
    destruct (last hs) as [kv|] eqn:E; [by rewrite decide_False by auto|]. apply last_None in E. by subst.
  - unfold h3ReadResponseHeaders. cbn [responseLoop]. unfold maxAlloc in Hn.
    erewrite RM_bind_Ok by (by apply readVarint_put). erewrite RM_bind_Ok by (apply readVarint_put; lia).
    unfold makeslice, maxAlloc. rewrite (proj2 (Z.ltb_lt (2 ^ 48) n)), orb_true_r by lia. by eexists.
Qed.

(** The settings of the peer are read in order: whatever else they hold,
    extended CONNECT counts as enabled exactly when the last of its settings among
    the first 32 is 1. *)
Theorem h3_settings_last_wins (kvs : list (Z * Z)) (Hok : Forall settingOk kvs) :
  h3ParseSettingsPayload (settingsBytes kvs) = true
  <-> exists l1 l2, take 32 kvs = l1 ++ (h3SettingEnableConnectProtocol, 1) :: l2
      /\ Forall (fun kv => fst kv <> h3SettingEnableConnectProtocol) l2.
Proof.
  unfold h3ParseSettingsPayload. rewrite settingsLoop_spec by done. generalize (take 32 kvs). clear. intros l.
  induction l as [|[k v] l IH] using rev_ind.
  - split; [done|]. intros (l1 & l2 & E & _). by destruct l1.
  - rewrite fold_left_app. simpl. destruct (Z.eqb_spec k h3SettingEnableConnectProtocol) as [->|Hk].
    + split.
      * intros ->%Z.eqb_eq. by exists l, [].
      * intros (l1 & l2 & E & Hl2). destruct l2 as [|[k' v'] l2 _] using rev_ind.
        -- apply app_inj_tail in E as [_ [= ->]]. done.
        -- rewrite app_comm_cons, app_assoc in E. apply app_inj_tail in E as [_ [= <- <-]].
           apply Forall_app in Hl2 as [_ Hl2]. inversion Hl2. done.
    + rewrite IH. split; intros (l1 & l2 & E & Hl2).
      * exists l1, (l2 ++ [(k, v)]). subst l. split; [by rewrite <- app_assoc|]. apply Forall_app. split; [done|by constructor].
      * destruct l2 as [|[k' v'] l2 _] using rev_ind; [by apply app_inj_tail in E as [_ [= -> _]]|].
        rewrite app_comm_cons, app_assoc in E. apply app_inj_tail in E as [-> _]. apply Forall_app in Hl2 as [Hl2 _].
        by exists l1, l2.
Qed.

(** C32: a dial that the peer accepts does exactly the handshake of RFC 9220. It dials the
    host of the URL at its port, 443 if it has none; it opens the control stream with
    SETTINGS that enable extended CONNECT, the QPACK streams when the profile has them, and
    the request stream with one HEADERS frame, which decodes to exactly the request
    :method CONNECT, :protocol websocket, :scheme https, the authority and the path of the
    URL, sec-websocket-version 13 and the origin if the URL asks for one. Whatever frames of
    other types come first and however the peer encodes its header block, a block that
    decodes with :status 200 is accepted, and the bytes after it belong to the WebSocket. *)
Theorem h3_dial_handshake (L : qlib) (huff : bytes -> option string) (u : URL) (profile : h3ClientStreamProfile)
    (fs : list (Z * bytes)) (block : bytes) (resp : gmap string string) (rest : bytes) (e : gerror)
    (hint : gerror -> string) (fmtHeaders : gmap string string -> string)
    (HL : libOk L) (Hscheme : Scheme u = str2b "wss" \/ Scheme u = str2b "https") (Hhost : Hostname u <> []) (Hauth : Host u <> [])
    (Hfs : Forall skippable fs) (Hblock : zlen block <= maxAlloc)
    (Hresp : h3DecodeHeaders huff block = Ok resp) (Hstatus : resp !! ":status"%string = Some "200"%string)
    (Hreq : Forall fitsMemory (h3ConnectHeaderFields u (Host u)))
    (Hreqlen : zlen (h3ConnectHeaders u (Host u)) <= maxAlloc) :
  let ans := Answer (Rd (frameBytes fs ++ frame h3FrameHeaders block ++ rest) e) in
  let port := if bool_decide (Port u = []) then str2b "443" else Port u in
  let origin := Get (Query u) (str2b "origin") in
  let '(controls, st) := match profile with
    | h3ClientStreamsControlOnly => ([], 1%nat)
    | h3ClientStreamsControlAndQPACK =>
        ([QOpenUni; QWrite 1 [Byte.x02]; QFlush 1; QOpenUni; QWrite 2 [Byte.x03]; QFlush 2], 3%nat)
    end in
  exists k req, dialRFC9220Profile L huff u profile ans hint fmtHeaders (QState [] 0 0)
    = (Ok (st, Stream.H3Stream (Rd rest e) []),
       QState ([QListen; QDial (JoinHostPort (Hostname u) port); QStartDrainer;
                QOpenUni; QWrite 0 [Byte.x00]; QWrite 0 [Byte.x04]; QWrite 0 [Byte.x02]; QWrite 0 [Byte.x08; Byte.x01]; QFlush 0]
               ++ controls ++ [QOpenBidi; QWrite st req; QFlush st]) (st + 1) k)
  /\ h3ReadResponseHeaders huff (Rd req io_EOF)
     = (Ok (fold_left putHeader
              ([(":method", "CONNECT"); (":scheme", "https"); (":authority", b2str (Host u)); (":path", b2str (cleanedRequestURI u));
                (":protocol", "websocket"); ("sec-websocket-version", "13")]
               ++ (if bool_decide (origin = []) then [] else [("origin", b2str origin)])) ∅), Rd [] io_EOF).
Proof.
  intros ans port origin. unfold dialRFC9220Profile. rewrite (lo_listen L HL), (lo_dial L HL).
  replace (negb (bool_decide (Scheme u = str2b "wss")) && negb (bool_decide (Scheme u = str2b "https"))) with false
    by (destruct Hscheme as [->| ->]; done).
  assert (Hread : h3ReadResponseHeaders huff (Rd (frameBytes fs ++ frame h3FrameHeaders block ++ rest) e) = (Ok resp, Rd rest e))
    by (by rewrite response_read, Hresp by done).
  assert (Eh : dialHost u = Hostname u) by (unfold dialHost; by destruct (Hostname u)).
  assert (Ea : dialAuthority u = Host u) by (unfold dialAuthority; by destruct (Host u)).
  assert (Ep : dialPort u = port) by (unfold dialPort, port; by destruct (Port u)).
  destruct (does_request L HL huff u profile _ hint fmtHeaders _ _ Hread Hstatus
    (act QStartDrainer (act (QDial (JoinHostPort (dialHost u) (dialPort u))) (act QListen (QState [] 0 0)))) eq_refl) as (k & E).
  pose proof (response_read huff [] (h3ConnectHeaders u (Host u)) [] io_EOF) as Hr.
  cbn [app frameBytes mbind list_bind] in Hr. rewrite app_nil_r in Hr.
  assert (Hdec : h3DecodeHeaders huff (h3ConnectHeaders u (Host u)) = Ok (fold_left putHeader (h3ConnectHeaderFields u (Host u)) ∅)).
  { unfold h3ConnectHeaders. rewrite h3DecodeHeaders_encode by done. unfold decodeSpec.
    destruct (last (h3ConnectHeaderFields u (Host u))) as [kv|] eqn:El; [|by apply last_None in El].
    by rewrite decide_False by (by apply (connectFields_last u (Host u))). }
  cbv zeta. unfold ans. rewrite E, Ea, Eh, Ep. destruct profile; exists k, (requestFrame u (Host u)); (split; [done|]);
    unfold requestFrame; rewrite Hr, Hdec by done; do 3 f_equal; unfold h3ConnectHeaderFields, origin; by destruct (Get _ _).
Qed.

(** A dial that fails after the QUIC handshake, for any reason but the end of its
    context, leaves the connection and the endpoint with its UDP socket open. *)
Theorem h3_failed_dial_leaks (L : qlib) (huff : bytes -> option string) (u : URL) (profile : h3ClientStreamProfile)
    (r : rd) (hint : gerror -> string) (fmtHeaders : gmap string string -> string) (e : gerror)
    (Hscheme : Scheme u = str2b "wss" \/ Scheme u = str2b "https")
    (Hlisten : l_listen L = None) (Hdial : l_dial L = None)
    (Herr : fst (dialRFC9220Profile L huff u profile (Answer r) hint fmtHeaders (QState [] 0 0)) = Err e) :
  let log := q_log (snd (dialRFC9220Profile L huff u profile (Answer r) hint fmtHeaders (QState [] 0 0))) in
  QListen ∈ log /\ QConnClose ∉ log /\ QEpClose ∉ log.
Proof.
  intros log. unfold log in *. clear log. unfold dialRFC9220Profile in *. rewrite Hlisten, Hdial in *.
  replace (negb (bool_decide (Scheme u = str2b "wss")) && negb (bool_decide (Scheme u = str2b "https"))) with false in *
    by (destruct Hscheme as [->| ->]; done). cbv zeta in *.
  set (q := act QStartDrainer _) in *. destruct (quiet_request L huff u profile r hint fmtHeaders q) as (l & E & H1 & H2).
  destruct (h3Request _ _ _ _ _ _ _ q) as [[x|x|x] q']; try done. simpl in *. rewrite E. unfold q. simpl. set_solver.
Qed.

Lemma quiet_wrap {A} pre (m : QM A) : quiet m -> quiet (wrapErr pre m).
Proof. intros Hm q. destruct (Hm q) as (l & E & H). exists l. unfold wrapErr. by destruct (m q) as [[|e|] q']. Qed.

Lemma quiet_probe L huff u saw enable r rtt : quiet (probeRequest L huff u saw enable r rtt).
Proof.
  unfold probeRequest. apply quiet_bind; [apply quiet_wrap, quiet_uni|intros _]. destruct saw; [|apply quiet_fail].
  destruct enable; [|apply quiet_fail]. simpl. apply quiet_bind; [apply quiet_wrap, quiet_open; discriminate|intros st].
  apply quiet_bind; [apply quiet_wrap, quiet_write|intros _]. apply quiet_bind; [apply quiet_act; discriminate|intros _].
  destruct (h3ReadResponseHeaders huff r) as [[resp|e|w] r'].
  - destruct (negb _); [apply quiet_fail|]. apply quiet_bind; [apply quiet_act; discriminate|intros; apply quiet_ret].
  - apply quiet_fail.
  - intros q. exists []. simpl. rewrite app_nil_r. set_solver.
Qed.

Lemma QM_bind_inv {A B} (m : QM A) (f : A -> QM B) q b q' :
  (m ≫= f) q = (Ok b, q') -> exists a q1, m q = (Ok a, q1) /\ f a q1 = (Ok b, q').
Proof. unfold mbind, QM_bind. destruct (m q) as [[a|e|w] q1]; intros; try done. by exists a, q1. Qed.

Lemma probe_verdict L huff u saw enable r rtt q d q' :
  probeRequest L huff u saw enable r rtt q = (Ok d, q') ->
  d = rtt /\ saw = true /\ enable = true
  /\ exists m r', h3ReadResponseHeaders huff r = (Ok m, r') /\ m !! ":status"%string = Some "200"%string.
Proof.
  unfold probeRequest. intros (a & q1 & _ & E)%QM_bind_inv. destruct saw; [|done]. destruct enable; [|done]. simpl in E.
  apply QM_bind_inv in E as (st & q2 & _ & E). apply QM_bind_inv in E as (x2 & q3 & _ & E).
  apply QM_bind_inv in E as (x3 & q4 & _ & E). destruct (h3ReadResponseHeaders huff r) as [[m|e|w] r']; try done.
  destruct (m !! ":status"%string) as [s0|] eqn:Es; cbn [default option_bind] in E; [|done].
  case_bool_decide as Hs; cbn [negb] in E; [|done]. simpl in Hs. subst s0.
  apply QM_bind_inv in E as (x4 & q5 & _ & [= <- _]). do 3 (split; [done|]). by exists m, r'.
Qed.

(** The health-check probe gives a verdict only on a working path, and cleans up
    however it ends: it succeeds only when the peer's SETTINGS enabled extended
    CONNECT and its response is 200, and once the endpoint is open it is closed on
    every path, after the connection when there is one. *)
Theorem h3_probe_sound (L : qlib) (huff : bytes -> option string) (rawurl : bytes) (saw enable : bool) (r : rd) (rtt : Z) :
  let '(x, q) := ProbeH3ExtendedConnect L huff rawurl saw enable r rtt (QState [] 0 0) in
  (forall d, x = Ok d -> d = rtt /\ saw = true /\ enable = true
     /\ exists m r', h3ReadResponseHeaders huff r = (Ok m, r') /\ m !! ":status"%string = Some "200"%string)
  /\ (q_log q = []
      \/ q_log q = [QListen; QEpClose]
      \/ exists addr l, q_log q = [QListen; QDial addr; QStartDrainer] ++ l ++ [QStopDrainer; QConnClose; QEpClose]
         /\ QConnClose ∉ l /\ QEpClose ∉ l).
Proof.
  unfold ProbeH3ExtendedConnect. destruct (Parse rawurl) as [u|e|w]; [|split; [done|by left]..].
  destruct (negb _ && negb _); [split; [done|by left]|]. destruct (l_listen L); [split; [done|by left]|].
  destruct (l_dial L); [split; [done|by right; left]|]. cbv zeta.
  set (hcURL := default u _). set (q0 := act QStartDrainer _).
  destruct (quiet_probe L huff hcURL saw enable r rtt q0) as (l & E & H1 & H2).
  destruct (probeRequest L huff hcURL saw enable r rtt q0) as [x q'] eqn:Ep. simpl in E. split.
  - intros d ->. by eapply probe_verdict.
  - right; right. eexists _, l. simpl. rewrite E. unfold q0. simpl. rewrite <- !app_assoc. done.
Qed.

(** ** Witnesses *)

Definition libDemo : qlib := {|
  l_listen := None; l_dial := None; l_open := fun _ => None; l_write := fun _ b => (zlen b, None); l_ctx := fun _ => None |}.
Lemma libDemo_ok : libOk libDemo.
Proof.
  split; try done. intros k b Hb. split; [done|]. split; [|done]. simpl. destruct b as [|x b]; [done|].
  rewrite zlen_cons. pose proof (zlen_nonneg b). lia.
Qed.
Definition urlDemo : URL := match Parse (str2b "wss://h/tcp") with Ok u => u | _ => zeroURL end.
Definition okHeaders : list (string * string) := [(":status", "200")].

Lemma h3_stream_carries_bytes_witness :
  StreamFacts.drain 6 2 (Stream.H3Stream (Rd ([str2b "ab"; []; str2b "cde"] ≫= fun p => snd (Stream.Write None (fun _ _ => (1, None)) p)) io_EOF) [])
  = Some (str2b "abcde", io_EOF).
Proof.
  refine (proj2 (h3_stream_carries_bytes [str2b "ab"; []; str2b "cde"] (fun _ _ => (1, None)) 2 io_EOF _ _ _)).
  - repeat constructor; vm_compute; discriminate.
  - lia.
  - intros k [|x b] Hb; [done|]. rewrite zlen_cons. pose proof (zlen_nonneg b). cbn [fst snd]. split; [lia|reflexivity].
Defined.

Lemma h3_response_first_headers_witness :
  h3ReadResponseHeaders (fun _ => None)
    (Rd (frameBytes [(0x21, [Byte.x01])] ++ frame h3FrameHeaders (h3EncodeHeaders okHeaders) ++ [Byte.x81]) io_EOF)
  = (Ok (fold_left putHeader okHeaders ∅), Rd [Byte.x81] io_EOF).
Proof.
  refine (proj1 (h3_response_first_headers (fun _ => None) [(0x21, [Byte.x01])] okHeaders [Byte.x81] io_EOF 0 (2 ^ 50) _ _ _ _ _ _)).
  - constructor; [|constructor]. split; [simpl; lia|]. split; [discriminate|vm_compute; discriminate].
  - constructor; [split; vm_compute; discriminate|constructor].
  - vm_compute; discriminate.
  - intros kv [= <-] [H _]. discriminate H.
  - lia.
  - unfold maxAlloc. lia.
Defined.

Lemma h3_settings_last_wins_witness :
  h3ParseSettingsPayload (settingsBytes [(0x08, 0); (0x33, 1); (0x08, 1); (0x06, 4096)]) = true.
Proof.
  apply (h3_settings_last_wins [(0x08, 0); (0x33, 1); (0x08, 1); (0x06, 4096)]).
  - repeat constructor; simpl; lia.
  - exists [(0x08, 0); (0x33, 1)], [(0x06, 4096)]. split; [reflexivity|]. repeat constructor. discriminate.
Defined.

Lemma fitsMemory_all (l : list (string * string)) :
  forallb (fun kv => (slen (fst kv) <=? maxAlloc) && (slen (snd kv) <=? maxAlloc)) l = true -> Forall fitsMemory l.
Proof.
  intros H. apply Forall_forall. intros kv Hin. apply list_elem_of_In in Hin. rewrite forallb_forall in H.
  specialize (H kv Hin). zbool. by split.
Qed.

(** The peer answers with the static entry for :status 200, one byte after the prefix. *)
Lemma h3_dial_handshake_witness :
  exists k, fst (dialRFC9220Profile libDemo (fun _ => None) urlDemo h3ClientStreamsControlOnly
      (Answer (Rd (frameBytes [] ++ frame h3FrameHeaders [Byte.x00; Byte.x00; Byte.xd9] ++ [Byte.x81]) io_EOF))
      (fun _ => ""%string) (fun _ => ""%string) (QState [] 0 0))
    = Ok (k, Stream.H3Stream (Rd [Byte.x81] io_EOF) []).
Proof.
  destruct (h3_dial_handshake libDemo (fun _ => None) urlDemo h3ClientStreamsControlOnly [] [Byte.x00; Byte.x00; Byte.xd9]
    (fold_left putHeader okHeaders ∅) [Byte.x81] io_EOF (fun _ => ""%string) (fun _ => ""%string) libDemo_ok) as (k & req & E & _).
  - left. vm_compute; reflexivity.
  - vm_compute; discriminate.
  - vm_compute; discriminate.
  - constructor.
  - vm_compute; discriminate.
  - vm_compute; reflexivity.
  - vm_compute; reflexivity.
  - apply fitsMemory_all. vm_compute; reflexivity.
  - vm_compute; discriminate.
  - exists 1%nat. exact (f_equal fst E).
Defined.

Lemma h3_failed_dial_leaks_witness :
  QEpClose ∉ q_log (snd (dialRFC9220Profile libDemo (fun _ => None) urlDemo h3ClientStreamsControlOnly
    (Answer (Rd (frame h3FrameHeaders (h3EncodeHeaders [(":status", "403")])) io_EOF))
    (fun _ => ""%string) (fun _ => ""%string) (QState [] 0 0))).
Proof.
  refine (proj2 (proj2 (h3_failed_dial_leaks libDemo (fun _ => None) urlDemo h3ClientStreamsControlOnly
    (Rd (frame h3FrameHeaders (h3EncodeHeaders [(":status", "403")])) io_EOF) (fun _ => ""%string) (fun _ => ""%string)
    (errMsg "rfc9220 connect failed: status=403 headers=") _ _ _ _))).
  - left. vm_compute; reflexivity.
  - reflexivity.
  - reflexivity.
  - vm_compute; reflexivity.
Defined.
