(* ===== verification/RawH2.v ===== *)
(** * WebSocket over raw HTTP/2

    src/internal/rfc8441_raw_h2.go: the connection with its SETTINGS exchange, the
    extended CONNECT request and its response, the stream with its DATA frames, its
    read loop and its flow control, and the dial that puts them together; and the
    dial over net/http of src/internal/ws_h2.go that falls back to it. The framer of
    golang.org/x/net/http2 gives frames and takes frames, its HPACK codec is a
    parameter, and TCP, TLS and contexts are given by what their calls return. *)

From S2P Require Import Prelude GoNet Metrics GoURL GoCrypto WSFrame WSConn Transport.

(** ** Frames *)

(** [rawH2MaxDataFrameChunk] and [rawH2WindowUpdateBatch]. *)
Definition rawH2MaxDataFrameChunk : Z := 16 * 1024.
Definition rawH2WindowUpdateBatch : Z := 64 * 1024.
Definition errRFC8441HandshakeFailed : gerror := errSentinel "rfc8441 handshake failed".
Definition settingEnableConnectProtocol : Z := 0x8.

(** What [Framer.ReadFrame] returns; [pad] is what a DATA frame holds besides its
    data, [OtherFrame] is any type the program does not look at. *)
Inductive h2frame :=
| SettingsFrame (ack : bool) (ss : list (Z * Z))
| HeadersFrame (sid : Z) (frag : bytes) (ended : bool)
| MetaHeadersFrame (sid : Z) (fields : list (string * string))
| ContinuationFrame (sid : Z) (frag : bytes) (ended : bool)
| DataFrame (sid : Z) (data : bytes) (pad : Z) (ended : bool)
| RSTStreamFrame (sid : Z) (code : Z)
| GoAwayFrame
| OtherFrame.

(** What the client does to the connection, in order. *)
Inductive h2out :=
| ODial (addr : bytes) | OTls (serverName : bytes) (protos : list bytes)
| OPreface | OSettings (ss : list (Z * Z)) | OSettingsAck
| OHeaders (sid : Z) (block : bytes) (endHeaders endStream : bool)
| OData (sid : Z) (endStream : bool) (chunk : bytes)
| OWindowUpdate (sid incr : Z) | ORSTStream (sid code : Z) | OFlush | OClose.

(** What the world answers to the [k]-th call: [ctx.Err()], a write or a flush, whether
    [closed] is closed, whether the pipe to the reader takes data, the TCP dial,
    the TLS handshake with the protocol it negotiates, and [rand.Read]. *)
Record h2env := {
  e_ctx : nat -> option gerror; e_write : nat -> option gerror;
  e_closed : nat -> bool; e_pipe : nat -> bool;
  e_tcp : option gerror; e_tls : option gerror; e_alpn : bytes; e_rand : gerror + bytes }.

(** [rawH2Conn] with the pipe of its stream: frames to come and the error after them,
    the log, the calls made, the data written to the pipe, and [closed]. *)
Record rawH2Conn := H2Conn {
  h_in : list h2frame; h_rerr : gerror; h_out : list h2out; h_clock : nat; h_piped : bytes; h_closed : bool }.
Definition newRawH2Conn (fs : list h2frame) (rerr : gerror) : rawH2Conn := H2Conn fs rerr [] 0 [] false.

Definition h_log (l : list h2out) (c : rawH2Conn) : rawH2Conn :=
  H2Conn (h_in c) (h_rerr c) (h_out c ++ l) (h_clock c) (h_piped c) (h_closed c).
Definition h_tick (c : rawH2Conn) : rawH2Conn :=
  H2Conn (h_in c) (h_rerr c) (h_out c) (S (h_clock c)) (h_piped c) (h_closed c).
Definition h_pipe (d : bytes) (c : rawH2Conn) : rawH2Conn :=
  H2Conn (h_in c) (h_rerr c) (h_out c) (h_clock c) (h_piped c ++ d) (h_closed c).

(** Calls on a connection. *)
Definition HM (A : Type) : Type := rawH2Conn -> res A * rawH2Conn.
#[global] Instance HM_ret : MRet HM := fun A a c => (Ok a, c).
#[global] Instance HM_bind : MBind HM := fun A B f m c =>
  match m c with
  | (Ok a, c') => f a c'
  | (Err e, c') => (Err e, c')
  | (Panic w, c') => (Panic w, c')
  end.
Definition hfail {A} (e : gerror) : HM A := fun c => (Err e, c).
Definition hpanic {A} (w : string) : HM A := fun c => (Panic w, c).
(** A loop over the frames to come: one round more than there are frames. *)
Definition perFrame {A} (loop : nat -> HM A) : HM A := fun c => loop (S (length (h_in c))) c.

Section Raw.
Context (E : h2env).

(** A call of the framer or of the buffered writer that writes. *)
Definition put (a : h2out) : HM unit := fun c =>
  match e_write E (h_clock c) with
  | Some e => (Err e, h_tick c)
  | None => (Ok tt, h_log [a] (h_tick c))
  end.
Definition hctx : HM unit := fun c =>
  match e_ctx E (h_clock c) with Some e => (Err e, h_tick c) | None => (Ok tt, h_tick c) end.
Definition ignore (m : HM unit) : HM unit := fun c =>
  match m c with (Err _, c') => (Ok tt, c') | x => x end.

(** [readFrame()]. *)
Definition readFrame : HM h2frame := fun c =>
  match h_in c with
  | [] => (Err (h_rerr c), c)
  | f :: fs => (Ok f, H2Conn fs (h_rerr c) (h_out c) (h_clock c) (h_piped c) (h_closed c))
  end.
(** [writeFrame(fn)]. *)
Definition writeFrame (fn : HM unit) : HM unit := _ ← fn; put OFlush.

(** [Close()] of [rawH2Conn]. *)
Definition connClose : HM unit := fun c =>
  if h_closed c then (Ok tt, c)
  else (Ok tt, H2Conn (h_in c) (h_rerr c) (h_out c ++ [OClose]) (h_clock c) (h_piped c) true).

(** ** [init] *)

(** [ForeachSetting] with the function of [init]: the value and whether it was found. *)
Definition enableSetting (ss : list (Z * Z)) : Z * bool :=
  fold_left (fun r '(id, v) => if id =? settingEnableConnectProtocol then (v, true) else r) ss (0, false).

Definition boolText (b : bool) : string := if b then "true" else "false".
Definition errNotEnabled (r : Z * bool) : gerror :=
  errMsg ("rfc8441 not supported by server: SETTINGS_ENABLE_CONNECT_PROTOCOL=" +:+ b2str (itoa (fst r))
          +:+ " (present=" +:+ boolText (snd r) +:+ ")").

(** The loop; a round that goes on takes a frame. *)
Fixpoint initLoop (fuel : nat) : HM unit :=
  match fuel with
  | O => hpanic "out of fuel"
  | S k =>
      _ ← hctx;
      f ← readFrame;
      match f with
      | SettingsFrame false ss =>
          let r := enableSetting ss in
          if negb (snd r) || negb (fst r =? 1) then hfail (errNotEnabled r)
          else writeFrame (put OSettingsAck)
      | _ => initLoop k
      end
  end.
Definition init : HM unit :=
  _ ← put OPreface;
  _ ← put OFlush;
  _ ← writeFrame (put (OSettings [(settingEnableConnectProtocol, 1)]));
  perFrame initLoop.

(** ** The request and its response *)

Context (hpackEncode : list (string * string) -> bytes).
Context (hpackDecode : bytes -> list (string * string) * option gerror).
Context (errCodeText : Z -> string).

(** [computeAccept(key)]. *)
Definition computeAccept (key : bytes) : bytes :=
  b64Encode (sha1Sum (key ++ str2b "258EAFA5-E914-47DA-95CA-C5AB0DC85B11")).

(** The callback of the decoder, and the case of decoded frames. *)
Definition addField (r : string * gmap string string) (f : string * string) : string * gmap string string :=
  let name := b2str (toLower (str2b (fst f))) in
  if bool_decide (name = ":status"%string) then (snd f, snd r) else (fst r, <[name := snd f]> (snd r)).
Definition collectFields (fs : list (string * string)) : string * gmap string string := fold_left addField fs (""%string, ∅).

Definition decodeBlock (block : bytes) : HM (string * gmap string string) :=
  match hpackDecode block with
  | (fs, None) => mret (collectFields fs)
  | (_, Some e) => hfail e
  end.

(** [readResponseHeaders(ctx, streamID)]. *)
Fixpoint responseLoop (fuel : nat) (streamID : Z) (block : bytes) : HM (string * gmap string string) :=
  match fuel with
  | O => hpanic "out of fuel"
  | S k =>
      _ ← hctx;
      f ← readFrame;
      match f with
      | SettingsFrame ack _ =>
          _ ← (if ack then mret tt else ignore (writeFrame (put OSettingsAck)));
          responseLoop k streamID block
      | HeadersFrame sid frag ended | ContinuationFrame sid frag ended =>
          if negb (sid =? streamID) then responseLoop k streamID block
          else if ended then decodeBlock (block ++ frag)
          else responseLoop k streamID (block ++ frag)
      | MetaHeadersFrame sid fields =>
          if negb (sid =? streamID) then responseLoop k streamID block else mret (collectFields fields)
      | GoAwayFrame => hfail (errWrap "" errRFC8441HandshakeFailed ": received GOAWAY")
      | RSTStreamFrame sid code =>
          if negb (sid =? streamID) then responseLoop k streamID block
          else hfail (errWrap "" errRFC8441HandshakeFailed (": received RST_STREAM (code=" +:+ errCodeText code +:+ ")"))
      | DataFrame _ _ _ _ | OtherFrame => responseLoop k streamID block
      end
  end.
Definition readResponseHeaders (streamID : Z) : HM (string * gmap string string) :=
  perFrame (fun k => responseLoop k streamID []).

(** The header fields of the request. *)
Definition connectFields (u : URL) (key : bytes) : list (string * string) :=
  [(":method", "CONNECT"); (":scheme", "https"); (":authority", b2str (Host u)); (":path", b2str (cleanedRequestURI u));
   (":protocol", "websocket"); ("sec-websocket-version", "13"); ("sec-websocket-key", b2str key)]
  ++ (match Get (Query u) (str2b "origin") with [] => [] | origin => [("origin", b2str origin)] end).

(** [openWebSocketStream(ctx, u)], up to the start of the read loop. *)
Definition openWebSocketStream (u : URL) : HM unit :=
  keyRaw ← (fun c => (match e_rand E with inl e => Err e | inr b => Ok b end, c)) : HM bytes;
  let key := b64Encode keyRaw in
  _ ← writeFrame (put (OHeaders 1 (hpackEncode (connectFields u key)) true false));
  '(status, hdrs) ← readResponseHeaders 1;
  if negb (bool_decide (status = "200"%string))
  then hfail (errWrap "" errRFC8441HandshakeFailed (": unexpected status " +:+ status))
  else
    let got := default ""%string (hdrs !! "sec-websocket-accept"%string) in
    if bool_decide (got <> ""%string) && bool_decide (got <> b2str (computeAccept key))
    then hfail (errWrap "" errRFC8441HandshakeFailed ": bad sec-websocket-accept")
    else mret tt.

(** ** [dialRFC8441RawH2] *)

(** What the dial uses of the transport's TLS configuration. *)
Record tlsConfig := TlsConfig { ServerName : bytes; NextProtos : list bytes }.

Definition rawHost (u : URL) : bytes := if containsByte (Host u) cColon then Host u else Host u ++ str2b ":443".
Definition rawServerName (conf : tlsConfig) (host : bytes) : bytes :=
  match ServerName conf with
  | [] => match SplitHostPort host with Ok (h, _) => h | _ => host end
  | s => s
  end.
Definition rawNextProtos (conf : tlsConfig) : list bytes :=
  match NextProtos conf with
  | [] => [str2b "h2"; str2b "http/1.1"]
  | ps => if bool_decide (str2b "h2" ∈ ps) then ps else str2b "h2" :: ps
  end.

(** [dialRFC8441RawH2(ctx, u, tr)]; [conf] is [tr.TLSClientConfig], its clone is used. *)
Definition dialRFC8441RawH2 (u : URL) (conf : option tlsConfig) : HM unit := fun c =>
  if negb (bool_decide (Scheme u = str2b "wss"))
  then (Err (errMsg ("rfc8441 raw h2 requires wss, got " +:+ b2str ([cQuote] ++ Scheme u ++ [cQuote]))), c)
  else
    let host := rawHost u in
    match e_tcp E with
    | Some e => (Err e, c)
    | None =>
        let conf := default (TlsConfig [] []) conf in
        let c := h_log [ODial host; OTls (rawServerName conf host) (rawNextProtos conf)] c in
        match e_tls E with
        | Some e => (Err e, h_log [OClose] c)
        | None =>
            if negb (bool_decide (e_alpn E = str2b "h2"))
            then (Err (errMsg ("rfc8441 requires h2 ALPN, negotiated " +:+ b2str ([cQuote] ++ e_alpn E ++ [cQuote]))), h_log [OClose] c)
            else
              match init c with
              | (Err e, c) => (Err e, snd (connClose c))
              | (Panic w, c) => (Panic w, c)
              | (Ok _, c) =>
                  match openWebSocketStream u c with
                  | (Err e, c) => (Err e, snd (connClose c))
                  | x => x
                  end
              end
        end
    end.

(** ** [rawH2Stream] *)

(** The loop of [Write] from [off] on: the offset reached and the error of a failed write. *)
Fixpoint writeLoop (fuel : nat) (p : bytes) (off : Z) (c : rawH2Conn) : Z * option gerror * rawH2Conn :=
  if off <? zlen p then
    match fuel with
    | O => (off, Some (errMsg "out of fuel"), c)
    | S k =>
        let end_ := if zlen p <? off + rawH2MaxDataFrameChunk then zlen p else off + rawH2MaxDataFrameChunk in
        let chunk := take (Z.to_nat (end_ - off)) (drop (Z.to_nat off) p) in
        match put (OData 1 false chunk) c with
        | (Err e, c) => (off, Some e, c)
        | (_, c) => writeLoop k p end_ c
        end
    end
  else (off, None, c).
Definition streamWrite (p : bytes) (c : rawH2Conn) : Z * option gerror * rawH2Conn :=
  match writeLoop (length p) p 0 c with
  | (off, Some e, c) => (off, Some e, c)
  | (off, None, c) =>
      match put OFlush c with
      | (Err e, c) => (off, Some e, c)
      | (_, c) => (zlen p, None, c)
      end
  end.

(** [http2.ErrCodeCancel]. *)
Definition ErrCodeCancel : Z := 0x8.
(** [Close()] of [rawH2Stream]; closing the pipe never fails. *)
Definition streamClose (c : rawH2Conn) : option gerror * rawH2Conn :=
  let c := snd (ignore (writeFrame (put (ORSTStream 1 ErrCodeCancel))) c) in
  (None, snd (connClose c)).

(** [flushWindowUpdate(force)]: [pendingWindowUpdate] after it. *)
Definition flushWindowUpdate (force : bool) (pending : Z) : HM Z :=
  if pending =? 0 then mret pending
  else if negb force && (pending <? rawH2WindowUpdateBatch) then mret pending
  else
    _ ← ignore (writeFrame (_ ← ignore (put (OWindowUpdate 0 pending)); put (OWindowUpdate 1 pending)));
    mret 0.

(** How the loop of [readLoop] is left: [CloseWithError] or a plain return. *)
Inductive loopEnd := EndPlain | EndError (e : gerror).

(** [s.w.Write(data)]: lost when the pipe is closed already. *)
Definition pipeWrite (data : bytes) : HM unit := fun c =>
  (Ok tt, if e_pipe E (h_clock c) then h_pipe data (h_tick c) else h_tick c).

(** The loop of [readLoop(ctx)]: how it ends and [pendingWindowUpdate]. *)
Fixpoint pumpLoop (fuel : nat) (pending : Z) : HM (loopEnd * Z) := fun c =>
  match fuel with
  | O => (Panic "out of fuel", c)
  | S k =>
      if e_closed E (h_clock c) then (Ok (EndPlain, pending), c)
      else match hctx c with
      | (Err _, c) => (Ok (EndPlain, pending), c)
      | (_, c) =>
          match readFrame c with
          | (Err e, c) => (Ok (EndError e, pending), c)
          | (Panic w, c) => (Panic w, c)
          | (Ok f, c) =>
              match f with
              | DataFrame sid data _ ended =>
                  if negb (sid =? 1) then pumpLoop k pending c
                  else
                    (pending ← (if 0 <? zlen data
                                then _ ← pipeWrite data; flushWindowUpdate false (u32 (pending + u32 (zlen data)))
                                else mret pending);
                     if ended then pending ← flushWindowUpdate true pending; mret (EndPlain, pending)
                     else pumpLoop k pending) c
              | RSTStreamFrame sid _ => if sid =? 1 then (Ok (EndPlain, pending), c) else pumpLoop k pending c
              | GoAwayFrame => (Ok (EndPlain, pending), c)
              | _ => pumpLoop k pending c
              end
          end
      end
  end.
(** [readLoop(ctx)] with its deferred calls: what the reader of the pipe gets after
    the data. *)
Definition readLoop : HM gerror :=
  '(how, pending) ← perFrame (fun k => pumpLoop k 0);
  _ ← flushWindowUpdate true pending;
  mret (match how with EndError e => e | EndPlain => io_EOF end).
End Raw.

(** ** The stream as an [io.ReadWriteCloser] of the framed connection *)

Record rawH2Stream := RawStream { rs_env : h2env; rs_conn : rawH2Conn }.

#[export] Instance rawH2Stream_rwc : RWCloser rawH2Stream := {
  rwc_write p s := let '(n, err, c) := streamWrite (rs_env s) p (rs_conn s) in (n, err, RawStream (rs_env s) c);
  rwc_close s := let '(err, c) := streamClose (rs_env s) (rs_conn s) in (err, RawStream (rs_env s) c) }.

(** ** The dial over net/http *)

(** What [dialRFC8441] does to its request pipe and the response body. *)
Inductive pipeAct := PipeReaderClose | PipeWriterClose | BodyClose.

(** [setRequestProtocol(req, protocol)]: what reflection tells about the field [Protocol] of
    the toolchain's [http.Request], and the field's value. *)
Record protocolField := ProtocolField { pf_valid : bool; pf_canSet : bool; pf_string : bool }.
Definition setRequestProtocol (f : protocolField) (protocol value : bytes) : bool * bytes :=
  if negb (pf_valid f) || negb (pf_canSet f) || negb (pf_string f) then (false, value) else (true, protocol).

(** [h2Stream]: the bytes written to the request's pipe, what the pipe answers to each
    write, and what was closed. *)
Record h2Stream := H2Stream { hs_sent : bytes; hs_pipe : nat -> bytes -> Z * option gerror; hs_count : nat; hs_acts : list pipeAct }.
#[export] Instance h2Stream_rwc : RWCloser h2Stream := {
  rwc_write p s :=
    let '(n, err) := hs_pipe s (hs_count s) p in
    (n, err, H2Stream (hs_sent s ++ take (Z.to_nat n) p) (hs_pipe s) (S (hs_count s)) (hs_acts s));
  rwc_close s := (None, H2Stream (hs_sent s) (hs_pipe s) (hs_count s) (hs_acts s ++ [BodyClose; PipeWriterClose])) }.

(** [dialRFC8441(ctx, u, tr)]: [canSet] is what [setRequestProtocol] finds, [newReq] and
    [doReq] what [http.NewRequestWithContext] and [Client.Do] return (the status code
    and line), [raw] what the raw dial does; [mk] wraps the stream of the response. *)
Definition dialRFC8441 {C} (u : URL) (canSet : bool) (newReq : option gerror) (doReq : gerror + Z * string) (raw : res C) (mk : C)
    : res C * list pipeAct :=
  if negb (bool_decide (Scheme u = str2b "wss") || bool_decide (Scheme u = str2b "ws"))
  then (Err (errMsg ("unsupported scheme for rfc8441: " +:+ b2str (Scheme u))), [])
  else match newReq with
  | Some e => (Err e, [PipeWriterClose])
  | None =>
      if negb canSet then (raw, [PipeReaderClose; PipeWriterClose])
      else match doReq with
      | inl e => (Err e, [PipeWriterClose])
      | inr (code, status) =>
          if negb (code =? 200)
          then (Err (errMsg ("rfc8441 connect failed: " +:+ status)), [BodyClose; PipeWriterClose])
          else (Ok mk, [])
      end
  end.

(** ** Specification *)

(** No call fails and nobody closes the connection. *)
Record quietNet (E : h2env) : Prop := {
  qn_ctx : forall k, e_ctx E k = None; qn_write : forall k, e_write E k = None;
  qn_closed : forall k, e_closed E k = false; qn_pipe : forall k, e_pipe E k = true }.

(** What the frames bring to the reader of stream 1, and whether they end it. *)
Fixpoint delivered (fs : list h2frame) : bytes :=
  match fs with
  | [] => []
  | DataFrame 1 data _ ended :: fs => data ++ (if ended then [] else delivered fs)
  | RSTStreamFrame 1 _ :: _ | GoAwayFrame :: _ => []
  | _ :: fs => delivered fs
  end.
Definition endsStream (f : h2frame) : bool :=
  match f with
  | DataFrame sid _ _ ended => (sid =? 1) && ended
  | RSTStreamFrame sid _ => sid =? 1
  | GoAwayFrame => true
  | _ => false
  end.

(** The credit the client gave on a stream (0 is the connection). *)
Definition credit (sid : Z) (l : list h2out) : Z :=
  fold_right (fun o n => match o with OWindowUpdate s v => if s =? sid then v + n else n | _ => n end) 0 l.

(** A frame uses the window of stream 1 by its data and its padding. *)
Definition wireLen (f : h2frame) : Z := match f with DataFrame 1 data pad _ => zlen data + pad | _ => 0 end.
Definition wireBytes (fs : list h2frame) : Z := fold_right (fun f n => wireLen f + n) 0 fs.
Definition frameOk (f : h2frame) : Prop :=
  match f with DataFrame _ data pad _ => 0 <= pad /\ zlen data + pad < 2 ^ 24 | _ => True end.

(** The initial window of HTTP/2, which the client's SETTINGS do not change. *)
Definition initialWindow : Z := 65535.

(** The log of the read loop when it has taken [fs] and waits for the next frame. *)
Definition logAfter (E : h2env) (fs : list h2frame) : list h2out :=
  h_out (snd (pumpLoop E (S (length fs)) 0 (newRawH2Conn fs io_EOF))).

(** A server that keeps to flow control: every frame fits in the initial window and
    the credit the client gave before it. *)
Definition obeysFlowControl (E : h2env) (fs : list h2frame) : Prop :=
  forall pre f post, fs = pre ++ f :: post -> wireBytes (pre ++ [f]) <= initialWindow + credit 1 (logAfter E pre).

(** The first SETTINGS frame that is no acknowledgement. *)
Fixpoint firstSettings (fs : list h2frame) : option (list (Z * Z) * list h2frame) :=
  match fs with
  | [] => None
  | SettingsFrame false ss :: rest => Some (ss, rest)
  | _ :: rest => firstSettings rest
  end.

(** A header block in fragments, with other frames before each of them. *)
Definition skipped (f : h2frame) : Prop :=
  match f with
  | HeadersFrame sid _ _ | ContinuationFrame sid _ _ | RSTStreamFrame sid _ | MetaHeadersFrame sid _ => sid <> 1
  | GoAwayFrame => False
  | _ => True
  end.
Definition fragment (first : bool) (frag : bytes) (ended : bool) : h2frame :=
  if first then HeadersFrame 1 frag ended else ContinuationFrame 1 frag ended.
Fixpoint weave (first : bool) (pieces : list (list h2frame * bytes)) : list h2frame :=
  match pieces with
  | [] => []
  | (noise, frag) :: rest =>
      noise ++ fragment first frag (match rest with [] => true | _ => false end) :: weave false rest
  end.
Definition acksFor (fs : list h2frame) : list h2out :=
  fs ≫= fun f => match f with SettingsFrame false _ => [OSettingsAck; OFlush] | _ => [] end.

(** ** Lemmas *)

Lemma HM_bind_Ok {A B} (m : HM A) (f : A -> HM B) c a c' : m c = (Ok a, c') -> (m ≫= f) c = f a c'.
Proof. intros H. unfold mbind, HM_bind. by rewrite H. Qed.
Lemma HM_bind_inv {A B} (m : HM A) (f : A -> HM B) c b c' :
  (m ≫= f) c = (Ok b, c') -> exists a c1, m c = (Ok a, c1) /\ f a c1 = (Ok b, c').
Proof. unfold mbind, HM_bind. destruct (m c) as [[a|e|w] c1]; intros; try done. by exists a, c1. Qed.

Lemma credit_app sid l1 l2 : credit sid (l1 ++ l2) = credit sid l1 + credit sid l2.
Proof.
  unfold credit. induction l1 as [|o l1 IH]; [done|]. simpl. rewrite IH. destruct o; try done. case_match; lia.
Qed.
Lemma wireBytes_app l1 l2 : wireBytes (l1 ++ l2) = wireBytes l1 + wireBytes l2.
Proof. unfold wireBytes. induction l1 as [|o l1 IH]; [done|]. simpl. rewrite IH. lia. Qed.
Lemma wireLen_nonneg f : frameOk f -> 0 <= wireLen f.
Proof.
  destruct f as [| | | |sid data pad ended| | |]; simpl; try lia. intros [H _]. pose proof (zlen_nonneg data).
  destruct sid as [|[| |]|]; simpl; lia.
Qed.
Lemma wireBytes_nonneg fs : Forall frameOk fs -> 0 <= wireBytes fs.
Proof. induction 1 as [|f fs Hf _ IH]; simpl; [lia|]. pose proof (wireLen_nonneg f Hf). lia. Qed.

(** *** Flow control *)

Lemma flush_small E pending c : pending < rawH2WindowUpdateBatch -> flushWindowUpdate E false pending c = (Ok pending, c).
Proof.
  intros H. unfold flushWindowUpdate. destruct (pending =? 0); [done|].
  rewrite (proj2 (Z.ltb_lt pending rawH2WindowUpdateBatch)) by done. done.
Qed.

(** While less than a batch has come, the loop writes nothing. *)
Lemma pump_silent E fuel pending c :
  0 <= pending -> Forall frameOk (h_in c) -> Forall (fun f => endsStream f = false) (h_in c) ->
  pending + wireBytes (h_in c) < rawH2WindowUpdateBatch -> h_out (snd (pumpLoop E fuel pending c)) = h_out c.
Proof.
  revert pending c. induction fuel as [|k IH]; intros pending c Hp Hok Hend Hw; [done|]. cbn [pumpLoop].
  destruct (e_closed E (h_clock c)); [done|]. unfold hctx. destruct (e_ctx E (h_clock c)) as [e|]; [done|].
  unfold readFrame. destruct c as [fs re out clk pp cl]. cbn [h_in h_tick h_out h_rerr h_clock h_piped h_closed] in *.
  destruct fs as [|f fs]; [done|]. apply Forall_cons in Hok as [Hf Hok]. apply Forall_cons in Hend as [He Hend].
  change (wireBytes (f :: fs)) with (wireLen f + wireBytes fs) in Hw. pose proof (wireLen_nonneg f Hf).
  assert (Hgo : forall pend n pp', 0 <= pend -> pend + wireBytes fs < rawH2WindowUpdateBatch ->
    h_out (snd (pumpLoop E k pend (H2Conn fs re out n pp' cl))) = out) by (intros; by rewrite IH).
  destruct f as [| | | |sid data pad ended|sid code| |]; try (apply Hgo; lia).
  - cbn [endsStream] in He. destruct (Z.eqb_spec sid 1) as [->|Hsid]; cbn [negb andb] in *; [|apply Hgo; lia].
    subst ended. cbn [wireLen] in *. destruct Hf as [Hpad Hlen]. pose proof (zlen_nonneg data). pose proof (wireBytes_nonneg fs Hok).
    unfold mbind at 1. unfold HM_bind at 1. destruct (0 <? zlen data) eqn:Ed.
    + unfold pipeWrite, mbind, HM_bind. cbn [h_clock].
      assert (Hu : u32 (pending + u32 (zlen data)) = pending + zlen data).
      { unfold u32, rawH2WindowUpdateBatch in *. rewrite (Z.mod_small (zlen data)) by lia. apply Z.mod_small. lia. }
      rewrite Hu, flush_small by lia. case_match; apply Hgo; lia.
    + apply Hgo; lia.
  - cbn [endsStream] in He. rewrite He. apply Hgo; lia.
  - done.
Qed.

Lemma logAfter_silent E fs :
  Forall frameOk fs -> Forall (fun f => endsStream f = false) fs -> wireBytes fs < rawH2WindowUpdateBatch -> logAfter E fs = [].
Proof. intros. unfold logAfter. by rewrite pump_silent. Qed.

(** *** The read loop *)

Lemma put_quiet E a c : quietNet E -> put E a c = (Ok tt, h_log [a] (h_tick c)).
Proof. intros Q. unfold put. by rewrite (qn_write E Q). Qed.

Definition sameSide (c c' : rawH2Conn) : Prop := h_in c' = h_in c /\ h_rerr c' = h_rerr c /\ h_piped c' = h_piped c.

Lemma flush_quiet E (force : bool) pending c :
  quietNet E -> 0 <= pending ->
  exists (l : list h2out) (c' : rawH2Conn), let pending' : Z := if force then 0 else if pending <? rawH2WindowUpdateBatch then pending else 0 in
    flushWindowUpdate E force pending c = (Ok pending', c')
  /\ sameSide c c' /\ h_out c' = h_out c ++ l /\ forall sid : Z, sid = 0 \/ sid = 1 -> credit sid l + pending' = pending.
Proof.
  intros Q Hp. unfold flushWindowUpdate. destruct (Z.eqb_spec pending 0) as [->|H0].
  { exists [], c. rewrite app_nil_r. split; [by destruct force|]. split; [done|]. split; [done|]. intros. by destruct force. }
  destruct (negb force && (pending <? rawH2WindowUpdateBatch)) eqn:Eb.
  { exists [], c. destruct force; [done|]. simpl in Eb. rewrite Eb, app_nil_r. done. }
  exists [OWindowUpdate 0 pending; OWindowUpdate 1 pending; OFlush]. eexists. split.
  { unfold ignore, writeFrame, mbind, HM_bind. rewrite !put_quiet by done. cbv beta iota zeta.
    replace (if force then 0 else if pending <? rawH2WindowUpdateBatch then pending else 0) with 0; [reflexivity|].
    destruct force; [done|]. simpl in Eb. by rewrite Eb. }
  split; [done|]. split; [simpl; by rewrite <- !app_assoc|].
  intros sid [-> | ->]; simpl; destruct force; simpl in Eb |- *; rewrite ?Eb; lia.
Qed.

Lemma delivered_data sid data pad ended fs :
  delivered (DataFrame sid data pad ended :: fs)
  = if sid =? 1 then data ++ (if ended then [] else delivered fs) else delivered fs.
Proof. by destruct sid as [|[| |]|]. Qed.
Lemma delivered_rst sid code fs : delivered (RSTStreamFrame sid code :: fs) = if sid =? 1 then [] else delivered fs.
Proof. by destruct sid as [|[| |]|]. Qed.

(** How the loop ends in a quiet world. *)
Definition endOf (c : rawH2Conn) : loopEnd := if existsb endsStream (h_in c) then EndPlain else EndError (h_rerr c).

(** What a run of the loop has to do with [pending] bytes to give back. *)
Definition pumped (pending : Z) (c : rawH2Conn) (r : res (loopEnd * Z) * rawH2Conn) : Prop :=
  exists l pend' c', r = (Ok (endOf c, pend'), c') /\ 0 <= pend'
  /\ h_piped c' = h_piped c ++ delivered (h_in c) /\ h_out c' = h_out c ++ l
  /\ forall sid, sid = 0 \/ sid = 1 -> credit sid l + pend' = pending + zlen (delivered (h_in c)).

Lemma pumped_stop pending c c' e :
  0 <= pending -> endOf c = e -> delivered (h_in c) = [] -> h_piped c' = h_piped c -> h_out c' = h_out c ->
  pumped pending c (Ok (e, pending), c').
Proof.
  intros Hp <- Hd E1 E2. exists [], pending, c'. rewrite Hd, !app_nil_r. do 4 (split; [done|]). intros. rewrite (@zlen_nil byte). simpl. lia.
Qed.

(** A DATA frame of the stream. *)
Lemma data_step E data pending c :
  quietNet E -> 0 <= pending < rawH2WindowUpdateBatch -> zlen data < 2 ^ 24 ->
  exists l1 p1 c1, (if 0 <? zlen data
      then _ ← pipeWrite E data; flushWindowUpdate E false (u32 (pending + u32 (zlen data))) else mret pending) c = (Ok p1, c1)
    /\ h_in c1 = h_in c /\ h_rerr c1 = h_rerr c /\ h_piped c1 = h_piped c ++ data /\ h_out c1 = h_out c ++ l1
    /\ 0 <= p1 < rawH2WindowUpdateBatch /\ forall sid, sid = 0 \/ sid = 1 -> credit sid l1 + p1 = pending + zlen data.
Proof.
  intros Q Hp Hlen. pose proof (zlen_nonneg data). destruct (0 <? zlen data) eqn:Ed.
  - assert (Hu : u32 (pending + u32 (zlen data)) = pending + zlen data).
    { unfold u32, rawH2WindowUpdateBatch in *. rewrite (Z.mod_small (zlen data)) by lia. apply Z.mod_small. lia. }
    rewrite Hu. unfold pipeWrite, mbind, HM_bind. rewrite (qn_pipe E Q).
    edestruct (flush_quiet E false (pending + zlen data)) as (l & c' & Ef & (S1 & S2 & S3) & S4 & S5); [done|lia|].
    rewrite Ef. exists l. eexists _, c'. split; [reflexivity|]. split; [exact S1|]. split; [exact S2|].
    split; [exact S3|]. split; [exact S4|]. split; [|intros; rewrite S5 by done; reflexivity].
    case_match; zbool; unfold rawH2WindowUpdateBatch in *; lia.
  - assert (data = []) as ->. { destruct data; [done|]. rewrite zlen_cons in Ed. pose proof (zlen_nonneg data). zbool. lia. }
    exists [], pending, c. rewrite !app_nil_r. do 6 (split; [done|]). intros. rewrite (@zlen_nil byte). simpl. lia.
Qed.

Lemma pump_quiet E fuel pending c :
  quietNet E -> (length (h_in c) < fuel)%nat -> 0 <= pending < rawH2WindowUpdateBatch -> Forall frameOk (h_in c) ->
  pumped pending c (pumpLoop E fuel pending c).
Proof.
  intros Q. revert pending c. induction fuel as [|k IH]; intros pending c Hl Hp Hok; [lia|].
  destruct c as [fs re out clk pp cl]. cbn [h_in] in *. cbn [pumpLoop]. unfold hctx.
  rewrite (qn_closed E Q), (qn_ctx E Q). unfold readFrame, h_tick. cbn [h_in h_out h_rerr h_clock h_piped h_closed].
  destruct fs as [|f fs]; [by apply pumped_stop; [lia|..]|]. apply Forall_cons in Hok as [Hf Hok]. cbn [length] in Hl.
  assert (Hskip : forall n, endsStream f = false -> delivered (f :: fs) = delivered fs ->
    pumped pending (H2Conn (f :: fs) re out clk pp cl) (pumpLoop E k pending (H2Conn fs re out n pp cl))).
  { intros n He Hd. destruct (IH pending (H2Conn fs re out n pp cl)) as (l & p' & c' & Er & H); [cbn [h_in]; lia|done|done|].
    exists l, p', c'. rewrite Er. unfold endOf in *. cbn [h_in existsb] in *. rewrite He, Hd. done. }
  destruct f as [| | | |sid data pad ended|sid code| |]; try (by apply Hskip).
  - destruct (Z.eqb_spec sid 1) as [->|Hs]; cbn [negb];
      [|apply Hskip; [cbn; by rewrite (proj2 (Z.eqb_neq _ _) Hs)|by rewrite delivered_data, (proj2 (Z.eqb_neq _ _) Hs)]].
    destruct Hf as [Hpad Hlen]. assert (Hdata : zlen data < 2 ^ 24) by lia.
    destruct (data_step E data pending (H2Conn fs re out (S clk) pp cl)) as (l1 & p1 & c1 & E1 & I1 & R1 & P1 & O1 & B1 & C1); [done..|].
    cbn [h_in h_rerr h_piped h_out] in I1, R1, P1, O1.
    rewrite (HM_bind_Ok _ _ _ _ _ E1). unfold pumped, endOf. cbn [h_in h_rerr h_piped h_out existsb]. rewrite delivered_data. destruct ended.
    + destruct (flush_quiet E true p1 c1 Q (proj1 B1)) as (l2 & c2 & E2 & (_ & _ & P2) & O2 & C2).
      rewrite (HM_bind_Ok _ _ _ _ _ E2). exists (l1 ++ l2), 0, c2. cbn [endsStream Z.eqb Pos.eqb andb orb].
      split; [done|]. split; [done|]. rewrite P2, P1, O2, O1, app_nil_r, <- app_assoc. split; [done|]. split; [done|].
      intros sid Hsid. rewrite credit_app. specialize (C1 sid Hsid). specialize (C2 sid Hsid). cbv zeta in C2. lia.
    + destruct (IH p1 c1) as (l2 & p2 & c2 & E2 & B2 & P2 & O2 & C2); [rewrite I1; lia|done|by rewrite I1|].
      rewrite E2. exists (l1 ++ l2), p2, c2. unfold endOf. rewrite I1, R1. cbn [endsStream Z.eqb Pos.eqb andb orb].
      split; [done|]. split; [done|]. rewrite P2, P1, O2, O1, I1, <- !app_assoc. split; [done|]. split; [done|].
      intros sid Hsid. rewrite credit_app, zlen_app. specialize (C1 sid Hsid). specialize (C2 sid Hsid). rewrite I1 in C2. lia.
  - destruct (sid =? 1) eqn:Es; [|apply Hskip; [done|by rewrite delivered_rst, Es]].
    apply pumped_stop; [lia|unfold endOf; cbn; by rewrite Es|cbn [h_in]; by rewrite delivered_rst, Es|done|done].
  - by apply pumped_stop; [lia|..].
Qed.

(** *** Writing *)

(** The bytes of [p] between two offsets. *)
Definition slice (a b : Z) (p : bytes) : bytes := take (Z.to_nat (b - a)) (drop (Z.to_nat a) p).

Lemma slice_split a b d p : 0 <= a <= b -> b <= d -> slice a b p ++ slice b d p = slice a d p.
Proof.
  intros Ha Hb. unfold slice. replace (Z.to_nat (d - a)) with (Z.to_nat (b - a) + Z.to_nat (d - b))%nat by lia.
  rewrite <- take_take_drop, drop_drop. do 3 f_equal. lia.
Qed.
Lemma zlen_slice a b p : 0 <= a <= b -> b <= zlen p -> zlen (slice a b p) = b - a.
Proof. intros. unfold slice, zlen in *. rewrite length_take, length_drop. lia. Qed.

Lemma writeLoop_spec E fuel p off c :
  0 <= off <= zlen p -> zlen p - off <= Z.of_nat fuel ->
  exists n err c' chunks, writeLoop E fuel p off c = (n, err, c') /\ off <= n <= zlen p
  /\ h_out c' = h_out c ++ (OData 1 false <$> chunks) /\ h_closed c' = h_closed c
  /\ concat chunks = slice off n p
  /\ Forall (fun ch => 0 < zlen ch <= rawH2MaxDataFrameChunk) chunks
  /\ match err with None => n = zlen p | Some e => exists k, e_write E k = Some e end.
Proof.
  revert off c. induction fuel as [|k IH]; intros off c Ho Hf.
  { exists off, None, c, []. cbn [writeLoop]. rewrite (proj2 (Z.ltb_ge off (zlen p))) by lia.
    rewrite app_nil_r. unfold slice. rewrite Z.sub_diag. repeat split; try done; lia. }
  cbn [writeLoop]. destruct (Z.ltb_spec off (zlen p)) as [Hlt|Hge].
  2:{ exists off, None, c, []. rewrite app_nil_r. unfold slice. rewrite Z.sub_diag. repeat split; try done; lia. }
  set (end_ := if _ <? _ then zlen p else _).
  assert (He : off < end_ <= zlen p /\ end_ <= off + rawH2MaxDataFrameChunk).
  { unfold end_, rawH2MaxDataFrameChunk. case_match; zbool; lia. }
  fold (slice off end_ p). unfold put at 1. destruct (e_write E (h_clock c)) as [e|] eqn:Ew.
  { exists off, (Some e), (h_tick c), []. rewrite app_nil_r. unfold slice. rewrite Z.sub_diag.
    repeat split; try done; try lia. by eexists. }
  destruct (IH end_ (h_log [OData 1 false (slice off end_ p)] (h_tick c))) as (n & err & c' & chs & E1 & B & O & C & S & F & X); [lia..|].
  exists n, err, c', (slice off end_ p :: chs). split; [done|]. split; [lia|]. split; [rewrite O; cbn; by rewrite <- app_assoc|].
  split; [done|]. split; [cbn [concat]; rewrite S; apply slice_split; lia|]. split; [|done].
  constructor; [rewrite zlen_slice by lia; lia|done].
Qed.

#[export] Instance rawH2Stream_ok : WriterOk rawH2Stream.
Proof.
  constructor. intros p st n st' H. unfold rwc_write, rawH2Stream_rwc, streamWrite in H.
  pose proof (zlen_nonneg p). assert (Hl : zlen p - 0 <= Z.of_nat (length p)) by (unfold zlen; lia).
  destruct (writeLoop_spec (rs_env st) (length p) p 0 (rs_conn st)) as (m & err & c' & chs & E1 & B & _); [lia|exact Hl|].
  rewrite E1 in H. destruct err; [done|]. destruct (put (rs_env st) OFlush c') as [[|e|w] c2]; simplify_eq; lia.
Qed.

(** *** The handshake *)

Lemma firstSettings_split fs ss rest :
  firstSettings fs = Some (ss, rest) ->
  exists pre, fs = pre ++ SettingsFrame false ss :: rest /\ firstSettings pre = None.
Proof.
  induction fs as [|f fs IH]; [done|]. intros H.
  assert (Hs : f = SettingsFrame false ss /\ fs = rest \/ firstSettings fs = Some (ss, rest) /\ firstSettings [f] = None).
  { destruct f as [[|] ?| | | | | | |]; simpl in *; simplify_eq; auto. }
  destruct Hs as [[-> ->]|[H' Hf]]; [by exists []|]. destruct (IH H') as (pre & -> & Hp). exists (f :: pre). split; [done|].
  by destruct f as [[|] ?| | | | | | |].
Qed.

Lemma initLoop_quiet E fuel c :
  quietNet E -> (length (h_in c) < fuel)%nat ->
  exists k, initLoop E fuel c =
    match firstSettings (h_in c) with
    | None => (Err (h_rerr c), H2Conn [] (h_rerr c) (h_out c) k (h_piped c) (h_closed c))
    | Some (ss, rest) =>
        if bool_decide (enableSetting ss = (1, true))
        then (Ok tt, H2Conn rest (h_rerr c) (h_out c ++ [OSettingsAck; OFlush]) k (h_piped c) (h_closed c))
        else (Err (errNotEnabled (enableSetting ss)), H2Conn rest (h_rerr c) (h_out c) k (h_piped c) (h_closed c))
    end.
Proof.
  intros Q. revert c. induction fuel as [|n IH]; intros [fs re out clk pp cl] Hl; [cbn in Hl; lia|].
  cbn [initLoop h_in h_rerr h_out h_piped h_closed] in *. unfold hctx, mbind, HM_bind. rewrite (qn_ctx E Q).
  unfold readFrame, h_tick. cbn [h_in h_rerr h_out h_clock h_piped h_closed]. destruct fs as [|f fs]; [by eexists|]. cbn [length] in Hl.
  destruct f as [[|] ss| | | | | | |]; try (destruct (IH (H2Conn fs re out (S clk) pp cl)) as [k Ek]; [cbn; lia|]; by exists k).
  cbn [firstSettings]. cbv zeta. destruct (enableSetting ss) as [v found] eqn:Ee. cbn [fst snd].
  case_bool_decide as Hd.
  - simplify_eq. cbn [negb orb Z.eqb Pos.eqb]. unfold writeFrame, mbind, HM_bind. rewrite !put_quiet by done.
    eexists. unfold h_log, h_tick. cbn [h_in h_rerr h_out h_clock h_piped h_closed]. by rewrite <- app_assoc.
  - replace (negb found || negb (v =? 1)) with true; [by eexists|].
    destruct found; [|done]. destruct (Z.eqb_spec v 1); [by subst|done].
Qed.

Lemma acksFor_app l1 l2 : acksFor (l1 ++ l2) = acksFor l1 ++ acksFor l2.
Proof. unfold acksFor. apply bind_app. Qed.

Section ResponseFacts.
Context (E : h2env) (Q : quietNet E) (hpackDecode : bytes -> list (string * string) * option gerror) (codeText : Z -> string).
Abbreviation loop := (responseLoop E hpackDecode codeText).

Lemma response_noise noise rest block fuel re out clk pp cl :
  Forall skipped noise -> (length (noise ++ rest) < fuel)%nat ->
  exists fuel' clk', (length rest < fuel')%nat
  /\ loop fuel 1 block (H2Conn (noise ++ rest) re out clk pp cl)
     = loop fuel' 1 block (H2Conn rest re (out ++ acksFor noise) clk' pp cl).
Proof.
  intros Hn. revert fuel out clk. induction Hn as [|f noise Hf Hn IH]; intros fuel out clk Hl.
  { exists fuel, clk. cbn [acksFor mbind list_bind app] in *. by rewrite app_nil_r. }
  destruct fuel as [|k]; [lia|]. cbn [app length responseLoop] in *. unfold hctx, mbind, HM_bind. rewrite (qn_ctx E Q).
  unfold readFrame, h_tick. cbn [h_in h_rerr h_out h_clock h_piped h_closed].
  assert (Hgo : forall l n, acksFor (f :: noise) = l ++ acksFor noise -> exists fuel' clk', (length rest < fuel')%nat
    /\ loop k 1 block (H2Conn (noise ++ rest) re (out ++ l) n pp cl)
       = loop fuel' 1 block (H2Conn rest re (out ++ acksFor (f :: noise)) clk' pp cl)).
  { intros l n El. destruct (IH k (out ++ l) n) as (fuel' & clk' & Hl' & E'); [lia|]. exists fuel', clk'.
    by rewrite El, app_assoc. }
  assert (Hid : forall n, acksFor (f :: noise) = acksFor noise -> exists fuel' clk', (length rest < fuel')%nat
    /\ loop k 1 block (H2Conn (noise ++ rest) re out n pp cl)
       = loop fuel' 1 block (H2Conn rest re (out ++ acksFor (f :: noise)) clk' pp cl)).
  { intros n Ea. destruct (Hgo [] n Ea) as (fuel' & clk' & H). exists fuel', clk'. by rewrite app_nil_r in H. }
  destruct f as [[|] ss|sid ? ?|sid ?|sid ? ?|sid ? ? ?|sid ?| |]; cbn [skipped] in Hf; try done;
    try (rewrite (proj2 (Z.eqb_neq sid 1)) by done; cbn [negb]); try (by apply Hid).
  unfold ignore, writeFrame, mbind, HM_bind. rewrite !put_quiet by done. unfold h_log, h_tick.
  cbn [h_in h_rerr h_out h_clock h_piped h_closed]. rewrite <- app_assoc. by apply Hgo.
Qed.

Lemma response_weave pieces first rest block fuel re out clk pp cl :
  pieces <> [] -> Forall (fun x => Forall skipped (fst x)) pieces -> (length (weave first pieces ++ rest) < fuel)%nat ->
  exists clk', loop fuel 1 block (H2Conn (weave first pieces ++ rest) re out clk pp cl)
  = decodeBlock hpackDecode (block ++ concat (snd <$> pieces))
      (H2Conn rest re (out ++ acksFor (weave first pieces)) clk' pp cl).
Proof.
  revert first block fuel out clk. induction pieces as [|[noise frag] pieces IH]; intros first block fuel out clk Hne Hs Hl; [done|].
  apply Forall_cons in Hs as [Hn Hs]. cbn [weave fst snd fmap list_fmap concat] in *. rewrite <- !app_assoc, <- !app_comm_cons in *.
  edestruct (response_noise noise _ block fuel re out clk pp cl Hn Hl) as (f1 & clk1 & Hl1 & ->).
  destruct f1 as [|k]; [lia|]. cbn [length] in Hl1. cbn [responseLoop]. unfold hctx, mbind, HM_bind. rewrite (qn_ctx E Q).
  unfold readFrame, h_tick. cbn [h_in h_rerr h_out h_clock h_piped h_closed].
  assert (Ha : acksFor (noise ++ fragment first frag (match pieces with [] => true | _ => false end) :: weave false pieces)
    = acksFor noise ++ acksFor (weave false pieces)) by (rewrite acksFor_app; by destruct first).
  rewrite Ha. destruct pieces as [|pc pieces].
  - exists (S clk1). cbn [fmap list_fmap concat weave app acksFor mbind list_bind]. rewrite !app_nil_r. by destruct first.
  - destruct (IH false (block ++ frag) k (out ++ acksFor noise) (S clk1)) as (clk' & E'); [done|done|lia|].
    exists clk'. rewrite <- !app_assoc in E'. rewrite <- E'. by destruct first.
Qed.
End ResponseFacts.

(** *** The dial *)

(** A call that does not close the connection. *)
Definition keepsOpen {A} (m : HM A) : Prop := forall c,
  h_closed (snd (m c)) = h_closed c /\ exists l, h_out (snd (m c)) = h_out c ++ l /\ OClose ∉ l.

Lemma keeps_id {A} (x : res A) : keepsOpen (fun c => (x, c)).
Proof. intros c. split; [done|]. exists []. simpl. rewrite app_nil_r. set_solver. Qed.
Lemma keeps_bind {A B} (m : HM A) (f : A -> HM B) : keepsOpen m -> (forall a, keepsOpen (f a)) -> keepsOpen (m ≫= f).
Proof.
  intros Hm Hf c. destruct (Hm c) as (C1 & l1 & O1 & N1). unfold mbind, HM_bind. destruct (m c) as [[a|e|w] c1]; cbn [snd] in *; [|by eauto..].
  destruct (Hf a c1) as (C2 & l2 & O2 & N2). split; [congruence|]. exists (l1 ++ l2). rewrite O2, O1, app_assoc. set_solver.
Qed.
Lemma keeps_put E a : a <> OClose -> keepsOpen (put E a).
Proof.
  intros Ha c. unfold put. destruct (e_write E (h_clock c)); split; try done; [exists []; simpl; rewrite app_nil_r|exists [a]]; set_solver.
Qed.
Lemma keeps_hctx E : keepsOpen (hctx E).
Proof. intros c. unfold hctx. destruct (e_ctx E (h_clock c)); split; try done; exists []; simpl; rewrite app_nil_r; set_solver. Qed.
Lemma keeps_readFrame : keepsOpen readFrame.
Proof. intros c. unfold readFrame. destruct (h_in c); split; try done; exists []; simpl; rewrite app_nil_r; set_solver. Qed.
Lemma keeps_ignore m : keepsOpen m -> keepsOpen (ignore m).
Proof. intros Hm c. destruct (Hm c) as (C & l & H). unfold ignore. destruct (m c) as [[|e|w] c']; eauto. Qed.
Lemma keeps_perFrame {A} (f : nat -> HM A) : (forall k, keepsOpen (f k)) -> keepsOpen (perFrame f).
Proof. intros Hf c. apply Hf. Qed.

#[local] Hint Resolve keeps_put keeps_hctx keeps_readFrame keeps_ignore keeps_perFrame : keeps.
#[local] Hint Extern 1 (keepsOpen (mret _)) => apply keeps_id : keeps.
#[local] Hint Extern 1 (keepsOpen (hfail _)) => apply keeps_id : keeps.
#[local] Hint Extern 1 (keepsOpen (hpanic _)) => apply keeps_id : keeps.
#[local] Hint Extern 1 (_ <> OClose) => discriminate : keeps.
#[local] Hint Extern 2 (keepsOpen (_ ≫= _)) => apply keeps_bind; [|intros ?] : keeps.
#[local] Hint Extern 2 (keepsOpen (writeFrame _ _)) => unfold writeFrame : keeps.

Lemma keeps_initLoop E k : keepsOpen (initLoop E k).
Proof.
  induction k as [|k IH]; cbn [initLoop]; [auto with keeps|]. apply keeps_bind; [auto with keeps|intros _].
  apply keeps_bind; [auto with keeps|]. intros [[|] ss| | | | | | |]; auto with keeps. case_match; auto 7 with keeps.
Qed.
Lemma keeps_init E : keepsOpen (init E).
Proof. unfold init. pose proof (keeps_initLoop E). auto 12 with keeps. Qed.

Lemma keeps_responseLoop E hd ct k sid block : keepsOpen (responseLoop E hd ct k sid block).
Proof.
  revert block. induction k as [|k IH]; intros block; cbn [responseLoop]; [auto with keeps|].
  apply keeps_bind; [auto with keeps|intros _]. apply keeps_bind; [auto with keeps|].
  assert (Hdec : forall b, keepsOpen (decodeBlock hd b)).
  { intros b. unfold decodeBlock. destruct (hd b) as [fs [e|]]; auto with keeps. }
  intros [[|] ss| | | | | | |]; repeat (case_match; auto with keeps). all: auto 8 with keeps.
Qed.

Lemma keeps_open E he hd ct u : keepsOpen (openWebSocketStream E he hd ct u).
Proof.
  unfold openWebSocketStream. apply keeps_bind; [apply keeps_id|intros keyRaw]. apply keeps_bind; [auto 6 with keeps|intros _].
  apply keeps_bind; [apply keeps_perFrame; intros k; apply keeps_responseLoop|]. intros [status hdrs].
  case_match; [apply keeps_id|]. case_match; apply keeps_id.
Qed.

(** A call that does not panic. *)
Definition total {A} (m : HM A) : Prop := forall c w c', m c <> (Panic w, c').
Lemma total_bind {A B} (m : HM A) (f : A -> HM B) : total m -> (forall a, total (f a)) -> total (m ≫= f).
Proof. intros Hm Hf c w c'. unfold mbind, HM_bind. specialize (Hm c). destruct (m c) as [[a|e|x] c1]; [apply Hf|done|by edestruct Hm]. Qed.
Lemma total_put E a : total (put E a).
Proof. intros c w c'. unfold put. by case_match. Qed.
Lemma total_writeFrame E m : total m -> total (writeFrame E m).
Proof. intros Hm. apply total_bind; [done|intros; apply total_put]. Qed.
Lemma total_ignore m : total m -> total (ignore m).
Proof. intros Hm c w c'. unfold ignore. specialize (Hm c). destruct (m c) as [[a|e|x] c1]; [done|done|by edestruct Hm]. Qed.

(** A loop that takes a frame in every round ends before its fuel. *)
Lemma total_round {A} E (f : h2frame -> HM A) c w c' :
  (forall x fs re out clk pp cl, h_in c = x :: fs -> f x (H2Conn fs re out clk pp cl) <> (Panic w, c')) ->
  (_ ← hctx E; x ← readFrame; f x) c <> (Panic w, c').
Proof.
  intros Hf. unfold hctx, readFrame, mbind, HM_bind. destruct (e_ctx E (h_clock c)); [done|]. cbn [h_in h_tick].
  destruct (h_in c) eqn:Ei; [done|]. by apply Hf.
Qed.

Lemma total_init E : total (init E).
Proof.
  unfold init. do 2 (apply total_bind; [apply total_put|intros _]).
  apply total_bind; [apply total_writeFrame, total_put|intros _]. intros c w c'. unfold perFrame.
  generalize (Nat.lt_succ_diag_r (length (h_in c))). generalize (S (length (h_in c))). intros n. revert c.
  induction n as [|k IH]; intros c Hl; [lia|]. cbn [initLoop]. apply total_round. intros x fs re out clk pp cl Ei. rewrite Ei in Hl. cbn [length] in Hl.
  destruct x as [[|] ss| | | | | | |]; try (apply IH; cbn [h_in]; lia). case_match; [done|]. apply total_writeFrame, total_put.
Qed.

Lemma total_response E hd ct sid : total (readResponseHeaders E hd ct sid).
Proof.
  intros c w c'. unfold readResponseHeaders, perFrame. generalize (@nil byte) as block.
  generalize (Nat.lt_succ_diag_r (length (h_in c))). generalize (S (length (h_in c))). intros n. revert c.
  induction n as [|k IH]; intros c Hl block; [lia|]. cbn [responseLoop]. apply total_round. intros x fs re out clk pp cl Ei.
  rewrite Ei in Hl. cbn [length] in Hl.
  assert (Hgo : forall b n' o, responseLoop E hd ct k sid b (H2Conn fs re o n' pp cl) <> (Panic w, c')) by (intros; apply IH; cbn [h_in]; lia).
  assert (Hdec : forall b c0, decodeBlock hd b c0 <> (Panic w, c')). { intros b c0. unfold decodeBlock. by destruct (hd b) as [? [|]]. }
  destruct x as [ack ss| | | | | | |]; try (by repeat case_match).
  unfold mbind at 1. unfold HM_bind at 1. destruct ack; [apply Hgo|]. unfold ignore, writeFrame, put, mbind, HM_bind, h_log, h_tick.
  cbn [h_clock]. repeat (case_match; simplify_eq; try apply Hgo).
Qed.

Lemma total_open E he hd ct u : total (openWebSocketStream E he hd ct u).
Proof.
  unfold openWebSocketStream. apply total_bind; [intros c w c'; by case_match|intros keyRaw].
  apply total_bind; [apply total_writeFrame, total_put|intros _]. apply total_bind; [apply total_response|intros [status hdrs]].
  intros c w c'. by repeat case_match.
Qed.

(** What a successful call has written. *)
Lemma put_Ok E a c c' : put E a c = (Ok tt, c') -> c' = h_log [a] (h_tick c).
Proof. unfold put. case_match; intros; by simplify_eq. Qed.
Lemma writeFrame_Ok E a c c' : writeFrame E (put E a) c = (Ok tt, c') -> h_in c' = h_in c /\ h_out c' = h_out c ++ [a; OFlush].
Proof.
  intros ([] & c1 & ->%put_Ok & ->%put_Ok)%HM_bind_inv. split; [done|]. cbn. by rewrite <- app_assoc.
Qed.

Definition hello : list h2out := [OPreface; OFlush; OSettings [(settingEnableConnectProtocol, 1)]; OFlush].

Lemma initLoop_Ok E k c c' :
  initLoop E k c = (Ok tt, c') ->
  h_out c' = h_out c ++ [OSettingsAck; OFlush]
  /\ exists ss, firstSettings (h_in c) = Some (ss, h_in c') /\ enableSetting ss = (1, true).
Proof.
  revert c. induction k as [|k IH]; intros c; [done|]. cbn [initLoop]. unfold hctx, readFrame, mbind, HM_bind.
  destruct (e_ctx E (h_clock c)); [done|]. cbn [h_in h_tick]. destruct (h_in c) as [|f fs]; [done|].
  cbn [h_rerr h_out h_clock h_piped h_closed h_tick].
  destruct f as [[|] ss| | | | | | |]; try (intros H; by apply IH in H). cbv zeta. destruct (enableSetting ss) as [v found] eqn:Ee.
  cbn [fst snd]. case_match eqn:Ec; [done|]. intros [I O]%writeFrame_Ok. cbn [h_in h_out] in *. split; [done|].
  exists ss. rewrite I. split; [done|]. destruct found; [|done]. cbn [negb orb] in Ec. apply negb_false_iff, Z.eqb_eq in Ec. by subst.
Qed.

Lemma init_Ok E c c' :
  init E c = (Ok tt, c') ->
  h_out c' = h_out c ++ hello ++ [OSettingsAck; OFlush]
  /\ exists ss, firstSettings (h_in c) = Some (ss, h_in c') /\ enableSetting ss = (1, true).
Proof.
  intros ([] & c1 & ->%put_Ok & ([] & c2 & ->%put_Ok & ([] & c3 & [I3 O3]%writeFrame_Ok & H)%HM_bind_inv)%HM_bind_inv)%HM_bind_inv.
  apply initLoop_Ok in H as (O & H). rewrite I3 in H. split; [|exact H]. rewrite O, O3. cbn. by rewrite <- !app_assoc.
Qed.

Definition ackOrFlush (o : h2out) : Prop := o = OSettingsAck \/ o = OFlush.

Lemma ack_log E c : exists l c', ignore (writeFrame E (put E OSettingsAck)) c = (Ok tt, c')
  /\ h_in c' = h_in c /\ h_out c' = h_out c ++ l /\ Forall ackOrFlush l.
Proof.
  unfold ignore, writeFrame, put, mbind, HM_bind, ackOrFlush. destruct (e_write E (h_clock c)).
  { exists [], (h_tick c). by rewrite app_nil_r. }
  cbn [h_clock h_log h_tick]. destruct (e_write E (S (h_clock c))).
  - exists [OSettingsAck]. eexists. split; [reflexivity|]. split; [done|]. split; [done|]. constructor; auto.
  - exists [OSettingsAck; OFlush]. eexists. split; [reflexivity|]. split; [done|]. split; [cbn; by rewrite <- app_assoc|]. constructor; [auto|]. constructor; auto.
Qed.

Lemma response_log E hd ct k sid block c :
  exists l, h_out (snd (responseLoop E hd ct k sid block c)) = h_out c ++ l /\ Forall ackOrFlush l.
Proof.
  revert block c. induction k as [|k IH]; intros block c; [exists []; by rewrite app_nil_r|]. cbn [responseLoop].
  unfold hctx, mbind at 1, HM_bind at 1. destruct (e_ctx E (h_clock c)); [exists []; by rewrite app_nil_r|].
  unfold readFrame, mbind at 1, HM_bind at 1. destruct (h_in (h_tick c)) as [|f fs]; [exists []; by rewrite app_nil_r|].
  cbn [h_rerr h_out h_clock h_piped h_closed h_tick].
  assert (Hgo : forall b n, exists l, h_out (snd (responseLoop E hd ct k sid b (H2Conn fs (h_rerr c) (h_out c) n (h_piped c) (h_closed c))))
    = h_out c ++ l /\ Forall ackOrFlush l)
    by (intros b n; exact (IH b (H2Conn fs (h_rerr c) (h_out c) n (h_piped c) (h_closed c)))).
  assert (Hstop : exists l, h_out c = h_out c ++ l /\ Forall ackOrFlush l) by (exists []; by rewrite app_nil_r).
  assert (Hdec : forall b n, exists l, h_out (snd (decodeBlock hd b (H2Conn fs (h_rerr c) (h_out c) n (h_piped c) (h_closed c)))) = h_out c ++ l
    /\ Forall ackOrFlush l). { intros b n. unfold decodeBlock. by destruct (hd b) as [? [|]]. }
  destruct f as [ack ss| | | | | | |]; try (by repeat case_match).
  unfold mbind, HM_bind. destruct ack; [apply Hgo|].
  destruct (ack_log E (H2Conn fs (h_rerr c) (h_out c) (S (h_clock c)) (h_piped c) (h_closed c))) as (l & c' & E1 & _ & O1 & F1).
  rewrite E1. destruct (IH block c') as (l2 & O2 & F2). exists (l ++ l2). rewrite O2, O1. cbn [h_out]. rewrite app_assoc. split; [done|].
  by apply Forall_app.
Qed.

Lemma open_Ok E he hd ct u c c' :
  openWebSocketStream E he hd ct u c = (Ok tt, c') ->
  exists keyRaw c1 hdrs l, e_rand E = inr keyRaw
  /\ h_in c1 = h_in c /\ readResponseHeaders E hd ct 1 c1 = (Ok ("200"%string, hdrs), c')
  /\ (forall v, hdrs !! "sec-websocket-accept"%string = Some v -> v = ""%string \/ v = b2str (computeAccept (b64Encode keyRaw)))
  /\ h_out c' = h_out c ++ [OHeaders 1 (he (connectFields u (b64Encode keyRaw))) true false; OFlush] ++ l /\ Forall ackOrFlush l.
Proof.
  unfold openWebSocketStream. intros (keyRaw & c0 & E0 & H)%HM_bind_inv. apply HM_bind_inv in H as ([] & c1 & [I1 O1]%writeFrame_Ok & H).
  apply HM_bind_inv in H as ([status hdrs] & c2 & E2 & H).
  assert (e_rand E = inr keyRaw /\ c0 = c) as [Er ->] by (destruct (e_rand E); by simplify_eq).
  case_bool_decide as Hs; cbn [negb] in H; [|done]. subst status. case_match eqn:Eg; [done|].
  injection H as ->. destruct (response_log E hd ct (S (length (h_in c1))) 1 [] c1) as (l & O2 & F).
  exists keyRaw, c1, hdrs, l. split; [done|]. split; [done|]. split; [done|]. split.
  - intros v Hv. rewrite Hv in Eg. cbn in Eg. apply andb_false_iff in Eg as [Hg|Hg]; case_bool_decide; auto; done.
  - unfold readResponseHeaders, perFrame in E2. rewrite E2 in O2. cbn [snd] in O2. rewrite O2, O1, <- app_assoc. done.
Qed.

(** The read loop in a quiet world. *)
Lemma readLoop_quiet (E : h2env) (c : rawH2Conn) (Q : quietNet E) (Hok : Forall frameOk (h_in c)) :
  exists l c', readLoop E c = (Ok (if existsb endsStream (h_in c) then io_EOF else h_rerr c), c')
  /\ h_piped c' = h_piped c ++ delivered (h_in c) /\ h_out c' = h_out c ++ l
  /\ credit 0 l = zlen (delivered (h_in c)) /\ credit 1 l = zlen (delivered (h_in c)).
Proof.
  destruct (pump_quiet E (S (length (h_in c))) 0 c Q) as (l & p & c1 & E1 & Hp & P1 & O1 & C1); [lia|done|done|].
  destruct (flush_quiet E true p c1 Q Hp) as (l2 & c2 & E2 & (_ & _ & P2) & O2 & C2). cbv zeta in C2.
  exists (l ++ l2), c2. unfold readLoop. erewrite HM_bind_Ok by exact E1. cbv beta iota. erewrite HM_bind_Ok by exact E2.
  split; [unfold endOf; by destruct (existsb _ _)|]. rewrite P2, P1, O2, O1, app_assoc. do 2 (split; [done|]).
  rewrite !credit_app. pose proof (C1 0 (or_introl eq_refl)). pose proof (C2 0 (or_introl eq_refl)).
  pose proof (C1 1 (or_intror eq_refl)). pose proof (C2 1 (or_intror eq_refl)). lia.
Qed.

(** ** Properties *)

(** C30: the read loop never gives credit back while a download runs: it waits for
    [rawH2WindowUpdateBatch] (65536) bytes, one more than the initial window, so a
    server that keeps to flow control sends at most 65535 bytes on the stream and
    never sees a WINDOW_UPDATE, however many frames it cuts them into. *)
Theorem raw_h2_download_stalls (E : h2env) (fs : list h2frame)
    (Hok : Forall frameOk fs) (Hend : Forall (fun f => endsStream f = false) fs) (Hlegal : obeysFlowControl E fs) :
  wireBytes fs <= initialWindow /\ logAfter E fs = [].
Proof.
  assert (H : wireBytes fs <= initialWindow).
  { induction fs as [|f fs IH] using rev_ind; [done|]. apply Forall_app in Hok as [Hok Hf]. apply Forall_app in Hend as [Hend _].
    specialize (Hlegal fs f [] eq_refl) as Hlast. rewrite logAfter_silent in Hlast; [exact Hlast|done|done|].
    enough (wireBytes fs <= initialWindow) by (unfold rawH2WindowUpdateBatch, initialWindow in *; lia).
    apply IH; [done|done|]. intros pre g post ->. apply (Hlegal pre g (post ++ [f])). by rewrite <- app_assoc. }
  split; [done|]. apply logAfter_silent; [done|done|]. unfold rawH2WindowUpdateBatch, initialWindow in *. lia.
Qed.

(** In a quiet world the read loop ends, the reader gets the data of stream 1 in
    order up to the frame that ends it, then EOF, or the error of the connection, and
    the credit given on the connection and on the stream is the number of data bytes. *)
Theorem raw_h2_read_loop (E : h2env) (c : rawH2Conn) (Q : quietNet E) (Hok : Forall frameOk (h_in c)) :
  exists l c', readLoop E c = (Ok (if existsb endsStream (h_in c) then io_EOF else h_rerr c), c')
  /\ h_piped c' = h_piped c ++ delivered (h_in c) /\ h_out c' = h_out c ++ l
  /\ credit 0 l = zlen (delivered (h_in c)) /\ credit 1 l = zlen (delivered (h_in c)).
Proof. by apply readLoop_quiet. Qed.

(** [Write] sends the bytes it reports, in order, in non-empty DATA frames of at
    most 16384 bytes on stream 1, whatever fails; it reports all of them and no error
    only after a flush, and any error is one of a write or of the flush. *)
Theorem raw_h2_write_chunks (E : h2env) (p : bytes) (c : rawH2Conn) :
  exists n err c' chunks, streamWrite E p c = (n, err, c') /\ 0 <= n <= zlen p
  /\ h_out c' = h_out c ++ (OData 1 false <$> chunks) ++ (match err with None => [OFlush] | Some _ => [] end)
  /\ concat chunks = take (Z.to_nat n) p
  /\ Forall (fun ch => 0 < zlen ch <= rawH2MaxDataFrameChunk) chunks
  /\ match err with None => n = zlen p | Some e => exists k, e_write E k = Some e end.
Proof.
  pose proof (zlen_nonneg p). unfold streamWrite.
  destruct (writeLoop_spec E (length p) p 0 c) as (n & err & c1 & chs & E1 & B & O & _ & Cc & F & X); [lia|unfold zlen; lia|].
  assert (Cc' : concat chs = take (Z.to_nat n) p) by (rewrite Cc; unfold slice; by rewrite Z.sub_0_r).
  rewrite E1. destruct err as [e|].
  { exists n, (Some e), c1, chs. rewrite app_nil_r. done. }
  subst n. unfold put. destruct (e_write E (h_clock c1)) as [e|] eqn:Ew.
  - exists (zlen p), (Some e), (h_tick c1), chs. rewrite app_nil_r. do 5 (split; [done|]). by eexists.
  - exists (zlen p), None, (h_log [OFlush] (h_tick c1)), chs. split; [done|]. split; [lia|]. split; [cbn; by rewrite O, <- app_assoc|done].
Qed.

(** The connection is initialised exactly when the first SETTINGS frame of the
    server enables extended CONNECT with the last of its values; it is acknowledged
    then, and refused otherwise; frames before it are skipped. *)
Theorem raw_h2_init_exact (E : h2env) (c : rawH2Conn) (Q : quietNet E) :
  exists k, init E c =
    match firstSettings (h_in c) with
    | None => (Err (h_rerr c), H2Conn [] (h_rerr c) (h_out c ++ hello) k (h_piped c) (h_closed c))
    | Some (ss, rest) =>
        if bool_decide (enableSetting ss = (1, true))
        then (Ok tt, H2Conn rest (h_rerr c) (h_out c ++ hello ++ [OSettingsAck; OFlush]) k (h_piped c) (h_closed c))
        else (Err (errNotEnabled (enableSetting ss)), H2Conn rest (h_rerr c) (h_out c ++ hello) k (h_piped c) (h_closed c))
    end.
Proof.
  unfold init, writeFrame, mbind, HM_bind. rewrite !put_quiet by done. unfold perFrame.
  edestruct (initLoop_quiet E (S (length (h_in c)))) as [k Ek]; [done|shelve|]. exists k.
  cbn [h_in h_log h_tick] in *. rewrite Ek. cbn [h_in h_log h_tick h_out h_rerr h_piped h_closed]. rewrite <- !app_assoc. done.
  Unshelve. cbn. lia.
Qed.

(** A response header block is put together from its HEADERS frame and its
    CONTINUATION frames, whatever other frames come between them, and decoded once;
    every SETTINGS frame among them is acknowledged. *)
Theorem raw_h2_response_reassembled (E : h2env) (hpackDecode : bytes -> list (string * string) * option gerror)
    (codeText : Z -> string) (pieces : list (list h2frame * bytes)) (rest : list h2frame) (rerr : gerror) (out : list h2out)
    (Q : quietNet E) (Hne : pieces <> []) (Hs : Forall (fun x => Forall skipped (fst x)) pieces) :
  exists k, readResponseHeaders E hpackDecode codeText 1 (H2Conn (weave true pieces ++ rest) rerr out 0 [] false)
  = (match hpackDecode (concat (snd <$> pieces)) with
     | (fields, None) => Ok (collectFields fields)
     | (_, Some e) => Err e
     end, H2Conn rest rerr (out ++ acksFor (weave true pieces)) k [] false).
Proof.
  edestruct (response_weave E Q hpackDecode codeText pieces true rest []) as (k & Ek); [done|done|apply Nat.lt_succ_diag_r|].
  exists k. unfold readResponseHeaders, perFrame. rewrite Ek. unfold decodeBlock. cbn [app].
  by destruct (hpackDecode (concat (snd <$> pieces))) as [fields [e|]].
Qed.

(** C29: the dial never panics. It succeeds only after the server enabled extended
    CONNECT and answered 200 to the request, with an accept value, if it sends one,
    that fits the key; the connection is then open, and the request was sent after
    the SETTINGS were exchanged. A dial that fails has opened nothing or has closed
    the connection, once and last. *)
Theorem raw_h2_dial_sound (E : h2env) (hpackEncode : list (string * string) -> bytes)
    (hpackDecode : bytes -> list (string * string) * option gerror) (codeText : Z -> string)
    (u : URL) (conf : option tlsConfig) (fs : list h2frame) (rerr : gerror) :
  let '(r, c) := dialRFC8441RawH2 E hpackEncode hpackDecode codeText u conf (newRawH2Conn fs rerr) in
  match r with
  | Panic _ => False
  | Err _ => h_out c = [] \/ exists l, h_out c = ODial (rawHost u) :: l ++ [OClose] /\ OClose ∉ l
  | Ok _ => exists ss rest keyRaw c1 hdrs tls l,
      firstSettings fs = Some (ss, rest) /\ enableSetting ss = (1, true) /\ e_rand E = inr keyRaw
      /\ h_in c1 = rest /\ readResponseHeaders E hpackDecode codeText 1 c1 = (Ok ("200"%string, hdrs), c)
      /\ (forall v, hdrs !! "sec-websocket-accept"%string = Some v ->
            v = ""%string \/ v = b2str (computeAccept (b64Encode keyRaw)))
      /\ h_closed c = false
      /\ h_out c = [ODial (rawHost u); tls] ++ hello ++ [OSettingsAck; OFlush]
                  ++ [OHeaders 1 (hpackEncode (connectFields u (b64Encode keyRaw))) true false; OFlush] ++ l
      /\ Forall ackOrFlush l
  end.
Proof.
  unfold dialRFC8441RawH2. destruct (negb _); [by left|]. destruct (e_tcp E); [by left|]. cbv zeta.
  set (tls := OTls _ _). set (c0 := h_log [ODial (rawHost u); tls] (newRawH2Conn fs rerr)).
  destruct (e_tls E); [by right; exists [tls]; set_solver|]. destruct (negb _); [by right; exists [tls]; set_solver|].
  pose proof (total_init E c0) as T1. destruct (keeps_init E c0) as (K1 & l1 & O1 & N1). pose proof (init_Ok E c0) as S1.
  destruct (init E c0) as [[[]|e|w] c1]; [| |by edestruct T1]; cbn [snd] in *.
  2:{ right. exists (tls :: l1). unfold connClose. rewrite K1. cbn. rewrite O1. by split; [|apply not_elem_of_cons]. }
  pose proof (total_open E hpackEncode hpackDecode codeText u c1) as T2.
  destruct (keeps_open E hpackEncode hpackDecode codeText u c1) as (K2 & l2 & O2 & N2).
  pose proof (open_Ok E hpackEncode hpackDecode codeText u c1) as S2.
  destruct (openWebSocketStream E hpackEncode hpackDecode codeText u c1) as [[[]|e|w] c2]; [| |by edestruct T2]; cbn [snd] in *.
  2:{ right. exists (tls :: l1 ++ l2). unfold connClose. rewrite K2, K1. cbn. rewrite O2, O1, <- !app_assoc.
    by split; [|apply not_elem_of_cons; split; [|apply not_elem_of_app]]. }
  destruct (S1 c1 eq_refl) as (Oi & ss & Hss & He).
  destruct (S2 c2 eq_refl) as (keyRaw & cr & hdrs & l & Er & Hin & Hresp & Hacc & Ho & Hl).
  exists ss, (h_in c1), keyRaw, cr, hdrs, tls, l. do 6 (split; [done|]). split; [by rewrite K2, K1|]. split; [|done].
  rewrite Ho, Oi. cbn. done.
Qed.

(** The dial over net/http is refused for [http] and [https] URLs although the caller
    lets them through; otherwise a failure of its own closes the writer of the pipe,
    and its only own errors are those of the scheme and of the status. *)
Lemma h2_dial_errors {C} (u : URL) (canSet : bool) (newReq : option gerror) (doReq : gerror + Z * string) (raw : res C) (mk : C) e acts :
  dialRFC8441 u canSet newReq doReq raw mk = (Err e, acts) ->
  (Scheme u <> str2b "wss" /\ Scheme u <> str2b "ws" /\ acts = [])
  \/ (PipeWriterClose ∈ acts /\ (newReq = Some e \/ doReq = inl e \/ raw = Err e \/ exists t, e = errMsg t)).
Proof.
  unfold dialRFC8441. destruct (negb _) eqn:Es.
  { intros ?. left. apply negb_true_iff, orb_false_iff in Es as [H1%bool_decide_eq_false H2%bool_decide_eq_false]. split; [done|]. split; [done|congruence]. }
  destruct newReq; [intros; simplify_eq; right; set_solver|]. destruct canSet; [|intros; simplify_eq/=; right; set_solver].
  destruct doReq as [e'|[code st]]; cbn [negb]; [intros; simplify_eq; right; set_solver|].
  case_match; intros; simplify_eq. right. split; [set_solver|]. eauto 6.
Qed.

(** ** Witnesses *)

Definition quietDemo : h2env := {|
  e_ctx := fun _ => None; e_write := fun _ => None; e_closed := fun _ => false; e_pipe := fun _ => true;
  e_tcp := None; e_tls := None; e_alpn := str2b "h2"; e_rand := inr (replicate 16 Byte.x07) |}.
Lemma quietDemo_ok : quietNet quietDemo.
Proof. by constructor. Qed.

(** The accept value of the example of RFC 6455. *)
Example computeAccept_rfc : computeAccept (str2b "dGhlIHNhbXBsZSBub25jZQ==") = str2b "s3pPLMBiTxaQ9kYGzzhZRbK+xOo=".
Proof. vm_compute. reflexivity. Qed.

Lemma obeys_small E fs :
  Forall frameOk fs -> Forall (fun f => endsStream f = false) fs -> wireBytes fs <= initialWindow -> obeysFlowControl E fs.
Proof.
  intros Hok He Hw pre f post ->. apply Forall_app in Hok as [Hok Hok2]. apply Forall_app in He as [He _].
  change (f :: post) with ([f] ++ post) in Hw. rewrite app_assoc, wireBytes_app in Hw.
  apply Forall_cons in Hok2 as [Hf Hok2]. pose proof (wireBytes_nonneg post Hok2). pose proof (wireLen_nonneg f Hf).
  rewrite logAfter_silent; [cbn [credit fold_right]; lia|done|done|]. rewrite wireBytes_app in Hw. cbn [wireBytes fold_right] in Hw.
  fold (wireBytes pre) in Hw. fold (wireBytes post) in *. unfold rawH2WindowUpdateBatch, initialWindow in *. lia.
Qed.

(** A server that has filled the window. *)
Definition fullWindow : list h2frame := replicate 5 (DataFrame 1 (replicate 13107 Byte.x00) 0 false).

Lemma raw_h2_download_stalls_witness : wireBytes fullWindow <= initialWindow /\ logAfter quietDemo fullWindow = [].
Proof.
  assert (Hok : Forall frameOk fullWindow) by (repeat constructor; vm_compute; (reflexivity || discriminate)).
  assert (He : Forall (fun f => endsStream f = false) fullWindow) by (repeat constructor).
  exact (raw_h2_download_stalls quietDemo fullWindow Hok He (obeys_small quietDemo fullWindow Hok He ltac:(vm_compute; discriminate))).
Defined.

Lemma raw_h2_read_loop_witness :
  exists l c', readLoop quietDemo (newRawH2Conn [SettingsFrame false []; DataFrame 1 (str2b "ab") 3 false; DataFrame 3 (str2b "x") 0 false;
      DataFrame 1 (str2b "c") 0 true; DataFrame 1 (str2b "lost") 0 false] io_ErrUnexpectedEOF) = (Ok io_EOF, c')
  /\ h_piped c' = str2b "abc" /\ h_out c' = l /\ credit 1 l = 3.
Proof.
  destruct (raw_h2_read_loop quietDemo (newRawH2Conn [SettingsFrame false []; DataFrame 1 (str2b "ab") 3 false; DataFrame 3 (str2b "x") 0 false;
      DataFrame 1 (str2b "c") 0 true; DataFrame 1 (str2b "lost") 0 false] io_ErrUnexpectedEOF) quietDemo_ok) as (l & c' & E1 & P1 & O1 & _ & C1).
  - repeat constructor; vm_compute; (reflexivity || discriminate).
  - exists l, c'. split; [exact E1|]. split; [exact P1|]. split; [exact O1|exact C1].
Defined.

Lemma raw_h2_init_exact_witness :
  fst (init quietDemo (newRawH2Conn [OtherFrame; SettingsFrame true []; SettingsFrame false [(0x3, 100); (0x8, 1)]] io_EOF)) = Ok tt.
Proof.
  destruct (raw_h2_init_exact quietDemo (newRawH2Conn [OtherFrame; SettingsFrame true []; SettingsFrame false [(0x3, 100); (0x8, 1)]] io_EOF)
    quietDemo_ok) as [k E1]. rewrite E1. vm_compute. reflexivity.
Defined.

Lemma raw_h2_response_reassembled_witness :
  exists k, readResponseHeaders quietDemo (fun b => ([(":Status", b2str b)], None)) (fun _ => ""%string) 1
    (H2Conn (weave true [([SettingsFrame false []], str2b "2"); ([], str2b "00")] ++ [GoAwayFrame]) io_EOF [] 0 [] false)
  = (Ok ("200"%string, ∅), H2Conn [GoAwayFrame] io_EOF [OSettingsAck; OFlush] k [] false).
Proof.
  apply (raw_h2_response_reassembled quietDemo (fun b => ([(":Status"%string, b2str b)], None)) (fun _ => ""%string)
    [([SettingsFrame false []], str2b "2"); ([], str2b "00")] [GoAwayFrame] io_EOF [] quietDemo_ok).
  - discriminate.
  - repeat constructor.
Defined.
