(* ===== verification/Standby.v ===== *)
(** * Warm standby connections

    src/internal/warm_standby.go: the liveness check of an idle connection, taking
    a warm connection or dialling a fresh one, keeping the standby slots filled and
    probed, with the dial limit of src/internal/lb.go; then the interleavings of
    these operations as a step relation on connections with identities. *)

From stdpp Require Import pretty relations.
From S2P Require Import Prelude GoNum GoNet Config Metrics HealthCheck LoadBalancer WSFrame WSConn Transport.

(** ** Slots *)

Section Slots.
Context {C : Type}.
Implicit Types (lb : LoadBalancer C) (s : UpstreamState C).

Definition slot (isTCP : bool) s : option C := if isTCP then standbyTCP s else standbyUDP s.
Definition setSlot (isTCP : bool) (c : option C) s : UpstreamState C :=
  if isTCP then {| cfg := cfg s; tcp := tcp s; udp := udp s; tcpCooldownUntil := tcpCooldownUntil s;
                   udpCooldownUntil := udpCooldownUntil s; standbyTCP := c; standbyUDP := standbyUDP s |}
  else {| cfg := cfg s; tcp := tcp s; udp := udp s; tcpCooldownUntil := tcpCooldownUntil s;
          udpCooldownUntil := udpCooldownUntil s; standbyTCP := standbyTCP s; standbyUDP := c |}.

(** The critical section that empties a slot: [c := up.standby; up.standby = nil]. *)
Definition takeStandby (isTCP : bool) (i : nat) lb : option C * LoadBalancer C :=
  (pool lb !! i ≫= slot isTCP, setPool lb (alter (setSlot isTCP None) i (pool lb))).

(** The critical section that fills a slot unless another goroutine did: the
    connection to close, if any. *)
Definition putStandby (isTCP : bool) (i : nat) (c : C) lb : option C * LoadBalancer C :=
  match pool lb !! i ≫= slot isTCP with
  | Some _ => (Some c, lb)
  | None => (None, setPool lb (alter (setSlot isTCP (Some c)) i (pool lb)))
  end.

(** [up.<proto>.healthy && time.Now().After(up.<proto>CooldownUntil)]. *)
Definition endpointOK (isTCP : bool) (now : Z) (i : nat) lb : bool :=
  match pool lb !! i with
  | Some s => healthy (endpoint isTCP s) && After now (cooldown isTCP s)
  | None => false
  end.
Definition wssURL (isTCP : bool) (i : nat) lb : bytes :=
  match pool lb !! i with
  | Some s => if isTCP then TCPWSS (cfg s) else UDPWSS (cfg s)
  | None => []
  end.
End Slots.

(** ** Operations, one at a time *)

Section Ops.
Context {C W : Type} `{!WSConn C} `{!Dialers C W}.
Implicit Types (lb : LoadBalancer C) (w : W).

(** The loop of [wsAliveCheck]; [None] means that [fuel] messages did not decide it. *)
Fixpoint aliveLoop (fuel : nat) (payload : bytes) (c : C) : res (option bool) * C :=
  match fuel with
  | O => (Ok None, c)
  | S k =>
      match ws_read c with
      | (Err _, c) => (Ok (Some false), c)
      | (Panic p, c) => (Panic p, c)
      | (Ok (typ, data), c) =>
          if typ =? WSMessagePong then (Ok (Some ((zlen data =? 0) || bool_decide (data = payload))), c)
          else if typ =? WSMessagePing then
            match ws_write WSMessagePong data c with
            | (Panic p, c) => (Panic p, c)
            | (_, c) => aliveLoop k payload c
            end
          else if typ =? WSMessageClose then (Ok (Some false), c)
          else aliveLoop k payload c
      end
  end.

(** [wsAliveCheck(ctx, c)] at clock reading [nanos] ([time.Now().UnixNano()]). *)
Definition wsAliveCheck (fuel : nat) (nanos : Z) (c : C) : res (option bool) * C :=
  let payload := str2b ("ws-keepalive-" +:+ pretty nanos) in
  match ws_write WSMessagePing payload c with
  | (Err _, c) => (Ok (Some false), c)
  | (Panic p, c) => (Panic p, c)
  | (Ok _, c) => aliveLoop fuel payload c
  end.

(** [acquireDialSlot] without its wait, and [releaseDialSlot]. *)
Definition acquireDialSlot lb : option (LoadBalancer C) :=
  if dialSem lb <? dialLimit then Some (setSems lb (dialSem lb + 1) (probeSem lb) (probeDialSem lb)) else None.
Definition releaseDialSlot lb : LoadBalancer C := setSems lb (Z.max 0 (dialSem lb - 1)) (probeSem lb) (probeDialSem lb).

(** [DialWSStreamLimited(ctx, url)]: [ctxErr] is what [ctx.Err()] gives when no
    slot frees up. The slot is held during the dial and released after it. *)
Definition DialWSStreamLimited (ctxErr : gerror) (url : bytes) lb w : res C * LoadBalancer C * W * list mev :=
  match acquireDialSlot lb with
  | Some lb => let '(r, w, evs) := DialWSStream url w in (r, releaseDialSlot lb, w, evs)
  | None => (Err ctxErr, lb, w, [])
  end.

(** A close whose error is dropped, with the connection that was closed. *)
Definition closed (c : C) (reason : string) : res unit * list C :=
  match ws_close WSStatusNormalClosure reason c with
  | (Panic p, c) => (Panic p, [c])
  | (_, c) => (Ok tt, [c])
  end.

(** [AcquireUDPWS(ctx, up)]. *)
Definition AcquireUDPWS (ctxErr : gerror) (i : nat) lb w : res C * LoadBalancer C * W * list mev :=
  match takeStandby false i lb with
  | (Some c, lb) => (Ok c, lb, w, [])
  | (None, lb) => DialWSStreamLimited ctxErr (wssURL false i lb) lb w
  end.

(** [acquireTCPWS(ctx, up, flowID)]: also the connections it closed. An undecided
    alive check ends when its context expires, which fails the read. *)
Definition acquireTCPWS (fuel : nat) (nanos : Z) (ctxErr : gerror) (i : nat) lb w
  : res C * LoadBalancer C * W * list mev * list C :=
  match takeStandby true i lb with
  | (Some c, lb) =>
      match wsAliveCheck fuel nanos c with
      | (Panic p, c) => (Panic p, lb, w, [], [])
      | (Ok (Some true), c) => (Ok c, lb, w, [], [])
      | (_, c) =>
          match closed c "stale-standby" with
          | (Panic p, cs) => (Panic p, lb, w, [], cs)
          | (_, cs) => (DialWSStreamLimited ctxErr (wssURL true i lb) lb w, cs)
          end
      end
  | (None, lb) => (DialWSStreamLimited ctxErr (wssURL true i lb) lb w, [])
  end.

(** [EnsureStandbyTCP(ctx, up)] and [EnsureStandbyUDP(ctx, up)] at time [now]. *)
Definition EnsureStandby (isTCP : bool) (now : Z) (i : nat) lb w : LoadBalancer C * W * list mev * list C :=
  if negb (endpointOK isTCP now i lb) then
    match takeStandby isTCP i lb with
    | (Some c, lb) => (lb, w, [], snd (closed c "standby-reset"))
    | (None, _) => (lb, w, [], [])
    end
  else if bool_decide (is_Some (pool lb !! i ≫= slot isTCP)) then (lb, w, [], [])
  else
    match DialWSStream (wssURL isTCP i lb) w with
    | (Ok c, w, evs) =>
        match putStandby isTCP i c lb with
        | (Some c, lb) => (lb, w, evs, snd (closed c "duplicate-standby"))
        | (None, lb) => (lb, w, evs, [])
        end
    | (_, w, evs) => (lb, w, evs, [])
    end.
Definition EnsureStandbyTCP := EnsureStandby true.
Definition EnsureStandbyUDP := EnsureStandby false.

(** [keepaliveOneStandby(ctx, up, proto)]. *)
Definition keepaliveOneStandby (fuel : nat) (nanos : Z) (isTCP : bool) (i : nat) lb : LoadBalancer C * list C :=
  match takeStandby isTCP i lb with
  | (None, _) => (lb, [])
  | (Some c, lb) =>
      match wsAliveCheck fuel nanos c with
      | (Ok (Some true), c) =>
          match putStandby isTCP i c lb with
          | (None, lb) => (lb, [])
          | (Some c, lb) => (lb, snd (closed c "duplicate-standby"))
          end
      | (_, c) => (lb, snd (closed c "standby-keepalive-failed"))
      end
  end.

(** [checkStandbyKeepalive(ctx)]. *)
Definition checkStandbyKeepalive (fuel : nat) (nanos : Z) lb : LoadBalancer C * list C :=
  fold_left (fun '(lb, cs) i =>
    let '(lb, c1) := keepaliveOneStandby fuel nanos true i lb in
    let '(lb, c2) := keepaliveOneStandby fuel nanos false i lb in (lb, cs ++ c1 ++ c2))
    (seq 0 (length (pool lb))) (lb, []).

(** The shutdown branch of [RunWarmStandby]: every slot is closed and emptied. *)
Definition closeAllStandby lb : LoadBalancer C * list C :=
  fold_left (fun '(lb, cs) i =>
    let '(t, lb) := takeStandby true i lb in
    let '(u, lb) := takeStandby false i lb in
    (lb, cs ++ (option_list t ++ option_list u ≫= fun c => snd (closed c "shutdown"))))
    (seq 0 (length (pool lb))) (lb, []).

(** The standby branch of [RunWarmStandby]: the upstreams to warm at time [now]. *)
Definition warmTargets (now : Z) lb : list nat :=
  if WarmStandbyN (sel lb) <=? 0 then [] else pickTopN now (WarmStandbyN (sel lb)) lb.
End Ops.

(** ** The liveness check on connections that deliver data messages only *)

Section Alive.
Context {C W : Type} `{!WSConn C} `{!DataOnly C} `{!Dialers C W}.
Implicit Types (lb : LoadBalancer C) (c : C).

Lemma aliveLoop_not_alive fuel payload c : fst (aliveLoop fuel payload c) <> Ok (Some true).
Proof.
  revert c. induction fuel as [|fuel IH]; intros c; [done|]. cbn [aliveLoop].
  destruct (ws_read c) as [[[typ data]|e|p] c'] eqn:E; [|done|done].
  apply data_only in E as [->| ->]; apply IH.
Qed.

Lemma wsAliveCheck_not_alive fuel nanos c : fst (wsAliveCheck fuel nanos c) <> Ok (Some true).
Proof.
  unfold wsAliveCheck. destruct (ws_write _ _ c) as [[?|?|?] c']; [|done|done]. apply aliveLoop_not_alive.
Qed.

(** A standby that is found is closed and a fresh connection is dialled. *)
Lemma acquireTCPWS_redials fuel nanos ctxErr i lb lb1 (w : W) c :
  takeStandby true i lb = (Some c, lb1) ->
  (exists p, fst (fst (fst (fst (acquireTCPWS fuel nanos ctxErr i lb w)))) = Panic p)
  \/ exists c', acquireTCPWS fuel nanos ctxErr i lb w = (DialWSStreamLimited ctxErr (wssURL true i lb1) lb1 w, [c']).
Proof.
  intros E. unfold acquireTCPWS. rewrite E. pose proof (wsAliveCheck_not_alive fuel nanos c) as Ha.
  destruct (wsAliveCheck fuel nanos c) as [[[[]|]|e|p] c1]; try done; [..|left; by eexists];
    unfold closed; destruct (ws_close _ _ c1) as [[?|?|?] c2]; (right; by eexists) || (left; by eexists).
Qed.

(** A keepalive round empties the slot and closes its connection. *)
Lemma keepalive_drops fuel nanos isTCP i lb lb1 c :
  takeStandby isTCP i lb = (Some c, lb1) ->
  exists c', keepaliveOneStandby fuel nanos isTCP i lb = (lb1, [c']).
Proof.
  intros E. unfold keepaliveOneStandby. rewrite E. pose proof (wsAliveCheck_not_alive fuel nanos c) as Ha.
  destruct (wsAliveCheck fuel nanos c) as [[[[]|]|e|p] c1]; try done;
    unfold closed; destruct (ws_close _ _ c1) as [[?|?|?] c2]; by eexists.
Qed.
End Alive.

(** ** Interleavings: who holds which connection *)

(** Connections are numbered in the order they are opened. *)
Section Ownership.
Implicit Types (lb : LoadBalancer nat).

(** Goroutines between two critical sections: the alive check of [acquireTCPWS]; a fresh
    dial for a flow, waiting for its slot and holding it; [EnsureStandby*] after its
    test of the health, in its dial, and after it; the alive check of
    [keepaliveOneStandby]. *)
Inductive thread :=
| TAcquire (i : nat) (c : nat)
| TDial (isTCP : bool) (i : nat)
| TDialing (isTCP : bool) (i : nat)
| TEnsure (isTCP : bool) (i : nat) (ok : bool)
| TWarm (isTCP : bool) (i : nat)
| TWarmed (isTCP : bool) (i : nat) (c : nat)
| TKeep (isTCP : bool) (i : nat) (c : nat).
Definition held (t : thread) : list nat :=
  match t with TAcquire _ c | TWarmed _ _ c | TKeep _ _ c => [c] | _ => [] end.

Record pstate := PState {
  ps_lb : LoadBalancer nat; ps_threads : list thread;
  ps_out : list nat; ps_closed : list nat; ps_fresh : nat }.

Inductive sbstep : pstate -> pstate -> Prop :=
(** [AcquireUDPWS] finds a warm connection; it or [acquireTCPWS] finds none. *)
| SUdpHit i c lb lb' ts o cl f :
    takeStandby false i lb = (Some c, lb') ->
    sbstep (PState lb ts o cl f) (PState lb' ts (c :: o) cl f)
| SMiss isTCP i lb lb' ts o cl f :
    takeStandby isTCP i lb = (None, lb') ->
    sbstep (PState lb ts o cl f) (PState lb' (TDial isTCP i :: ts) o cl f)
(** [acquireTCPWS] takes a candidate; it is alive; it is stale, closed and dialled anew. *)
| STcpTake i c lb lb' ts o cl f :
    takeStandby true i lb = (Some c, lb') ->
    sbstep (PState lb ts o cl f) (PState lb' (TAcquire i c :: ts) o cl f)
| STcpAlive i c lb ts1 ts2 o cl f :
    sbstep (PState lb (ts1 ++ TAcquire i c :: ts2) o cl f) (PState lb (ts1 ++ ts2) (c :: o) cl f)
| STcpStale i c lb ts1 ts2 o cl f :
    sbstep (PState lb (ts1 ++ TAcquire i c :: ts2) o cl f) (PState lb (ts1 ++ TDial true i :: ts2) o (c :: cl) f)
(** [DialWSStreamLimited]: a slot, or the end of the context before there is one; the
    result of the dial with the release of the slot. *)
| SDialSlot isTCP i lb lb' ts1 ts2 o cl f :
    acquireDialSlot lb = Some lb' ->
    sbstep (PState lb (ts1 ++ TDial isTCP i :: ts2) o cl f) (PState lb' (ts1 ++ TDialing isTCP i :: ts2) o cl f)
| SDialNoSlot isTCP i lb ts1 ts2 o cl f :
    sbstep (PState lb (ts1 ++ TDial isTCP i :: ts2) o cl f) (PState lb (ts1 ++ ts2) o cl f)
| SDialed isTCP i lb ts1 ts2 o cl f :
    sbstep (PState lb (ts1 ++ TDialing isTCP i :: ts2) o cl f) (PState (releaseDialSlot lb) (ts1 ++ ts2) (f :: o) cl (S f))
| SDialFail isTCP i lb ts1 ts2 o cl f :
    sbstep (PState lb (ts1 ++ TDialing isTCP i :: ts2) o cl f) (PState (releaseDialSlot lb) (ts1 ++ ts2) o cl f)
(** [EnsureStandby*]: the test of the health; the reset of a slot; a full slot; the start
    of a dial; its result; the last lock. *)
| SEnsure isTCP now i lb ts o cl f :
    sbstep (PState lb ts o cl f) (PState lb (TEnsure isTCP i (endpointOK isTCP now i lb) :: ts) o cl f)
| SReset isTCP i x lb lb' ts1 ts2 o cl f :
    takeStandby isTCP i lb = (x, lb') ->
    sbstep (PState lb (ts1 ++ TEnsure isTCP i false :: ts2) o cl f) (PState lb' (ts1 ++ ts2) o (option_list x ++ cl) f)
| SFull isTCP i lb ts1 ts2 o cl f :
    is_Some (pool lb !! i ≫= slot isTCP) ->
    sbstep (PState lb (ts1 ++ TEnsure isTCP i true :: ts2) o cl f) (PState lb (ts1 ++ ts2) o cl f)
| SWarm isTCP i lb ts1 ts2 o cl f :
    pool lb !! i ≫= slot isTCP = None ->
    sbstep (PState lb (ts1 ++ TEnsure isTCP i true :: ts2) o cl f) (PState lb (ts1 ++ TWarm isTCP i :: ts2) o cl f)
| SWarmed isTCP i lb ts1 ts2 o cl f :
    sbstep (PState lb (ts1 ++ TWarm isTCP i :: ts2) o cl f) (PState lb (ts1 ++ TWarmed isTCP i f :: ts2) o cl (S f))
| SWarmFail isTCP i lb ts1 ts2 o cl f :
    sbstep (PState lb (ts1 ++ TWarm isTCP i :: ts2) o cl f) (PState lb (ts1 ++ ts2) o cl f)
| SWarmPut isTCP i c lb x lb' ts1 ts2 o cl f :
    (i < length (pool lb))%nat -> putStandby isTCP i c lb = (x, lb') ->
    sbstep (PState lb (ts1 ++ TWarmed isTCP i c :: ts2) o cl f) (PState lb' (ts1 ++ ts2) o (option_list x ++ cl) f)
(** [keepaliveOneStandby]: the first lock; a failed check; the second lock. *)
| SKeepTake isTCP i c lb lb' ts o cl f :
    takeStandby isTCP i lb = (Some c, lb') ->
    sbstep (PState lb ts o cl f) (PState lb' (TKeep isTCP i c :: ts) o cl f)
| SKeepFail isTCP i c lb ts1 ts2 o cl f :
    sbstep (PState lb (ts1 ++ TKeep isTCP i c :: ts2) o cl f) (PState lb (ts1 ++ ts2) o (c :: cl) f)
| SKeepPut isTCP i c lb x lb' ts1 ts2 o cl f :
    (i < length (pool lb))%nat -> putStandby isTCP i c lb = (x, lb') ->
    sbstep (PState lb (ts1 ++ TKeep isTCP i c :: ts2) o cl f) (PState lb' (ts1 ++ ts2) o (option_list x ++ cl) f)
(** The shutdown of [RunWarmStandby] closes a slot. *)
| SShutdown isTCP i c lb lb' ts o cl f :
    takeStandby isTCP i lb = (Some c, lb') ->
    sbstep (PState lb ts o cl f) (PState lb' ts o (c :: cl) f)
(** A flow closes the connection it was given. *)
| SRelease c lb ts o1 o2 cl f :
    sbstep (PState lb ts (o1 ++ c :: o2) cl f) (PState lb ts (o1 ++ o2) (c :: cl) f).

(** Selections, reports and health checks leave the slots alone. *)
Definition sameSlots lb lb' : Prop :=
  forall i, (fun s => (standbyTCP s, standbyUDP s)) <$> pool lb' !! i = (fun s => (standbyTCP s, standbyUDP s)) <$> pool lb !! i.

Inductive step (st : pstate) : pstate -> Prop :=
| SStandby st' : sbstep st st' -> step st st'
| SOther lb' : sameSlots (ps_lb st) lb' -> step st (PState lb' (ps_threads st) (ps_out st) (ps_closed st) (ps_fresh st)).

(** All connections, with the place each one is in. *)
Definition slotsOf (s : UpstreamState nat) : list nat := option_list (standbyTCP s) ++ option_list (standbyUDP s).
Definition slots lb : list nat := pool lb ≫= slotsOf.
Definition places (st : pstate) : list nat :=
  slots (ps_lb st) ++ (ps_threads st ≫= held) ++ ps_out st ++ ps_closed st.

(** Every connection ever opened is in exactly one place. *)
Definition owned (st : pstate) : Prop := places st ≡ₚ seq 0 (ps_fresh st).

Lemma setSlot_perm isTCP x s :
  slotsOf (setSlot isTCP x s) ++ option_list (slot isTCP s) ≡ₚ slotsOf s ++ option_list x.
Proof. unfold slotsOf. destruct isTCP; simpl; solve_Permutation. Qed.

Lemma alter_slots isTCP x i lb s :
  pool lb !! i = Some s ->
  slots (setPool lb (alter (setSlot isTCP x) i (pool lb))) ++ option_list (slot isTCP s)
  ≡ₚ slots lb ++ option_list x.
Proof.
  intros Hs. unfold slots. simpl pool.
  assert (exists l1 l2, pool lb = l1 ++ s :: l2 /\ i = length l1) as (l1 & l2 & -> & ->).
  { exists (take i (pool lb)), (drop (S i) (pool lb)). rewrite take_drop_middle by done. split; [done|].
    apply lookup_lt_Some in Hs. rewrite length_take. lia. }
  rewrite <- (Nat.add_0_r (length l1)), alter_app_r. simpl. rewrite !bind_app. cbn [mbind list_bind].
  pose proof (setSlot_perm isTCP x s) as Hp. revert Hp. generalize (slotsOf (setSlot isTCP x s)), (slotsOf s).
  intros a b Hp. rewrite <- !app_assoc. apply Permutation_app_head.
  rewrite (Permutation_app_comm (l2 ≫= _)), (Permutation_app_comm (l2 ≫= _)), !app_assoc. by rewrite Hp.
Qed.

Lemma take_slots isTCP i lb x lb' :
  takeStandby isTCP i lb = (x, lb') -> slots lb ≡ₚ option_list x ++ slots lb'.
Proof.
  unfold takeStandby. intros [= <- <-]. destruct (pool lb !! i) as [s|] eqn:E; simpl.
  - pose proof (alter_slots isTCP None i lb s E) as H. simpl in H. rewrite app_nil_r in H.
    rewrite <- H. solve_Permutation.
  - unfold slots. simpl. assert (alter (setSlot isTCP None) i (pool lb) = pool lb) as ->; [|done].
    apply list_eq. intros j. destruct (decide (i = j)) as [->|].
    + by rewrite list_lookup_alter_eq, E.
    + by rewrite list_lookup_alter_ne.
Qed.

Lemma put_slots isTCP i c lb x lb' :
  (i < length (pool lb))%nat -> putStandby isTCP i c lb = (x, lb') -> c :: slots lb ≡ₚ option_list x ++ slots lb'.
Proof.
  intros Hi. unfold putStandby. destruct (lookup_lt_is_Some_2 (pool lb) i Hi) as [s Hs]. rewrite Hs. simpl.
  destruct (slot isTCP s) eqn:E; intros [= <- <-]; simpl; [done|].
  pose proof (alter_slots isTCP (Some c) i lb s Hs) as H. rewrite E in H. simpl in H. rewrite app_nil_r in H.
  rewrite H. solve_Permutation.
Qed.

Lemma other_slots lb lb' : sameSlots lb lb' -> slots lb' = slots lb.
Proof.
  intros H. unfold slots, sameSlots in *.
  assert (E : (fun s => (standbyTCP s, standbyUDP s)) <$> pool lb' = (fun s => (standbyTCP s, standbyUDP s)) <$> pool lb).
  { apply list_eq. intros i. by rewrite !list_lookup_fmap. }
  clear H. revert E. generalize (pool lb). induction (pool lb') as [|s l IH]; intros [|s' l'] E; try done.
  cbn [fmap list_fmap] in E. injection E as Ea Eb E. cbn [mbind list_bind]. unfold slotsOf at 1 3. rewrite Ea, Eb. f_equal. by apply IH.
Qed.

Lemma seq_S_perm f : f :: seq 0 f ≡ₚ seq 0 (S f).
Proof. rewrite seq_S. simpl. solve_Permutation. Qed.

(** Every step keeps every connection in exactly one place. *)
Lemma sbstep_owned st st' : sbstep st st' -> owned st -> owned st'.
Proof.
  unfold owned, places. intros H.
  destruct H; cbn [ps_lb ps_threads ps_out ps_closed ps_fresh];
    rewrite ?bind_app; cbn [mbind list_bind held]; rewrite ?bind_app; intros Ho;
    rewrite <- ?seq_S_perm, <- Ho;
    repeat match goal with
    | E : takeStandby _ _ _ = _ |- _ => apply take_slots in E; simpl in E; rewrite E; clear E
    | E : acquireDialSlot _ = Some _ |- _ => unfold acquireDialSlot in E; case_match; simplify_eq
    end; simpl; try solve_Permutation.
  all: match goal with E : putStandby _ _ ?c ?lb = _ |- _ => apply put_slots in E; [|done];
    transitivity ((c :: slots lb) ++ (ts1 ≫= held) ++ (ts2 ≫= held) ++ o ++ cl); [rewrite E|]; solve_Permutation end.
Qed.

Lemma step_owned st st' : step st st' -> owned st -> owned st'.
Proof.
  intros [st1 H|lb' H]; [by apply sbstep_owned|]. unfold owned, places. cbn [ps_lb ps_threads ps_out ps_closed ps_fresh].
  by rewrite (other_slots _ _ H).
Qed.

(** The dial semaphore counts the fresh dials that are under way. *)
Definition dials (t : thread) : bool := match t with TDialing _ _ => true | _ => false end.
Definition dialsOk (st : pstate) : Prop :=
  dialSem (ps_lb st) = countb dials (ps_threads st) /\ dialSem (ps_lb st) <= dialLimit.

Lemma take_sems {C} isTCP i (lb lb' : LoadBalancer C) x : takeStandby isTCP i lb = (x, lb') -> sems lb' = sems lb.
Proof. by intros [= _ <-]. Qed.
Lemma put_sems {C} isTCP i c (lb lb' : LoadBalancer C) x : putStandby isTCP i c lb = (x, lb') -> sems lb' = sems lb.
Proof. unfold putStandby. by case_match; intros [= _ <-]. Qed.

Lemma sbstep_dials st st' : sbstep st st' -> dialsOk st -> dialsOk st'.
Proof.
  unfold dialsOk. intros H.
  destruct H; cbn [ps_lb ps_threads]; intros [Hc Hm]; rewrite ?countb_app in *; cbn [countb dials] in *;
    repeat match goal with
    | E : takeStandby _ _ _ = _ |- _ => apply take_sems in E; injection E as -> _ _
    | E : putStandby _ _ _ _ = _ |- _ => apply put_sems in E; injection E as -> _ _
    | E : acquireDialSlot _ = Some _ |- _ => unfold acquireDialSlot in E; case_match; zbool; simplify_eq
    end; cbn;
    repeat match goal with ts : list thread |- _ => lazymatch goal with H : 0 <= countb dials ts |- _ => fail | _ => pose proof (countb_nonneg dials ts) end end; lia.
Qed.
End Ownership.

(** ** Properties *)

(** C17: warm connections are never lost, shared or closed twice: from an empty
    standby, whatever the interleaving of acquisitions, warm-ups, keepalive rounds,
    resets, shutdown, selections and flows that end, every connection that was
    opened is in exactly one place: a standby slot, the hands of one goroutine,
    handed out to one flow, or closed. *)
Theorem standby_single_owner (lb : LoadBalancer nat) (st : pstate)
    (Hempty : slots lb = []) (Hrun : rtc step (PState lb [] [] [] 0) st) :
  NoDup (places st) /\ forall c, c ∈ places st <-> (c < ps_fresh st)%nat.
Proof.
  assert (Ho : owned st).
  { remember (PState lb [] [] [] 0) as st0 eqn:E0. assert (H0 : owned st0).
    { subst st0. unfold owned, places. simpl. by rewrite Hempty. }
    clear E0 Hempty. induction Hrun as [|st1 st2 st3 Hs _ IH]; [done|]. apply IH. by eapply step_owned. }
  unfold owned in Ho. split; [rewrite Ho; apply NoDup_seq|]. intros c. rewrite Ho, elem_of_seq. lia.
Qed.

Definition lbDemoN : LoadBalancer nat :=
  DisableBackgroundProbes (fun _ => 1)
    (NewLoadBalancer [upDemo "a"; upDemo "b"] hcDemo (selDefaults (Selection zeroConfig)) (Probe zeroConfig) 0).

Lemma standby_single_owner_witness :
  let lb1 := setPool lbDemoN (alter (setSlot true (Some 0%nat)) 1%nat (pool lbDemoN)) in
  let st := PState lb1 [] [] [] 1 in
  NoDup (places st) /\ forall c, c ∈ places st <-> (c < ps_fresh st)%nat.
Proof.
  apply (standby_single_owner lbDemoN); [reflexivity|].
  eapply rtc_l; [eapply SStandby, (SEnsure true 5 1)|].
  eapply rtc_l; [eapply SStandby, (SWarm true 1 _ [] []); reflexivity|].
  eapply rtc_l; [apply SStandby, (SWarmed true 1 _ [] [])|].
  eapply rtc_l; [eapply SStandby, (SWarmPut true 1 0 _ None _ [] []); [simpl; lia|reflexivity]|].
  apply rtc_refl.
Defined.

(** C34: a warm TCP connection is never handed to a flow: on every connection that
    yields data messages only, as both implementations of [WSConn] do, the liveness
    check cannot succeed, so [acquireTCPWS] closes the standby it found and dials,
    and every keepalive round closes the standby and empties the slot. *)
Theorem standby_tcp_never_reused {C W : Type} `{!WSConn C} `{!DataOnly C} `{!Dialers C W}
    (fuel : nat) (nanos : Z) (ctxErr : gerror) (i : nat) (lb lb1 : LoadBalancer C) (w : W) (c : C)
    (Htake : takeStandby true i lb = (Some c, lb1)) :
  ((exists p, fst (fst (fst (fst (acquireTCPWS fuel nanos ctxErr i lb w)))) = Panic p)
   \/ exists c', acquireTCPWS fuel nanos ctxErr i lb w = (DialWSStreamLimited ctxErr (wssURL true i lb1) lb1 w, [c']))
  /\ exists c', keepaliveOneStandby fuel nanos true i lb = (lb1, [c']).
Proof. split; [by apply acquireTCPWS_redials with c|by apply keepalive_drops with c]. Qed.

(** A pool whose first upstream has a warm connection that would answer a ping. *)
Definition lbWarm : LoadBalancer (Framed.t memStream) :=
  setPool (NewLoadBalancer [upDemo "a"] hcDemo (selDefaults (Selection zeroConfig)) (Probe zeroConfig) 0)
    [setSlot true (Some (demoConn (srvFrame true WSMessagePong []))) (newUpstream (upDemo "a"))].

Lemma standby_tcp_never_reused_witness :
  let lb1 := snd (takeStandby true 0 lbWarm) in
  let w := {| rlog := []; rout := fun _ => Err io_EOF; rtime := 0 |} : recW (Framed.t memStream) in
  ((exists p, fst (fst (fst (fst (acquireTCPWS 4 7 io_EOF 0 lbWarm w)))) = Panic p)
   \/ exists c', acquireTCPWS 4 7 io_EOF 0 lbWarm w = (DialWSStreamLimited io_EOF (wssURL true 0 lb1) lb1 w, [c']))
  /\ exists c', keepaliveOneStandby 4 7 true 0 lbWarm = (lb1, [c']).
Proof.
  apply (standby_tcp_never_reused 4 7 io_EOF 0 lbWarm (snd (takeStandby true 0 lbWarm)) _
    (demoConn (srvFrame true WSMessagePong []))). reflexivity.
Defined.
