(* ===== verification/Probing.v ===== *)
(** * Health-check scheduling

    The scheduler of src/internal/lb.go: which checks are started at a tick
    ([runDueChecks]), what a check does with the outcomes of its probes
    ([checkOneTCP], [checkOneUDP]), the semaphores that bound the concurrent probes
    and dials, and the interleavings of the check goroutines as a step relation. A
    last part says what an endpoint's history of checks and reports makes of its health. *)

From stdpp Require Import relations.
From S2P Require Import Prelude GoNum GoNet Config Metrics HealthCheck LoadBalancer Transport.

Section Probing.
Context {C : Type}.
(** [time.Duration.String]. *)
Variable durString : Z -> string.
Implicit Types (lb : LoadBalancer C) (s : UpstreamState C).

(** ** Scheduling *)

(** The part of [RunHealthChecks] before its loop: everything is due now. *)
Definition dueNow (hcc : HealthcheckConfig) (now : Z) (h : hcState) : hcState := {|
  healthy := healthy h; failCount := failCount h; successCount := successCount h; inFlight := inFlight h;
  lastError := lastError h; lastCheckTime := lastCheckTime h; lastRTT := lastRTT h; rttEWMA := rttEWMA h;
  nextHC := now; hcEvery := if hcEvery h =? 0 then Interval hcc else hcEvery h |}.
Definition RunHealthChecks_init (now : Z) lb : LoadBalancer C :=
  setPool lb ((fun s => {| cfg := cfg s; tcp := dueNow (hc lb) now (tcp s); udp := dueNow (hc lb) now (udp s);
    tcpCooldownUntil := tcpCooldownUntil s; udpCooldownUntil := udpCooldownUntil s;
    standbyTCP := standbyTCP s; standbyUDP := standbyUDP s |}) <$> pool lb).

(** [!st.inFlight && !st.nextHC.After(now)]. *)
Definition due (now : Z) (h : hcState) : bool := negb (inFlight h) && negb (After (nextHC h) now).

(** One round of the loop of [runDueChecks]: mark and launch. *)
Definition launch (now : Z) s : UpstreamState C :=
  let t := if due now (tcp s) then setInFlight (tcp s) true else tcp s in
  let u := if due now (udp s) then setInFlight (udp s) true else udp s in
  {| cfg := cfg s; tcp := t; udp := u; tcpCooldownUntil := tcpCooldownUntil s;
     udpCooldownUntil := udpCooldownUntil s; standbyTCP := standbyTCP s; standbyUDP := standbyUDP s |}.
Definition launched (now : Z) (i : nat) s : list (bool * nat) :=
  (if due now (tcp s) then [(true, i)] else []) ++ (if due now (udp s) then [(false, i)] else []).

(** The body of the loop for the upstream [i], under its lock. *)
Definition launchAt (now : Z) (i : nat) lb : LoadBalancer C * list (bool * nat) :=
  match pool lb !! i with
  | Some s => (setPool lb (<[i := launch now s]> (pool lb)), launched now i s)
  | None => (lb, [])
  end.

(** [runDueChecks(ctx)] undisturbed: the marked pool and the checks that are started. *)
Definition runDueChecks (now : Z) lb : LoadBalancer C * list (bool * nat) :=
  (setPool lb (launch now <$> pool lb), concat (imap (launched now) (pool lb))).

(** ** One check *)

Definition protoName (isTCP : bool) : bytes := if isTCP then sTCP else sUDP.
Definition urlOf (isTCP : bool) s : bytes := if isTCP then TCPWSS (cfg s) else UDPWSS (cfg s).

(** The last critical section of a check: the result is applied, the cooldown of a
    healthy endpoint is lifted and the in-flight mark removed. *)
Definition applyCheck (rng : Z -> Z) (isTCP : bool) (now now' : Z) (err : option gerror) (rtt : Z) (i : nat) lb
  : LoadBalancer C * list mev :=
  match pool lb !! i with
  | None => (lb, [])
  | Some s =>
      let '(h, evs) := applyHCResult (hc lb) rng now now' err rtt (Name (cfg s)) (protoName isTCP) (endpoint isTCP s) in
      let cool := if healthy h then timeZero else cooldown isTCP s in
      (setPool lb (<[i := setEndpoint isTCP s (setInFlight h false) cool]> (pool lb)), evs)
  end.

(** The path that gives up before a probe slot is free: only the mark is removed. *)
Definition cancelCheck (isTCP : bool) (i : nat) lb : LoadBalancer C :=
  setPool lb (alter (fun s => setEndpoint isTCP s (setInFlight (endpoint isTCP s) false) (cooldown isTCP s)) i (pool lb)).

(** The two probes of a check with how long each took; the quality probe is only
    run after a successful transport probe when it is enabled. *)
Record probes := { p_transport : Z + gerror; p_transportDur : Z; p_quality : Z + gerror; p_qualityDur : Z }.

Definition probeErr (r : Z + gerror) : option gerror := match r with inr e => Some e | inl _ => None end.
Definition qualityEnabled (isTCP : bool) lb : bool := if isTCP then EnableTCP (probe lb) else EnableUDP (probe lb).

(** What the probes of [checkOneTCP] and [checkOneUDP] amount to: the error with
    its context, the round-trip time and the observations. [since] is the time since
    the check started. *)
Definition checkOutcome (isTCP : bool) (since : Z) s lb (p : probes) : option gerror * Z * list mev :=
  let tr := observeProbe (Name (cfg s)) (protoName isTCP) (str2b "transport") (probeErr (p_transport p)) (p_transportDur p) in
  match p_transport p with
  | inr e =>
      (Some (errWrap (b2str (protoName isTCP ++ str2b " probe to " ++ urlOf isTCP s) +:+ " failed after " +:+ durString since
         +:+ " (timeout=" +:+ durString (wsDialTimeoutForURL (Timeout (hc lb)) (urlOf isTCP s)) +:+ "): ") e ""),
       0, [tr])
  | inl rtt =>
      if qualityEnabled isTCP lb then
        let qu := observeProbe (Name (cfg s)) (protoName isTCP) (str2b "quality") (probeErr (p_quality p)) (p_qualityDur p) in
        (None, match p_quality p with inl v => v | inr _ => rtt end, [tr; qu])
      else (None, rtt, [tr])
  end.

(** [checkOneTCP] and [checkOneUDP], from the probe slot on. *)
Definition checkOne (rng : Z -> Z) (isTCP : bool) (since now now' : Z) (p : probes) (i : nat) lb
  : LoadBalancer C * list mev :=
  match pool lb !! i with
  | None => (lb, [])
  | Some s =>
      let '(err, rtt, evs) := checkOutcome isTCP since s lb p in
      let '(lb, evs') := applyCheck rng isTCP now now' err rtt i lb in (lb, evs ++ evs')
  end.
Definition checkOneTCP (rng : Z -> Z) := checkOne rng true.
Definition checkOneUDP (rng : Z -> Z) := checkOne rng false.

(** ** Semaphores: a buffered channel as the number of tokens in it *)

Definition acquire (limit n : Z) : option Z := if n <? limit then Some (n + 1) else None.
Definition release (n : Z) : Z := if 0 <? n then n - 1 else n.

(** [acquireProbeSlot]/[releaseProbeSlot] and [acquireProbeDialSlot]/[releaseProbeDialSlot]. *)
Definition acquireProbeSlot lb : option (LoadBalancer C) :=
  (fun n => setSems lb (dialSem lb) n (probeDialSem lb)) <$> acquire probeParallelLimit (probeSem lb).
Definition releaseProbeSlot lb : LoadBalancer C := setSems lb (dialSem lb) (release (probeSem lb)) (probeDialSem lb).
Definition acquireProbeDialSlot lb : option (LoadBalancer C) :=
  (fun n => setSems lb (dialSem lb) (probeSem lb) n) <$> acquire probeDialParallelLimit (probeDialSem lb).
Definition releaseProbeDialSlot lb : LoadBalancer C :=
  setSems lb (dialSem lb) (probeSem lb) (release (probeDialSem lb)).

(** ** Interleavings *)

(** Where a check goroutine is: waiting for a probe slot; holding it and waiting
    for a dial slot of the transport or the quality probe; probing; with a result;
    with the result applied and the deferred release of its slot to do. *)
Inductive phase :=
| CWait | CSlot | CDial | CQualSlot (rtt : Z) | CQual (rtt : Z) | CApply (err : option gerror) (rtt : Z) | CRelease.
Record chk := Chk { ck_tcp : bool; ck_up : nat; ck_phase : phase }.
Record sstate := SState { ss_lb : LoadBalancer C; ss_checks : list chk }.

Definition holdsProbe (c : chk) : bool := match ck_phase c with CWait => false | _ => true end.
Definition holdsDial (c : chk) : bool := match ck_phase c with CDial | CQual _ => true | _ => false end.

Inductive ckstep : sstate -> sstate -> Prop :=
(** The turn of one upstream in a tick of the scheduler. *)
| StTick now i lb lb' new cs :
    launchAt now i lb = (lb', new) ->
    ckstep (SState lb cs) (SState lb' (cs ++ ((fun '(t, i) => Chk t i CWait) <$> new)))
(** A probe slot, or the end of the parent context before there is one. *)
| StSlot t i lb lb' cs1 cs2 :
    acquireProbeSlot lb = Some lb' ->
    ckstep (SState lb (cs1 ++ Chk t i CWait :: cs2)) (SState lb' (cs1 ++ Chk t i CSlot :: cs2))
| StCancel t i lb cs1 cs2 :
    ckstep (SState lb (cs1 ++ Chk t i CWait :: cs2)) (SState (cancelCheck t i lb) (cs1 ++ cs2))
(** The transport probe: its dial slot or a time-out before it; its result. *)
| StDial t i lb lb' cs1 cs2 :
    acquireProbeDialSlot lb = Some lb' ->
    ckstep (SState lb (cs1 ++ Chk t i CSlot :: cs2)) (SState lb' (cs1 ++ Chk t i CDial :: cs2))
| StNoDial t i e lb cs1 cs2 :
    ckstep (SState lb (cs1 ++ Chk t i CSlot :: cs2)) (SState lb (cs1 ++ Chk t i (CApply (Some e) 0) :: cs2))
| StTransport t i rtt lb cs1 cs2 :
    ckstep (SState lb (cs1 ++ Chk t i CDial :: cs2))
      (SState (releaseProbeDialSlot lb)
         (cs1 ++ Chk t i (if qualityEnabled t lb then CQualSlot rtt else CApply None rtt) :: cs2))
| StTransportFail t i e lb cs1 cs2 :
    ckstep (SState lb (cs1 ++ Chk t i CDial :: cs2))
      (SState (releaseProbeDialSlot lb) (cs1 ++ Chk t i (CApply (Some e) 0) :: cs2))
(** The quality probe, whose failure is ignored. *)
| StQual t i rtt lb lb' cs1 cs2 :
    acquireProbeDialSlot lb = Some lb' ->
    ckstep (SState lb (cs1 ++ Chk t i (CQualSlot rtt) :: cs2)) (SState lb' (cs1 ++ Chk t i (CQual rtt) :: cs2))
| StNoQual t i rtt lb cs1 cs2 :
    ckstep (SState lb (cs1 ++ Chk t i (CQualSlot rtt) :: cs2)) (SState lb (cs1 ++ Chk t i (CApply None rtt) :: cs2))
| StQualDone t i rtt rtt' lb cs1 cs2 :
    ckstep (SState lb (cs1 ++ Chk t i (CQual rtt) :: cs2))
      (SState (releaseProbeDialSlot lb) (cs1 ++ Chk t i (CApply None rtt') :: cs2))
(** The result is applied; the probe slot is released. *)
| StApply t i err rtt rng now now' lb cs1 cs2 :
    ckstep (SState lb (cs1 ++ Chk t i (CApply err rtt) :: cs2))
      (SState (fst (applyCheck rng t now now' err rtt i lb)) (cs1 ++ Chk t i CRelease :: cs2))
| StRelease t i lb cs1 cs2 :
    ckstep (SState lb (cs1 ++ Chk t i CRelease :: cs2)) (SState (releaseProbeSlot lb) (cs1 ++ cs2)).

(** The mark of an endpoint. *)
Definition flag (t : bool) (i : nat) lb : Z :=
  match pool lb !! i with Some s => if inFlight (endpoint t s) then 1 else 0 | None => 0 end.

(** Selections, reports and standby connections leave the marks and the semaphores of the
    probes alone. *)
Definition sameMarks lb lb' : Prop :=
  probeSem lb' = probeSem lb /\ probeDialSem lb' = probeDialSem lb /\ forall t i, flag t i lb' = flag t i lb.

Inductive sstep (st : sstate) : sstate -> Prop :=
| StCheck st' : ckstep st st' -> sstep st st'
| StOther lb' : sameMarks (ss_lb st) lb' -> sstep st (SState lb' (ss_checks st)).

(** ** The invariant *)

Definition running (c : chk) : bool := match ck_phase c with CRelease => false | _ => true end.
Definition isFor (t : bool) (i : nat) (c : chk) : bool := Bool.eqb (ck_tcp c) t && (ck_up c =? i)%nat && running c.

(** The semaphores count their holders within their limits, every check is of an
    upstream of the pool, and an endpoint is marked in flight exactly while it has
    its one check. *)
Record schedOk (st : sstate) : Prop := {
  so_probe : probeSem (ss_lb st) = countb holdsProbe (ss_checks st);
  so_probeMax : probeSem (ss_lb st) <= probeParallelLimit;
  so_dial : probeDialSem (ss_lb st) = countb holdsDial (ss_checks st);
  so_dialMax : probeDialSem (ss_lb st) <= probeDialParallelLimit;
  so_inFlight : forall t i, countb (isFor t i) (ss_checks st)
    = match pool (ss_lb st) !! i with Some s => if inFlight (endpoint t s) then 1 else 0 | None => 0 end }.

(** *** In-flight marks *)

Lemma launchAt_count now t i j s :
  countb (isFor t i) ((fun '(t, i) => Chk t i CWait) <$> launched now j s)
  = if (j =? i)%nat && due now (endpoint t s) then 1 else 0.
Proof.
  unfold launched, isFor. destruct (due now (tcp s)) eqn:Et, (due now (udp s)) eqn:Eu, t; simpl; rewrite ?Et, ?Eu;
    destruct (j =? i)%nat; done.
Qed.

Lemma flag_launch now j t i lb lb' new :
  launchAt now j lb = (lb', new) ->
  flag t i lb' = flag t i lb + countb (isFor t i) ((fun '(t, i) => Chk t i CWait) <$> new).
Proof.
  unfold launchAt. destruct (pool lb !! j) as [s|] eqn:Es; intros [= <- <-]; [|simpl; lia]. rewrite launchAt_count.
  unfold flag. simpl pool. pose proof (lookup_lt_Some _ _ _ Es). destruct (Nat.eqb_spec j i) as [<-|Hne].
  - rewrite list_lookup_insert_eq, Es by done. unfold launch, due, endpoint. destruct t; cbn [tcp udp];
      [destruct (inFlight (tcp s)) eqn:E, (After _ _)|destruct (inFlight (udp s)) eqn:E, (After _ _)]; simpl; by rewrite ?E.
  - rewrite list_lookup_insert_ne by done. simpl. lia.
Qed.

Lemma launchAt_sems now j lb lb' new : launchAt now j lb = (lb', new) -> sems lb' = sems lb.
Proof. unfold launchAt. by case_match; intros [= <- _]. Qed.

(** The loop of [runDueChecks], upstream by upstream. *)
Lemma runDueChecks_loop now lb :
  runDueChecks now lb
  = fold_left (fun '(lb, new) i => let '(lb', n) := launchAt now i lb in (lb', new ++ n)) (seq 0 (length (pool lb))) (lb, []).
Proof.
  assert (H : forall l p new,
    fold_left (fun '(lb, new) i => let '(lb', n) := launchAt now i lb in (lb', new ++ n)) (seq (length p) (length l))
      (setPool lb (p ++ l), new)
    = (setPool lb (p ++ (launch now <$> l)), new ++ concat (imap (fun j => launched now (length p + j)%nat) l))).
  { induction l as [|s l IH]; intros p new; [simpl; by rewrite !app_nil_r|].
    cbn [length seq fold_left]. unfold launchAt at 2. cbn [pool setPool].
    rewrite list_lookup_middle by done. rewrite insert_app_r_alt, Nat.sub_diag by done. cbn [insert list_insert].
    specialize (IH (p ++ [launch now s]) (new ++ launched now (length p) s)).
    rewrite length_app in IH. cbn [length] in IH. rewrite Nat.add_1_r, <- !app_assoc in IH. cbn [app] in IH.
    change (setPool (setPool lb (p ++ s :: l)) (p ++ launch now s :: l)) with (setPool lb (p ++ launch now s :: l)). rewrite IH.
    f_equal. rewrite imap_cons. cbn [concat]. rewrite Nat.add_0_r. do 2 f_equal. f_equal.
    apply imap_ext. intros j x _. unfold compose. f_equal. lia. }
  specialize (H (pool lb) [] []). cbn [length app] in H. unfold runDueChecks.
  replace (setPool lb (pool lb)) with lb in H by (by destruct lb). by rewrite H.
Qed.

Lemma flag_cancel t i t' i' lb :
  flag t' i' (cancelCheck t i lb) = if Bool.eqb t t' && (i =? i')%nat then 0 else flag t' i' lb.
Proof.
  unfold flag, cancelCheck. simpl pool. destruct (Nat.eqb_spec i i') as [->|Hne].
  - rewrite list_lookup_alter_eq. destruct (pool lb !! i') as [s|]; simpl; [|by destruct t, t'].
    by destruct t, t'.
  - rewrite list_lookup_alter_ne by done. by rewrite andb_false_r.
Qed.

Lemma flag_apply rng t now now' err rtt i t' i' lb :
  flag t' i' (fst (applyCheck rng t now now' err rtt i lb)) = if Bool.eqb t t' && (i =? i')%nat then 0 else flag t' i' lb.
Proof.
  unfold flag, applyCheck. destruct (pool lb !! i) as [s|] eqn:Es.
  - destruct (applyHCResult _ _ _ _ _ _ _ _ _) as [h evs]. simpl pool. pose proof (lookup_lt_Some _ _ _ Es) as Hl.
    destruct (Nat.eqb_spec i i') as [<-|Hne].
    + rewrite list_lookup_insert_eq by done. rewrite Es. by destruct t, t'.
    + rewrite list_lookup_insert_ne by done. by rewrite andb_false_r.
  - simpl. destruct (Nat.eqb_spec i i') as [<-|Hne]; [rewrite Es; by destruct t, t'|by rewrite andb_false_r].
Qed.

Lemma runOp_frame o lb :
  sameMarks lb (runOp lb o).
Proof.
  unfold sameMarks.
  assert (Hrep : forall isTCP rng now j err lb, let lb' := fst (reportFailure isTCP rng now j err lb) in
    probeSem lb' = probeSem lb /\ probeDialSem lb' = probeDialSem lb /\ forall t i, flag t i lb' = flag t i lb).
  { intros isTCP rng now j err lb0. simpl. repeat split. intros t i. unfold flag. simpl pool.
    destruct (decide (j = i)) as [->|]; [|by rewrite list_lookup_alter_ne].
    rewrite list_lookup_alter_eq. destruct (pool lb0 !! i) as [s|]; [|done]. by destruct isTCP, t. }
  assert (Hlog : forall now p u r lb0, let lb' := fst (logSelectionIfChanged now p u r lb0) in
    probeSem lb' = probeSem lb0 /\ probeDialSem lb' = probeDialSem lb0 /\ pool lb' = pool lb0).
  { intros. unfold lb', logSelectionIfChanged. by case_match. }
  assert (Hsel : forall now nowLog i r, let lb' := snd (fst (select now nowLog i r lb)) in
    probeSem lb' = probeSem lb /\ probeDialSem lb' = probeDialSem lb).
  { intros. unfold lb', select. set (lb1 := setSticky _ _ _). specialize (Hlog nowLog sTCP (nameOf lb1 i) r lb1).
    destruct (logSelectionIfChanged _ _ _ _ _). simpl in *. destruct Hlog as (-> & -> & _). done. }
  destruct o as [isTCP now nowLog|rng now u err|rng now u err]; simpl.
  - assert (Hf : forall t i, flag t i (snd (fst (pickByEndpoint isTCP now nowLog lb))) = flag t i lb)
      by (intros; unfold flag; by rewrite pick_pool).
    enough (Hs : probeSem (snd (fst (pickByEndpoint isTCP now nowLog lb))) = probeSem lb
      /\ probeDialSem (snd (fst (pickByEndpoint isTCP now nowLog lb))) = probeDialSem lb) by (destruct Hs; done). clear Hf.
    unfold pickByEndpoint. destruct (match current lb with Some _ => _ | None => _ end); [done|].
    destruct (pickBestCandidateByEndpoint isTCP now lb) as [[b rtt]|e|w]; [|done|done]. destruct isTCP.
    + destruct (current lb); [destruct (keepCurrent _ _ _ _ _)|]; apply Hsel.
    + specialize (Hlog nowLog sUDP (nameOf lb b) (str2b "best-candidate") lb).
      destruct (logSelectionIfChanged _ _ _ _ _). simpl in *. destruct Hlog as (-> & -> & _). done.
  - destruct u as [i|]; [|done]. specialize (Hrep true rng now i err lb). unfold ReportTCPFailure.
    destruct (reportFailure _ _ _ _ _ _). simpl in *. by case_bool_decide.
  - destruct u as [i|]; [|done]. apply (Hrep false rng now i err lb).
Qed.

(** *** Steps *)

Lemma so_flag st t i : schedOk st -> countb (isFor t i) (ss_checks st) = flag t i (ss_lb st).
Proof. intros H. apply (so_inFlight _ H). Qed.

(** Replacing a check by the same one in another phase leaves the marks. *)
Lemma isFor_phase t i t0 i0 p p' cs1 cs2 :
  running (Chk t0 i0 p) = running (Chk t0 i0 p') ->
  countb (isFor t i) (cs1 ++ Chk t0 i0 p :: cs2) = countb (isFor t i) (cs1 ++ Chk t0 i0 p' :: cs2).
Proof. intros H. rewrite !countb_app. cbn [countb]. unfold isFor at 2 5. by rewrite H. Qed.

Lemma isFor_drop t i t0 i0 p cs1 cs2 :
  countb (isFor t i) (cs1 ++ Chk t0 i0 p :: cs2)
  = (if Bool.eqb t0 t && (i0 =? i)%nat && running (Chk t0 i0 p) then 1 else 0) + countb (isFor t i) (cs1 ++ cs2).
Proof. rewrite !countb_app. cbn [countb]. unfold isFor at 2. cbn [ck_tcp ck_up]. lia. Qed.

(** The mark of an endpoint is 0 or 1, so the end of its check leaves none. *)
Lemma marks_after_drop lb lb' t0 i0 p cs1 cs2 :
  running (Chk t0 i0 p) = true ->
  (forall t i, countb (isFor t i) (cs1 ++ Chk t0 i0 p :: cs2) = flag t i lb) ->
  (forall t i, flag t i lb' = if Bool.eqb t0 t && (i0 =? i)%nat then 0 else flag t i lb) ->
  forall t i, countb (isFor t i) (cs1 ++ cs2) = flag t i lb'.
Proof.
  intros Hr Hc Hf t i. rewrite Hf. specialize (Hc t i). rewrite isFor_drop, Hr, andb_true_r in Hc.
  assert (flag t i lb <= 1) by (unfold flag; repeat case_match; lia).
  pose proof (countb_nonneg (isFor t i) (cs1 ++ cs2)). destruct (_ && _); lia.
Qed.

Definition tok (b : bool) : Z := if b then 1 else 0.

(** A check moves to another phase and the semaphores move with it. *)
Lemma schedOk_rephase lb lb' t i p p' cs1 cs2 :
  schedOk (SState lb (cs1 ++ Chk t i p :: cs2)) -> pool lb' = pool lb -> running (Chk t i p) = running (Chk t i p') ->
  probeSem lb' = probeSem lb - tok (holdsProbe (Chk t i p)) + tok (holdsProbe (Chk t i p')) ->
  probeDialSem lb' = probeDialSem lb - tok (holdsDial (Chk t i p)) + tok (holdsDial (Chk t i p')) ->
  probeSem lb' <= probeParallelLimit -> probeDialSem lb' <= probeDialParallelLimit ->
  schedOk (SState lb' (cs1 ++ Chk t i p' :: cs2)).
Proof.
  intros [H1 _ H3 _ H5] Hp Hr Hs Hd Hm Hm'. unfold tok in *. cbn [ss_lb ss_checks] in *.
  rewrite countb_app in H1, H3. cbn [countb] in H1, H3.
  split; cbn [ss_lb ss_checks]; rewrite ?countb_app; cbn [countb]; [lia|done|lia|done|].
  intros t' i'. rewrite Hp, <- H5. by apply isFor_phase.
Qed.

(** A token that is held can be given back. *)
Lemma release_held {lb t i p cs1 cs2} :
  schedOk (SState lb (cs1 ++ Chk t i p :: cs2)) ->
  (holdsProbe (Chk t i p) = true -> release (probeSem lb) = probeSem lb - 1)
  /\ (holdsDial (Chk t i p) = true -> release (probeDialSem lb) = probeDialSem lb - 1).
Proof.
  intros [H1 _ H3 _ _]. cbn [ss_lb ss_checks] in *. rewrite countb_app in H1, H3. cbn [countb] in H1, H3.
  pose proof (countb_nonneg holdsProbe cs1). pose proof (countb_nonneg holdsProbe cs2).
  pose proof (countb_nonneg holdsDial cs1). pose proof (countb_nonneg holdsDial cs2).
  unfold release. split; intros Hh; rewrite Hh in *;
    [destruct (Z.ltb_spec 0 (probeSem lb))|destruct (Z.ltb_spec 0 (probeDialSem lb))]; lia.
Qed.

Lemma acquire_spec {limit n n'} : acquire limit n = Some n' -> n' = n + 1 /\ n' <= limit.
Proof. unfold acquire. intros. case_match; zbool; simplify_eq. lia. Qed.

Ltac rephase Hok :=
  destruct (release_held Hok) as [Hrp Hrd];
  pose proof (so_probeMax _ Hok); pose proof (so_dialMax _ Hok);
  apply (schedOk_rephase _ _ _ _ _ _ _ _ Hok); cbn in *; rewrite ?Hrp, ?Hrd by done; lia || done.

Lemma schedOk_tick now i lb lb' new cs :
  launchAt now i lb = (lb', new) ->
  schedOk (SState lb cs) -> schedOk (SState lb' (cs ++ ((fun '(t, i) => Chk t i CWait) <$> new))).
Proof.
  intros E [H1 H2 H3 H4 H5]. cbn [ss_lb ss_checks] in *.
  assert (Hz : forall l, countb holdsProbe ((fun '(t, i) => Chk t i CWait) <$> l) = 0
    /\ countb holdsDial ((fun '(t, i) => Chk t i CWait) <$> l) = 0) by (induction l as [|[]]; done).
  destruct (Hz new) as [Hz1 Hz2]. pose proof (launchAt_sems _ _ _ _ _ E) as [= _ Es1 Es2].
  split; cbn [ss_lb ss_checks]; rewrite ?countb_app, ?Hz1, ?Hz2, ?Es1, ?Es2; [lia|done|lia|done|].
  intros t j. rewrite countb_app, H5. symmetry. by apply (flag_launch _ _ _ _ _ _ _ E).
Qed.

(** The end of a check, with or without a result: its slot is released, or about to be. *)
Lemma schedOk_end lb lb' t i p cs1 cs2 cs' :
  schedOk (SState lb (cs1 ++ Chk t i p :: cs2)) -> running (Chk t i p) = true -> holdsDial (Chk t i p) = false ->
  (forall t' i', flag t' i' lb' = if Bool.eqb t t' && (i =? i')%nat then 0 else flag t' i' lb) ->
  cs' = cs1 ++ cs2 /\ holdsProbe (Chk t i p) = false \/ cs' = cs1 ++ Chk t i CRelease :: cs2 /\ holdsProbe (Chk t i p) = true ->
  probeSem lb' = probeSem lb -> probeDialSem lb' = probeDialSem lb ->
  schedOk (SState lb' cs').
Proof.
  intros Hok Hr Hd Hf Hcs Hs Hs'. pose proof (fun t i => so_flag _ t i Hok) as Hfl. cbn [ss_lb ss_checks] in Hfl.
  pose proof (marks_after_drop lb lb' t i p cs1 cs2 Hr Hfl Hf) as Hm.
  destruct Hok as [H1 H2 H3 H4 _]. cbn [ss_lb ss_checks] in *. rewrite countb_app in H1, H3. cbn [countb] in H1, H3. rewrite Hd in H3.
  destruct Hcs as [[-> Hp]|[-> Hp]]; rewrite Hp in H1; (split; cbn [ss_lb ss_checks]; [rewrite countb_app; cbn; lia|lia|rewrite countb_app; cbn; lia|lia|]).
  - exact Hm.
  - intros t' i'. rewrite isFor_drop, andb_false_r. apply Hm.
Qed.

Lemma schedOk_release lb t i cs1 cs2 :
  schedOk (SState lb (cs1 ++ Chk t i CRelease :: cs2)) -> schedOk (SState (releaseProbeSlot lb) (cs1 ++ cs2)).
Proof.
  intros Hok. destruct (release_held Hok) as [Hrp _]. specialize (Hrp eq_refl). destruct Hok as [H1 H2 H3 H4 H5].
  cbn [ss_lb ss_checks] in *. rewrite countb_app in H1, H3. cbn in H1, H3.
  split; cbn [ss_lb ss_checks]; [cbn; rewrite countb_app; lia|cbn; lia|cbn; rewrite countb_app; lia|done|].
  intros t' i'. specialize (H5 t' i'). by rewrite isFor_drop, andb_false_r in H5.
Qed.

Lemma applyCheck_sems rng t now now' err rtt i lb : sems (fst (applyCheck rng t now now' err rtt i lb)) = sems lb.
Proof. unfold applyCheck. destruct (pool lb !! i); [|done]. by destruct (applyHCResult _ _ _ _ _ _ _ _ _). Qed.

Lemma schedOk_check st st' : ckstep st st' -> schedOk st -> schedOk st'.
Proof.
  intros Hst Hok. destruct Hst; cbn [ss_lb ss_checks] in *.
  - by eapply schedOk_tick.
  - unfold acquireProbeSlot in H. destruct (acquire _ _) eqn:E; simplify_eq/=. apply acquire_spec in E. rephase Hok.
  - eapply schedOk_end; [exact Hok|done|done|intros; apply flag_cancel|by left|done|done].
  - unfold acquireProbeDialSlot in H. destruct (acquire _ _) eqn:E; simplify_eq/=. apply acquire_spec in E. rephase Hok.
  - rephase Hok.
  - destruct (qualityEnabled t lb); rephase Hok.
  - rephase Hok.
  - unfold acquireProbeDialSlot in H. destruct (acquire _ _) eqn:E; simplify_eq/=. apply acquire_spec in E. rephase Hok.
  - rephase Hok.
  - rephase Hok.
  - pose proof (applyCheck_sems rng t now now' err rtt i lb) as [= _ E1 E2].
    eapply schedOk_end; [exact Hok|done|done|intros; apply flag_apply|by right|done|done].
  - by eapply schedOk_release.
Qed.

Lemma schedOk_step st st' : sstep st st' -> schedOk st -> schedOk st'.
Proof.
  intros [st1 H|lb' (E1 & E2 & E3)]; [by apply schedOk_check|]. intros [H1 H2 H3 H4 H5].
  split; cbn [ss_lb ss_checks]; rewrite ?E1, ?E2; [done..|]. intros t i. rewrite H5. symmetry. apply E3.
Qed.

Lemma schedOk_steps st st' : rtc sstep st st' -> schedOk st -> schedOk st'.
Proof. induction 1; eauto using schedOk_step. Qed.

(** Before the first tick: no check runs and nothing is marked. *)
Definition idle lb : Prop :=
  probeSem lb = 0 /\ probeDialSem lb = 0 /\ forall s, s ∈ pool lb -> inFlight (tcp s) = false /\ inFlight (udp s) = false.

Lemma idle_schedOk lb : idle lb -> schedOk (SState lb []).
Proof.
  intros (E1 & E2 & Hp). split; cbn [ss_lb ss_checks countb]; rewrite ?E1, ?E2; try done.
  intros t i. destruct (pool lb !! i) as [s|] eqn:Es; [|done].
  apply list_elem_of_lookup_2, Hp in Es as [Ht Hu]. destruct t; simpl; by rewrite ?Ht, ?Hu.
Qed.

Lemma new_idle now ups h se p fw : idle (RunHealthChecks_init now (NewLoadBalancer ups h se p fw)).
Proof.
  split; [done|split; [done|]]. intros s Hs. simpl in Hs. apply list_elem_of_fmap in Hs as (s0 & -> & Hs). by apply list_elem_of_fmap in Hs as (u & -> & _).
Qed.

Lemma holdsDial_probe l : countb holdsDial l <= countb holdsProbe l.
Proof. induction l as [|[t i []] l IH]; simpl in *; lia. Qed.

(** A check that holds a probe slot and no dial slot leaves one of the latter free. *)
Lemma dial_slot_free st t i p :
  schedOk st -> In (Chk t i p) (ss_checks st) -> holdsProbe (Chk t i p) = true -> holdsDial (Chk t i p) = false ->
  is_Some (acquireProbeDialSlot (ss_lb st)).
Proof.
  intros [H1 H2 H3 _ _] Hin Hp Hd. apply in_split in Hin as (l1 & l2 & E). rewrite E, countb_app in H1, H3.
  cbn [countb] in *. rewrite Hp in H1. rewrite Hd in H3.
  pose proof (holdsDial_probe l1). pose proof (holdsDial_probe l2).
  unfold acquireProbeDialSlot, acquire, probeParallelLimit, probeDialParallelLimit in *.
  destruct (Z.ltb_spec (probeDialSem (ss_lb st)) 4); [by eexists|lia].
Qed.

Lemma checkOne_pool rng isTCP since now now' p i lb s :
  pool lb !! i = Some s ->
  let '(err, rtt, _) := checkOutcome isTCP since s lb p in
  let h := fst (applyHCResult (hc lb) rng now now' err rtt (Name (cfg s)) (protoName isTCP) (endpoint isTCP s)) in
  pool (fst (checkOne rng isTCP since now now' p i lb))
  = <[i := setEndpoint isTCP s (setInFlight h false) (if healthy h then timeZero else cooldown isTCP s)]> (pool lb).
Proof.
  intros Hs. unfold checkOne, applyCheck. rewrite Hs. destruct (checkOutcome isTCP since s lb p) as [[err rtt] evs].
  by destruct (applyHCResult _ _ _ _ _ _ _ _ _).
Qed.
End Probing.
Arguments sstate C : clear implicits.

(** ** Health as a history of checks and reports *)

(** Everything that writes the health state of an endpoint once the balancer is made: the
    result of a check, a report of a failure, the mark of a check in flight and the due
    time [RunHealthChecks] begins with. *)
Inductive hcEvent :=
| Checked (c : check)
| Reported (rng : Z -> Z) (now : Z) (err : option gerror)
| Marked (b : bool)
| Due (now : Z).
Definition runEvent (hcc : HealthcheckConfig) (name proto : bytes) (h : hcState) (e : hcEvent) : hcState :=
  match e with
  | Checked c => runCheck hcc name proto h c
  | Reported rng now err => failEndpoint hcc rng now err h
  | Marked b => setInFlight h b
  | Due now => dueNow hcc now h
  end.

(** What an event means for the health of the endpoint. *)
Inductive outcome := Succeeded | Failed | ReportedDown.
#[global] Instance outcome_eq_dec : EqDecision outcome.
Proof. solve_decision. Defined.
Definition outcomeOf (e : hcEvent) : option outcome :=
  match e with
  | Checked c => Some (if isOk (ck_err c) then Succeeded else Failed)
  | Reported _ _ _ => Some ReportedDown
  | Marked _ | Due _ => None
  end.
Definition outcomes (es : list hcEvent) : list outcome := omap outcomeOf es.

Section Histories.
Context (hcc : HealthcheckConfig) (name proto : bytes).
Abbreviation run := (fold_left (runEvent hcc name proto)).
Abbreviation ft := (FailThreshold hcc).
Abbreviation st := (SuccessThreshold hcc).

Definition histStep (s : updown) (o : outcome) : updown :=
  match o with
  | Succeeded => specStep ft st s true
  | Failed => specStep ft st s false
  | ReportedDown => {| up := false; streak := - (Z.max (- streak s) 0 + 1) |}
  end.

Lemma runEvent_refines e h n : countersOk (n + 1) h -> 0 <= n ->
  absHC (runEvent hcc name proto h e) = from_option (histStep (absHC h)) (absHC h) (outcomeOf e)
  /\ countersOk n (runEvent hcc name proto h e).
Proof.
  intros Hc Hn. destruct e as [c|rng now err|b|now]; cbn [runEvent outcomeOf from_option].
  - destruct (applyHCResult_refines hcc (ck_rng c) (ck_now c) (ck_now' c) (ck_err c) (ck_rtt c) name proto h n Hc Hn) as [E Hk].
    split; [|exact Hk]. etransitivity; [exact E|]. by destruct (isOk (ck_err c)).
  - destruct Hc as (Hf & Hs & Hx & Hm1 & Hm2). unfold absHC, countersOk, histStep, failEndpoint, add64 in *. cbn.
    rewrite i64_small by (unfold isI64, minInt64, maxInt64 in *; lia). split; [f_equal; lia|lia].
  - split; [done|]. unfold countersOk in *; cbn; lia.
  - split; [done|]. unfold countersOk in *; cbn; lia.
Qed.

Lemma run_refines es h : countersOk (zlen es) h -> absHC (run es h) = fold_left histStep (outcomes es) (absHC h).
Proof.
  revert h. induction es as [|e es IH]; intros h Hc; [done|]. cbn [fold_left]. rewrite zlen_cons, Z.add_comm in Hc.
  destruct (runEvent_refines e h _ Hc (zlen_nonneg _)) as [E Hk]. rewrite (IH _ Hk), E.
  unfold outcomes. cbn [omap list_omap]. by destruct (outcomeOf e).
Qed.

(** States no sequence of checks tells apart: failures counted while down do not matter. *)
Definition alike (s t : updown) : Prop :=
  up s = up t /\ (up s = true -> streak s = streak t) /\ Z.max (streak s) 0 = Z.max (streak t) 0.
Lemma specStep_alike s t ok : alike s t -> alike (specStep ft st s ok) (specStep ft st t ok).
Proof.
  destruct s as [u k], t as [u' k']. unfold alike, specStep. cbn. intros (<- & H1 & H2). destruct ok; cbn.
  - rewrite H2. done.
  - destruct u; [rewrite (H1 eq_refl); done|]. split; [by case_tests|]. split; [by case_tests|lia].
Qed.

Definition checkOf (o : outcome) : bool := bool_decide (o = Succeeded).
Lemma hist_alike l s t : ReportedDown ∉ l -> alike s t ->
  up (fold_left histStep l s) = up (fold_left (specStep ft st) (checkOf <$> l) t).
Proof.
  revert s t. induction l as [|o l IH]; intros s t Hn Ha; [by destruct Ha|]. rewrite not_elem_of_cons in Hn. destruct Hn as [Ho Hn].
  cbn [fold_left fmap list_fmap]. apply IH; [done|]. destruct o; [..|done]; by apply specStep_alike.
Qed.

Lemma checkOf_Succeeded l n pre post : ReportedDown ∉ l ->
  (checkOf <$> l) = pre ++ replicate n true ++ post ->
  exists pre' post', l = pre' ++ replicate n Succeeded ++ post' /\ (checkOf <$> post') = post.
Proof.
  intros Hn E. apply fmap_app_inv in E as (l1 & l2 & -> & E & ->). symmetry in E.
  apply fmap_app_inv in E as (l3 & l4 & E3 & E4 & ->). exists l1, l4. split; [|done]. do 2 f_equal.
  symmetry. apply replicate_as_Forall. apply (f_equal length) in E3 as El. rewrite length_fmap, length_replicate in El.
  split; [done|]. apply Forall_forall. intros o Ho. apply (list_elem_of_fmap_2 checkOf) in Ho. rewrite <- E3 in Ho.
  apply elem_of_replicate in Ho as [Ho _]. unfold checkOf in Ho. by case_bool_decide.
Qed.

(** Enough successes in a row at some point, and since then no report and no long run of failures. *)
Definition healthySince (l : list outcome) : Prop :=
  exists pre post, l = pre ++ replicate (Z.to_nat st) Succeeded ++ post /\ ReportedDown ∉ post
    /\ forall a b, post <> a ++ replicate (Z.to_nat ft) Failed ++ b.

Lemma no_report_run l n : ReportedDown ∉ l ->
  (forall a b, l <> a ++ replicate n Failed ++ b) <-> (forall a b, (checkOf <$> l) <> a ++ replicate n false ++ b).
Proof.
  intros Hn. split.
  - intros H a b E. apply fmap_app_inv in E as (l1 & l2 & -> & E & ->). symmetry in E.
    apply fmap_app_inv in E as (l3 & l4 & E3 & E4 & ->). apply (H l1 l4). do 2 f_equal.
    symmetry. apply replicate_as_Forall. apply (f_equal length) in E3 as El. rewrite length_fmap, length_replicate in El.
    split; [done|]. apply Forall_forall. intros o Ho. pose proof Ho as Hin. apply (list_elem_of_fmap_2 checkOf) in Ho. rewrite <- E3 in Ho.
    apply elem_of_replicate in Ho as [Ho _]. unfold checkOf in Ho. case_bool_decide; [done|]. destruct o; [done|done|].
    destruct Hn. rewrite !elem_of_app. auto.
  - intros H a b ->. apply (H (checkOf <$> a) (checkOf <$> b)). by rewrite !fmap_app, fmap_replicate.
Qed.

Lemma hist_checks l s : 0 < ft -> 0 < st -> ReportedDown ∉ l -> alike s {| up := false; streak := 0 |} ->
  up (fold_left histStep l s) = true <-> healthySince l.
Proof.
  intros Hf Hs Hn Ha. rewrite (hist_alike _ _ _ Hn Ha), specRun_fold. fold (specRun ft st (reverse (checkOf <$> l))).
  rewrite specRun_up, upSince_chrono by done. split.
  - intros (pre & post & E & Hr). apply checkOf_Succeeded in E as (pre' & post' & -> & <-); [|done].
    rewrite !elem_of_app in Hn. exists pre', post'. split; [done|]. split; [tauto|]. apply no_report_run; tauto.
  - intros (pre & post & -> & Hp & Hr). exists (checkOf <$> pre), (checkOf <$> post).
    rewrite !fmap_app, fmap_replicate. split; [done|]. by apply no_report_run.
Qed.

Lemma healthySince_after l1 l2 : ReportedDown ∉ l2 -> 0 < st -> healthySince (l1 ++ ReportedDown :: l2) <-> healthySince l2.
Proof.
  intros Hn Hs. split; intros (pre & post & E & Hp & Hr).
  - assert (Hsuf : ReportedDown ∉ replicate (Z.to_nat st) Succeeded ++ post).
    { rewrite elem_of_app, elem_of_replicate. intros [[? _]|?]; done. }
    apply app_eq_inv in E as [(k & -> & E)|(k & -> & E)].
    + destruct Hsuf. rewrite E, elem_of_app. right. apply list_elem_of_here.
    + destruct k as [|o k]; cbn in E; [destruct Hsuf; rewrite <- E; apply list_elem_of_here|].
      injection E as <- ->. by exists k, post.
  - exists (l1 ++ ReportedDown :: pre), post. rewrite E, <- app_assoc. done.
Qed.

Lemma hist_exact l s : 0 < ft -> 0 < st -> alike s {| up := false; streak := 0 |} -> up (fold_left histStep l s) = true <-> healthySince l.
Proof.
  intros Hf Hs Ha. destruct (decide (ReportedDown ∈ l)) as [Hin|Hn]; [|by apply hist_checks].
  apply list_elem_of_split_r in Hin as (l1 & l2 & -> & Hn). rewrite healthySince_after by done. rewrite fold_left_app. cbn [fold_left].
  apply hist_checks; [done..|]. split; [done|]. split; [done|]. cbn. lia.
Qed.
End Histories.

(** C6: an endpoint is healthy exactly when at some point [SuccessThreshold] checks in a
    row succeeded, with no failure reported by the data path between them, and since then
    no failure was reported and no [FailThreshold] checks in a row failed: whatever the
    round-trip times, the clock and the jitter were, and from any state in which nothing
    has been counted yet. Without background probes an endpoint, which starts healthy, is
    healthy exactly until the first report. *)
Theorem hc_health_exact (hcc : HealthcheckConfig) (name proto : bytes) (es : list hcEvent) (h : hcState)
    (Hft : 0 < FailThreshold hcc) (Hst : 0 < SuccessThreshold hcc) (Hlen : zlen es <= maxInt64)
    (Hnew : healthy h = false /\ failCount h = 0 /\ successCount h = 0) :
  (healthy (fold_left (runEvent hcc name proto) es h) = true <->
   exists pre post, outcomes es = pre ++ replicate (Z.to_nat (SuccessThreshold hcc)) Succeeded ++ post
     /\ ReportedDown ∉ post
     /\ forall a b, post <> a ++ replicate (Z.to_nat (FailThreshold hcc)) Failed ++ b)
  /\ (forall clock, Forall (fun e => outcomeOf e <> Some Succeeded /\ outcomeOf e <> Some Failed) es ->
       healthy (fold_left (runEvent hcc name proto) es (forceUp clock h)) = true <-> ReportedDown ∉ outcomes es).
Proof.
  destruct Hnew as (Hh & Hf & Hs). split.
  - change (healthy ?x) with (up (absHC x)). rewrite run_refines by (unfold countersOk; rewrite Hf, Hs; lia).
    apply hist_exact; [done..|]. unfold alike, absHC. by rewrite Hh, Hf, Hs.
  - intros clock Hq. assert (Hu : healthy (forceUp clock h) = true) by done. revert Hu. generalize (forceUp clock h). clear h Hh Hf Hs Hlen.
    induction Hq as [|e es [He1 He2] Hq IH]; intros h Hu; [cbn; rewrite elem_of_nil; tauto|]. cbn [fold_left].
    destruct e as [c|rng now err|b|now]; cbn in He1, He2; [by destruct (isOk (ck_err c))|..|by apply IH|by apply IH].
    unfold outcomes. cbn [omap list_omap outcomeOf runEvent]. rewrite elem_of_cons. split; [|tauto].
    intros E. exfalso. enough (Hd : forall h, healthy h = false -> healthy (fold_left (runEvent hcc name proto) es h) = false)
      by (by rewrite Hd in E).
    clear -Hq. induction Hq as [|e es [He1 He2] Hq IH]; intros h Hh; [done|]. apply IH.
    destruct e as [c|rng now err|b|now]; cbn in He1, He2 |- *; [by destruct (isOk (ck_err c))|done..].
Qed.

(** C16: however ticks, checks and the data path interleave, at most two
    checks hold a probe slot and at most four dial; an endpoint is marked in flight
    exactly from the start of its one check until its result is applied; and a check with a probe slot never waits for
    a dial slot. *)
Theorem probe_scheduler_bounds {C : Type} (now : Z) (ups : list UpstreamConfig) (h : HealthcheckConfig)
    (se : SelectionConfig) (pr : ProbeConfig) (fw : Z) (st : sstate C)
    (Hrun : rtc sstep (SState (RunHealthChecks_init now (NewLoadBalancer ups h se pr fw)) []) st) :
  countb holdsProbe (ss_checks st) <= 2
  /\ countb holdsDial (ss_checks st) <= 4
  /\ (forall t i, countb (isFor t i) (ss_checks st)
       = match pool (ss_lb st) !! i with Some s => if inFlight (endpoint t s) then 1 else 0 | None => 0 end)
  /\ (forall t i p, In (Chk t i p) (ss_checks st) -> p <> CWait -> p <> CDial -> (forall rtt, p <> CQual rtt) ->
       is_Some (acquireProbeDialSlot (ss_lb st))).
Proof.
  assert (Hok : schedOk st) by (eapply schedOk_steps; [exact Hrun|apply idle_schedOk, new_idle]).
  pose proof Hok as [H1 H2 H3 H4 H5]. rewrite <- H1, <- H3. do 3 (split; [done|]).
  intros t i p Hin Hw Hd Hq. eapply dial_slot_free; [done..| |]; destruct p; try done. by destruct (Hq rtt).
Qed.

(** A check changes the endpoint it is about and nothing else: its mark is
    removed, its cooldown is lifted exactly when it is healthy afterwards, a failed
    transport probe never makes it healthy, and a failed quality probe has the
    effect of a check without one. *)
Theorem check_changes_one_endpoint {C : Type} (durString : Z -> string) (rng : Z -> Z) (isTCP : bool)
    (since now now' : Z) (p : probes) (i : nat) (lb : LoadBalancer C) (s : UpstreamState C)
    (Hs : pool lb !! i = Some s) :
  let lb' := fst (checkOne durString rng isTCP since now now' p i lb) in
  exists s', pool lb' !! i = Some s'
  /\ (forall j, j <> i -> pool lb' !! j = pool lb !! j)
  /\ endpoint (negb isTCP) s' = endpoint (negb isTCP) s /\ cooldown (negb isTCP) s' = cooldown (negb isTCP) s
  /\ inFlight (endpoint isTCP s') = false
  /\ cooldown isTCP s' = (if healthy (endpoint isTCP s') then timeZero else cooldown isTCP s)
  /\ (forall e, p_transport p = inr e -> healthy (endpoint isTCP s') = true -> healthy (endpoint isTCP s) = true)
  /\ (forall rtt e, p_transport p = inl rtt -> p_quality p = inr e ->
       endpoint isTCP s' = setInFlight (fst (applyHCResult (hc lb) rng now now' None rtt (Name (cfg s))
         (protoName isTCP) (endpoint isTCP s))) false).
Proof.
  intros lb'. pose proof (checkOne_pool durString rng isTCP since now now' p i lb s Hs) as Hp.
  destruct (checkOutcome durString isTCP since s lb p) as [[err rtt] evs] eqn:Eo. cbv zeta in Hp. fold lb' in Hp.
  rewrite Hp. pose proof (lookup_lt_Some _ _ _ Hs). eexists. split; [by apply list_lookup_insert_eq|].
  split; [intros; by apply list_lookup_insert_ne|]. unfold checkOutcome in Eo.
  assert (Hfail : forall e, p_transport p = inr e -> is_Some err)
    by (intros e E; rewrite E in Eo; simplify_eq; by eexists).
  assert (Hqual : forall rtt' e, p_transport p = inl rtt' -> p_quality p = inr e -> err = None /\ rtt = rtt')
    by (intros rtt' e E E'; rewrite E, E' in Eo; destruct (qualityEnabled _ _); by simplify_eq).
  clear Eo. destruct isTCP; (split; [done|split; [done|split; [done|split; [done|]]]]);
    (split; [intros e E|intros rtt' e E E'; by destruct (Hqual rtt' e E E') as [-> ->]]);
    destruct (Hfail e E) as [e' ->]; simpl; by destruct (FailThreshold _ <=? _).
Qed.

(** Two upstreams at time 0: both checks of each are launched and the first gets its slot. *)
Definition probingDemo : LoadBalancer unit :=
  RunHealthChecks_init 0
    (NewLoadBalancer [upDemo "a"; upDemo "b"] hcDemo (selDefaults (Selection zeroConfig)) (Probe zeroConfig) 0).

Lemma probe_scheduler_bounds_witness :
  let lb := fst (runDueChecks 0 probingDemo) in
  let cs := (fun '(t, i) => Chk t i CWait) <$> [(false, 0%nat); (true, 1%nat); (false, 1%nat)] in
  countb holdsProbe (Chk true 0 CSlot :: cs) <= 2.
Proof.
  refine (proj1 (probe_scheduler_bounds 0 [upDemo "a"; upDemo "b"] hcDemo (selDefaults (Selection zeroConfig))
    (Probe zeroConfig) 0 (SState (setSems (fst (runDueChecks 0 probingDemo)) 0 1 0) (Chk true 0 CSlot :: _)) _)).
  eapply rtc_l; [apply StCheck, (StTick 0 0 _ (fst (launchAt 0 0 probingDemo)) [(true, 0%nat); (false, 0%nat)] []); vm_compute; reflexivity|].
  eapply rtc_l; [apply StCheck, (StTick 0 1 _ (fst (runDueChecks 0 probingDemo)) [(true, 1%nat); (false, 1%nat)]); vm_compute; reflexivity|].
  eapply rtc_l; [apply StCheck, (StSlot true 0 _ (setSems (fst (runDueChecks 0 probingDemo)) 0 1 0) []); vm_compute; reflexivity|].
  apply rtc_refl.
Defined.

Lemma check_changes_one_endpoint_witness :
  let p := {| p_transport := inl 7; p_transportDur := 7; p_quality := inr io_EOF; p_qualityDur := 1 |} in
  let lb' := fst (checkOne (fun _ => "1s"%string) (fun _ => 0) true 9 100 101 p 1 probingDemo) in
  exists s', pool lb' !! 1%nat = Some s' /\ pool lb' !! 0%nat = pool probingDemo !! 0%nat.
Proof.
  intros p lb'. destruct (pool probingDemo !! 1%nat) as [s|] eqn:Es; [|vm_compute in Es; discriminate Es].
  destruct (check_changes_one_endpoint (fun _ => "1s"%string) (fun _ => 0) true 9 100 101 p 1 probingDemo s Es)
    as (s' & H1 & H2 & _).
  exists s'. split; [exact H1|]. apply H2. discriminate.
Defined.

(** One success, the default threshold, and one failure; without probes, no report. *)
Lemma hc_health_exact_witness :
  let es := [Due 0; Marked true; Checked (ckDemo None); Checked (ckDemo (Some io_EOF))] in
  healthy (fold_left (runEvent hcDemo [] []) es hcZero) = true
  /\ healthy (fold_left (runEvent hcDemo [] []) [Reported (fun _ => 0) 7 (Some io_EOF)] (forceUp 3 hcZero)) <> true.
Proof.
  split.
  - apply hc_health_exact; [vm_compute; congruence..|by repeat split|]. exists [], [Failed]. split; [reflexivity|].
    split; [by rewrite list_elem_of_singleton|]. intros a b E. apply (f_equal length) in E. rewrite !length_app, length_replicate in E.
    change (Z.to_nat (FailThreshold hcDemo)) with 2%nat in E. cbn in E. lia.
  - intros H. apply hc_health_exact in H; [|vm_compute; congruence..|by repeat split|by repeat constructor].
    apply H. apply list_elem_of_here.
Defined.
