(* ===== verification/ActiveProbe.v ===== *)
(** * Active probes

    src/internal/active_probe.go: the quality probes that the health checks run
    through an upstream, a HEAD request over TCP and a DNS query over UDP. The
    dialled connection and the cipher are given by what their calls return, and
    [socks.ParseAddr] and its error of go-shadowsocks2 are parameters. *)

From S2P Require Import Prelude GoNet Metrics GoURL SocksAddr.

(** ** The DNS query *)

(** [strings.TrimSuffix(s, ".")]. *)
Definition trimDot (s : bytes) : bytes :=
  match last s with
  | Some c => if bool_decide (c = cDot) then take (length s - 1) s else s
  | None => s
  end.

(** [buildDNSQuery(txid, name, qtype)]. *)
Definition buildDNSQuery (txid : Z) (name : bytes) (qtype : Z) : bytes :=
  let b := be_bytes 2 txid ++ be_bytes 2 0x0100 ++ be_bytes 2 1 ++ replicate 6 Byte.x00 in
  let b := fold_left (fun b lab =>
      if (zlen lab =? 0) || (63 <? zlen lab) then b else b ++ [z2b (zlen lab)] ++ lab) (split cDot (trimDot name)) b in
  b ++ [Byte.x00] ++ [z2b (Z.shiftr qtype 8); z2b qtype; Byte.x00; Byte.x01].

(** ** What the probes do *)

Inductive probeAct := PDialWS (url : bytes) | PSend (b : bytes) | PCloseCipher | PCloseWS (reason : string).

(** What the calls return: [core.PickCipher], [DialWSStream], the [k]-th write, and the
    time since the start. *)
Record probeEnv := {
  pe_cipher : option gerror; pe_dial : option gerror; pe_write : nat -> option gerror; pe_rtt : Z }.

Section Probe.
Context (P : probeEnv) (ParseAddr : bytes -> option bytes) (ErrAddressNotSupported : gerror).

(** The deferred calls, last first. *)
Definition closing (reason : string) : list probeAct := [PCloseCipher; PCloseWS reason].

(** *** TCP *)

(** [io.ReadAtLeast(ssconn, buf, 5)] with a buffer of 16 bytes: [reads] is what the
    connection's [Read] returns, [io.EOF] after that. *)
Fixpoint readAtLeast (minN cap : nat) (got : bytes) (reads : list (bytes * option gerror)) : res bytes :=
  if (minN <=? length got)%nat then Ok got
  else match reads with
  | [] => Err (shortReadErr got io_EOF)
  | (b, err) :: reads =>
      let got := got ++ take (cap - length got) b in
      match err with
      | None => readAtLeast minN cap got reads
      | Some e => if (minN <=? length got)%nat then Ok got else Err (shortReadErr got e)
      end
  end.

Definition headRequest (target : bytes) : bytes :=
  let host := match SplitHostPort target with Ok (h, _) => h | _ => target end in
  let crlf := [Byte.x0d; Byte.x0a] in
  str2b "HEAD / HTTP/1.1" ++ crlf ++ str2b "Host: " ++ host ++ crlf ++ str2b "Connection: close" ++ crlf ++ crlf.

(** [ProbeTCPQuality(ctx, up, target, fwmark)]. *)
Definition ProbeTCPQuality (url target : bytes) (reads : list (bytes * option gerror)) : res Z * list probeAct :=
  match pe_cipher P with
  | Some e => (Err e, [])
  | None =>
      match pe_dial P with
      | Some e => (Err e, [PDialWS url])
      | None =>
          let finish r sent := (r, PDialWS url :: (PSend <$> sent) ++ closing "tcp-probe") in
          match ParseAddr target with
          | None => finish (Err ErrAddressNotSupported) []
          | Some tgt =>
              match pe_write P 0 with
              | Some e => finish (Err e) []
              | None =>
                  match pe_write P 1 with
                  | Some e => finish (Err e) [tgt]
                  | None =>
                      finish (match readAtLeast 5 16 [] reads with
                              | Ok got => if hasPrefix "HTTP/" got then Ok (pe_rtt P) else Err (errMsg "tcp probe: unexpected response")
                              | Err e => Err e
                              | Panic w => Panic w
                              end) [tgt; headRequest target]
                  end
              end
          end
      end
  end.

(** *** UDP *)

(** The tests of the loop on a datagram. *)
Definition isReply (txid : Z) (p : bytes) : res bool :=
  match parseSocksAddrFromPlain p with
  | Panic w => Panic w
  | Err _ => Ok false
  | Ok (_, _, off) =>
      if (length p <=? off)%nat then Ok false
      else
        let dns := drop off p in
        if (length dns <? 12)%nat then Ok false
        else
          let rxid := be_val (take 2 dns) in
          let flags := be_val (take 2 (drop 2 dns)) in
          let qr := Z.land (Z.shiftr flags 15) 1 in
          Ok ((rxid =? txid) && (qr =? 1))
  end.

(** The loop: [ps] is what [ReadFrom] returns, then it fails with [rerr]. *)
Fixpoint awaitReply (txid : Z) (ps : list bytes) (rerr : gerror) : res Z :=
  match ps with
  | [] => Err rerr
  | p :: ps =>
      match isReply txid p with
      | Ok true => Ok (pe_rtt P)
      | Ok false => awaitReply txid ps rerr
      | Err e => Err e
      | Panic w => Panic w
      end
  end.

(** [strings.ToUpper(dnstype) == "AAAA"]. *)
Definition wantsAAAA (dnstype : bytes) : bool := bool_decide (toLower dnstype = str2b "aaaa").

(** [ProbeUDPQuality(ctx, up, dnsServer, name, dnstype, fwmark)]; [nano] is the clock. *)
Definition ProbeUDPQuality (url dnsServer name dnstype : bytes) (nano : Z) (ps : list bytes) (rerr : gerror) : res Z * list probeAct :=
  match pe_cipher P with
  | Some e => (Err e, [])
  | None =>
      match pe_dial P with
      | Some e => (Err e, [PDialWS url])
      | None =>
          let finish r sent := (r, PDialWS url :: (PSend <$> sent) ++ closing "udp-probe") in
          let txid := u16 nano in
          let qtype := if wantsAAAA dnstype then 28 else 1 in
          let q := buildDNSQuery txid name qtype in
          match ParseAddr dnsServer with
          | None => finish (Err ErrAddressNotSupported) []
          | Some dst =>
              match pe_write P 0 with
              | Some e => finish (Err e) []
              | None => finish (awaitReply txid ps rerr) [dst ++ q]
              end
          end
      end
  end.
End Probe.

(** ** Specification *)

(** A DNS message with one question, read by RFC 1035. *)
Record dnsQuestion := DNS { d_id : Z; d_flags : Z; d_counts : list Z; d_labels : list bytes; d_qtype : Z; d_qclass : Z }.

Fixpoint readName (fuel : nat) (b : bytes) : option (list bytes * bytes) :=
  match fuel, b with
  | S k, l :: b =>
      let n := Z.to_nat (b2z l) in
      if (n =? 0)%nat then Some ([], b)
      else if (63 <? n)%nat || (length b <? n)%nat then None
      else '(ls, r) ← readName k (drop n b); Some (take n b :: ls, r)
  | _, _ => None
  end.
Definition readQuestion (b : bytes) : option dnsQuestion :=
  if (length b <? 12)%nat then None
  else
    let word i := be_val (take 2 (drop i b)) in
    match readName (length b) (drop 12 b) with
    | Some (ls, [t1; t2; c1; c2]) => Some (DNS (word 0%nat) (word 2%nat) [word 4%nat; word 6%nat; word 8%nat; word 10%nat] ls (be_val [t1; t2]) (be_val [c1; c2]))
    | _ => None
    end.

(** The labels that can be sent. *)
Definition sendable (lab : bytes) : Prop := (0 < length lab <= 63)%nat.
#[global] Instance sendable_dec lab : Decision (sendable lab).
Proof. unfold sendable. apply _. Defined.

(** A datagram that answers the query: a SOCKS address, then a DNS message with the
    same id and the response bit. *)
Definition answersQuery (txid : Z) (p : bytes) : Prop :=
  exists a port dns, p = encodeAddr a port ++ dns /\ addrWF a /\ 0 <= port < 65536
  /\ (12 <= length dns)%nat /\ be_val (take 2 dns) = txid /\ Z.testbit (be_val (take 2 (drop 2 dns))) 15 = true.

(** ** Lemmas *)

Lemma query_labels b labs :
  fold_left (fun b lab => if (zlen lab =? 0) || (63 <? zlen lab) then b else b ++ [z2b (zlen lab)] ++ lab) labs b
  = b ++ (filter sendable labs ≫= fun lab => z2b (zlen lab) :: lab).
Proof.
  revert b. induction labs as [|lab labs IH]; intros b; [by rewrite app_nil_r|]. cbn [fold_left].
  rewrite filter_cons. unfold sendable, zlen in *. destruct (decide _) as [Hs|Hs].
  - replace ((Z.of_nat (length lab) =? 0) || (63 <? Z.of_nat (length lab))) with false by (symmetry; apply orb_false_iff; split; [apply Z.eqb_neq|apply Z.ltb_ge]; lia).
    rewrite IH. cbn [mbind list_bind]. by rewrite <- !app_assoc.
  - replace ((Z.of_nat (length lab) =? 0) || (63 <? Z.of_nat (length lab))) with true; [apply IH|].
    symmetry. apply orb_true_iff. destruct (length lab) eqn:El; [by left|right]. apply Z.ltb_lt. lia.
Qed.

Lemma readName_labels fuel labs r :
  Forall sendable labs -> (length labs < fuel)%nat ->
  readName fuel ((labs ≫= fun lab => z2b (zlen lab) :: lab) ++ Byte.x00 :: r) = Some (labs, r).
Proof.
  intros Hs. revert fuel. induction Hs as [|lab labs Hl Hs IH]; intros [|k] Hf; cbn [length] in *; try lia; [done|].
  cbn [mbind list_bind app readName]. unfold sendable in Hl. rewrite b2z_z2b_small by (unfold zlen; lia).
  unfold zlen. rewrite Nat2Z.id. rewrite (proj2 (Nat.eqb_neq (length lab) 0)) by lia.
  rewrite <- app_assoc, length_app. rewrite (proj2 (Nat.ltb_ge 63 (length lab))), (proj2 (Nat.ltb_ge (length lab + _) (length lab))) by lia.
  cbn [orb]. rewrite drop_app_length, take_app_length. fold (mbind (M := list) (fun lab : bytes => z2b (zlen lab) :: lab) labs).
  rewrite IH by lia. done.
Qed.

Lemma length_labels labs : Forall sendable labs -> (length labs <= length (labs ≫= fun lab => z2b (zlen lab) :: lab))%nat.
Proof. induction 1 as [|lab labs _ _ IH]; [done|]. cbn [mbind list_bind app length] in *. rewrite length_app. lia. Qed.

Lemma trimDot_snoc s : trimDot (s ++ [cDot]) = s.
Proof.
  unfold trimDot. rewrite last_snoc, bool_decide_true by done. rewrite length_app, Nat.add_sub. by rewrite take_app_length.
Qed.
Lemma trimDot_id s : last s <> Some cDot -> trimDot s = s.
Proof. intros H. unfold trimDot. destruct (last s) as [c|]; [|done]. rewrite bool_decide_false by congruence. done. Qed.

Lemma isReply_spec txid p : exists b, isReply txid p = Ok b /\ (b = true <-> answersQuery txid p).
Proof.
  unfold isReply, parseSocksAddrFromPlain. destruct (parseSocksAddrAt_cases [] p) as [(a & port & rest & Hw & Hp & E)|[e He]].
  - cbn [app] in E. subst p. pose proof (parseSocksAddrAt_encode [] a port rest Hw Hp) as Ea. cbn [app length Nat.add] in Ea. rewrite Ea.
    assert (Hiff : answersQuery txid (encodeAddr a port ++ rest) <->
      (12 <= length rest)%nat /\ be_val (take 2 rest) = txid /\ Z.testbit (be_val (take 2 (drop 2 rest))) 15 = true).
    { split; [|intros (H1 & H2 & H3); by exists a, port, rest].
      intros (a' & port' & dns & Eq & Hw' & Hp' & H). pose proof (parseSocksAddrAt_encode [] a' port' dns Hw' Hp') as Ea'.
      cbn [app length Nat.add] in Ea'. rewrite <- Eq, Ea in Ea'. assert (Hlen : length (encodeAddr a port) = length (encodeAddr a' port')) by congruence.
      apply app_inj_1 in Eq as [_ ->]; done. }
    rewrite length_app, drop_app_length. destruct (length (encodeAddr a port) + length rest <=? length (encodeAddr a port))%nat eqn:E1.
    { apply Nat.leb_le in E1. exists false. split; [done|]. rewrite Hiff. split; [done|]. intros [H _]. lia. }
    destruct (length rest <? 12)%nat eqn:E2.
    { apply Nat.ltb_lt in E2. exists false. split; [done|]. rewrite Hiff. split; [done|]. intros [H _]. lia. }
    apply Nat.ltb_ge in E2. eexists. split; [reflexivity|]. rewrite Hiff, andb_true_iff, Z.eqb_eq.
    replace (Z.land (Z.shiftr (be_val (take 2 (drop 2 rest))) 15) 1 =? 1) with (Z.testbit (be_val (take 2 (drop 2 rest))) 15); [tauto|].
    rewrite (Z.land_ones _ 1), Z.pow_1_r, <- Z.bit0_mod, Z.shiftr_spec, Z.add_0_l by lia. by destruct (Z.testbit _ 15).
  - cbn [app length] in He. rewrite He. exists false. split; [done|]. split; [done|].
    intros (a & port & dns & -> & Hw & Hp & _). pose proof (parseSocksAddrAt_encode [] a port dns Hw Hp) as Ea. cbn [app length] in Ea. by rewrite Ea in He.
Qed.

Lemma awaitReply_spec P txid ps rerr :
  (Exists (answersQuery txid) ps /\ awaitReply P txid ps rerr = Ok (pe_rtt P))
  \/ (Forall (fun p => ~ answersQuery txid p) ps /\ awaitReply P txid ps rerr = Err rerr).
Proof.
  induction ps as [|p ps IH]; [by right|]. cbn [awaitReply]. destruct (isReply_spec txid p) as ([|] & -> & Hb).
  - left. split; [|done]. left. by apply Hb.
  - destruct IH as [[H ->]|[H ->]]; [left|right]; (split; [|done]); [by right|]. constructor; [|done]. intros Ha. by apply Hb in Ha.
Qed.

(** What the reads before the first failure bring. *)
Fixpoint readBytes (reads : list (bytes * option gerror)) : bytes :=
  match reads with
  | [] => []
  | (b, None) :: reads => b ++ readBytes reads
  | (b, Some _) :: _ => b
  end.

Lemma readAtLeast_spec minN cap got reads :
  (minN <= cap)%nat -> (length got <= cap)%nat ->
  if (minN <=? length (got ++ readBytes reads))%nat
  then exists r, readAtLeast minN cap got reads = Ok r /\ (minN <= length r)%nat /\ r `prefix_of` got ++ readBytes reads
  else exists e, readAtLeast minN cap got reads = Err e.
Proof.
  intros Hc. revert got. induction reads as [|[b err] reads IH]; intros got Hg; cbn [readAtLeast readBytes].
  { rewrite app_nil_r. destruct (minN <=? length got)%nat eqn:E; [|by eexists]. apply Nat.leb_le in E. by exists got. }
  destruct (minN <=? length got)%nat eqn:E.
  { apply Nat.leb_le in E. rewrite (proj2 (Nat.leb_le _ _)) by (rewrite length_app; lia). exists got. split; [done|]. split; [done|]. by eexists. }
  apply Nat.leb_gt in E. set (b1 := take (cap - length got) b). set (g1 := got ++ b1).
  assert (Hg1 : (length g1 <= cap)%nat) by (unfold g1, b1; rewrite length_app, length_take; lia).
  assert (Hfull : b1 = b \/ (minN <= length g1)%nat).
  { unfold g1, b1. rewrite length_app, length_take. destruct (decide (length b <= cap - length got)%nat); [left; by apply take_ge|right; lia]. }
  assert (Hpre : forall tl, g1 `prefix_of` got ++ b ++ tl).
  { intros tl. apply prefix_app. etrans; [|by apply prefix_app_r]. unfold b1. apply prefix_take. }
  destruct err as [e|].
  - specialize (Hpre []). rewrite app_nil_r in Hpre. destruct (minN <=? length g1)%nat eqn:E1.
    + apply Nat.leb_le in E1. pose proof (prefix_length _ _ Hpre). rewrite (proj2 (Nat.leb_le minN (length (got ++ b)))) by lia. by exists g1.
    + destruct Hfull as [Hb|H]; [|apply Nat.leb_gt in E1; lia]. unfold g1 in E1. rewrite Hb in E1. rewrite E1. by eexists.
  - specialize (IH g1 Hg1). destruct Hfull as [Hb|H].
    + unfold g1 in *. rewrite Hb in *. by rewrite <- app_assoc in IH.
    + specialize (Hpre (readBytes reads)). pose proof (prefix_length _ _ Hpre) as Hlen. rewrite (proj2 (Nat.leb_le minN (length (got ++ b ++ readBytes reads)))) by lia.
      exists g1. destruct reads as [|[b' e'] reads']; cbn [readAtLeast]; rewrite (proj2 (Nat.leb_le minN (length g1))) by done; done.
Qed.

Lemma isPrefix_spec p s : isPrefix p s = true <-> p `prefix_of` s.
Proof.
  revert s. induction p as [|a p IH]; intros [|b s]; cbn [isPrefix]; split; intros H; try done.
  - apply prefix_nil.
  - by apply prefix_nil_not in H.
  - apply andb_true_iff in H as [->%bool_decide_eq_true H]. by apply prefix_cons, IH.
  - pose proof (prefix_cons_inv_1 _ _ _ _ H) as ->. apply prefix_cons_inv_2 in H. rewrite bool_decide_true by done. by apply IH.
Qed.

Lemma filter_sendable labs : Forall sendable labs -> filter sendable labs = labs.
Proof. induction 1 as [|lab labs Hl _ IH]; [done|]. rewrite filter_cons, decide_True by done. by rewrite IH. Qed.

(** A joined name does not end in a dot. *)
Lemma last_joinWith labs :
  labs <> [] -> Forall (fun lab => sendable lab /\ cDot ∉ lab) labs -> last (joinWith [cDot] labs) <> Some cDot.
Proof.
  intros Hne Hlabs. destruct labs as [|x l _] using rev_ind; [done|]. apply Forall_app in Hlabs as [_ Hx].
  apply Forall_cons in Hx as [[Hs Hd] _]. intros Hl. apply Hd.
  destruct x as [|c x _] using rev_ind; [unfold sendable in Hs; cbn in Hs; lia|].
  assert (Hj : exists pre, joinWith [cDot] (l ++ [x ++ [c]]) = pre ++ x ++ [c]).
  { destruct l as [|y l]; [exists []; cbn; by rewrite !app_nil_r|]. cbn [app joinWith]. rewrite bind_app.
    exists (y ++ (l ≫= fun z => [cDot] ++ z) ++ [cDot]). cbn. rewrite app_nil_r. by rewrite <- !app_assoc. }
  destruct Hj as [pre Ej]. rewrite Ej, app_assoc, last_snoc in Hl. injection Hl as ->. set_solver.
Qed.

(** ** Properties *)

(** The DNS query is a well-formed message with one question: a reader of RFC 1035
    finds the id, recursion desired, one question and no other record, the labels of
    the name that can be sent (none is empty or longer than 63 bytes), the type and
    class IN; for a host name, with or without the final dot, these are its labels. *)
Theorem dns_query_roundtrip (txid qtype : Z) (name : bytes) (labs : list bytes)
    (Htx : 0 <= txid < 2 ^ 16) (Hqt : 0 <= qtype < 2 ^ 16)
    (Hne : labs <> []) (Hlabs : Forall (fun lab => sendable lab /\ cDot ∉ lab) labs) :
  readQuestion (buildDNSQuery txid name qtype)
  = Some (DNS txid 0x0100 [1; 0; 0; 0] (filter sendable (split cDot (trimDot name))) qtype 1)
  /\ (name = joinWith [cDot] labs \/ name = joinWith [cDot] labs ++ [cDot] ->
      filter sendable (split cDot (trimDot name)) = labs).
Proof.
  split.
  - unfold buildDNSQuery. cbv zeta. rewrite query_labels. set (ls := filter sendable _).
    assert (Hls : Forall sendable ls). { apply Forall_forall. intros l Hl. by apply list_elem_of_filter in Hl as [? _]. }
    set (hdr := be_bytes 2 txid ++ _). assert (Hhdr : length hdr = 12%nat) by done. rewrite <- app_assoc.
    set (qname := ls ≫= _). set (tail := [z2b (Z.shiftr qtype 8); z2b qtype; Byte.x00; Byte.x01]). unfold readQuestion.
    rewrite (proj2 (Nat.ltb_ge _ _)) by (rewrite length_app; lia). rewrite drop_app_length' by done.
    change ([Byte.x00] ++ tail) with (Byte.x00 :: tail). unfold qname.
    rewrite readName_labels by (try done; rewrite !length_app; pose proof (length_labels ls Hls); cbn [length]; lia). unfold tail.
    assert (Eq : be_val [z2b (Z.shiftr qtype 8); z2b qtype] = qtype) by (apply (be_val_be_bytes 2); done). rewrite Eq.
    assert (Et : be_val (take 2 (drop 0 (hdr ++ (ls ≫= fun lab => z2b (zlen lab) :: lab) ++ Byte.x00 :: tail))) = txid)
      by (apply (be_val_be_bytes 2); done). unfold tail in Et. rewrite Et. reflexivity.
  - assert (Hdots : Forall (fun lab => cDot ∉ lab) labs) by (eapply Forall_impl; [exact Hlabs|]; by intros ? []).
    assert (Hsend : filter sendable labs = labs) by (apply filter_sendable; eapply Forall_impl; [exact Hlabs|]; by intros ? []).
    pose proof (last_joinWith labs Hne Hlabs) as Hlast.
    intros [->| ->]; rewrite ?trimDot_snoc, ?(trimDot_id _ Hlast); by rewrite split_joinWith.
Qed.

(** The UDP probe sends one datagram, the query behind the server's address, and
    succeeds exactly when a datagram that answers it comes before the connection
    fails; it never panics, and the connection is closed however it ends. *)
Theorem udp_probe_exact (P : probeEnv) (ParseAddr : bytes -> option bytes) (eAddr : gerror)
    (url server name dnstype : bytes) (nano : Z) (ps : list bytes) (rerr : gerror) :
  let '(r, acts) := ProbeUDPQuality P ParseAddr eAddr url server name dnstype nano ps rerr in
  (forall d, r = Ok d <-> d = pe_rtt P /\ pe_cipher P = None /\ pe_dial P = None /\ is_Some (ParseAddr server)
     /\ pe_write P 0 = None /\ Exists (answersQuery (u16 nano)) ps)
  /\ (forall w, r <> Panic w)
  /\ (pe_cipher P = None -> pe_dial P = None -> exists sent,
        acts = PDialWS url :: sent ++ [PCloseCipher; PCloseWS "udp-probe"]
        /\ (sent = [] \/ exists dst, ParseAddr server = Some dst
              /\ sent = [PSend (dst ++ buildDNSQuery (u16 nano) name (if wantsAAAA dnstype then 28 else 1))])).
Proof.
  unfold ProbeUDPQuality. destruct (pe_cipher P); [naive_solver|]. destruct (pe_dial P); [naive_solver|].
  destruct (ParseAddr server) as [dst|]; cbv zeta.
  2:{ split; [split; [done|]; intros (_ & _ & _ & [? ?] & _); done|]. split; [done|]. intros _ _. exists []. auto. }
  destruct (pe_write P 0).
  { split; [naive_solver|]. split; [done|]. intros _ _. exists []. auto. }
  destruct (awaitReply_spec P (u16 nano) ps rerr) as [[Hx ->]|[Hx ->]].
  - split; [intros d; split; [intros [= <-]; eauto 8|by intros [-> _]]|]. split; [done|]. intros _ _. eexists. split; [reflexivity|]. right. by eexists.
  - split; [intros d; split; [done|]|split; [done|]].
    + intros (_ & _ & _ & _ & _ & Hex). apply Exists_exists in Hex as (p & Hin & Hp). by eapply Forall_forall in Hx.
    + intros _ _. eexists. split; [reflexivity|]. right. by eexists.
Qed.

(** The TCP probe sends the target's address and then the request, and succeeds
    exactly when the first five bytes that come before the connection fails are
    "HTTP/", however the connection cuts them; it never panics, and the connection is
    closed however it ends. *)
Theorem tcp_probe_exact (P : probeEnv) (ParseAddr : bytes -> option bytes) (eAddr : gerror)
    (url target : bytes) (reads : list (bytes * option gerror)) :
  let '(r, acts) := ProbeTCPQuality P ParseAddr eAddr url target reads in
  (forall d, r = Ok d <-> d = pe_rtt P /\ pe_cipher P = None /\ pe_dial P = None /\ is_Some (ParseAddr target)
     /\ pe_write P 0 = None /\ pe_write P 1 = None /\ str2b "HTTP/" `prefix_of` readBytes reads)
  /\ (forall w, r <> Panic w)
  /\ (pe_cipher P = None -> pe_dial P = None -> exists sent,
        acts = PDialWS url :: sent ++ [PCloseCipher; PCloseWS "tcp-probe"]
        /\ (sent = [] \/ exists tgt, ParseAddr target = Some tgt /\ sent `prefix_of` [PSend tgt; PSend (headRequest target)])).
Proof.
  unfold ProbeTCPQuality. destruct (pe_cipher P); [naive_solver|]. destruct (pe_dial P); [naive_solver|].
  destruct (ParseAddr target) as [tgt|]; cbv zeta.
  2:{ split; [split; [done|]; intros (_ & _ & _ & [? ?] & _); done|]. split; [done|]. intros _ _. exists []. auto. }
  destruct (pe_write P 0).
  { split; [naive_solver|]. split; [done|]. intros _ _. exists []. auto. }
  assert (Hsent : forall l, l `prefix_of` [PSend tgt; PSend (headRequest target)] -> exists sent,
    PDialWS url :: l ++ closing "tcp-probe" = PDialWS url :: sent ++ [PCloseCipher; PCloseWS "tcp-probe"]
    /\ (sent = [] \/ exists tgt0, Some tgt = Some tgt0 /\ sent `prefix_of` [PSend tgt0; PSend (headRequest target)])).
  { intros l Hl. exists l. split; [done|]. right. by exists tgt. }
  destruct (pe_write P 1).
  { split; [naive_solver|]. split; [done|]. intros _ _. apply Hsent. by eexists. }
  pose proof (readAtLeast_spec 5 16 [] reads ltac:(lia) ltac:(cbn; lia)) as Hr. cbn [app] in Hr.
  destruct (5 <=? length (readBytes reads))%nat eqn:El.
  - apply Nat.leb_le in El. destruct Hr as (got & -> & Hg & Hpre).
    assert (Hiff : hasPrefix "HTTP/" got = true <-> str2b "HTTP/" `prefix_of` readBytes reads).
    { unfold hasPrefix. rewrite isPrefix_spec. split; [by intros; etrans|]. intros H.
      destruct (prefix_weak_total _ _ _ H Hpre) as [H1|H1]; [done|]. apply prefix_length_eq in H1; [by rewrite H1|cbn; lia]. }
    destruct (hasPrefix "HTTP/" got); (split; [intros d; split|]).
    + intros [= <-]. repeat split; try done. by apply Hiff.
    + by intros [-> _].
    + split; [done|]. intros _ _. by apply Hsent.
    + done.
    + intros (_ & _ & _ & _ & _ & _ & H). by apply Hiff in H.
    + split; [done|]. intros _ _. by apply Hsent.
  - apply Nat.leb_gt in El. destruct Hr as (e & ->). split; [intros d; split; [done|]|split; [done|]].
    + intros (_ & _ & _ & _ & _ & _ & H). apply prefix_length in H. cbn in H. lia.
    + intros _ _. by apply Hsent.
Qed.

Lemma dns_query_roundtrip_witness :
  readQuestion (buildDNSQuery 0xbeef (str2b "example.com.") 28)
  = Some (DNS 0xbeef 0x0100 [1; 0; 0; 0] [str2b "example"; str2b "com"] 28 1).
Proof.
  destruct (dns_query_roundtrip 0xbeef 28 (str2b "example.com.") [str2b "example"; str2b "com"]) as [H1 H2].
  - lia.
  - lia.
  - discriminate.
  - apply (bool_decide_unpack (Forall _ _)); vm_compute; exact I.
  - rewrite H1, H2; [reflexivity|]. right. reflexivity.
Defined.
