(* ===== verification/UDPSession.v ===== *)
(** * UDP sessions

    [OutlineUDPSession] of src/internal/outline_udp_session.go: the subscriptions
    of peers, the read loop that hands each datagram to the channel of its peer, the
    buffers that travel between the pool, the channels and the consumers, and the
    closing of channels. The operations are interleaved at the grain of the code's
    critical sections, so the read loop can be between its look-up and its send
    when a channel is closed. *)

From S2P Require Import Prelude GoNet SocksAddr.

(** ** State *)

(** A Go channel of payloads: what is buffered, oldest first, and whether it is
    closed. A payload is the array its bytes are in. *)
Record chan := Chan { c_buf : list nat; c_closed : bool }.

(** Where [readLoop] is: in [ReadFrom]; with a payload copied, before the look-up;
    before the send to what it looked up; returned. *)
Inductive reader :=
| RIdle
| RLookup (k : addrKey) (a : nat)
| RSend (k : addrKey) (c : option nat) (a : nat)
| RDone.

(** [OutlineUDPSession]. Channels are numbered in the order of their creation, and
    arrays too; [store] is an array's capacity and what was last copied to it, [held] are the payloads
    consumers have received and not yet released; [closeCalled] is whether [Close] was
    called, whose first statement cancels the session's context. That context also ends
    with its parent's, which shows here as a failed read ([AReadErr]). *)
Record OutlineUDPSession := Session {
  subs : gmap addrKey nat;
  chans : list chan;
  store : gmap nat (Z * bytes);
  arrays : nat;
  recvPool : list nat;
  held : list nat;
  rd : reader;
  closeCalled : bool }.

Definition chanCap : nat := 128.
Definition udpPoolDefaultCap : Z := 2048.
Definition udpPoolMaxRetainCap : Z := 16 * 1024.

(** [NewOutlineUDPSession], once the connection and the cipher are there. *)
Definition NewOutlineUDPSession : OutlineUDPSession := {|
  subs := ∅; chans := []; store := ∅; arrays := 0; recvPool := []; held := []; rd := RIdle; closeCalled := false |}.

Definition setSubs (s : OutlineUDPSession) m cs := {|
  subs := m; chans := cs; store := store s; arrays := arrays s; recvPool := recvPool s; held := held s;
  rd := rd s; closeCalled := closeCalled s |}.
Definition setRd (s : OutlineUDPSession) r := {|
  subs := subs s; chans := chans s; store := store s; arrays := arrays s; recvPool := recvPool s; held := held s;
  rd := r; closeCalled := closeCalled s |}.
Definition setPoolHeld (s : OutlineUDPSession) p h := {|
  subs := subs s; chans := chans s; store := store s; arrays := arrays s; recvPool := p; held := h;
  rd := rd s; closeCalled := closeCalled s |}.

(** ** Buffers *)

Definition capOf (s : OutlineUDPSession) (a : nat) : Z := fst (default (0, []) (store s !! a)).
Definition content (s : OutlineUDPSession) (a : nat) : bytes := snd (default (0, []) (store s !! a)).

(** [UDPPayload.Release]: an array that is not too large goes back to the pool,
    a larger one is replaced by a new one of the default capacity. *)
Definition Release (s : OutlineUDPSession) (a : nat) : OutlineUDPSession :=
  if udpPoolMaxRetainCap <? capOf s a then {|
    subs := subs s; chans := chans s; store := <[arrays s := (udpPoolDefaultCap, [])]> (store s);
    arrays := S (arrays s); recvPool := arrays s :: recvPool s; held := held s; rd := rd s; closeCalled := closeCalled s |}
  else setPoolHeld s (a :: recvPool s) (held s).

(** [recvPool.Get] and the copy of the payload: [pick] is the pooled array the pool
    returns, none when it makes a new one; an array that is too small is dropped for
    a new one. *)
Definition takeBuffer (pick : option nat) (data : bytes) (s : OutlineUDPSession) : OutlineUDPSession * nat :=
  let '(got, pool') :=
    match pick ≫= (fun i => recvPool s !! i) with
    | Some a => (if capOf s a <? zlen data then (arrays s, zlen data) else (a, capOf s a),
                 delete (default 0%nat pick) (recvPool s))
    | None => ((arrays s, if udpPoolDefaultCap <? zlen data then zlen data else udpPoolDefaultCap), recvPool s)
    end in
  let '(a, cap) := got in
  ({| subs := subs s; chans := chans s; store := <[a := (cap, data)]> (store s); arrays := Nat.max (arrays s) (S a);
      recvPool := pool'; held := held s; rd := rd s; closeCalled := closeCalled s |}, a).

(** ** Operations *)

(** What happens outside a session: datagrams that arrive with a payload, channels
    that are created for a peer, payloads a consumer receives. *)
Inductive uev :=
| EvPacket (k : addrKey) (data : bytes)
| EvChan (k : addrKey)
| EvDeliver (c : nat) (data : bytes).

(** [close(ch); drainUDPPayloadChan(ch)]. *)
Definition closeDrain (s : OutlineUDPSession) (c : nat) : res OutlineUDPSession :=
  match chans s !! c with
  | None => Panic "close of nil channel"
  | Some ch =>
      if c_closed ch then Panic "close of closed channel"
      else Ok (fold_left Release (c_buf ch) (setSubs s (subs s) (<[c := Chan [] true]> (chans s))))
  end.

(** [Subscribe(from)]: the channel, or a closed one for an address that cannot be parsed. *)
Definition Subscribe (from : bytes) (s : OutlineUDPSession) : option nat * OutlineUDPSession * list uev :=
  match addrKeyFromHostPort from with
  | None => (None, s, [])
  | Some k =>
      match subs s !! k with
      | Some c => (Some c, s, [])
      | None => (Some (length (chans s)),
                 setSubs s (<[k := length (chans s)]> (subs s)) (chans s ++ [Chan [] false]), [EvChan k])
      end
  end.

(** [Unsubscribe(from)]. *)
Definition Unsubscribe (from : bytes) (s : OutlineUDPSession) : res OutlineUDPSession :=
  match addrKeyFromHostPort from with
  | None => Ok s
  | Some k =>
      match subs s !! k with
      | None => Ok s
      | Some c => closeDrain (setSubs s (delete k (subs s)) (chans s)) c
      end
  end.

(** [Close()]: the map is ranged over in any order, here that of its listing. *)
Definition closeChans (cs : list nat) (s : OutlineUDPSession) : res OutlineUDPSession :=
  fold_left (fun r c => s ← r; closeDrain s c) cs (Ok s).
Definition Close (s : OutlineUDPSession) : res OutlineUDPSession :=
  s ← closeChans (snd <$> map_to_list (subs s)) {|
    subs := subs s; chans := chans s; store := store s; arrays := arrays s; recvPool := recvPool s;
    held := held s; rd := rd s; closeCalled := true |};
  Ok (setSubs s ∅ (chans s)).

(** [Send(dst, payload)]: the datagram given to the encrypted connection, if any, and
    the error. [ParseAddr] is that of go-shadowsocks2, [WriteTo] the connection's. *)
Definition Send (ParseAddr : bytes -> option bytes) (ErrAddressNotSupported : gerror) (WriteTo : bytes -> option gerror)
    (dst payload : bytes) : option bytes * option gerror :=
  match ParseAddr dst with
  | None => (None, Some ErrAddressNotSupported)
  | Some ssAddr => (Some (ssAddr ++ payload), WriteTo (ssAddr ++ payload))
  end.

(** One round of [readLoop] up to the copied payload. *)
Definition readPacket (pick : option nat) (plain : bytes) (s : OutlineUDPSession)
  : res (OutlineUDPSession * list uev) :=
  r ← parseAddrKeyFromPlain plain;
  match r with
  | None => Ok (s, [])
  | Some (k, off) =>
      if (length plain <? off)%nat then Ok (s, [])
      else if zlen plain - Z.of_nat off <=? 0 then Ok (s, [])
      else
        let data := drop off plain in
        let '(s, a) := takeBuffer pick data s in
        Ok (setRd s (RLookup k a), [EvPacket k data])
  end.

(** The non-blocking send. A send on a closed channel panics, also in a [select]
    with a default. *)
Definition trySend (c : option nat) (a : nat) (s : OutlineUDPSession) : res OutlineUDPSession :=
  match c with
  | None => Ok (Release s a)
  | Some c =>
      match chans s !! c with
      | None => Ok (Release s a)
      | Some ch =>
          if c_closed ch then Panic "send on closed channel"
          else if (length (c_buf ch) <? chanCap)%nat
          then Ok (setSubs s (subs s) (<[c := Chan (c_buf ch ++ [a]) false]> (chans s)))
          else Ok (Release s a)
      end
  end.

(** ** Interleavings *)

Inductive act :=
| ASubscribe (from : bytes)
| AUnsubscribe (from : bytes)
| AClose
(** [readLoop]: a datagram or an error from [ReadFrom], the look-up, the send. *)
| APacket (plain : bytes) (pick : option nat)
| AReadErr
| ALookup
| ASend
(** A consumer receives from a channel; it releases a payload it holds. *)
| ATake (c : nat)
| ARelease (i : nat).

Definition ustep (s : OutlineUDPSession) (x : act) : res (OutlineUDPSession * list uev) :=
  match x with
  | ASubscribe from => let '(_, s, evs) := Subscribe from s in Ok (s, evs)
  | AUnsubscribe from => s ← Unsubscribe from s; Ok (s, [])
  | AClose => s ← Close s; Ok (s, [])
  | APacket plain pick => match rd s with RIdle => readPacket pick plain s | _ => Ok (s, []) end
  | AReadErr => match rd s with RIdle => Ok (setRd s RDone, []) | _ => Ok (s, []) end
  | ALookup => match rd s with RLookup k a => Ok (setRd s (RSend k (subs s !! k) a), []) | _ => Ok (s, []) end
  | ASend =>
      match rd s with
      | RSend k c a => s ← trySend c a (setRd s RIdle); Ok (s, [])
      | _ => Ok (s, [])
      end
  | ATake c =>
      match chans s !! c with
      | Some (Chan (a :: buf) cl) =>
          let s' := setSubs s (subs s) (<[c := Chan buf cl]> (chans s)) in
          Ok (setPoolHeld s' (recvPool s) (a :: held s), [EvDeliver c (content s a)])
      | _ => Ok (s, [])
      end
  | ARelease i =>
      match held s !! i with
      | Some a => Ok (Release (setPoolHeld s (recvPool s) (delete i (held s))) a, [])
      | None => Ok (s, [])
      end
  end.

(** A run: the state after the actions and everything that happened. *)
Fixpoint urun (s : OutlineUDPSession) (l : list act) : res (OutlineUDPSession * list uev) :=
  match l with
  | [] => Ok (s, [])
  | x :: l => '(s, e) ← ustep s x; '(s, es) ← urun s l; Ok (s, e ++ es)
  end.

(** ** Reading a run *)

Definition created (evs : list uev) : list addrKey :=
  omap (fun e => match e with EvChan k => Some k | _ => None end) evs.
Definition received (k : addrKey) (evs : list uev) : list bytes :=
  omap (fun e => match e with EvPacket k' d => if decide (k' = k) then Some d else None | _ => None end) evs.
Definition delivered (c : nat) (evs : list uev) : list bytes :=
  omap (fun e => match e with EvDeliver c' d => if decide (c' = c) then Some d else None | _ => None end) evs.

(** Everywhere an array in use can be, each place that holds one counted once. *)
Definition inReader (r : reader) : list nat :=
  match r with RLookup _ a | RSend _ _ a => [a] | _ => [] end.
Definition busy (s : OutlineUDPSession) : list nat := (chans s ≫= c_buf) ++ held s ++ inReader (rd s).
Definition owners (s : OutlineUDPSession) : list nat := recvPool s ++ busy s.

(** The payload of peer [k] the read loop has not handed over yet. *)
Definition transit (k : addrKey) (s : OutlineUDPSession) : list bytes :=
  match rd s with
  | RLookup k' a | RSend k' _ a => if decide (k' = k) then [content s a] else []
  | _ => []
  end.

(** The invariant, with arrays [x] in the hands of an operation that is under way. *)
Record uok (s : OutlineUDPSession) (evs : list uev) (x : list nat) : Prop := {
  uo_nodup : NoDup (x ++ owners s);
  uo_bound : Forall (fun a => a < arrays s)%nat (x ++ owners s);
  uo_created : length (created evs) = length (chans s);
  uo_subs : forall k c, subs s !! k = Some c -> created evs !! c = Some k;
  uo_rd : forall k c a, rd s = RSend k (Some c) a -> created evs !! c = Some k;
  uo_cap : Forall (fun ch => length (c_buf ch) <= chanCap)%nat (chans s);
  uo_fresh : forall c, (length (chans s) <= c)%nat -> delivered c evs = [];
  uo_transit : forall k, transit k s `sublist_of` received k evs;
  uo_fifo : forall c ch k, chans s !! c = Some ch -> created evs !! c = Some k ->
    (delivered c evs ++ (content s <$> c_buf ch) ++ transit k s) `sublist_of` received k evs }.

(** The channels in the map are open. *)
Definition subsOpen (s : OutlineUDPSession) : Prop :=
  forall k c, subs s !! k = Some c -> exists buf, chans s !! c = Some (Chan buf false).

Lemma buf_busy s c ch a : chans s !! c = Some ch -> a ∈ c_buf ch -> a ∈ busy s.
Proof.
  intros Hc Ha. unfold busy. rewrite !elem_of_app. left. apply list_elem_of_bind.
  exists ch. split; [done|]. by eapply list_elem_of_lookup_2.
Qed.

Lemma rd_busy s a : a ∈ inReader (rd s) -> a ∈ busy s.
Proof. intros Ha. unfold busy. rewrite !elem_of_app. auto. Qed.

(** Only what is in the arrays that are queued or with the read loop matters. *)
Lemma content_ext s s' c ch k :
  (forall a, a ∈ busy s -> content s' a = content s a) -> rd s' = rd s -> chans s !! c = Some ch ->
  (content s' <$> c_buf ch) = (content s <$> c_buf ch) /\ transit k s' = transit k s.
Proof.
  intros Hext Hrd Hc. split.
  - apply list_fmap_ext. intros i a Ha. apply Hext. eapply buf_busy; [done|]. by eapply list_elem_of_lookup_2.
  - unfold transit. rewrite Hrd. destruct (rd s) eqn:Er; try done; rewrite Hext; try done; apply rd_busy; rewrite Er;
      by constructor.
Qed.
Lemma transit_ext s s' k :
  (forall a, a ∈ busy s -> content s' a = content s a) -> rd s' = rd s -> transit k s' = transit k s.
Proof.
  intros Hext Hrd. unfold transit. rewrite Hrd.
  destruct (rd s) eqn:Er; try done; rewrite Hext; try done; apply rd_busy; rewrite Er; by constructor.
Qed.

(** An operation that only moves arrays between the pool and its hands. *)
Lemma uok_move s s' evs x x' :
  uok s evs x -> subs s' = subs s -> chans s' = chans s -> rd s' = rd s ->
  (forall a, a ∈ busy s -> content s' a = content s a) ->
  NoDup (x' ++ owners s') -> Forall (fun a => a < arrays s')%nat (x' ++ owners s') -> uok s' evs x'.
Proof.
  intros [] Es Ec Er Hext Hn Hb.
  split; rewrite ?Es, ?Ec, ?Er; try done.
  - intros k. by rewrite (transit_ext s).
  - intros c ch k Hc Hk. destruct (content_ext s s' c ch k Hext Er Hc) as [-> ->]. eauto.
Qed.

Lemma Release_frame s a :
  subs (Release s a) = subs s /\ chans (Release s a) = chans s /\ rd (Release s a) = rd s /\ held (Release s a) = held s
  /\ (forall b, (b < arrays s)%nat -> content (Release s a) b = content s b)
  /\ (arrays s <= arrays (Release s a))%nat.
Proof.
  unfold Release. case_match; simpl; repeat split; try lia.
  intros b Hb. unfold content. simpl. by rewrite lookup_insert_ne by lia.
Qed.

Lemma Release_ok s evs a x : uok s evs (a :: x) -> uok (Release s a) evs x.
Proof.
  intros Hok. destruct (Release_frame s a) as (E1 & E2 & E3 & _ & E5 & _). pose proof Hok as [Hn Hb _ _ _ _ _ _ _].
  apply (uok_move s _ _ (a :: x)); try done.
  - intros b Hin. apply E5. rewrite Forall_forall in Hb. apply Hb. unfold owners. set_solver.
  - unfold Release. case_match; unfold owners; simpl.
    + rewrite <- Permutation_middle. apply NoDup_cons. inversion Hn; subst. split; [|done].
      intros Hin. rewrite Forall_forall in Hb. specialize (Hb (arrays s)). assert (arrays s < arrays s)%nat; [|lia].
      apply Hb. by right.
    + by rewrite <- Permutation_middle.
  - unfold Release. case_match; unfold owners; simpl.
    + rewrite <- Permutation_middle. inversion Hb; subst. constructor; [lia|]. eapply Forall_impl; [done|]. simpl. lia.
    + by rewrite <- Permutation_middle.
Qed.

Lemma releases_ok evs l s x :
  uok s evs (l ++ x) -> uok (fold_left Release l s) evs x
  /\ subs (fold_left Release l s) = subs s /\ chans (fold_left Release l s) = chans s
  /\ rd (fold_left Release l s) = rd s.
Proof.
  revert s. induction l as [|a l IH]; intros s Hok; [done|]. simpl.
  destruct (Release_frame s a) as (E1 & E2 & E3 & _). destruct (IH (Release s a)) as (H1 & H2 & H3 & H4).
  - by apply Release_ok.
  - by rewrite H2, H3, H4.
Qed.

(** What is queued, with one channel set apart. *)
Lemma bind_pick (l : list chan) c ch ch' :
  l !! c = Some ch -> exists rest, (l ≫= c_buf) ≡ₚ c_buf ch ++ rest /\ (<[c := ch']> l ≫= c_buf) ≡ₚ c_buf ch' ++ rest.
Proof.
  revert c. induction l as [|x l IH]; intros [|c] Hc; simplify_eq/=.
  - by exists (l ≫= c_buf).
  - destruct (IH c Hc) as (rest & H1 & H2). exists (c_buf x ++ rest). rewrite H1, H2. split; solve_Permutation.
Qed.

Lemma closeDrain_ok s evs x c buf :
  uok s evs x -> chans s !! c = Some (Chan buf false) ->
  exists s', closeDrain s c = Ok s' /\ uok s' evs x /\ subs s' = subs s /\ chans s' = <[c := Chan [] true]> (chans s)
             /\ rd s' = rd s.
Proof.
  intros Hok Hc. unfold closeDrain. rewrite Hc. cbn [c_closed c_buf].
  set (s0 := setSubs s (subs s) (<[c := Chan [] true]> (chans s))).
  assert (H0 : uok s0 evs (buf ++ x)).
  { destruct (bind_pick (chans s) c _ (Chan [] true) Hc) as (rest & H1 & H2). cbn [c_buf] in H1, H2.
    assert (Hperm : (buf ++ x) ++ owners s0 ≡ₚ x ++ owners s).
    { unfold owners, busy, s0. simpl. rewrite H1, H2. solve_Permutation. }
    destruct Hok. split; simpl; rewrite ?Hperm, ?length_insert; try done.
    - apply Forall_insert; [done|simpl; unfold chanCap; lia].
    - intros c' ch k Hc' Hk. change (transit k s0) with (transit k s). change (content s0) with (content s).
      destruct (decide (c' = c)) as [->|Hne].
      + rewrite list_lookup_insert_eq in Hc' by (by eapply lookup_lt_Some). simplify_eq/=.
        etrans; [|by eapply uo_fifo0]. apply sublist_app; [done|]. apply sublist_inserts_l. done.
      + rewrite list_lookup_insert_ne in Hc' by done. eauto. }
  destruct (releases_ok evs buf s0 x H0) as (H1 & H2 & H3 & H4). eexists. split; [done|]. by rewrite H2, H3, H4.
Qed.

Lemma closeChans_ok evs x cs s :
  uok s evs x -> NoDup cs -> (forall c, c ∈ cs -> exists buf, chans s !! c = Some (Chan buf false)) ->
  exists s', closeChans cs s = Ok s' /\ uok s' evs x /\ subs s' = subs s /\ rd s' = rd s
    /\ (forall c, c ∈ cs -> chans s' !! c = Some (Chan [] true)) /\ (forall c, c ∉ cs -> chans s' !! c = chans s !! c).
Proof.
  revert s. induction cs as [|c cs IH]; intros s Hok Hnd Hop.
  - exists s. do 4 (split; [done|]). split; [set_solver|done].
  - apply NoDup_cons in Hnd as [Hni Hnd]. destruct (Hop c ltac:(by left)) as [buf Hc].
    destruct (closeDrain_ok s evs x c buf Hok Hc) as (s1 & E1 & H1 & Es & Ec & Er).
    destruct (IH s1) as (s2 & E2 & H2 & Es2 & Er2 & Hin & Hout); [done|done| |].
    { intros c' Hc'. rewrite Ec, list_lookup_insert_ne by set_solver. apply Hop. by right. }
    exists s2. unfold closeChans in *. simpl. rewrite E1. split; [done|]. split; [done|].
    rewrite Es2, Er2, Es, Er. do 2 (split; [done|]). split.
    + intros c' [->|Hc']%elem_of_cons; [|by apply Hin]. rewrite Hout, Ec by done.
      apply list_lookup_insert_eq. by eapply lookup_lt_Some.
    + intros c' Hc'. rewrite Hout, Ec, list_lookup_insert_ne by set_solver. done.
Qed.

Lemma uok_setSubs_delete s evs x m : uok s evs x -> m ⊆ subs s -> uok (setSubs s m (chans s)) evs x.
Proof.
  intros [] Hsub. split; try done. simpl. intros k c Hk. apply uo_subs0. by eapply lookup_weaken.
Qed.

Lemma subs_inj s evs x k k' c : uok s evs x -> subs s !! k = Some c -> subs s !! k' = Some c -> k = k'.
Proof. intros [] H1 H2. apply uo_subs0 in H1, H2. congruence. Qed.

(** *** The operations keep the invariant *)

Lemma events_app evs e c k :
  created (evs ++ e) = created evs ++ created e /\ delivered c (evs ++ e) = delivered c evs ++ delivered c e
  /\ received k (evs ++ e) = received k evs ++ received k e.
Proof. unfold created, delivered, received. by rewrite !omap_app. Qed.

Lemma Unsubscribe_ok s evs from :
  uok s evs [] -> subsOpen s -> exists s', Unsubscribe from s = Ok s' /\ uok s' evs [] /\ subsOpen s'.
Proof.
  intros Hok Hop. unfold Unsubscribe. destruct (addrKeyFromHostPort from) as [k|]; [|by eauto].
  destruct (subs s !! k) as [c|] eqn:Hk; [|by eauto]. destruct (Hop k c Hk) as [buf Hc].
  destruct (closeDrain_ok (setSubs s (delete k (subs s)) (chans s)) evs [] c buf) as (s' & E & H & Es & Ec & _).
  - apply uok_setSubs_delete; [done|apply delete_subseteq].
  - done.
  - exists s'. split; [done|]. split; [done|]. intros k' c' Hk'. rewrite Es in Hk'. simpl in Hk'.
    apply lookup_delete_Some in Hk' as [Hne Hk']. rewrite Ec. simpl.
    destruct (decide (c' = c)) as [->|]; [|rewrite list_lookup_insert_ne by done; eauto].
    destruct Hne. by apply (subs_inj s evs [] k k' c).
Qed.

Lemma Close_ok s evs :
  uok s evs [] -> subsOpen s ->
  exists s', Close s = Ok s' /\ uok s' evs [] /\ subs s' = ∅
    /\ (forall k c, subs s !! k = Some c -> chans s' !! c = Some (Chan [] true)).
Proof.
  intros Hok Hop. unfold Close. set (s0 := Session _ _ _ _ _ _ _ true).
  assert (H0 : uok s0 evs []) by (destruct Hok; by split).
  assert (Hin : forall c, c ∈ (snd <$> map_to_list (subs s)) <-> exists k, subs s !! k = Some c).
  { intros c. rewrite list_elem_of_fmap. split.
    - intros ([k c'] & -> & Hk%elem_of_map_to_list). by exists k.
    - intros [k Hk%elem_of_map_to_list]. by exists (k, c). }
  assert (Hnd : NoDup (snd <$> map_to_list (subs s))).
  { apply NoDup_fmap_2_strong; [|apply NoDup_map_to_list].
    intros [k c] [k' c'] H1%elem_of_map_to_list H2%elem_of_map_to_list E. simpl in E. subst c'.
    by rewrite (subs_inj s evs [] k k' c Hok H1 H2). }
  destruct (closeChans_ok evs [] (snd <$> map_to_list (subs s)) s0 H0 Hnd) as (s' & E & H & Es & Er & Hcl & _).
  { intros c [k Hk]%Hin. by apply (Hop k). }
  change (subs s0) with (subs s). rewrite E. simpl. eexists. split; [done|].
  split; [apply uok_setSubs_delete; [done|apply map_empty_subseteq]|]. split; [done|].
  intros k c Hk. apply Hcl, Hin. by exists k.
Qed.

Lemma Subscribe_ok s evs from :
  uok s evs [] -> subsOpen s ->
  let '(_, s', es) := Subscribe from s in uok s' (evs ++ es) [] /\ subsOpen s'.
Proof.
  intros Hok Hop. unfold Subscribe. destruct (addrKeyFromHostPort from) as [k|]; [|by rewrite app_nil_r].
  destruct (subs s !! k) as [c|] eqn:Hk; [by rewrite app_nil_r|]. split.
  - pose proof Hok as []. assert (Hcr : created (evs ++ [EvChan k]) = created evs ++ [k]) by (unfold created; by rewrite omap_app).
    assert (Hdl : forall c, delivered c (evs ++ [EvChan k]) = delivered c evs)
      by (intros; unfold delivered; rewrite omap_app; by rewrite app_nil_r).
    assert (Hrc : forall k', received k' (evs ++ [EvChan k]) = received k' evs)
      by (intros; unfold received; rewrite omap_app; by rewrite app_nil_r).
    split; simpl; rewrite ?Hcr, ?length_app; simpl.
    + unfold owners, busy. simpl. by rewrite bind_app, app_nil_r.
    + unfold owners, busy. simpl. by rewrite bind_app, app_nil_r.
    + lia.
    + intros k' c [[-> <-]|[_ H]]%lookup_insert_Some.
      * by rewrite lookup_app_r, uo_created0, Nat.sub_diag by lia.
      * apply lookup_app_l_Some. eauto.
    + intros k' c a H. apply lookup_app_l_Some. eauto.
    + apply Forall_app. split; [done|]. constructor; [simpl; unfold chanCap; lia|done].
    + intros c Hc. rewrite Hdl. apply uo_fresh0. lia.
    + intros k'. rewrite Hrc. apply uo_transit0.
    + intros c ch k' Hc Hk'. rewrite Hdl, Hrc. apply lookup_app_Some in Hc as [Hc|[Hl Hc]].
      * rewrite lookup_app_l in Hk' by (rewrite uo_created0; by eapply lookup_lt_Some).
        by eapply (uo_fifo0 c ch k').
      * apply list_lookup_singleton_Some in Hc as [_ <-]. simpl. rewrite uo_fresh0 by done. apply uo_transit0.
  - intros k' c H. simpl in *. apply lookup_insert_Some in H as [[-> <-]|[_ H]].
    + exists []. by rewrite lookup_app_r, Nat.sub_diag by lia.
    + destruct (Hop k' c H) as [buf Hb]. exists buf. by apply lookup_app_l_Some.
Qed.

(** Copying to an array that no channel, consumer or reader has. *)
Lemma copy_ok s evs a cap data p n :
  uok s evs [] -> NoDup (a :: p ++ busy s) -> Forall (fun b => b < n)%nat (a :: p ++ busy s) ->
  let s' := {| subs := subs s; chans := chans s; store := <[a := (cap, data)]> (store s); arrays := n;
               recvPool := p; held := held s; rd := rd s; closeCalled := closeCalled s |} in
  uok s' evs [a] /\ content s' a = data /\ (forall b, b ∈ busy s -> content s' b = content s b).
Proof.
  intros Hok Hn Hb s'. assert (Hext : forall b, b ∈ busy s -> content s' b = content s b).
  { intros b Hin. unfold content. simpl. rewrite lookup_insert_ne; [done|]. apply NoDup_cons in Hn. set_solver. }
  split; [by apply (uok_move s s' evs [] [a])|]. split; [|done]. unfold content. simpl. by rewrite lookup_insert_eq.
Qed.

Lemma takeBuffer_ok s evs pick data :
  uok s evs [] -> let '(s', a) := takeBuffer pick data s in
  uok s' evs [a] /\ content s' a = data /\ (forall b, b ∈ busy s -> content s' b = content s b)
  /\ subs s' = subs s /\ chans s' = chans s /\ held s' = held s /\ rd s' = rd s.
Proof.
  intros Hok. unfold takeBuffer. pose proof Hok as [Hn Hb _ _ _ _ _ _ _]. simpl in Hn, Hb.
  assert (Hnew : forall q p, recvPool s ≡ₚ q ++ p ->
    NoDup (arrays s :: p ++ busy s) /\ Forall (fun b => b < Nat.max (arrays s) (S (arrays s)))%nat (arrays s :: p ++ busy s)).
  { intros q p Hq. unfold owners in Hn, Hb. rewrite Hq, <- app_assoc in Hn, Hb.
    apply NoDup_app in Hn as (_ & _ & Hn). apply Forall_app in Hb as [_ Hb]. split.
    - apply NoDup_cons. split; [|done]. intros Hin. rewrite Forall_forall in Hb. specialize (Hb _ Hin). simpl in Hb. lia.
    - constructor; [lia|]. eapply Forall_impl; [done|]. simpl. lia. }
  destruct (pick ≫= (fun i => recvPool s !! i)) as [a|] eqn:Ep.
  - destruct pick as [i|]; simpl in Ep; [|done]. cbn [default option_bind]. pose proof (delete_Permutation _ _ _ Ep) as Hd.
    destruct (capOf s a <? zlen data) eqn:Ecap.
    + destruct (Hnew [a] _ Hd). by destruct (copy_ok s evs (arrays s) (zlen data) data (delete i (recvPool s))
        (Nat.max (arrays s) (S (arrays s)))) as (? & ? & ?).
    + unfold owners in Hn, Hb. rewrite Hd in Hn, Hb.
      destruct (copy_ok s evs a (capOf s a) data (delete i (recvPool s)) (Nat.max (arrays s) (S a))) as (? & ? & ?);
        [done|done| |done]. eapply Forall_impl; [exact Hb|]. simpl. lia.
  - destruct (Hnew [] (recvPool s)); [done|]. by destruct (copy_ok s evs (arrays s)
      (if udpPoolDefaultCap <? zlen data then zlen data else udpPoolDefaultCap) data (recvPool s)
      (Nat.max (arrays s) (S (arrays s)))) as (? & ? & ?).
Qed.

Lemma readPacket_ok s evs pick plain :
  uok s evs [] -> subsOpen s -> rd s = RIdle ->
  exists s' es, readPacket pick plain s = Ok (s', es) /\ uok s' (evs ++ es) [] /\ subsOpen s'
    /\ (forall b, b ∈ busy s -> content s' b = content s b).
Proof.
  intros Hok Hop Hrd. unfold readPacket.
  assert (Hskip : exists s' es, Ok (s, []) = Ok (s', es) /\ uok s' (evs ++ es) [] /\ subsOpen s'
    /\ (forall b, b ∈ busy s -> content s' b = content s b)) by (exists s, []; by rewrite app_nil_r).
  destruct (parseAddrKeyFromPlain_cases plain) as [(a & p & rest & Hw & Hp & ->)|E]; [|by rewrite E].
  rewrite parseAddrKeyFromPlain_encode by done. cbn [mbind res_bind].
  case_match; [done|]. case_match; [done|]. set (k := addrKeyOf a p). set (data := drop _ _).
  pose proof (takeBuffer_ok s evs pick data Hok) as Ht. destruct (takeBuffer pick data s) as [s1 b].
  destruct Ht as (H1 & Hc & Hext & Es & Ec & Eh & Er). do 2 eexists. split; [done|].
  assert (Hrc : forall k', received k' (evs ++ [EvPacket k data]) = received k' evs ++ (if decide (k = k') then [data] else [])).
  { intros. unfold received. rewrite omap_app. simpl. by case_decide. }
  assert (Hdl : forall c, delivered c (evs ++ [EvPacket k data]) = delivered c evs)
    by (intros; unfold delivered; rewrite omap_app; by rewrite app_nil_r).
  assert (Hcr : created (evs ++ [EvPacket k data]) = created evs)
    by (intros; unfold created; rewrite omap_app; by rewrite app_nil_r).
  assert (Htr : forall k', transit k' (setRd s1 (RLookup k b)) = if decide (k = k') then [data] else []).
  { intros. unfold transit. simpl. change (content (setRd _ _) b) with (content s1 b). by rewrite Hc. }
  assert (Htr0 : forall k', transit k' s1 = []) by (intros; unfold transit; by rewrite Er, Hrd).
  split; [|split].
  - destruct H1. assert (Hperm : owners (setRd s1 (RLookup k b)) ≡ₚ [b] ++ owners s1).
    { unfold owners, busy. simpl. rewrite Er, Hrd. simpl. rewrite app_nil_r. solve_Permutation. }
    split; simpl; rewrite ?Hcr, ?Hperm; try done.
    + intros c Hc'. rewrite Hdl. by apply uo_fresh0.
    + intros k'. rewrite Htr, Hrc. by apply sublist_inserts_l.
    + intros c ch k' Hch Hk'. rewrite Hdl, Hrc, Htr, app_assoc. apply sublist_app; [|done].
      specialize (uo_fifo0 c ch k' Hch Hk'). by rewrite Htr0, app_nil_r in uo_fifo0.
  - intros k' c Hk'. simpl in *. rewrite Es in Hk'. rewrite Ec. eauto.
  - done.
Qed.

(** The reader gives its payload up. *)
Lemma uok_dropReader s evs k c a :
  uok s evs [] -> rd s = RSend k c a -> uok (setRd s RIdle) evs [a].
Proof.
  intros [] Hrd. assert (Hperm : [a] ++ owners (setRd s RIdle) ≡ₚ [] ++ owners s).
  { unfold owners, busy. simpl. rewrite Hrd. simpl. rewrite app_nil_r. solve_Permutation. }
  split; rewrite ?Hperm; try done.
  - intros. unfold transit. simpl. apply sublist_nil_l.
  - intros c' ch k' Hc Hk. etrans; [|by eapply uo_fifo0]. change (transit k' (setRd s RIdle)) with (@nil bytes).
    rewrite app_nil_r, app_assoc. by apply sublist_inserts_r.
Qed.

Lemma trySend_ok s evs k c a :
  uok s evs [] -> subsOpen s -> rd s = RSend k c a ->
  match trySend c a (setRd s RIdle) with
  | Ok s' => uok s' evs [] /\ subsOpen s'
  | Panic _ => exists c' buf, c = Some c' /\ chans s !! c' = Some (Chan buf true)
  | Err _ => False
  end.
Proof.
  intros Hok Hop Hrd. pose proof (uok_dropReader s evs k c a Hok Hrd) as Hd.
  destruct (Release_frame (setRd s RIdle) a) as (E1 & E2 & _).
  assert (Hrel : uok (Release (setRd s RIdle) a) evs [] /\ subsOpen (Release (setRd s RIdle) a)).
  { split; [by apply Release_ok|]. intros k' c' Hk'. rewrite E1 in Hk'. rewrite E2. by apply (Hop k'). }
  unfold trySend. destruct c as [c|]; [|done]. destruct (chans (setRd s RIdle) !! c) as [[buf cl]|] eqn:Hc; [|done].
  simpl in Hc. cbn [c_closed c_buf]. destruct cl; [by exists c, buf|].
  destruct (Nat.ltb_spec (length buf) chanCap) as [Hl|]; [|done]. split.
  - destruct Hd. set (s' := setSubs _ _ _).
    destruct (bind_pick (chans s) c _ (Chan (buf ++ [a]) false) Hc) as (rest & H1 & H2). cbn [c_buf] in H1, H2.
    assert (Hperm : [] ++ owners s' ≡ₚ [a] ++ owners (setRd s RIdle)).
    { unfold owners, busy, s'. simpl. rewrite H1, H2. solve_Permutation. }
    split; rewrite ?Hperm; simpl; rewrite ?length_insert; try done.
    + apply Forall_insert; [done|]. simpl. rewrite length_app. simpl. lia.
    + intros c' ch k' Hc' Hk'. change (content s') with (content s). change (transit k' s') with (@nil bytes).
      destruct (decide (c' = c)) as [->|Hne].
      * rewrite list_lookup_insert_eq in Hc' by (by eapply lookup_lt_Some). simplify_eq/=.
        assert (k' = k) as -> by (apply (uo_rd _ _ _ Hok) in Hrd; congruence).
        pose proof (uo_fifo _ _ _ Hok c _ k Hc Hk') as Hf. unfold transit in Hf. rewrite Hrd, decide_True in Hf by done.
        simpl in Hf. by rewrite app_nil_r, fmap_app.
      * rewrite list_lookup_insert_ne in Hc' by done. by apply (uo_fifo0 c').
  - intros k' c' Hk'. simpl in *. destruct (decide (c' = c)) as [->|Hne].
    + eexists. apply list_lookup_insert_eq. by eapply lookup_lt_Some.
    + rewrite list_lookup_insert_ne by done. by apply (Hop k').
Qed.

Lemma take_ok s evs c a buf cl :
  uok s evs [] -> subsOpen s -> chans s !! c = Some (Chan (a :: buf) cl) ->
  let s' := setPoolHeld (setSubs s (subs s) (<[c := Chan buf cl]> (chans s))) (recvPool s) (a :: held s) in
  uok s' (evs ++ [EvDeliver c (content s a)]) [] /\ subsOpen s'.
Proof.
  intros Hok Hop Hc s'. assert (Hlen : (c < length (chans s))%nat) by (by eapply lookup_lt_Some). split.
  - destruct (bind_pick (chans s) c _ (Chan buf cl) Hc) as (rest & H1 & H2). cbn [c_buf] in H1, H2.
    assert (Hperm : owners s' ≡ₚ owners s) by (unfold owners, busy, s'; simpl; rewrite H1, H2; solve_Permutation).
    set (e := [EvDeliver c (content s a)]).
    assert (Hcr : created (evs ++ e) = created evs) by (unfold created; rewrite omap_app; by rewrite app_nil_r).
    assert (Hrc : forall k, received k (evs ++ e) = received k evs)
      by (intros; unfold received; rewrite omap_app; by rewrite app_nil_r).
    assert (Hdl : forall c', delivered c' (evs ++ e) = delivered c' evs ++ if decide (c = c') then [content s a] else [])
      by (intros; unfold delivered; rewrite omap_app; simpl; by case_decide).
    destruct Hok. split; simpl; rewrite ?Hperm, ?Hcr, ?length_insert; try done.
    + apply Forall_insert; [done|]. simpl. rewrite Forall_lookup in uo_cap0. specialize (uo_cap0 _ _ Hc). simpl in *. lia.
    + intros c' Hc'. rewrite Hdl, decide_False, uo_fresh0 by lia. done.
    + intros k. rewrite Hrc. apply uo_transit0.
    + intros c' ch k Hc' Hk. rewrite Hrc, Hdl. change (content s') with (content s). change (transit k s') with (transit k s).
      destruct (decide (c' = c)) as [->|Hne].
      * rewrite list_lookup_insert_eq in Hc' by done. simplify_eq/=. rewrite decide_True by done.
        rewrite <- app_assoc. by apply (uo_fifo0 c _ k Hc).
      * rewrite list_lookup_insert_ne in Hc' by done. rewrite decide_False by done. rewrite app_nil_r. by apply (uo_fifo0 c').
  - intros k c' Hk. simpl in *. destruct (decide (c' = c)) as [->|Hne].
    + destruct (Hop k c Hk) as [b Hb]. rewrite list_lookup_insert_eq by done. rewrite Hc in Hb. simplify_eq. eauto.
    + rewrite list_lookup_insert_ne by done. by apply (Hop k).
Qed.

Lemma release_held_ok s evs i a :
  uok s evs [] -> subsOpen s -> held s !! i = Some a ->
  let s' := Release (setPoolHeld s (recvPool s) (delete i (held s))) a in uok s' evs [] /\ subsOpen s'.
Proof.
  intros Hok Hop Hi s'. set (s0 := setPoolHeld s (recvPool s) (delete i (held s))).
  destruct (Release_frame s0 a) as (E1 & E2 & _). split.
  - apply Release_ok. pose proof (delete_Permutation _ _ _ Hi) as Hd.
    assert (Hperm : [a] ++ owners s0 ≡ₚ [] ++ owners s).
    { unfold owners, busy, s0. simpl. revert Hd. generalize (delete i (held s)). intros d ->. solve_Permutation. }
    fold s0. destruct Hok. by split; rewrite ?Hperm.
  - intros k c Hk. unfold s' in *. fold s0 in Hk |- *. rewrite E1 in Hk. rewrite E2. by apply (Hop k).
Qed.

(** Whether the next action is the send of the read loop to a channel that was
    closed since the look-up. *)
Definition sendRace (s : OutlineUDPSession) (x : act) : Prop :=
  x = ASend /\ exists k c a buf, rd s = RSend k (Some c) a /\ chans s !! c = Some (Chan buf true).

Lemma ustep_ok s evs x :
  uok s evs [] -> subsOpen s ->
  match ustep s x with
  | Ok (s', es) => uok s' (evs ++ es) [] /\ subsOpen s'
  | Panic _ => sendRace s x
  | Err _ => False
  end.
Proof.
  intros Hok Hop. assert (Hsame : uok s (evs ++ []) [] /\ subsOpen s) by (by rewrite app_nil_r).
  destruct x as [from|from| |plain pick| | | |c|i]; simpl.
  - pose proof (Subscribe_ok s evs from Hok Hop). by destruct (Subscribe from s) as [[? ?] ?].
  - destruct (Unsubscribe_ok s evs from Hok Hop) as (s' & -> & ?). simpl. by rewrite app_nil_r.
  - destruct (Close_ok s evs Hok Hop) as (s' & -> & H1 & H2 & _). simpl. rewrite app_nil_r. split; [done|].
    intros k c Hk. by rewrite H2 in Hk.
  - destruct (rd s) eqn:Er; try done. destruct (readPacket_ok s evs pick plain Hok Hop Er) as (s' & es & -> & ? & ? & _).
    done.
  - destruct (rd s) eqn:Er; try done. rewrite app_nil_r. split; [|done].
    destruct Hok. assert (Hperm : owners (setRd s RDone) = owners s) by (unfold owners, busy; simpl; by rewrite Er).
    split; rewrite ?Hperm; try done; unfold transit in *; simpl; rewrite Er in *; done.
  - destruct (rd s) as [|k a| |] eqn:Er; try done. rewrite app_nil_r. split; [|done].
    destruct Hok. assert (Hperm : owners (setRd s (RSend k (subs s !! k) a)) = owners s)
      by (unfold owners, busy; simpl; by rewrite Er).
    split; rewrite ?Hperm; try done; unfold transit in *; simpl; rewrite ?Er in *; try done.
    intros k' c a' [= <- Hk <-]. by apply uo_subs0.
  - destruct (rd s) as [| |k c a|] eqn:Er; try done. pose proof (trySend_ok s evs k c a Hok Hop Er) as Hs.
    destruct (trySend c a (setRd s RIdle)) as [s'|e|w]; simpl; [by rewrite app_nil_r|done|].
    destruct Hs as (c' & buf & -> & Hc). split; [done|]. by exists k, c', a, buf.
  - destruct (chans s !! c) as [[[|a buf] cl]|] eqn:Hc; try done. by apply take_ok.
  - destruct (held s !! i) as [a|] eqn:Hi; [|done]. rewrite app_nil_r. by apply release_held_ok.
Qed.

Lemma new_ok : uok NewOutlineUDPSession [] [] /\ subsOpen NewOutlineUDPSession.
Proof. split; [split; try done; constructor|done]. Qed.

Lemma urun_ok s evs l s' es :
  uok s evs [] -> subsOpen s -> urun s l = Ok (s', es) -> uok s' (evs ++ es) [] /\ subsOpen s'.
Proof.
  revert s evs es. induction l as [|x l IH]; intros s evs es Hok Hop E; simpl in E.
  - simplify_eq. by rewrite app_nil_r.
  - pose proof (ustep_ok s evs x Hok Hop) as Hs. destruct (ustep s x) as [[s1 e]|?|?]; simpl in E; try done.
    destruct Hs as [H1 H2]. destruct (urun s1 l) as [[s2 es']|?|?] eqn:E2; simpl in E; try done. simplify_eq.
    rewrite app_assoc. by apply (IH s1 _ es').
Qed.

(** *** Contents *)

(** Nothing is written to an array that exists. *)
Definition stable (s s' : OutlineUDPSession) : Prop :=
  (arrays s <= arrays s')%nat /\ forall a, (a < arrays s)%nat -> content s' a = content s a.
#[local] Instance stable_preorder : PreOrder stable.
Proof.
  split; [done|]. intros s1 s2 s3 [L1 H1] [L2 H2]. split; [lia|]. intros a Ha. rewrite H2 by lia. by apply H1.
Qed.
Lemma releases_stable l s : stable s (fold_left Release l s).
Proof.
  revert s. induction l as [|b l IH]; intros s; [done|]. simpl. etrans; [|apply IH].
  destruct (Release_frame s b) as (_ & _ & _ & _ & H5 & H6). done.
Qed.
Lemma closeDrain_stable s c s' : closeDrain s c = Ok s' -> stable s s'.
Proof.
  unfold closeDrain. intros E. destruct (chans s !! c) as [[buf []]|]; simplify_eq/=.
  etrans; [|apply releases_stable]. done.
Qed.
Lemma closeChans_stable cs s s' : closeChans cs s = Ok s' -> stable s s'.
Proof.
  unfold closeChans. revert s. induction cs as [|c cs IH]; intros s E; simpl in E; [by simplify_eq|].
  destruct (closeDrain s c) as [s1|e|w] eqn:E1; simpl in E.
  - etrans; [by eapply closeDrain_stable|by apply IH].
  - by rewrite fold_left_fix in E.
  - by rewrite fold_left_fix in E.
Qed.

(** What consumers, channels and the read loop hold is not written to. *)
Lemma ustep_content s evs x s' es a :
  uok s evs [] -> subsOpen s -> ustep s x = Ok (s', es) -> a ∈ busy s -> content s' a = content s a.
Proof.
  intros Hok Hop E Ha. assert (Hlt : (a < arrays s)%nat).
  { destruct Hok as [_ Hb _ _ _ _ _ _ _]. rewrite Forall_forall in Hb. apply Hb. unfold owners. set_solver. }
  assert (Hst : stable s s' -> content s' a = content s a) by (intros [_ H]; by apply H).
  destruct x as [from|from| |plain pick| | | |c|i]; simpl in E.
  - unfold Subscribe in E. repeat case_match; by simplify_eq.
  - destruct (Unsubscribe from s) as [s1|?|?] eqn:Eu; simplify_eq/=. apply Hst. unfold Unsubscribe in Eu.
    destruct (addrKeyFromHostPort from) as [k|]; [|by simplify_eq]. destruct (subs s !! k); [|by simplify_eq].
    apply closeDrain_stable in Eu. by etrans; [|exact Eu].
  - destruct (Close s) as [s1|?|?] eqn:Ec; simplify_eq/=. apply Hst. unfold Close in Ec.
    destruct (closeChans _ _) as [s2|?|?] eqn:E2; simplify_eq/=. apply closeChans_stable in E2.
    by etrans; [|etrans; [exact E2|]].
  - destruct (rd s) eqn:Er; try by simplify_eq.
    destruct (readPacket_ok s evs pick plain Hok Hop Er) as (s1 & es1 & E1 & _ & _ & Hext).
    rewrite E1 in E. simplify_eq. by apply Hext.
  - case_match; by simplify_eq.
  - case_match; by simplify_eq.
  - destruct (rd s) as [| |k c b|]; try by simplify_eq. apply Hst. unfold trySend in E.
    pose proof (releases_stable [b] (setRd s RIdle)) as Hr. simpl in Hr. repeat case_match; by simplify_eq/=.
  - repeat case_match; by simplify_eq.
  - destruct (held s !! i) as [b|]; [|by simplify_eq]. simplify_eq. apply Hst.
    by etrans; [|apply (releases_stable [b])].
Qed.

(** *** Delivery *)

Lemma readPacket_encode s pick a p data :
  addrWF a -> 0 <= p < 65536 -> data <> [] ->
  readPacket pick (encodeAddr a p ++ data) s
  = let '(s', b) := takeBuffer pick data s in Ok (setRd s' (RLookup (addrKeyOf a p) b), [EvPacket (addrKeyOf a p) data]).
Proof.
  intros Hw Hp Hd. unfold readPacket. rewrite parseAddrKeyFromPlain_encode by done. cbn [mbind res_bind].
  rewrite length_app, (proj2 (Nat.ltb_ge _ _)) by lia.
  rewrite (proj2 (Z.leb_gt _ _)) by (destruct data; [done|]; unfold zlen; rewrite length_app; simpl; lia).
  by rewrite drop_app_length.
Qed.

Lemma deliver_ok s evs pick a p data c buf :
  uok s evs [] -> rd s = RIdle -> addrWF a -> 0 <= p < 65536 -> data <> [] ->
  subs s !! addrKeyOf a p = Some c -> chans s !! c = Some (Chan buf false) ->
  exists s' es buf', urun s [APacket (encodeAddr a p ++ data) pick; ALookup; ASend] = Ok (s', es)
    /\ chans s' !! c = Some (Chan buf' false)
    /\ (content s' <$> buf') = (content s <$> buf) ++ (if (length buf <? chanCap)%nat then [data] else []).
Proof.
  intros Hok Hrd Hw Hp Hd Hk Hc. cbn [urun ustep]. rewrite Hrd, readPacket_encode by done.
  pose proof (takeBuffer_ok s evs pick data Hok) as Ht. destruct (takeBuffer pick data s) as [s1 b].
  destruct Ht as (H1 & Hb & Hext & Es & Ec & _ & _). cbn [mbind res_bind rd setRd subs]. rewrite Es, Hk.
  cbn [rd setRd trySend]. cbn [chans setRd]. rewrite Ec, Hc. cbn [c_closed c_buf].
  assert (Hbuf : (content s1 <$> buf) = (content s <$> buf)).
  { apply list_fmap_ext. intros i x Hx. apply Hext. eapply buf_busy; [done|]. by eapply list_elem_of_lookup_2. }
  destruct (length buf <? chanCap)%nat; cbn [mbind res_bind]; do 3 eexists; (split; [done|]).
  - split; [apply list_lookup_insert_eq; by eapply lookup_lt_Some|]. rewrite fmap_app. f_equal; [exact Hbuf|].
    simpl. f_equal. exact Hb.
  - set (s2 := setRd (setRd (setRd s1 _) _) RIdle). destruct (Release_frame s2 b) as (_ & E2 & _ & _ & E5 & _).
    split; [by rewrite E2; cbn; rewrite Ec|]. rewrite app_nil_r, <- Hbuf. apply list_fmap_ext. intros i x Hx.
    apply (E5 x). pose proof (uo_bound _ _ _ H1) as Hbd. rewrite Forall_forall in Hbd. apply Hbd.
    unfold owners. rewrite !elem_of_app. right; right. eapply buf_busy; [by rewrite Ec|]. by eapply list_elem_of_lookup_2.
Qed.

(** ** Properties *)

(** C12: whatever subscriptions, closings, datagrams and consumers interleave, an
    array is in one place at a time (the pool, one channel, one consumer or the read
    loop), a channel holds at most 128 payloads, and what a channel has delivered and
    still holds is, in order and without repetition, among the payloads that arrived
    from the peer it was created for. *)
Theorem udp_session_routes (l : list act) (s : OutlineUDPSession) (evs : list uev)
    (Hrun : urun NewOutlineUDPSession l = Ok (s, evs)) :
  NoDup (owners s)
  /\ forall c k, created evs !! c = Some k ->
     exists ch, chans s !! c = Some ch /\ (length (c_buf ch) <= 128)%nat
       /\ (delivered c evs ++ (content s <$> c_buf ch)) `sublist_of` received k evs.
Proof.
  destruct (urun_ok _ [] l s evs (proj1 new_ok) (proj2 new_ok) Hrun) as [[Hn _ Hcr _ _ Hcap _ _ Hf] _]. simpl in *.
  split; [done|]. intros c k Hk. destruct (lookup_lt_is_Some_2 (chans s) c) as [ch Hch].
  { rewrite <- Hcr. by eapply lookup_lt_Some. }
  exists ch. split; [done|]. split; [rewrite Forall_lookup in Hcap; by apply (Hcap c)|].
  etrans; [|by apply (Hf c ch k)]. rewrite app_assoc. by apply sublist_inserts_r.
Qed.

(** A payload a consumer has received keeps its bytes, whatever the session
    does, until the consumer releases it. *)
Theorem udp_payload_stable (l : list act) (s s' : OutlineUDPSession) (evs es : list uev) (x : act) (a : nat)
    (Hrun : urun NewOutlineUDPSession l = Ok (s, evs)) (Hheld : a ∈ held s) (Hstep : ustep s x = Ok (s', es)) :
  content s' a = content s a.
Proof.
  destruct (urun_ok _ [] l s evs (proj1 new_ok) (proj2 new_ok) Hrun) as [Hok Hop].
  eapply ustep_content; [done..|]. unfold busy. set_solver.
Qed.

(** C35: a session panics in exactly one way: the channel the read loop has looked
    up is closed, by [Unsubscribe] or [Close], before the read loop sends to it. *)
Theorem udp_session_panics_only_in_race (l : list act) (s : OutlineUDPSession) (evs : list uev) (x : act)
    (Hrun : urun NewOutlineUDPSession l = Ok (s, evs)) :
  match ustep s x with Ok _ => ~ sendRace s x | Panic _ => sendRace s x | Err _ => False end.
Proof.
  destruct (urun_ok _ [] l s evs (proj1 new_ok) (proj2 new_ok) Hrun) as [Hok Hop].
  pose proof (ustep_ok s _ x Hok Hop) as Hs. destruct (ustep s x) as [[s' es]|?|?] eqn:E; [|done|done].
  intros (-> & k & c & a & buf & Hrd & Hc). simpl in E. rewrite Hrd in E. simpl in E. by rewrite Hc in E.
Qed.

(** A reply reaches its subscriber: after [Subscribe] of a peer's printed
    address, the next datagram from that peer ends up at the end of the channel
    [Subscribe] returned when there is room, and is dropped otherwise. *)
Theorem udp_reply_delivered (l : list act) (s : OutlineUDPSession) (evs : list uev) (a : saddr) (p : Z)
    (data : bytes) (pick : option nat)
    (Hrun : urun NewOutlineUDPSession l = Ok (s, evs)) (Hidle : rd s = RIdle)
    (Hwf : addrWF a) (Hdom : domainOk a) (Hport : 0 <= p < 65536) (Hdata : data <> [])
    (Hplain : forall b, a = A6 b -> mapped b = false) :
  exists c ch s' es ch', fst (fst (Subscribe (JoinHostPort (addrHost a) (itoa p)) s)) = Some c
  /\ chans (snd (fst (Subscribe (JoinHostPort (addrHost a) (itoa p)) s))) !! c = Some ch
  /\ urun s [ASubscribe (JoinHostPort (addrHost a) (itoa p)); APacket (encodeAddr a p ++ data) pick; ALookup; ASend]
     = Ok (s', es)
  /\ chans s' !! c = Some ch'
  /\ (content s' <$> c_buf ch') = (content s <$> c_buf ch) ++ (if (length (c_buf ch) <? 128)%nat then [data] else []).
Proof.
  destruct (urun_ok _ [] l s evs (proj1 new_ok) (proj2 new_ok) Hrun) as [Hok Hop]. simpl in Hok.
  set (hp := JoinHostPort (addrHost a) (itoa p)).
  assert (Hk : addrKeyFromHostPort hp = Some (addrKeyOf a p)).
  { unfold hp. rewrite addrKeyFromHostPort_spec by done. destruct a as [?|b|?]; simpl; try done. by rewrite (Hplain b eq_refl). }
  pose proof (Subscribe_ok s evs hp Hok Hop) as Hs. cbn [urun ustep]. unfold Subscribe in *. rewrite Hk in *.
  assert (Hrest : forall s1 es c buf, uok s1 (evs ++ es) [] -> rd s1 = RIdle -> content s1 = content s ->
    subs s1 !! addrKeyOf a p = Some c -> chans s1 !! c = Some (Chan buf false) ->
    exists s' es' buf', ('(s, e) ← Ok (s1, es);
        '(s, es) ← urun s [APacket (encodeAddr a p ++ data) pick; ALookup; ASend]; Ok (s, e ++ es)) = Ok (s', es')
    /\ chans s' !! c = Some (Chan buf' false)
    /\ (content s' <$> buf') = (content s <$> buf) ++ (if (length buf <? 128)%nat then [data] else [])).
  { intros s1 es c buf H1 H2 H3 H4 H5.
    destruct (deliver_ok s1 _ pick a p data c buf H1 H2 Hwf Hport Hdata H4 H5) as (s' & es' & buf' & E & Hc & Hcont).
    exists s', (es ++ es'), buf'. rewrite H3 in Hcont. split; [|done]. cbn [mbind res_bind]. by rewrite E. }
  destruct (subs s !! addrKeyOf a p) as [c|] eqn:Hsub.
  - destruct (Hop _ _ Hsub) as [buf Hc]. destruct (Hrest s [] c buf) as (s' & es' & buf' & E & Hc' & Hcont); [apply Hs|done..|].
    by exists c, (Chan buf false), s', es', (Chan buf' false).
  - destruct (Hrest _ _ (length (chans s)) [] (proj1 Hs)) as (s' & es' & buf' & E & Hc' & Hcont);
      [done|done|apply lookup_insert_eq|simpl; by rewrite lookup_app_r, Nat.sub_diag by lia|].
    exists (length (chans s)), (Chan [] false), s', es', (Chan buf' false). split; [done|].
    split; [simpl; by rewrite lookup_app_r, Nat.sub_diag by lia|]. done.
Qed.

(** A resolver at 1.1.1.1:53 answers a query. *)
Definition peerDemo : bytes := str2b "1.1.1.1:53".
Definition replyDemo : bytes := encodeAddr (A4 [Byte.x01; Byte.x01; Byte.x01; Byte.x01]) 53 ++ [Byte.xaa; Byte.xbb].
Definition takeDemo : list act := [ASubscribe peerDemo; APacket replyDemo None; ALookup; ASend; ATake 0].
(** The flow is dropped while its reply is between look-up and send. *)
Definition raceDemo : list act := [ASubscribe peerDemo; APacket replyDemo None; ALookup; AUnsubscribe peerDemo].

Definition stateAfter (l : list act) : OutlineUDPSession :=
  match urun NewOutlineUDPSession l with Ok (s, _) => s | _ => NewOutlineUDPSession end.
Definition eventsAfter (l : list act) : list uev :=
  match urun NewOutlineUDPSession l with Ok (_, e) => e | _ => [] end.

Lemma udp_session_routes_witness :
  delivered 0 (eventsAfter takeDemo) = [[Byte.xaa; Byte.xbb]] /\ NoDup (owners (stateAfter takeDemo)).
Proof.
  split; [vm_compute; reflexivity|].
  refine (proj1 (udp_session_routes takeDemo (stateAfter takeDemo) (eventsAfter takeDemo) _)). vm_compute; reflexivity.
Defined.

Lemma udp_payload_stable_witness :
  held (stateAfter takeDemo) = [0%nat]
  /\ content (stateAfter (takeDemo ++ [APacket replyDemo (Some 0%nat)])) 0 = content (stateAfter takeDemo) 0.
Proof.
  split; [vm_compute; reflexivity|].
  apply (udp_payload_stable takeDemo (stateAfter takeDemo) (stateAfter (takeDemo ++ [APacket replyDemo (Some 0%nat)]))
    (eventsAfter takeDemo) [EvPacket (addrKeyOf (A4 [Byte.x01; Byte.x01; Byte.x01; Byte.x01]) 53) [Byte.xaa; Byte.xbb]]
    (APacket replyDemo (Some 0%nat)) 0); [vm_compute; reflexivity|vm_compute; constructor|vm_compute; reflexivity].
Defined.

Lemma udp_session_panics_only_in_race_witness :
  ustep (stateAfter raceDemo) ASend = Panic "send on closed channel" /\ sendRace (stateAfter raceDemo) ASend.
Proof.
  pose proof (udp_session_panics_only_in_race raceDemo (stateAfter raceDemo) (eventsAfter raceDemo) ASend
    ltac:(vm_compute; reflexivity)) as H.
  assert (E : ustep (stateAfter raceDemo) ASend = Panic "send on closed channel") by (vm_compute; reflexivity).
  split; [exact E|]. rewrite E in H. exact H.
Defined.

Lemma udp_reply_delivered_witness :
  exists c ch s' es ch', fst (fst (Subscribe peerDemo (stateAfter []))) = Some c
  /\ chans (snd (fst (Subscribe peerDemo (stateAfter [])))) !! c = Some ch
  /\ urun (stateAfter []) [ASubscribe peerDemo; APacket replyDemo None; ALookup; ASend] = Ok (s', es)
  /\ chans s' !! c = Some ch'
  /\ (content s' <$> c_buf ch') = (content (stateAfter []) <$> c_buf ch)
       ++ (if (length (c_buf ch) <? 128)%nat then [[Byte.xaa; Byte.xbb]] else []).
Proof.
  change peerDemo with (JoinHostPort (addrHost (A4 [Byte.x01; Byte.x01; Byte.x01; Byte.x01])) (itoa 53)).
  apply (udp_reply_delivered [] (stateAfter []) []); try reflexivity; try exact I; try discriminate; lia.
Defined.
