(* ===== verification/PortTable.v ===== *)
(** * UDP port sessions of the TUN device

    src/internal/tun_udp_porttable.go: one upstream session per source port, created
    on demand without holding the table's lock while dialling, and collected when
    idle; with the flow bookkeeping of [tunHandleUDP] (src/internal/tun_native.go),
    which subscribes to one peer per flow. *)

From stdpp Require Import relations.
From S2P Require Import Prelude GoNum GoNet SocksAddr Config Metrics HealthCheck LoadBalancer UDPSession.

(** ** State *)

Record udpPortKey := PortKey { netProto : Z; srcIP : bytes; srcPort : Z }.
#[global] Instance udpPortKey_eq_dec : EqDecision udpPortKey.
Proof. solve_decision. Defined.
#[global] Instance udpPortKey_countable : Countable udpPortKey :=
  inj_countable' (fun k => (netProto k, srcIP k, srcPort k)) (fun '(n, a, p) => PortKey n a p) ltac:(by intros []).

(** [up] is the index of the upstream in the pool. *)
Record udpPortSession := PortSession {
  ps_key : udpPortKey; ps_up : nat; ps_sess : OutlineUDPSession; lastSeen : Z; flows : gmap bytes Z }.

(** The table refers to sessions that are also referred to from elsewhere: [heap]
    has all of them, [ports] is the map of the table. *)
Record udpPortTable := PortTable { pt_cfg : TunConfig; ports : gmap udpPortKey nat; heap : list udpPortSession }.

Definition newUDPPortTable (cfg : TunConfig) : udpPortTable := PortTable cfg ∅ [].
Definition setPorts (t : udpPortTable) m := PortTable (pt_cfg t) m (heap t).
Definition setHeap (t : udpPortTable) h := PortTable (pt_cfg t) (ports t) h.
Definition setSess (ps : udpPortSession) s := PortSession (ps_key ps) (ps_up ps) s (lastSeen ps) (flows ps).
Definition setFlows (ps : udpPortSession) f := PortSession (ps_key ps) (ps_up ps) (ps_sess ps) (lastSeen ps) f.
Definition setSeen (ps : udpPortSession) now := PortSession (ps_key ps) (ps_up ps) (ps_sess ps) now (flows ps).

(** ** [getOrCreate] *)

Definition portLimit (c : TunConfig) : Z := if UDPMaxFlows c <=? 0 then 4096 else UDPMaxFlows c.

(** The first critical section: a session that exists, the limit, or none of them. *)
Definition gocLookup (now : Z) (key : udpPortKey) (t : udpPortTable) : option (res nat) * udpPortTable :=
  match ports t !! key with
  | Some p => (Some (Ok p), setHeap t (alter (fun ps => setSeen ps now) p (heap t)))
  | None =>
      if portLimit (pt_cfg t) <=? Z.of_nat (size (ports t))
      then (Some (Err (errMsg (b2str (str2b "udp port session limit reached: " ++ itoa (portLimit (pt_cfg t)))))), t)
      else (None, t)
  end.

(** The session that was dialled, not yet in the table. *)
Definition gocNew (now : Z) (key : udpPortKey) (up : nat) (t : udpPortTable) : nat * udpPortTable :=
  (length (heap t), setHeap t (heap t ++ [PortSession key up NewOutlineUDPSession now ∅])).

(** [ps.sess.Close()]. *)
Definition closeSession (p : nat) (t : udpPortTable) : res udpPortTable :=
  match heap t !! p with
  | None => Panic "nil pointer dereference"
  | Some ps => s ← Close (ps_sess ps); Ok (setHeap t (<[p := setSess ps s]> (heap t)))
  end.

(** The second critical section: the new session is filed, or closed when there is
    one by now. *)
Definition gocInsert (key : udpPortKey) (p : nat) (t : udpPortTable) : res (nat * udpPortTable) :=
  match ports t !! key with
  | Some existing => t ← closeSession p t; Ok (existing, t)
  | None => Ok (p, setPorts t (<[key := p]> (ports t)))
  end.

(** [getOrCreate(ctx, key)] with nothing in between: the balancer picks the
    upstream, [dial] is [NewOutlineUDPSession], whose error is reported. *)
Definition getOrCreate {C W} (rng : Z -> Z) (now nowPick nowLog nowFail : Z)
    (dial : nat -> LoadBalancer C -> W -> res unit * LoadBalancer C * W)
    (key : udpPortKey) (lb : LoadBalancer C) (w : W) (t : udpPortTable) : res nat * LoadBalancer C * W * udpPortTable :=
  match gocLookup now key t with
  | (Some r, t) => (r, lb, w, t)
  | (None, t) =>
      match PickUDP nowPick nowLog lb with
      | (Ok up, lb, _) =>
          match dial up lb w with
          | (Panic x, lb, w) => (Panic x, lb, w, t)
          | (Err e, lb, w) => (Err e, fst (ReportUDPFailure rng nowFail (Some up) (Some e) lb), w, t)
          | (Ok _, lb, w) =>
              let '(p, t) := gocNew now key up t in
              match gocInsert key p t with
              | Ok (p, t) => (Ok p, lb, w, t)
              | Err e => (Err e, lb, w, t)
              | Panic x => (Panic x, lb, w, t)
              end
          end
      | (Err e, lb, _) => (Err e, lb, w, t)
      | (Panic x, lb, _) => (Panic x, lb, w, t)
      end
  end.

(** ** [gcOnce] *)

Definition portIdle (c : TunConfig) : Z := if UDPIdleTimeout c <=? 0 then 60 * Second else UDPIdleTimeout c.
Definition flowIdle (c : TunConfig) : Z := if UDPFlowIdleTimeout c <=? 0 then 30 * Second else UDPFlowIdleTimeout c.

(** Prune the idle flows of one session. *)
Definition gcFlows (now idle : Z) (ps : udpPortSession) : res udpPortSession :=
  fold_left (fun r '(dst, last) =>
    ps ← r;
    if idle <? timeSub now last
    then s ← Unsubscribe dst (ps_sess ps); Ok (setSess (setFlows ps (delete dst (flows ps))) s)
    else Ok ps) (map_to_list (flows ps)) (Ok ps).

(** The critical section: flows, then the idle sessions, which leave the map. *)
Definition gcPort (now : Z) (r : res (udpPortTable * list nat)) (kp : udpPortKey * nat)
  : res (udpPortTable * list nat) :=
  '(t, toClose) ← r;
  let '(k, p) := kp in
  match heap t !! p with
  | None => Panic "nil pointer dereference"
  | Some ps =>
      ps ← gcFlows now (flowIdle (pt_cfg t)) ps;
      let t := setHeap t (<[p := ps]> (heap t)) in
      if portIdle (pt_cfg t) <? timeSub now (lastSeen ps)
      then Ok (setPorts t (delete k (ports t)), toClose ++ [p])
      else Ok (t, toClose)
  end.
Definition gcLocked (now : Z) (t : udpPortTable) : res (udpPortTable * list nat) :=
  fold_left (gcPort now) (map_to_list (ports t)) (Ok (t, [])).

(** [gcOnce()], the sessions it removed being closed after the lock is released. *)
Definition gcOnce (now : Z) (t : udpPortTable) : res udpPortTable :=
  '(t, toClose) ← gcLocked now t;
  fold_left (fun r p => t ← r; closeSession p t) toClose (Ok t).

(** ** Flows of [tunHandleUDP] *)

Definition maxDst (c : TunConfig) : Z := if UDPMaxDstPerPort c <=? 0 then 512 else UDPMaxDstPerPort c.

(** The critical section that subscribes once per destination: the reply channel of
    a new flow, [Ok None] for a known flow, an error when there are too many. *)
Definition addFlow (c : TunConfig) (now : Z) (dst : bytes) (ps : udpPortSession)
  : res (option (option nat)) * udpPortSession :=
  match flows ps !! dst with
  | Some _ => (Ok None, ps)
  | None =>
      if maxDst c <=? Z.of_nat (size (flows ps)) then (Err (errMsg "max dst per port reached"), ps)
      else
        let '(ch, s, _) := Subscribe dst (ps_sess ps) in
        (Ok (Some ch), setSess (setFlows ps (<[dst := now]> (flows ps))) s)
  end.

(** After a datagram in either direction: the flow and the table's session are seen. *)
Definition touchFlow (now : Z) (dst : bytes) (pk : udpPortKey) (p : nat) (t : udpPortTable) : udpPortTable :=
  let t := setHeap t (alter (fun ps => setFlows ps (<[dst := now]> (flows ps))) p (heap t)) in
  match ports t !! pk with
  | Some cur => setHeap t (alter (fun ps => setSeen ps now) cur (heap t))
  | None => t
  end.

(** The end of a handler: the flow is dropped and its subscription closed. *)
Definition endFlow (dst : bytes) (ps : udpPortSession) : res udpPortSession :=
  s ← Unsubscribe dst (ps_sess ps); Ok (setSess (setFlows ps (delete dst (flows ps))) s).

(** ** Interleavings *)

(** The table with the calls of [getOrCreate] that are dialling or have a session
    that is not filed yet, and the sessions a collection has yet to close. *)
Record tstate := TState {
  ts_tbl : udpPortTable; ts_dialing : list (udpPortKey * Z); ts_ready : list (udpPortKey * nat); ts_closing : list nat }.

(** Replace a session of the heap. *)
Definition putSession (p : nat) (ps : udpPortSession) (t : udpPortTable) : udpPortTable := setHeap t (<[p := ps]> (heap t)).

(** Steps of the handlers, with at most [n] calls of [getOrCreate] under way. *)
Inductive hstep (n : nat) : tstate -> tstate -> Prop :=
| TFound now key r t t' ds rs cs :
    gocLookup now key t = (Some r, t') -> hstep n (TState t ds rs cs) (TState t' ds rs cs)
| TDialling now key t t' ds rs cs :
    gocLookup now key t = (None, t') -> (length ds + length rs < n)%nat ->
    hstep n (TState t ds rs cs) (TState t' ((key, now) :: ds) rs cs)
| TDialFail key now t ds1 ds2 rs cs :
    hstep n (TState t (ds1 ++ (key, now) :: ds2) rs cs) (TState t (ds1 ++ ds2) rs cs)
| TDialled key now up p t t' ds1 ds2 rs cs :
    gocNew now key up t = (p, t') ->
    hstep n (TState t (ds1 ++ (key, now) :: ds2) rs cs) (TState t' (ds1 ++ ds2) ((key, p) :: rs) cs)
| TInsert key p q t t' ds rs1 rs2 cs :
    gocInsert key p t = Ok (q, t') ->
    hstep n (TState t ds (rs1 ++ (key, p) :: rs2) cs) (TState t' ds (rs1 ++ rs2) cs)
| TAddFlow now dst p ps r ps' t ds rs cs :
    heap t !! p = Some ps -> addFlow (pt_cfg t) now dst ps = (r, ps') ->
    hstep n (TState t ds rs cs) (TState (putSession p ps' t) ds rs cs)
| TTouch now dst pk p t ds rs cs : hstep n (TState t ds rs cs) (TState (touchFlow now dst pk p t) ds rs cs)
| TEndFlow dst p ps ps' t ds rs cs :
    heap t !! p = Some ps -> endFlow dst ps = Ok ps' ->
    hstep n (TState t ds rs cs) (TState (putSession p ps' t) ds rs cs)
| TSession p ps x s es t ds rs cs :
    heap t !! p = Some ps -> x <> AClose -> ustep (ps_sess ps) x = Ok (s, es) ->
    hstep n (TState t ds rs cs) (TState (putSession p (setSess ps s) t) ds rs cs).

(** Steps of the goroutine that collects. *)
Inductive gcstep : tstate -> tstate -> Prop :=
| TCollect now l t t' ds rs cs :
    gcLocked now t = Ok (t', l) -> gcstep (TState t ds rs cs) (TState t' ds rs (cs ++ l))
| TClose p t t' ds rs cs1 cs2 :
    closeSession p t = Ok t' -> gcstep (TState t ds rs (cs1 ++ p :: cs2)) (TState t' ds rs (cs1 ++ cs2)).

Inductive tstep (n : nat) (st st' : tstate) : Prop :=
| THandler : hstep n st st' -> tstep n st st'
| TGC : gcstep st st' -> tstep n st st'.

(** ** The invariant *)

Definition sessOk (ps : udpPortSession) : Prop := exists evs, uok (ps_sess ps) evs [] /\ subsOpen (ps_sess ps).
Definition vals (m : gmap udpPortKey nat) : list nat := snd <$> map_to_list m.

(** What the invariant looks at in a session: its key and whether it is closed. *)
Definition view (ps : udpPortSession) : udpPortKey * bool := (ps_key ps, closeCalled (ps_sess ps)).

(** Who is responsible for closing a session. *)
Definition holders (st : tstate) : list nat := vals (ports (ts_tbl st)) ++ (snd <$> ts_ready st) ++ ts_closing st.

Record tinv (n : nat) (st : tstate) : Prop := {
  ti_sess : Forall sessOk (heap (ts_tbl st));
  ti_keys : forall k p, ports (ts_tbl st) !! k = Some p -> ps_key <$> heap (ts_tbl st) !! p = Some k;
  ti_ready : forall k p, (k, p) ∈ ts_ready st -> ps_key <$> heap (ts_tbl st) !! p = Some k;
  ti_nodup : NoDup (holders st);
  ti_open : forall p, p ∈ holders st <-> (fun ps => closeCalled (ps_sess ps)) <$> heap (ts_tbl st) !! p = Some false;
  ti_size : Z.of_nat (size (ports (ts_tbl st)) + length (ts_dialing st) + length (ts_ready st))
    <= portLimit (pt_cfg (ts_tbl st)) - 1 + Z.of_nat n }.

(** *** Sessions *)

Lemma Release_closeCalled s a : closeCalled (Release s a) = closeCalled s.
Proof. unfold Release. by case_match. Qed.
Lemma releases_closeCalled l s : closeCalled (fold_left Release l s) = closeCalled s.
Proof. revert s. induction l as [|a l IH]; intros s; [done|]. simpl. by rewrite IH, Release_closeCalled. Qed.
Lemma closeDrain_closeCalled s c s' : closeDrain s c = Ok s' -> closeCalled s' = closeCalled s.
Proof.
  unfold closeDrain. intros E. destruct (chans s !! c) as [[buf []]|]; simplify_eq/=. by rewrite releases_closeCalled.
Qed.
Lemma closeChans_closeCalled cs s s' : closeChans cs s = Ok s' -> closeCalled s' = closeCalled s.
Proof.
  unfold closeChans. revert s. induction cs as [|c cs IH]; intros s E; simpl in E; [by simplify_eq|].
  destruct (closeDrain s c) as [s1|e|w] eqn:E1; simpl in E.
  - apply IH in E. rewrite E. by eapply closeDrain_closeCalled.
  - by rewrite fold_left_fix in E.
  - by rewrite fold_left_fix in E.
Qed.
Lemma Unsubscribe_closeCalled d s s' : Unsubscribe d s = Ok s' -> closeCalled s' = closeCalled s.
Proof.
  unfold Unsubscribe. intros E. destruct (addrKeyFromHostPort d) as [k|]; [|by simplify_eq].
  destruct (subs s !! k); [|by simplify_eq]. by apply closeDrain_closeCalled in E.
Qed.
Lemma Close_closeCalled s s' : Close s = Ok s' -> closeCalled s' = true.
Proof.
  unfold Close. intros E. destruct (closeChans _ _) as [s1|?|?] eqn:E1; simplify_eq/=.
  by apply closeChans_closeCalled in E1.
Qed.
Lemma ustep_closeCalled s x s' es : x <> AClose -> ustep s x = Ok (s', es) -> closeCalled s' = closeCalled s.
Proof.
  intros Hx E. destruct x as [from|from| |plain pick| | | |c|i]; simpl in E; try done.
  - unfold Subscribe in E. repeat case_match; by simplify_eq.
  - destruct (Unsubscribe from s) eqn:Eu; simplify_eq/=. by eapply Unsubscribe_closeCalled.
  - destruct (rd s); try by simplify_eq. unfold readPacket in E.
    destruct (parseAddrKeyFromPlain plain) as [[[k off]|]|?|?]; simpl in E; try by simplify_eq.
    destruct (_ <? _)%nat; [by simplify_eq|]. destruct (_ <=? _); [by simplify_eq|].
    unfold takeBuffer in E. destruct (pick ≫= _); [destruct (_ <? _)|]; by simplify_eq/=.
  - case_match; by simplify_eq.
  - case_match; by simplify_eq.
  - destruct (rd s) as [| |k c b|]; try by simplify_eq. unfold trySend in E.
    repeat case_match; simplify_eq/=; by rewrite ?Release_closeCalled.
  - repeat case_match; by simplify_eq.
  - case_match; simplify_eq; [|done]. by rewrite Release_closeCalled.
Qed.

Lemma sessOk_Unsubscribe d ps : sessOk ps ->
  exists s, Unsubscribe d (ps_sess ps) = Ok s /\ sessOk (setSess ps s) /\ closeCalled s = closeCalled (ps_sess ps).
Proof.
  intros (evs & Hok & Hop). destruct (Unsubscribe_ok _ evs d Hok Hop) as (s & E & H1 & H2).
  exists s. split; [done|]. split; [by exists evs|]. by eapply Unsubscribe_closeCalled.
Qed.
Lemma sessOk_Close ps : sessOk ps ->
  exists s, Close (ps_sess ps) = Ok s /\ sessOk (setSess ps s) /\ closeCalled s = true.
Proof.
  intros (evs & Hok & Hop). destruct (Close_ok _ evs Hok Hop) as (s & E & H1 & H2 & _).
  exists s. split; [done|]. split; [|by eapply Close_closeCalled]. exists evs. split; [done|].
  intros k c Hk. simpl in Hk. by rewrite H2 in Hk.
Qed.

(** *** Collection *)

Definition staleFlow (now idle : Z) (last : Z) : bool := idle <? timeSub now last.

Lemma gcFlows_fold now idle l ps :
  sessOk ps ->
  exists ps', fold_left (fun r '(dst, last) =>
      ps ← r;
      if idle <? timeSub now last
      then s ← Unsubscribe dst (ps_sess ps); Ok (setSess (setFlows ps (delete dst (flows ps))) s)
      else Ok ps) l (Ok ps) = Ok ps'
  /\ sessOk ps' /\ view ps' = view ps /\ lastSeen ps' = lastSeen ps
  /\ forall d v, flows ps' !! d = Some v <->
       flows ps !! d = Some v /\ forall last, (d, last) ∈ l -> staleFlow now idle last = false.
Proof.
  revert ps. induction l as [|[dst last] l IH]; intros ps Hs; simpl.
  - exists ps. do 4 (split; [done|]). set_solver.
  - destruct (idle <? timeSub now last) eqn:Est.
    + destruct (sessOk_Unsubscribe dst ps Hs) as (s & E & Hs' & Hc). rewrite E. simpl.
      destruct (IH (setSess (setFlows ps (delete dst (flows ps))) s)) as (ps' & E' & H1 & H2 & H3 & H4); [done|].
      exists ps'. split; [done|]. split; [done|]. split; [rewrite H2; unfold view; simpl; by rewrite Hc|].
      split; [done|]. intros d v. rewrite H4. simpl. rewrite lookup_delete_Some. split.
      * intros [[Hne Hd] Hl]. split; [done|]. intros last' [[= -> ->]|Hin]%elem_of_cons; [done|]. by apply Hl.
      * intros [Hd Hl]. split; [split; [|done]|]; [|intros; apply Hl; by right].
        intros ->. specialize (Hl last ltac:(by left)). unfold staleFlow in Hl. congruence.
    + destruct (IH ps Hs) as (ps' & E' & H1 & H2 & H3 & H4). exists ps'. do 4 (split; [done|]).
      intros d v. rewrite H4. split; intros [Hd Hl]; (split; [done|]); [|intros; apply Hl; by right].
      intros last' [[= -> ->]|Hin]%elem_of_cons; [done|]. by apply Hl.
Qed.

Lemma gcFlows_ok now idle ps :
  sessOk ps ->
  exists ps', gcFlows now idle ps = Ok ps' /\ sessOk ps' /\ view ps' = view ps /\ lastSeen ps' = lastSeen ps
  /\ forall d v, flows ps' !! d = Some v <-> flows ps !! d = Some v /\ staleFlow now idle v = false.
Proof.
  intros Hs. destruct (gcFlows_fold now idle (map_to_list (flows ps)) ps Hs) as (ps' & E & H1 & H2 & H3 & H4).
  exists ps'. do 4 (split; [done|]). intros d v. rewrite H4. split; intros [Hd Hl]; (split; [done|]).
  - apply Hl. by apply elem_of_map_to_list.
  - intros last Hin%elem_of_map_to_list. congruence.
Qed.

(** What a collection does to a session of the table. *)
Definition collected (now : Z) (c : TunConfig) (ps ps' : udpPortSession) : Prop :=
  view ps' = view ps /\ lastSeen ps' = lastSeen ps
  /\ forall d v, flows ps' !! d = Some v <-> flows ps !! d = Some v /\ staleFlow now (flowIdle c) v = false.

Definition idlePort (now : Z) (c : TunConfig) (h : list udpPortSession) (p : nat) : bool :=
  match h !! p with Some ps => portIdle c <? timeSub now (lastSeen ps) | None => false end.

(** One session of the table under a collection. *)
Lemma gcPort_one now t acc k p ps :
  Forall sessOk (heap t) -> ports t !! k = Some p -> heap t !! p = Some ps ->
  exists t2 ps1, gcPort now (Ok (t, acc)) (k, p) = Ok (t2, acc ++ (if idlePort now (pt_cfg t) (heap t) p then [p] else []))
  /\ pt_cfg t2 = pt_cfg t /\ heap t2 = <[p := ps1]> (heap t) /\ Forall sessOk (heap t2) /\ collected now (pt_cfg t) ps ps1
  /\ (forall q, idlePort now (pt_cfg t) (heap t2) q = idlePort now (pt_cfg t) (heap t) q)
  /\ (forall k' p', ports t2 !! k' = Some p' <-> ports t !! k' = Some p' /\ (k' = k -> idlePort now (pt_cfg t) (heap t) p' = false)).
Proof.
  intros Hs Hkp Hps. simpl. rewrite Hps. destruct (gcFlows_ok now (flowIdle (pt_cfg t)) ps) as (ps1 & E1 & S1 & V1 & L1 & F1).
  { rewrite Forall_lookup in Hs. by eapply Hs. }
  rewrite E1. cbn [mbind res_bind pt_cfg setHeap].
  assert (Hidle : idlePort now (pt_cfg t) (heap t) p = (portIdle (pt_cfg t) <? timeSub now (lastSeen ps1)))
    by (unfold idlePort; by rewrite Hps, L1).
  assert (Hid : forall q, idlePort now (pt_cfg t) (<[p := ps1]> (heap t)) q = idlePort now (pt_cfg t) (heap t) q).
  { intros q. unfold idlePort. destruct (decide (q = p)) as [->|Hne]; [|by rewrite list_lookup_insert_ne].
    rewrite list_lookup_insert_eq by (by eapply lookup_lt_Some). by rewrite Hps, L1. }
  assert (Hs1 : Forall sessOk (<[p := ps1]> (heap t))) by (by apply Forall_insert).
  rewrite <- Hidle. destruct (idlePort now (pt_cfg t) (heap t) p) eqn:Ei; do 2 eexists; rewrite ?app_nil_r; (split; [done|]); do 4 (split; [done|]);
    (split; [exact Hid|]); intros k' p'; cbn.
  - rewrite lookup_delete_Some. split; [intros [Hne H]; split; [done|]; by intros ->|].
    intros [H1 H2]. split; [|done]. intros ->. rewrite Hkp in H1. simplify_eq. specialize (H2 eq_refl). congruence.
  - split; [|tauto]. intros H. split; [done|]. intros ->. rewrite Hkp in H. by simplify_eq.
Qed.

Lemma gcLocked_fold now l t acc :
  Forall sessOk (heap t) -> NoDup (fst <$> l) -> NoDup (snd <$> l) ->
  (forall k p, (k, p) ∈ l -> ports t !! k = Some p /\ is_Some (heap t !! p)) ->
  exists t', fold_left (gcPort now) l (Ok (t, acc))
    = Ok (t', acc ++ filter (fun p => idlePort now (pt_cfg t) (heap t) p = true) (snd <$> l))
  /\ pt_cfg t' = pt_cfg t /\ Forall sessOk (heap t')
  /\ (forall p, p ∉ (snd <$> l) -> heap t' !! p = heap t !! p)
  /\ (forall p, p ∈ (snd <$> l) -> exists ps ps', heap t !! p = Some ps /\ heap t' !! p = Some ps' /\ collected now (pt_cfg t) ps ps')
  /\ (forall k p, ports t' !! k = Some p <->
       ports t !! k = Some p /\ (k ∈ (fst <$> l) -> idlePort now (pt_cfg t) (heap t) p = false)).
Proof.
  revert t acc. induction l as [|[k p] l IH]; intros t acc Hs Hnk Hnp Hl; cbn [fold_left fmap list_fmap fst snd] in *.
  - exists t. rewrite app_nil_r. do 4 (split; [done|]). split; [set_solver|]. set_solver.
  - apply NoDup_cons in Hnk as [Hk Hnk], Hnp as [Hp Hnp]. destruct (Hl k p ltac:(by left)) as [Hkp [ps Hps]].
    assert (Hlen : (p < length (heap t))%nat) by (by eapply lookup_lt_Some).
    destruct (gcPort_one now t acc k p ps Hs Hkp Hps) as (t2 & ps1 & E1 & Ec & Eh & Hs2 & Hcol & Hid & Hpt). rewrite E1.
    destruct (IH t2 (acc ++ (if idlePort now (pt_cfg t) (heap t) p then [p] else [])) Hs2 Hnk Hnp) as (t' & E & C' & S' & Hout & Hin & Hports).
    { intros k' p' Hkp'. destruct (Hl k' p' ltac:(by right)) as [H1 [ps' H2]]. split.
      - apply Hpt. split; [done|]. intros ->. destruct Hk. apply list_elem_of_fmap. by exists (k, p').
      - rewrite Eh. destruct (decide (p' = p)) as [->|Hne]; [by rewrite list_lookup_insert_eq|by rewrite list_lookup_insert_ne]. }
    exists t'. rewrite Ec in *. split.
    { rewrite E, <- app_assoc, filter_cons. do 3 f_equal. rewrite (list_filter_iff _ (fun p => idlePort now (pt_cfg t) (heap t) p = true)) by (intros q; by rewrite Hid).
      by destruct (idlePort _ _ _ p). }
    split; [done|]. split; [done|]. rewrite Eh in *. split; [|split].
    + intros q Hq. rewrite Hout by set_solver. rewrite list_lookup_insert_ne by set_solver. done.
    + intros q [->|Hq]%elem_of_cons.
      * exists ps, ps1. split; [done|]. split; [|done]. rewrite Hout by done. by rewrite list_lookup_insert_eq.
      * destruct (Hin q Hq) as (ps2 & ps2' & H2 & H2' & H2''). exists ps2, ps2'. split; [|done].
        rewrite <- H2. rewrite list_lookup_insert_ne; [done|]. by intros ->.
    + intros k' p'. rewrite Hports, Hpt, Hid, elem_of_cons. naive_solver.
Qed.

Lemma vals_elem m p : p ∈ vals m <-> exists k, m !! k = Some p.
Proof.
  unfold vals. rewrite list_elem_of_fmap. split.
  - intros ([k p'] & -> & H%elem_of_map_to_list). by exists k.
  - intros [k H%elem_of_map_to_list]. by exists (k, p).
Qed.

(** Distinct keys have distinct sessions when each session knows its key. *)
Lemma vals_nodup (m : gmap udpPortKey nat) (h : list udpPortSession) :
  (forall k p, m !! k = Some p -> ps_key <$> h !! p = Some k) -> NoDup (vals m).
Proof.
  intros Hk. apply NoDup_fmap_2_strong; [|apply NoDup_map_to_list].
  intros [k p] [k' p'] H1%elem_of_map_to_list H2%elem_of_map_to_list E. simpl in E. subst p'.
  apply Hk in H1, H2. congruence.
Qed.

Lemma gcLocked_ok now t :
  Forall sessOk (heap t) -> (forall k p, ports t !! k = Some p -> ps_key <$> heap t !! p = Some k) ->
  exists t', gcLocked now t = Ok (t', filter (fun p => idlePort now (pt_cfg t) (heap t) p = true) (vals (ports t)))
  /\ pt_cfg t' = pt_cfg t /\ Forall sessOk (heap t')
  /\ (forall p, p ∉ vals (ports t) -> heap t' !! p = heap t !! p)
  /\ (forall p, p ∈ vals (ports t) -> exists ps ps', heap t !! p = Some ps /\ heap t' !! p = Some ps' /\ collected now (pt_cfg t) ps ps')
  /\ (forall k p, ports t' !! k = Some p <-> ports t !! k = Some p /\ idlePort now (pt_cfg t) (heap t) p = false).
Proof.
  intros Hs Hk. unfold gcLocked.
  destruct (gcLocked_fold now (map_to_list (ports t)) t []) as (t' & E & H1 & H2 & H3 & H4 & H5);
    [done|apply NoDup_fst_map_to_list|by eapply vals_nodup| |].
  - intros k p H%elem_of_map_to_list. split; [done|]. apply Hk in H. by destruct (heap t !! p).
  - exists t'. do 5 (split; [done|]). intros k p. rewrite H5. split; intros [Hp Hi]; (split; [done|]); [|done].
    apply Hi. apply list_elem_of_fmap. exists (k, p). split; [done|]. by apply elem_of_map_to_list.
Qed.

(** A step that changes no key, opens and closes nothing. *)
Lemma tinv_heap n t ds rs cs h :
  tinv n (TState t ds rs cs) -> Forall sessOk h -> view <$> h = view <$> heap t ->
  tinv n (TState (setHeap t h) ds rs cs).
Proof.
  intros [H1 H2 H3 H4 H5 H6] Hs Hv. cbn [ts_tbl ts_ready ts_dialing ts_closing] in *.
  assert (Hl : forall A (f : udpPortKey * bool -> A) p, (fun ps => f (view ps)) <$> h !! p = (fun ps => f (view ps)) <$> heap t !! p).
  { intros A f p. apply (f_equal (fun l => f <$> l !! p)) in Hv. rewrite !list_lookup_fmap in Hv.
    by destruct (h !! p), (heap t !! p). }
  split; cbn [ts_tbl ts_ready ts_dialing ts_closing]; try done.
  - intros k p Hk. etrans; [apply (Hl _ fst p)|]. by apply H2.
  - intros k p Hk. etrans; [apply (Hl _ fst p)|]. by apply H3.
  - intros p. assert (E : (fun ps => closeCalled (ps_sess ps)) <$> h !! p = (fun ps => closeCalled (ps_sess ps)) <$> heap t !! p)
      by apply (Hl _ snd p).
    simpl. rewrite E. apply (H5 p).
Qed.

Lemma tinv_put n t ds rs cs p ps ps' :
  tinv n (TState t ds rs cs) -> heap t !! p = Some ps -> sessOk ps' -> view ps' = view ps ->
  tinv n (TState (putSession p ps' t) ds rs cs).
Proof.
  intros Hi Hp Hs Hv. apply tinv_heap; [done|apply Forall_insert; [apply Hi|done]|].
  rewrite list_fmap_insert, Hv. apply list_insert_id. by rewrite list_lookup_fmap, Hp.
Qed.

Lemma view_alter (f : udpPortSession -> udpPortSession) (p : nat) (h : list udpPortSession) :
  (forall ps, view (f ps) = view ps) -> view <$> alter f p h = view <$> h.
Proof.
  intros Hf. apply list_eq. intros i. rewrite !list_lookup_fmap. destruct (decide (i = p)) as [->|].
  - rewrite list_lookup_alter_eq. destruct (h !! p); simpl; by rewrite ?Hf.
  - by rewrite list_lookup_alter_ne.
Qed.
Lemma sessOk_alter (f : udpPortSession -> udpPortSession) (p : nat) (h : list udpPortSession) :
  (forall ps, ps_sess (f ps) = ps_sess ps) -> Forall sessOk h -> Forall sessOk (alter f p h).
Proof.
  intros Hf Hs. apply Forall_alter; [done|]. intros x _ (evs & H). exists evs. by rewrite Hf.
Qed.

(** A session is closed and its holder lets go of it. *)
Lemma closeSession_ok p t : Forall sessOk (heap t) -> is_Some (heap t !! p) ->
  exists t' ps', closeSession p t = Ok t' /\ t' = putSession p ps' t /\ sessOk ps' /\ closeCalled (ps_sess ps') = true
    /\ Some (ps_key ps') = ps_key <$> heap t !! p.
Proof.
  intros Hs [ps Hp]. unfold closeSession. rewrite Hp. destruct (sessOk_Close ps) as (s & E & H1 & H2).
  { rewrite Forall_lookup in Hs. by eapply Hs. }
  rewrite E. by exists (putSession p (setSess ps s) t), (setSess ps s).
Qed.

Lemma tinv_close n t ds rs rs' cs cs' p t' :
  tinv n (TState t ds rs cs) -> closeSession p t = Ok t' ->
  (snd <$> rs) ++ cs ≡ₚ p :: (snd <$> rs') ++ cs' -> (forall kp, kp ∈ rs' -> kp ∈ rs) -> (length rs' <= length rs)%nat ->
  tinv n (TState t' ds rs' cs').
Proof.
  intros [H1 H2 H3 H4 H5 H6] E Hperm Hsub Hlen. cbn [ts_tbl ts_ready ts_dialing ts_closing holders] in *.
  assert (Hh : holders (TState t ds rs cs) ≡ₚ p :: holders (TState t' ds rs' cs')).
  { unfold holders. cbn [ts_tbl ts_ready ts_closing]. rewrite Hperm.
    replace (ports t') with (ports t); [solve_Permutation|].
    unfold closeSession in E. destruct (heap t !! p); [|done]. by destruct (Close _); simplify_eq/=. }
  assert (Hp : is_Some (heap t !! p)).
  { assert (Hin : p ∈ holders (TState t ds rs cs)) by (rewrite Hh; by left). apply H5 in Hin. by destruct (heap t !! p). }
  destruct (closeSession_ok p t H1 Hp) as (t1 & ps' & E1 & -> & Hs & Hc & Hk). rewrite E in E1. simplify_eq.
  rewrite Hh in H4. apply NoDup_cons in H4 as [Hni Hnd]. pose proof Hp as [ps Hps].
  assert (Hlt : (p < length (heap t))%nat) by (by eapply lookup_lt_Some).
  assert (Hkey : forall q, ps_key <$> heap (putSession p ps' t) !! q = ps_key <$> heap t !! q).
  { intros q. simpl. destruct (decide (q = p)) as [->|]; [|by rewrite list_lookup_insert_ne].
    rewrite list_lookup_insert_eq by done. done. }
  split; cbn [ts_tbl ts_ready ts_dialing ts_closing]; try done.
  - by apply Forall_insert.
  - intros k q Hq. rewrite Hkey. by apply H2.
  - intros k q Hq. rewrite Hkey. by apply H3, Hsub.
  - intros q. split.
    + intros Hin. assert (q <> p) by (by intros ->). simpl. rewrite list_lookup_insert_ne by done.
      apply H5. rewrite Hh. by right.
    + simpl. destruct (decide (q = p)) as [->|Hne].
      * rewrite list_lookup_insert_eq by done. simpl. rewrite Hc. done.
      * rewrite list_lookup_insert_ne by done. intros Hq. apply H5 in Hq. rewrite Hh in Hq. set_solver.
  - simpl in *. lia.
Qed.

Lemma tinv_insert n t ds rs1 rs2 cs key p q t' :
  tinv n (TState t ds (rs1 ++ (key, p) :: rs2) cs) -> gocInsert key p t = Ok (q, t') ->
  tinv n (TState t' ds (rs1 ++ rs2) cs).
Proof.
  intros Hi E. unfold gocInsert in E. destruct (ports t !! key) as [ex|] eqn:Hk.
  - destruct (closeSession p t) as [t1|?|?] eqn:Ec; simplify_eq/=. eapply tinv_close; [exact Hi|exact Ec|..].
    + rewrite !fmap_app, fmap_cons. simpl. solve_Permutation.
    + intros kp. rewrite !elem_of_app, elem_of_cons. tauto.
    + rewrite !length_app. simpl. lia.
  - simplify_eq/=. destruct Hi as [H1 H2 H3 H4 H5 H6]. cbn [ts_tbl ts_ready ts_dialing ts_closing] in *.
    assert (Hperm : holders (TState (setPorts t (<[key := q]> (ports t))) ds (rs1 ++ rs2) cs)
      ≡ₚ holders (TState t ds (rs1 ++ (key, q) :: rs2) cs)).
    { unfold holders, vals. cbn [ts_tbl ts_ready ts_closing ports setPorts]. rewrite map_to_list_insert by done.
      rewrite !fmap_app, !fmap_cons. simpl. solve_Permutation. }
    split; cbn [ts_tbl ts_ready ts_dialing ts_closing]; try done.
    + intros k p Hp. simpl in Hp. apply lookup_insert_Some in Hp as [[-> <-]|[_ Hp]]; [|by apply H2]. apply H3. set_solver.
    + intros k p Hin. apply H3. set_solver.
    + by rewrite Hperm.
    + intros p. rewrite Hperm. apply H5.
    + simpl in *. rewrite map_size_insert_None by done. rewrite !length_app in *. simpl in H6. lia.
Qed.

Lemma tinv_new n t ds1 ds2 rs cs key now up :
  tinv n (TState t (ds1 ++ (key, now) :: ds2) rs cs) ->
  tinv n (TState (snd (gocNew now key up t)) (ds1 ++ ds2) ((key, length (heap t)) :: rs) cs).
Proof.
  intros [H1 H2 H3 H4 H5 H6]. cbn [ts_tbl ts_ready ts_dialing ts_closing gocNew snd] in *.
  set (ps := PortSession key up NewOutlineUDPSession now ∅).
  assert (Hperm : holders (TState (setHeap t (heap t ++ [ps])) (ds1 ++ ds2) ((key, length (heap t)) :: rs) cs)
    ≡ₚ length (heap t) :: holders (TState t (ds1 ++ (key, now) :: ds2) rs cs)).
  { unfold holders. cbn [ts_tbl ts_ready ts_closing ports setHeap]. rewrite fmap_cons. simpl. solve_Permutation. }
  assert (Hold : forall A (f : udpPortSession -> A) p v, f <$> heap t !! p = Some v -> f <$> (heap t ++ [ps]) !! p = Some v).
  { intros A f p v Hp. destruct (heap t !! p) eqn:E; [|done]. by rewrite (lookup_app_l_Some _ _ _ _ E). }
  assert (Hnew : (heap t ++ [ps]) !! length (heap t) = Some ps) by (by rewrite lookup_app_r, Nat.sub_diag by lia).
  split; cbn [ts_tbl ts_ready ts_dialing ts_closing]; try done.
  - apply Forall_app. split; [done|]. constructor; [|done]. exists []. apply new_ok.
  - intros k p Hp. apply Hold. by apply H2.
  - intros k p [[= -> ->]|Hin]%elem_of_cons; [simpl; by rewrite Hnew|]. apply Hold. by apply H3.
  - rewrite Hperm. apply NoDup_cons. split; [|done]. intros Hin. apply H5 in Hin.
    by rewrite lookup_ge_None_2 in Hin by done.
  - intros p. rewrite Hperm, elem_of_cons. split.
    + intros [->|Hin]; [simpl; by rewrite Hnew|]. apply Hold. by apply H5.
    + simpl. intros Hp. destruct (heap t !! p) as [x|] eqn:Ex.
      * right. apply H5. cbn [ts_tbl]. by rewrite (lookup_app_l_Some _ _ _ _ Ex) in Hp; rewrite Ex.
      * left. destruct ((heap t ++ [ps]) !! p) eqn:Ep; [|done]. apply lookup_lt_Some in Ep.
        apply lookup_ge_None in Ex. rewrite length_app in Ep. simpl in Ep. lia.
  - simpl in *. rewrite !length_app in *. simpl in *. lia.
Qed.

Lemma tinv_collect n t ds rs cs now t' l :
  tinv n (TState t ds rs cs) -> gcLocked now t = Ok (t', l) -> tinv n (TState t' ds rs (cs ++ l)).
Proof.
  intros [H1 H2 H3 H4 H5 H6] E. cbn [ts_tbl ts_ready ts_dialing ts_closing] in *.
  destruct (gcLocked_ok now t H1 H2) as (t1 & E1 & Ec & Hs & Hout & Hin & Hports). rewrite E in E1. simplify_eq.
  assert (Hview : forall A (f : udpPortKey * bool -> A) p, (fun ps => f (view ps)) <$> heap t1 !! p = (fun ps => f (view ps)) <$> heap t !! p).
  { intros A f p. destruct (decide (p ∈ vals (ports t))) as [Hp|Hp]; [|by rewrite Hout].
    destruct (Hin p Hp) as (ps & ps' & -> & -> & Hv & _). simpl. by rewrite Hv. }
  assert (Hkeys : forall k p, ports t1 !! k = Some p -> ps_key <$> heap t1 !! p = Some k).
  { intros k p [Hp _]%Hports. etrans; [apply (Hview _ fst p)|]. by apply H2. }
  assert (Hvals : vals (ports t) ≡ₚ vals (ports t1)
    ++ filter (fun p => idlePort now (pt_cfg t) (heap t) p = true) (vals (ports t))).
  { apply NoDup_Permutation; [by eapply vals_nodup|apply NoDup_app; split; [by eapply vals_nodup|split]|].
    - intros p [k [_ Hf]%Hports]%vals_elem [Hi _]%list_elem_of_filter. congruence.
    - apply NoDup_filter. by eapply vals_nodup.
    - intros p. rewrite elem_of_app, list_elem_of_filter, !vals_elem. setoid_rewrite Hports.
      destruct (idlePort now (pt_cfg t) (heap t) p); naive_solver. }
  assert (Hperm : holders (TState t1 ds rs (cs ++ filter (fun p => idlePort now (pt_cfg t) (heap t) p = true) (vals (ports t))))
    ≡ₚ holders (TState t ds rs cs)).
  { unfold holders. cbn [ts_tbl ts_ready ts_closing]. rewrite Hvals at 2. solve_Permutation. }
  split; cbn [ts_tbl ts_ready ts_dialing ts_closing]; try done.
  - intros k p Hp. etrans; [apply (Hview _ fst p)|]. by apply H3.
  - by rewrite Hperm.
  - intros p. rewrite Hperm, H5. cbn [ts_tbl].
    assert (E2 : (fun ps => closeCalled (ps_sess ps)) <$> heap t1 !! p = (fun ps => closeCalled (ps_sess ps)) <$> heap t !! p)
      by apply (Hview _ snd p). by rewrite E2.
  - assert (size (ports t1) <= size (ports t))%nat; [|rewrite Ec; lia]. apply map_subseteq_size, map_subseteq_spec.
    intros k p Hp. by apply Hports in Hp as [Hp _].
Qed.

Lemma tinv_step n st st' : tstep n st st' -> tinv n st -> tinv n st'.
Proof.
  intros [Hst|Hst] Hi; destruct Hst.
  - unfold gocLookup in H. destruct (ports t !! key) as [p|].
    + simplify_eq. apply tinv_heap; [done|apply sessOk_alter; [done|apply Hi]|by apply view_alter].
    + case_match; by simplify_eq.
  - assert (t' = t /\ Z.of_nat (size (ports t)) < portLimit (pt_cfg t)) as [-> Hs].
    { unfold gocLookup in H. destruct (ports t !! key); [done|]. case_match; zbool; simplify_eq. split; [done|lia]. }
    destruct Hi as [H1 H2 H3 H4 H5 H6]. split; try done. cbn [ts_tbl ts_dialing ts_ready length] in *. lia.
  - destruct Hi as [H1 H2 H3 H4 H5 H6]. split; try done. cbn [ts_tbl ts_dialing ts_ready] in *. rewrite !length_app in *. simpl in *. lia.
  - apply (tinv_new _ _ _ _ _ _ _ _ up) in Hi. unfold gocNew in *. by simplify_eq/=.
  - by eapply tinv_insert.
  - assert (Hs : sessOk ps) by (pose proof (ti_sess _ _ Hi) as Hf; rewrite Forall_lookup in Hf; by eapply Hf).
    eapply tinv_put; [done|done| |]; unfold addFlow in H0; destruct (flows ps !! dst); simplify_eq; try done;
      (case_match; [by simplify_eq|]); destruct Hs as (evs & Hok & Hop); pose proof (Subscribe_ok _ evs dst Hok Hop) as Hsub;
      unfold Subscribe in *; repeat case_match; simplify_eq/=; try done; eexists; apply Hsub.
  - unfold touchFlow. set (t1 := setHeap t _).
    assert (H1 : tinv n (TState t1 ds rs cs))
      by (apply tinv_heap; [done|apply sessOk_alter; [done|apply Hi]|by apply view_alter]).
    destruct (ports t1 !! pk); [|done]. apply tinv_heap; [done|apply sessOk_alter; [done|apply H1]|by apply view_alter].
  - assert (Hs : sessOk ps) by (pose proof (ti_sess _ _ Hi) as Hf; rewrite Forall_lookup in Hf; by eapply Hf).
    unfold endFlow in H0. destruct (sessOk_Unsubscribe dst ps Hs) as (s & E & H1 & H2). rewrite E in H0. simplify_eq/=.
    eapply tinv_put; [done|done|by destruct H1 as (evs & ?); exists evs|]. unfold view. simpl. by rewrite H2.
  - assert (Hs : sessOk ps) by (pose proof (ti_sess _ _ Hi) as Hf; rewrite Forall_lookup in Hf; by eapply Hf).
    destruct Hs as (evs & Hok & Hop). pose proof (ustep_ok _ evs x Hok Hop) as Hu. rewrite H1 in Hu.
    eapply tinv_put; [done|done|by exists (evs ++ es)|]. unfold view. simpl. by rewrite (ustep_closeCalled _ _ _ _ H0 H1).
  - by eapply tinv_collect.
  - eapply tinv_close; [done|done|solve_Permutation|done|done].
Qed.

Lemma tinv_steps n st st' : rtc (tstep n) st st' -> tinv n st -> tinv n st'.
Proof. induction 1; eauto using tinv_step. Qed.

Lemma portLimit_pos c : 1 <= portLimit c.
Proof. unfold portLimit. case_match; zbool; lia. Qed.

Lemma tinv_init n c : tinv n (TState (newUDPPortTable c) [] [] []).
Proof.
  pose proof (portLimit_pos c). split; cbn [ts_tbl ts_ready ts_dialing ts_closing newUDPPortTable heap ports pt_cfg]; try done.
  - intros k p Hp. set_solver.
  - unfold holders, vals. simpl. rewrite map_to_list_empty. constructor.
  - intros p. unfold holders, vals. simpl. rewrite map_to_list_empty. set_solver.
  - rewrite map_size_empty. simpl. lia.
Qed.

(** *** Subscriptions of collected flows *)

Lemma closeDrain_subs s c s' : closeDrain s c = Ok s' -> subs s' = subs s.
Proof.
  unfold closeDrain. intros E. destruct (chans s !! c) as [[buf []]|]; simplify_eq/=.
  assert (Hr : forall l s0, subs (fold_left Release l s0) = subs s0).
  { induction l as [|a l IH]; intros s0; [done|]. simpl. rewrite IH. by destruct (Release_frame s0 a) as (-> & _). }
  by rewrite Hr.
Qed.
Lemma Unsubscribe_subs d s s' : Unsubscribe d s = Ok s' ->
  subs s' = match addrKeyFromHostPort d with Some k => delete k (subs s) | None => subs s end.
Proof.
  unfold Unsubscribe. intros E. destruct (addrKeyFromHostPort d) as [k|]; [|by simplify_eq].
  destruct (subs s !! k) eqn:Hk; [by apply closeDrain_subs in E|]. simplify_eq. by rewrite delete_id.
Qed.

Lemma gcFlows_unsubscribes now idle ps ps' dst last k :
  gcFlows now idle ps = Ok ps' -> flows ps !! dst = Some last -> staleFlow now idle last = true ->
  addrKeyFromHostPort dst = Some k -> subs (ps_sess ps') !! k = None.
Proof.
  intros E Hd Hst Hk. apply elem_of_map_to_list in Hd. unfold gcFlows in E.
  assert (Hgen : forall l ps0, fold_left (fun r '(dst, last) =>
      ps ← r;
      if idle <? timeSub now last
      then s ← Unsubscribe dst (ps_sess ps); Ok (setSess (setFlows ps (delete dst (flows ps))) s)
      else Ok ps) l (Ok ps0) = Ok ps' ->
    (dst, last) ∈ l \/ subs (ps_sess ps0) !! k = None -> subs (ps_sess ps') !! k = None).
  { induction l as [|[d v] l IH]; intros ps0 E0 Hin; simpl in E0; [destruct Hin; [set_solver|by simplify_eq]|].
    destruct (idle <? timeSub now v) eqn:Ev.
    - destruct (Unsubscribe d (ps_sess ps0)) as [s|e|w] eqn:Eu; simpl in E0;
        [|by rewrite fold_left_fix in E0 by (by intros [])..].
      apply (IH _ E0). apply Unsubscribe_subs in Eu. simpl. rewrite Eu.
      destruct Hin as [[[= -> ->]|Hin]%elem_of_cons|Hn]; [|by left|]; right.
      + rewrite Hk. apply lookup_delete_eq.
      + destruct (addrKeyFromHostPort d); [|done]. by rewrite lookup_delete_None; right.
    - apply (IH _ E0). destruct Hin as [[[= -> ->]|Hin]%elem_of_cons|Hn]; [|by left|by right].
      unfold staleFlow in Hst. congruence. }
  apply (Hgen _ _ E). by left.
Qed.

(** What a collection removed can be closed. *)
Lemma tinv_closes n st p : tinv n st -> p ∈ ts_closing st -> exists t', closeSession p (ts_tbl st) = Ok t'.
Proof.
  intros [H1 _ _ _ H5 _] Hp. assert (Hh : p ∈ holders st) by (unfold holders; rewrite !elem_of_app; auto).
  apply H5, fmap_Some in Hh as (ps & Hps & _). destruct (closeSession_ok p (ts_tbl st) H1 ltac:(eauto)) as (t' & _ & E & _). eauto.
Qed.

(** The handlers never take a session out of the table. *)
Lemma hstep_ports n st st' k p : hstep n st st' -> ports (ts_tbl st) !! k = Some p -> ports (ts_tbl st') !! k = Some p.
Proof.
  intros H Hk. destruct H; cbn in *; try done.
  - unfold gocLookup in H. repeat case_match; by simplify_eq.
  - unfold gocLookup in H. repeat case_match; by simplify_eq.
  - unfold gocNew in H. by simplify_eq.
  - unfold gocInsert in H. destruct (ports t !! key) as [q'|] eqn:E.
    + destruct (closeSession p0 t) as [t1| |] eqn:Ec; cbn in H; simplify_eq. unfold closeSession in Ec.
      repeat case_match; simplify_eq; try done. by destruct (UDPSession.Close _) in Ec; cbn in Ec; simplify_eq.
    + simplify_eq. cbn. rewrite lookup_insert_ne; [done|congruence].
  - unfold touchFlow. by case_match.
Qed.

(** ** Properties *)

(** C13: however [getOrCreate] calls, collections and flows interleave, a session is
    open exactly while one party is responsible for closing it: the table, the call
    that dialled it, or the collection that removed it. So the table never has a
    closed session, no session is leaked, and closing never fails. *)
Theorem port_sessions_owned (n : nat) (c : TunConfig) (st : tstate)
    (Hrun : rtc (tstep n) (TState (newUDPPortTable c) [] [] []) st) :
  NoDup (holders st)
  /\ (forall p, p ∈ holders st <-> exists ps, heap (ts_tbl st) !! p = Some ps /\ closeCalled (ps_sess ps) = false)
  /\ (forall k p, ports (ts_tbl st) !! k = Some p -> ps_key <$> heap (ts_tbl st) !! p = Some k)
  /\ (forall p, p ∈ holders st -> exists t', closeSession p (ts_tbl st) = Ok t')
  /\ (forall now, exists t' l, gcLocked now (ts_tbl st) = Ok (t', l)).
Proof.
  assert (Hi : tinv n st) by (eapply tinv_steps; [done|apply tinv_init]). destruct Hi as [H1 H2 H3 H4 H5 H6].
  assert (Hop : forall p, p ∈ holders st <-> exists ps, heap (ts_tbl st) !! p = Some ps /\ closeCalled (ps_sess ps) = false).
  { intros p. rewrite H5, fmap_Some. naive_solver. }
  do 3 (split; [done|]). split.
  - intros p (ps & Hp & _)%Hop. destruct (closeSession_ok p (ts_tbl st) H1 ltac:(eauto)) as (t' & _ & E & _). eauto.
  - intros now. destruct (gcLocked_ok now (ts_tbl st) H1 H2) as (t' & E & _). eauto.
Qed.

(** The limit on port sessions holds up to the calls that overlap: with at most
    [n] calls of [getOrCreate] under way at a time the table has at most [n - 1]
    sessions more than the configured limit, so exactly the limit when calls do
    not overlap. *)
Theorem port_limit_bounds (n : nat) (c : TunConfig) (st : tstate)
    (Hrun : rtc (tstep n) (TState (newUDPPortTable c) [] [] []) st) :
  Z.of_nat (size (ports (ts_tbl st))) <= portLimit (pt_cfg (ts_tbl st)) - 1 + Z.of_nat n.
Proof.
  assert (Hi : tinv n st) by (eapply tinv_steps; [done|apply tinv_init]). destruct Hi as [_ _ _ _ _ H6]. lia.
Qed.

(** A collection removes from the table exactly the sessions that were not seen
    for the idle time, drops from the sessions of the table exactly the flows that
    were not seen for the flow idle time, and leaves all other sessions alone. *)
Theorem port_gc_exact (n : nat) (c : TunConfig) (st : tstate) (now : Z) (t' : udpPortTable) (l : list nat)
    (Hrun : rtc (tstep n) (TState (newUDPPortTable c) [] [] []) st)
    (Hgc : gcLocked now (ts_tbl st) = Ok (t', l)) :
  (forall k p, ports t' !! k = Some p <->
     ports (ts_tbl st) !! k = Some p /\ idlePort now (pt_cfg (ts_tbl st)) (heap (ts_tbl st)) p = false)
  /\ (forall p, p ∈ l <-> p ∈ vals (ports (ts_tbl st)) /\ idlePort now (pt_cfg (ts_tbl st)) (heap (ts_tbl st)) p = true)
  /\ (forall p, p ∈ vals (ports (ts_tbl st)) -> exists ps ps', heap (ts_tbl st) !! p = Some ps /\ heap t' !! p = Some ps'
        /\ forall d v, flows ps' !! d = Some v <-> flows ps !! d = Some v /\ staleFlow now (flowIdle (pt_cfg (ts_tbl st))) v = false)
  /\ (forall p, p ∉ vals (ports (ts_tbl st)) -> heap t' !! p = heap (ts_tbl st) !! p).
Proof.
  assert (Hi : tinv n st) by (eapply tinv_steps; [done|apply tinv_init]). destruct Hi as [H1 H2 _ _ _ _].
  destruct (gcLocked_ok now (ts_tbl st) H1 H2) as (t1 & E & _ & _ & Hout & Hin & Hports). rewrite E in Hgc. simplify_eq.
  split; [done|]. split; [|split; [|done]].
  - intros p. rewrite list_elem_of_filter. tauto.
  - intros p Hp. destruct (Hin p Hp) as (ps & ps' & Hps & Hps' & _ & _ & Hf). eauto.
Qed.

(** A flow that is collected while its handler still runs is not subscribed
    again: after the collection and the handler's next datagram the flow is known, so
    no handler subscribes to the peer, and the peer's replies find no channel. *)
Theorem collected_flow_stays_unsubscribed (now idle now' now'' last : Z) (c : TunConfig) (dst : bytes) (k : addrKey)
    (ps ps' : udpPortSession)
    (Hgc : gcFlows now idle ps = Ok ps') (Hflow : flows ps !! dst = Some last)
    (Hstale : staleFlow now idle last = true) (Hkey : addrKeyFromHostPort dst = Some k) :
  let ps'' := setFlows ps' (<[dst := now']> (flows ps')) in
  subs (ps_sess ps'') !! k = None /\ addFlow c now'' dst ps'' = (Ok None, ps'').
Proof.
  intros ps''. split; [exact (gcFlows_unsubscribes now idle ps ps' dst last k Hgc Hflow Hstale Hkey)|]. unfold addFlow, ps''. simpl. by rewrite lookup_insert_eq.
Qed.

(** A table with a limit of one session. *)
Definition cfgDemo : TunConfig := {|
  Device := []; MTU := 1500; NetNS := []; Tun_Debug := false; UDPMaxFlows := 1; UDPIdleTimeout := 60;
  UDPGCInterval := 10; UDPFlowIdleTimeout := 30; UDPMaxDstPerPort := 512 |}.
Definition keyDemo (p : Z) : udpPortKey := PortKey 4 [Byte.x0a; Byte.x00; Byte.x00; Byte.x01] p.
Definition sessDemo (p : Z) : udpPortSession := PortSession (keyDemo p) 0 NewOutlineUDPSession 5 ∅.
(** Two overlapping calls for two ports. *)
Definition tblDemo : udpPortTable :=
  PortTable cfgDemo {[ keyDemo 1 := 0%nat; keyDemo 2 := 1%nat ]} [sessDemo 1; sessDemo 2].

Lemma tblDemo_reached : rtc (tstep 2) (TState (newUDPPortTable cfgDemo) [] [] []) (TState tblDemo [] [] []).
Proof.
  eapply rtc_l; [apply THandler; eapply (TDialling 2 5 (keyDemo 2)); [reflexivity|simpl; lia]|].
  eapply rtc_l; [apply THandler; eapply (TDialling 2 5 (keyDemo 1)); [reflexivity|simpl; lia]|].
  eapply rtc_l; [apply THandler; eapply (TDialled 2 (keyDemo 1) 5 0 _ _ _ []); reflexivity|].
  eapply rtc_l; [apply THandler; eapply (TDialled 2 (keyDemo 2) 5 0 _ _ _ []); reflexivity|].
  eapply rtc_l; [apply THandler; eapply (TInsert 2 (keyDemo 2) 1 1 _ _ _ []); reflexivity|].
  eapply rtc_l; [apply THandler; eapply (TInsert 2 (keyDemo 1) 0 0 _ _ _ []); reflexivity|].
  match goal with |- rtc _ (TState ?t _ _ _) _ => replace t with tblDemo by (vm_compute; reflexivity) end. apply rtc_refl.
Qed.

Lemma port_sessions_owned_witness : NoDup (holders (TState tblDemo [] [] [])).
Proof. exact (proj1 (port_sessions_owned 2 cfgDemo (TState tblDemo [] [] []) tblDemo_reached)). Defined.

(** The bound is reached: two sessions with a limit of one. *)
Lemma port_limit_bounds_witness :
  Z.of_nat (size (ports tblDemo)) <= 2 /\ size (ports tblDemo) = 2%nat /\ portLimit (pt_cfg tblDemo) = 1.
Proof.
  split; [|split; vm_compute; reflexivity]. exact (port_limit_bounds 2 cfgDemo (TState tblDemo [] [] []) tblDemo_reached).
Defined.

Lemma port_gc_exact_witness :
  match gcLocked 100 tblDemo with
  | Ok (t', l) => forall p, p ∈ l <-> p ∈ vals (ports tblDemo) /\ idlePort 100 cfgDemo (heap tblDemo) p = true
  | _ => False
  end.
Proof.
  destruct (gcLocked 100 tblDemo) as [[t' l]|e|w] eqn:E; [|vm_compute in E; discriminate E|vm_compute in E; discriminate E].
  exact (proj1 (proj2 (port_gc_exact 2 cfgDemo (TState tblDemo [] [] []) 100 t' l tblDemo_reached E))).
Defined.

Definition flowDemo : udpPortSession := snd (addFlow cfgDemo 0 peerDemo (sessDemo 1)).

Lemma collected_flow_stays_unsubscribed_witness :
  exists ps', gcFlows 100 30 flowDemo = Ok ps'
  /\ subs (ps_sess ps') !! addrKeyOf (A4 [Byte.x01; Byte.x01; Byte.x01; Byte.x01]) 53 = None.
Proof.
  destruct (gcFlows 100 30 flowDemo) as [ps'|e|w] eqn:E; [|vm_compute in E; discriminate E|vm_compute in E; discriminate E].
  exists ps'. split; [reflexivity|].
  refine (proj1 (collected_flow_stays_unsubscribed 100 30 101 102 0 cfgDemo peerDemo _ flowDemo ps' E _ _ _));
    vm_compute; reflexivity.
Defined.
