(* ===== verification/Relay.v ===== *)
(** * Byte streams and datagrams over a WebSocket

    [WSStreamConn] and the relay of src/internal/outline_tcp.go, the Shadowsocks
    stream of src/internal/outline_tcp_common.go,
    and [WSPacketConn] of src/internal/ws_packet_conn.go, over any connection that
    implements [WSConn]. The ciphers are go-shadowsocks2's. *)

From S2P Require Import Prelude GoNum Metrics WSFrame WSConn.

Definition sIn : bytes := str2b "in".
Definition sOut : bytes := str2b "out".

(** The two observations of every message in either direction. *)
Definition observeMsg (dir upstream proto : bytes) (n : Z) : list mev :=
  [observeWSFrame dir n; observeUpstreamTraffic upstream proto dir n].

(** ** [WSStreamConn] *)

Section Stream.
Context {C : Type} `{!WSConn C}.

Record WSStreamConn := StreamConn { sc : C; rb : bytes; sc_upstream : bytes; sc_proto : bytes; sc_closed : bool }.

Definition NewWSStreamConn (c : C) (upstream proto : bytes) : WSStreamConn := StreamConn c [] upstream proto false.
Definition setConn (w : WSStreamConn) (c : C) (b : bytes) : WSStreamConn :=
  StreamConn c b (sc_upstream w) (sc_proto w) (sc_closed w).

(** The loop [for len(w.rb) == 0] of [Read]; [None] means that [fuel] messages did
    not fill the buffer. *)
Fixpoint fill (fuel : nat) (w : WSStreamConn) : option (res unit * WSStreamConn * list mev) :=
  match rb w with
  | _ :: _ => Some (Ok tt, w, [])
  | [] =>
      match fuel with
      | O => None
      | S k =>
          match ws_read (sc w) with
          | (Err e, c) => Some (Err e, setConn w c [], [])
          | (Panic p, c) => Some (Panic p, setConn w c [], [])
          | (Ok (typ, data), c) =>
              if negb (typ =? WSMessageBinary) then fill k (setConn w c [])
              else
                match fill k (setConn w c data) with
                | Some (r, w, evs) => Some (r, w, observeMsg sIn (sc_upstream w) (sc_proto w) (zlen data) ++ evs)
                | None => None
                end
          end
      end
  end.

(** [Read(p)] with [len(p) = n]: the bytes copied to [p]. *)
Definition Read (fuel : nat) (n : nat) (w : WSStreamConn) : option (res bytes * WSStreamConn * list mev) :=
  match fill fuel w with
  | Some (Ok _, w, evs) => Some (Ok (take n (rb w)), setConn w (sc w) (drop n (rb w)), evs)
  | Some (Err e, w, evs) => Some (Err e, w, evs)
  | Some (Panic p, w, evs) => Some (Panic p, w, evs)
  | None => None
  end.

(** [Write(p)]: one binary message. *)
Definition Write (p : bytes) (w : WSStreamConn) : res Z * WSStreamConn * list mev :=
  match ws_write WSMessageBinary p (sc w) with
  | (Ok _, c) => (Ok (zlen p), setConn w c (rb w), observeMsg sOut (sc_upstream w) (sc_proto w) (zlen p))
  | (Err e, c) => (Err e, setConn w c (rb w), [])
  | (Panic x, c) => (Panic x, setConn w c (rb w), [])
  end.

(** [Close()]: [closeOnce], the error of the connection's [Close] is dropped. *)
Definition Close (w : WSStreamConn) : res unit * WSStreamConn :=
  if sc_closed w then (Ok tt, w)
  else
    let '(r, c) := ws_close 1000 "" (sc w) in
    (match r with Panic x => Panic x | _ => Ok tt end, StreamConn c (rb w) (sc_upstream w) (sc_proto w) true).

(** ** [WSPacketConn] *)

Record WSPacketConn := PacketConn { pc : C; pc_upstream : bytes; pc_proto : bytes }.
Definition NewWSPacketConn (c : C) (upstream proto : bytes) : WSPacketConn := PacketConn c upstream proto.

(** [ReadFrom(p)] with [len(p) = n]: the next binary message, cut to the buffer. *)
Fixpoint ReadFrom (fuel : nat) (n : nat) (w : WSPacketConn) : option (res bytes * WSPacketConn * list mev) :=
  match fuel with
  | O => None
  | S k =>
      match ws_read (pc w) with
      | (Err e, c) => Some (Err e, PacketConn c (pc_upstream w) (pc_proto w), [])
      | (Panic p, c) => Some (Panic p, PacketConn c (pc_upstream w) (pc_proto w), [])
      | (Ok (typ, data), c) =>
          let w := PacketConn c (pc_upstream w) (pc_proto w) in
          if negb (typ =? WSMessageBinary) then ReadFrom k n w
          else Some (Ok (take n data), w, observeMsg sIn (pc_upstream w) (pc_proto w) (zlen (take n data)))
      end
  end.

(** [WriteTo(p, addr)]. *)
Definition WriteTo (p : bytes) (w : WSPacketConn) : res Z * WSPacketConn * list mev :=
  match ws_write WSMessageBinary p (pc w) with
  | (Ok _, c) => (Ok (zlen p), PacketConn c (pc_upstream w) (pc_proto w), observeMsg sOut (pc_upstream w) (pc_proto w) (zlen p))
  | (Err e, c) => (Err e, PacketConn c (pc_upstream w) (pc_proto w), [])
  | (Panic x, c) => (Panic x, PacketConn c (pc_upstream w) (pc_proto w), [])
  end.

Definition PacketClose (w : WSPacketConn) : res unit * WSPacketConn :=
  let '(r, c) := ws_close WSStatusNormalClosure "close" (pc w) in (r, PacketConn c (pc_upstream w) (pc_proto w)).

(** The rest of [net.Conn] and [net.PacketConn]: the addresses stand for none, and setting
    a deadline succeeds without any effect. An address is its network and its text. *)
Definition dummyTCPAddr (d : string) : string * string := ("tcp"%string, d).
Definition LocalAddr (w : WSStreamConn) : string * string := dummyTCPAddr "local".
Definition RemoteAddr (w : WSStreamConn) : string * string := dummyTCPAddr "remote".
Definition SetDeadline (t : Z) (w : WSStreamConn) : option gerror * WSStreamConn := (None, w).
Definition dummyAddr : string * string := ("udp"%string, "0.0.0.0:0"%string).
Definition PacketLocalAddr (w : WSPacketConn) : string * string := dummyAddr.
Definition PacketSetDeadline (t : Z) (w : WSPacketConn) : option gerror * WSPacketConn := (None, w).
End Stream.
Arguments WSStreamConn C : clear implicits.
Arguments WSPacketConn C : clear implicits.

(** ** Shadowsocks streams *)

(** go-shadowsocks2: [core.PickCipher] by name and secret, the encrypted connection
    [ciph.StreamConn(conn)] with its [Write] and [Close], [socks.ParseAddr]. *)
Class SSLib (C S : Type) := {
  PickCipher : bytes -> bytes -> option gerror;
  ss_StreamConn : bytes -> bytes -> WSStreamConn C -> S;
  ss_write : bytes -> S -> res unit * S;
  ss_close : S -> S;
  ParseAddr : bytes -> option bytes;
  ErrAddressNotSupported : gerror }.

Section SS.
Context {C S : Type} `{!WSConn C} `{!SSLib C S}.

(** [newSSTCPConn(ctx, wsc, up, dst)]: the error comes with the stream that was
    closed, if there was one. *)
Definition newSSTCPConn (wsc : C) (name cipher secret dst : bytes) : (S + gerror * option S) + string :=
  match PickCipher cipher secret with
  | Some e => inl (inr (e, None))
  | None =>
      let ssconn := ss_StreamConn cipher secret (NewWSStreamConn wsc name (str2b "tcp")) in
      match ParseAddr dst with
      | None => inl (inr (ErrAddressNotSupported, Some (ss_close ssconn)))
      | Some tgt =>
          match ss_write tgt ssconn with
          | (Ok _, ssconn) => inl (inl ssconn)
          | (Err e, ssconn) => inl (inr (e, Some (ss_close ssconn)))
          | (Panic p, _) => inr p
          end
      end
  end.
End SS.

(** ** The relay *)

(** [e != nil && !errors.Is(e, io.EOF)]. *)
Definition hard (e : option gerror) : bool := match e with Some e => negb (errors_Is e io_EOF) | None => false end.

(** What the relay waits for: the first copy to end with [r1]; then the context is
    found cancelled or not; then the other copy ends or the context does. *)
Inductive second := Copied (e2 : option gerror) | CtxDone (e : gerror).

(** The end of [ProxyTCPOverOutlineWS], from the first finished copy: whether both
    connections were closed to unblock the other copy, and the returned error. *)
Definition relayEnd (e1 : option gerror) (done1 : option gerror) (s : second) : bool * option gerror :=
  match done1 with
  | Some c => (hard e1, if hard e1 then e1 else Some c)
  | None =>
      match s with
      | CtxDone c => (true, if hard e1 then e1 else Some c)
      | Copied e2 => (hard e1, if hard e1 then e1 else if hard e2 then e2 else None)
      end
  end.

(** ** Lemmas *)

(** The messages a connection yields, and the error that ends it. *)
Inductive yields {C : Type} `{!WSConn C} : C -> list (Z * bytes) -> gerror -> Prop :=
| yields_end c c' e : ws_read c = (Err e, c') -> yields c [] e
| yields_msg c c' m ms e : ws_read c = (Ok m, c') -> yields c' ms e -> yields c (m :: ms) e.

(** What a stream over these messages carries: the binary ones. *)
Definition binaries (ms : list (Z * bytes)) : list bytes :=
  omap (fun '(t, d) => if t =? WSMessageBinary then Some d else None) ms.
Definition carried (ms : list (Z * bytes)) : bytes := concat (binaries ms).

Section StreamFacts.
Context {C : Type} `{!WSConn C}.
Implicit Types w : WSStreamConn C.

Lemma fill_spec fuel w ms e :
  yields (sc w) ms e -> (length ms < fuel)%nat ->
  exists w' evs,
    (rb w ++ carried ms = [] /\ fill fuel w = Some (Err e, w', evs))
    \/ (exists ms', fill fuel w = Some (Ok tt, w', evs) /\ rb w' <> [] /\ yields (sc w') ms' e
        /\ rb w ++ carried ms = rb w' ++ carried ms' /\ (length ms' <= length ms)%nat).
Proof.
  revert w ms. induction fuel as [|k IH]; intros w ms Hy Hl; [lia|].
  destruct w as [c b u p cl]. simpl in *. destruct b as [|x b].
  - destruct Hy as [c c' e E|c c' [t d] ms e E Hy]; rewrite E.
    + do 2 eexists. left. split; [done|]. done.
    + unfold carried. simpl. simpl in Hl. destruct (t =? WSMessageBinary); simpl.
      * destruct (IH (StreamConn c' d u p cl) ms Hy ltac:(lia)) as (w' & evs & [[Hn Hf]|(ms' & Hf & Hne & Hy' & Heq & Hlen)]);
          unfold setConn; cbn [sc_upstream sc_proto sc_closed]; rewrite Hf; do 2 eexists.
        -- left. by split.
        -- right. exists ms'. split; [done|]. split; [done|]. split; [done|]. split; [done|lia].
      * destruct (IH (StreamConn c' [] u p cl) ms Hy ltac:(lia)) as (w' & evs & [[Hn Hf]|(ms' & Hf & Hne & Hy' & Heq & Hlen)]);
          unfold setConn; cbn [sc_upstream sc_proto sc_closed]; rewrite Hf; do 2 eexists.
        -- left. by split.
        -- right. exists ms'. split; [done|]. split; [done|]. split; [done|]. split; [done|lia].
  - do 2 eexists. right. exists ms. done.
Qed.

(** One read: some bytes of the stream, at most the size of the buffer, or its end. *)
Lemma Read_spec fuel n w ms e :
  yields (sc w) ms e -> (length ms < fuel)%nat -> (0 < n)%nat ->
  exists w' evs,
    (rb w ++ carried ms = [] /\ Read fuel n w = Some (Err e, w', evs))
    \/ (exists ms' p, Read fuel n w = Some (Ok p, w', evs) /\ p <> [] /\ (length p <= n)%nat /\ yields (sc w') ms' e
        /\ rb w ++ carried ms = p ++ rb w' ++ carried ms' /\ (length ms' <= length ms)%nat).
Proof.
  intros Hy Hl Hn. unfold Read.
  destruct (fill_spec fuel w ms e Hy Hl) as (w' & evs & [[H1 ->]|(ms' & -> & Hne & Hy' & Heq & Hlen)]); do 2 eexists.
  - left. done.
  - right. exists ms', (take n (rb w')). split; [done|]. split.
    { destruct (rb w'), n; done || lia. }
    split; [rewrite length_take; lia|]. split; [done|]. split; [|done].
    simpl. by rewrite app_assoc, take_drop.
Qed.

(** [io.Copy] from the stream with a buffer of [n] bytes: everything read, and the error. *)
Fixpoint copyAll (rounds fuel n : nat) w : option (bytes * res unit) :=
  match rounds with
  | O => None
  | S r =>
      match Read fuel n w with
      | Some (Ok p, w, _) => match copyAll r fuel n w with Some (q, x) => Some (p ++ q, x) | None => None end
      | Some (Err e, _, _) => Some ([], Err e)
      | Some (Panic x, _, _) => Some ([], Panic x)
      | None => None
      end
  end.

Lemma copyAll_spec rounds fuel n w ms e :
  yields (sc w) ms e -> (length ms < fuel)%nat -> (0 < n)%nat -> (length (rb w ++ carried ms) < rounds)%nat ->
  copyAll rounds fuel n w = Some (rb w ++ carried ms, Err e).
Proof.
  revert w ms. induction rounds as [|r IH]; intros w ms Hy Hf Hn Hr; [lia|]. cbn [copyAll].
  destruct (Read_spec fuel n w ms e Hy Hf Hn) as (w' & evs & [[H1 ->]|(ms' & p & -> & Hne & _ & Hy' & Heq & Hlen)]).
  - by rewrite H1.
  - rewrite Heq in *. destruct p; [done|]. simpl in Hr. rewrite (IH w' ms'); [done|done|lia|done|].
    rewrite length_app in Hr. lia.
Qed.

(** A packet connection delivers the binary messages one by one. *)
Lemma ReadFrom_spec fuel n (w : WSPacketConn C) ms e :
  yields (pc w) ms e -> (length ms < fuel)%nat ->
  exists v' evs,
    match binaries ms with
    | [] => ReadFrom fuel n w = Some (Err e, v', evs)
    | d :: ds => ReadFrom fuel n w = Some (Ok (take n d), v', evs)
                 /\ exists ms', yields (pc v') ms' e /\ binaries ms' = ds /\ (length ms' < length ms)%nat
    end.
Proof.
  revert w ms. induction fuel as [|k IH]; intros w ms Hy Hl; [lia|]. cbn [ReadFrom].
  destruct w as [c u p]. simpl in Hy. destruct Hy as [c c' e E|c c' [t d] ms e E Hy]; cbn [pc]; rewrite E.
  - do 2 eexists. done.
  - simpl in *. destruct (t =? WSMessageBinary); simpl.
    + do 2 eexists. split; [done|]. exists ms. split; [done|]. split; [done|lia].
    + destruct (IH (PacketConn c' u p) ms Hy ltac:(lia)) as (v' & evs & H). exists v', evs.
      destruct (binaries ms); [done|]. destruct H as (-> & ms' & Hy' & Hb & Hlen). split; [done|]. exists ms'.
      split; [done|]. split; [done|lia].
Qed.
End StreamFacts.

(** ** Properties *)

(** Reading a [WSStreamConn] to its end gives the binary messages of the
    connection joined together and then the connection's error, whatever the size of
    the buffer and wherever the messages are cut; text messages and empty ones add
    nothing, and no read returns zero bytes. *)
Theorem ws_stream_reads_all {C : Type} `{!WSConn C} (c : C) (upstream proto : bytes) (ms : list (Z * bytes)) (e : gerror)
    (n : nat) (Hy : yields c ms e) (Hn : (0 < n)%nat) :
  copyAll (S (length (carried ms))) (S (length ms)) n (NewWSStreamConn c upstream proto) = Some (carried ms, Err e)
  /\ forall fuel w ms' e', yields (sc w) ms' e' -> (length ms' < fuel)%nat ->
     match Read fuel n w with
     | Some (Ok p, _, _) => p <> [] /\ (length p <= n)%nat
     | Some (Err x, _, _) => x = e'
     | _ => False
     end.
Proof.
  split; [apply (copyAll_spec _ _ n (NewWSStreamConn c upstream proto) ms e); [done|lia|done|simpl; lia]|]. intros fuel w ms' e' Hy' Hf.
  by destruct (Read_spec fuel n w ms' e' Hy' Hf Hn) as (w' & evs & [[_ ->]|(? & p & -> & ? & ? & _)]).
Qed.

(** A [WSPacketConn] keeps datagram boundaries: each [ReadFrom] gives exactly one
    binary message, cut to the buffer, in order, and then the connection's error. *)
Theorem ws_packet_boundaries {C : Type} `{!WSConn C} (w : WSPacketConn C) (ms : list (Z * bytes)) (e : gerror)
    (n fuel : nat) (Hy : yields (pc w) ms e) (Hfuel : (length ms < fuel)%nat) :
  exists w' evs,
    match binaries ms with
    | [] => ReadFrom fuel n w = Some (Err e, w', evs)
    | d :: ds => ReadFrom fuel n w = Some (Ok (take n d), w', evs)
                 /\ exists ms', yields (pc w') ms' e /\ binaries ms' = ds /\ (length ms' < length ms)%nat
    end.
Proof. by apply ReadFrom_spec. Qed.

(** The relay returns no error exactly when neither copy failed hard and the
    context was not cancelled; otherwise the error is the first copy's, then the
    context's, then the second copy's; and whenever it has to wait for a copy after
    a hard error both connections have been closed first. *)
Theorem relay_result (e1 done1 : option gerror) (s : second) :
  let '(closed, r) := relayEnd e1 done1 s in
  (r = None <-> hard e1 = false /\ done1 = None /\ exists e2, s = Copied e2 /\ hard e2 = false)
  /\ (hard e1 = true -> r = e1 /\ closed = true)
  /\ (hard e1 = false -> done1 = None -> forall e2, s = Copied e2 -> hard e2 = true -> r = e2).
Proof.
  unfold relayEnd. destruct done1 as [d|], s as [e2|c], (hard e1) eqn:H1; try destruct (hard e2) eqn:H2;
    repeat split; try done; try naive_solver.
  all: try (destruct e1; [done|]; by simpl in H1). all: try (destruct e2; [done|]; by simpl in H2).
  - intros (_ & _ & e3 & [= <-] & H3). congruence.
  - intros _ _ e3 [= <-] H3. congruence.
Qed.

(** A connection given by the list of what its reads return. *)
Definition scripted : Type := list (Z * bytes) * gerror.
#[local] Instance scriptedConn : WSConn scripted := {
  ws_read := fun '(ms, e) => match ms with m :: ms => (Ok m, (ms, e)) | [] => (Err e, ([], e)) end;
  ws_write := fun _ _ c => (Ok tt, c); ws_close := fun _ _ c => (Ok tt, c) }.
Definition msgsDemo : list (Z * bytes) :=
  [(WSMessageBinary, str2b "ab"); (WSMessageText, str2b "x"); (WSMessageBinary, []); (WSMessageBinary, str2b "cde")].
Lemma scripted_yields ms e : yields ((ms, e) : scripted) ms e.
Proof. induction ms; econstructor; done. Qed.

Lemma ws_stream_reads_all_witness :
  copyAll 6 5 2 (NewWSStreamConn ((msgsDemo, io_EOF) : scripted) [] []) = Some (str2b "abcde", Err io_EOF).
Proof.
  exact (proj1 (ws_stream_reads_all ((msgsDemo, io_EOF) : scripted) [] [] msgsDemo io_EOF 2
    (scripted_yields msgsDemo io_EOF) ltac:(lia))).
Defined.

Lemma ws_packet_boundaries_witness :
  exists w' evs, ReadFrom 9 1 (NewWSPacketConn ((msgsDemo, io_EOF) : scripted) [] []) = Some (Ok (str2b "a"), w', evs).
Proof.
  destruct (ws_packet_boundaries (NewWSPacketConn ((msgsDemo, io_EOF) : scripted) [] []) msgsDemo io_EOF 1 9
    (scripted_yields msgsDemo io_EOF) ltac:(simpl; lia)) as (w' & evs & H & _).
  exists w', evs. exact H.
Defined.
