(* ===== verification/Socks5.v ===== *)
(** * The SOCKS5 server

    src/internal/socks5.go: the handshake, the request and the reply of SOCKS5, and
    the handlers of CONNECT and UDP ASSOCIATE on top of the load balancer and the
    standby connections; and the two packet loops of [UDPAssociation]
    (src/internal/outline_udp.go). *)

From S2P Require Import Prelude GoNum GoNet SocksAddr Config Metrics HealthCheck LoadBalancer WSFrame WSConn Transport Standby.

(** ** The client's connection *)

(** What the client still sends, what was written to it so far, and the error of
    each write, by its number. *)
Record cconn := CConn { cin : rd; cout : list bytes; cwr : nat -> option gerror }.

Definition CM (A : Type) : Type := cconn -> res A * cconn.
#[global] Instance CM_ret : MRet CM := fun A a c => (Ok a, c).
#[global] Instance CM_bind : MBind CM := fun A B f m c =>
  match m c with
  | (Ok a, c') => f a c'
  | (Err e, c') => (Err e, c')
  | (Panic w, c') => (Panic w, c')
  end.
Definition cm_err {A} (e : gerror) : CM A := fun c => (Err e, c).
Definition cread {A} (m : RM A) : CM A := fun c =>
  let '(r, i) := m (cin c) in (r, CConn i (cout c) (cwr c)).
Definition cwrite (b : bytes) : CM unit := fun c =>
  (match cwr c (length (cout c)) with None => Ok tt | Some e => Err e end, CConn (cin c) (cout c ++ [b]) (cwr c)).
(** A call whose error is dropped. *)
Definition ignore (m : CM unit) : CM unit := fun c =>
  match m c with (Panic w, c') => (Panic w, c') | (_, c') => (Ok tt, c') end.

(** ** Messages *)

Definition at_ (b : bytes) (i : nat) : byte := default Byte.x00 (b !! i).

(** [socks5Handshake(c)]. *)
Definition socks5Handshake : CM unit :=
  h ← cread (readFull 2);
  if negb (b2z (at_ h 0) =? 5) then cm_err (errMsg "not socks5")
  else
    m ← cread (readFull (b2z (at_ h 1)));
    if bool_decide (Byte.x00 ∈ m) then cwrite [Byte.x05; Byte.x00]
    else _ ← ignore (cwrite [Byte.x05; Byte.xff]); cm_err (errMsg "no acceptable auth method").

(** [socks5ReadRequest(c)]: the command and the destination. *)
Definition socks5ReadRequest : CM (byte * bytes) :=
  h ← cread (readFull 4);
  if negb (b2z (at_ h 0) =? 5) then cm_err (errMsg "bad ver")
  else
    '(host, port) ← cread (readAddrPort (at_ h 3));
    mret (at_ h 1, JoinHostPort host port).

(** [net.parsePort(service)]: [None] when the service has to be looked up. *)
Definition portMax : Z := 2 ^ 32 - 1.
Definition portCutoff : Z := 2 ^ 30.
Fixpoint parsePortLoop (s : bytes) (n : Z) : option Z :=
  match s with
  | [] => Some n
  | d :: s' =>
      if isDigit d then
        if portCutoff <=? n then Some portMax
        else
          let n := u32 (n * 10) in
          let nn := u32 (n + (b2z d - 48)) in
          if nn <? n then Some portMax else parsePortLoop s' nn
      else None
  end.
Definition parsePort (service : bytes) : option Z :=
  match service with
  | [] => Some 0
  | b :: s' =>
      let neg := bool_decide (b = Byte.x2d) in
      let s := if bool_decide (b = Byte.x2b) || neg then s' else service in
      match parsePortLoop s 0 with
      | None => None
      | Some n =>
          let port := if negb neg && (portCutoff <=? n) then portCutoff - 1
                      else if neg && (portCutoff <? n) then portCutoff else n in
          Some (if neg then - port else port)
      end
  end.

Section Reply.
(** The system's table of service names for "tcp". *)
Variable services : bytes -> option Z.

(** [net.LookupPort("tcp", service)]. *)
Definition LookupPort (service : bytes) : option Z :=
  match (match parsePort service with Some p => Some p | None => services service end) with
  | Some p => if (p <? 0) || (65535 <? p) then None else Some p
  | None => None
  end.

(** [socks5Reply(c, rep, bind)]. *)
Definition replyBytes (rep : byte) (bind : bytes) : bytes :=
  let '(host, portStr) := match SplitHostPort bind with Ok hp => hp | _ => (str2b "0.0.0.0", str2b "0") end in
  let port := default 0 (LookupPort portStr) in
  let '(t, addr) :=
    match ParseIP host with
    | Some ip => match To4 ip with
                 | Some ip4 => (Byte.x01, ip4)
                 | None => (Byte.x04, default [] (To16 ip))
                 end
    | None => (Byte.x03, z2b (zlen host) :: host)
    end in
  [Byte.x05; rep; Byte.x00; t] ++ addr ++ be_bytes 2 (u16 port).
Definition socks5Reply (rep : byte) (bind : bytes) : CM unit := cwrite (replyBytes rep bind).

(** ** Handlers *)

Definition noAddr : bytes := str2b "0.0.0.0:0".

(** [isExpectedTunnelCloseError(err)]; [CloseStatus] is coder/websocket's. *)
Definition isExpectedTunnelCloseError (CloseStatus : gerror -> Z) (err : option gerror) : bool :=
  match err with
  | None => false
  | Some e =>
      errors_Is e net_ErrClosed || errors_Is e io_EOF || errors_Is e os_ErrDeadlineExceeded
      || errors_Is e syscall_EPIPE || errors_Is e syscall_ECONNRESET
      || (CloseStatus e =? 1000) || (CloseStatus e =? 1001)
  end.

Section Handlers.
Context {C W : Type} `{!WSConn C} `{!Dialers C W}.
Implicit Types (lb : LoadBalancer C) (w : W).

(** The clock readings and the other inputs of one request. *)
Record request := {
  q_now : Z; q_nowLog : Z; q_nowFail : Z; q_nanos : Z; q_fuel : nat; q_ctxErr : gerror; q_rng : Z -> Z }.

(** What a handler leaves behind: the balancer, the world, and the websockets that
    were closed and those that are still open. *)
Record handled := Handled { h_conn : cconn; h_lb : LoadBalancer C; h_w : W; h_closed : list C; h_panic : option string }.

(** [handleConnect(ctx, c, dst)]: [proxy] is the result of the relay over the
    acquired connection, with the client's connection and the websocket after it. *)
Definition handleConnect (q : request) (proxy : cconn -> C -> UpstreamConfig -> bytes -> option gerror * cconn * C)
    (dst : bytes) (c : cconn) lb w : handled :=
  match PickTCP (q_now q) (q_nowLog q) lb with
  | (Ok i, lb, _) =>
      match acquireTCPWS (q_fuel q) (q_nanos q) (q_ctxErr q) i lb w with
      | (Ok wsc, lb, w, _, cl) =>
          match socks5Reply Byte.x00 noAddr c with
          | (Ok _, c) =>
              match pool lb !! i with
              | Some s =>
                  let '(_, c, wsc) := proxy c wsc (cfg s) dst in
                  Handled c lb w (cl ++ snd (closed wsc "close")) None
              | None => Handled c lb w cl (Some "nil pointer dereference")
              end
          | (_, c) => Handled c lb w (cl ++ snd (closed wsc "close")) None
          end
      | (Err e, lb, w, _, cl) =>
          let '(lb, _) := ReportTCPFailure (q_rng q) (q_nowFail q) (Some i) (Some e) lb in
          Handled (snd (ignore (socks5Reply Byte.x04 noAddr) c)) lb w cl None
      | (Panic x, lb, w, _, cl) => Handled c lb w cl (Some x)
      end
  | (Err e, lb, _) =>
      let '(lb, _) := ReportTCPFailure (q_rng q) (q_nowFail q) None (Some e) lb in
      Handled (snd (ignore (socks5Reply Byte.x04 noAddr) c)) lb w [] None
  | (Panic x, lb, _) => Handled c lb w [] (Some x)
  end.

(** [handleUDPAssociate(ctx, c)]: [assoc] is [NewUDPAssociation], with the printed
    address of the relay socket and the deferred [assoc.Close]. The client's input is
    read to its end. *)
Definition handleUDPAssociate (q : request) (assoc : UpstreamConfig -> W -> res (bytes * (W -> W)) * W) (c : cconn) lb w : handled :=
  match PickUDP (q_now q) (q_nowLog q) lb with
  | (Ok i, lb, _) =>
      match pool lb !! i with
      | Some s =>
          match assoc (cfg s) w with
          | (Ok (relayAddr, assocClose), w) =>
              match socks5Reply Byte.x00 relayAddr c with
              | (Ok _, c) => Handled (CConn (Rd [] (rd_err (cin c))) (cout c) (cwr c)) lb (assocClose w) [] None
              | (_, c) => Handled c lb (assocClose w) [] None
              end
          | (Err e, w) =>
              let '(lb, _) := ReportUDPFailure (q_rng q) (q_nowFail q) (Some i) (Some e) lb in
              Handled (snd (ignore (socks5Reply Byte.x04 noAddr) c)) lb w [] None
          | (Panic x, w) => Handled c lb w [] (Some x)
          end
      | None => Handled c lb w [] (Some "nil pointer dereference")
      end
  | (Err e, lb, _) =>
      let '(lb, _) := ReportUDPFailure (q_rng q) (q_nowFail q) None (Some e) lb in
      Handled (snd (ignore (socks5Reply Byte.x04 noAddr) c)) lb w [] None
  | (Panic x, lb, _) => Handled c lb w [] (Some x)
  end.

(** [HandleConn(ctx, c)]. *)
Definition HandleConn (q : request) (proxy : cconn -> C -> UpstreamConfig -> bytes -> option gerror * cconn * C)
    (assoc : UpstreamConfig -> W -> res (bytes * (W -> W)) * W) (c : cconn) lb w : handled :=
  match socks5Handshake c with
  | (Ok _, c) =>
      match socks5ReadRequest c with
      | (Ok (cmd, dst), c) =>
          if b2z cmd =? 1 then handleConnect q proxy dst c lb w
          else if b2z cmd =? 3 then handleUDPAssociate q assoc c lb w
          else Handled (snd (ignore (socks5Reply Byte.x07 noAddr) c)) lb w [] None
      | (Panic x, c) => Handled c lb w [] (Some x)
      | (Err _, c) => Handled c lb w [] None
      end
  | (Panic x, c) => Handled c lb w [] (Some x)
  | (Err _, c) => Handled c lb w [] None
  end.
End Handlers.
End Reply.

(** ** [UDPAssociation] *)

Section Association.
Context {A : Type}.
(** The peer's address is learned from the first packet of the client. *)
Record UDPAssociation := Assoc { peerUDP : option A }.

(** One round of [readFromClientLoop]: the datagram for the upstream, if any.
    [ua] is the sender when its address is a UDP address. *)
Definition readFromClient (ParseAddr : bytes -> option bytes) (pkt : bytes) (ua : option A) (a : UDPAssociation)
  : res (UDPAssociation * option bytes) :=
  if (length pkt <? 4 + 2 + 2)%nat then Ok (a, None)
  else
    let a := match ua, peerUDP a with Some u, None => Assoc (Some u) | _, _ => a end in
    if negb (b2z (at_ pkt 0) =? 0) || negb (b2z (at_ pkt 1) =? 0) then Ok (a, None)
    else if negb (b2z (at_ pkt 2) =? 0) then Ok (a, None)
    else
      match parseSocksAddrAt pkt 3 with
      | Ok (dstHost, dstPort, off) =>
          match ParseAddr (JoinHostPort dstHost dstPort) with
          | Some ssAddr => Ok (a, Some (ssAddr ++ drop off pkt))
          | None => Ok (a, None)
          end
      | Err _ => Ok (a, None)
      | Panic w => Panic w
      end.

(** One round of [readFromUpstreamLoop]: the packet for the client and its address. *)
Definition readFromUpstream (plain : bytes) (a : UDPAssociation) : res (option (bytes * A)) :=
  match parseSocksAddrFromPlain plain with
  | Ok (_, _, off) =>
      let resp := [Byte.x00; Byte.x00; Byte.x00] ++ take off plain ++ drop off plain in
      match peerUDP a with None => Ok None | Some peer => Ok (Some (resp, peer)) end
  | Err _ => Ok None
  | Panic w => Panic w
  end.
End Association.
Arguments UDPAssociation A : clear implicits.

(** ** Lemmas *)

Lemma CM_bind_Ok {A B} (f : A -> CM B) (m : CM A) c a c' : m c = (Ok a, c') -> (m ≫= f) c = f a c'.
Proof. intros H. unfold mbind, CM_bind. by rewrite H. Qed.
Lemma CM_bind_Err {A B} (f : A -> CM B) (m : CM A) c e c' : m c = (Err e, c') -> (m ≫= f) c = (Err e, c').
Proof. intros H. unfold mbind, CM_bind. by rewrite H. Qed.

Lemma cread_eq {A} (m : RM A) c r i : m (cin c) = (r, i) -> cread m c = (r, CConn i (cout c) (cwr c)).
Proof. intros H. unfold cread. by rewrite H. Qed.

(** A full read takes a prefix of the stream, or there is none of that length. *)
Lemma readFull_split n b e :
  0 <= n -> (exists l rest, b = l ++ rest /\ zlen l = n /\ readFull n (Rd b e) = (Ok l, Rd rest e))
  \/ (zlen b < n /\ exists e' r', readFull n (Rd b e) = (Err e', r')).
Proof.
  intros Hn. unfold readFull. cbn [rd_buf rd_err]. destruct (Z.leb_spec n 0).
  - left. exists [], b. split; [done|]. split; [rewrite zlen_nil; lia|done].
  - destruct (Z.ltb_spec (zlen b) n); [right; eauto|]. left. exists (take (Z.to_nat n) b), (drop (Z.to_nat n) b).
    split; [by rewrite take_drop|]. split; [|done]. unfold zlen in *. rewrite length_take. lia.
Qed.

(** The greeting of a client: version 5 and its authentication methods. *)
Definition greeting (ms : bytes) : bytes := Byte.x05 :: z2b (zlen ms) :: ms.

Lemma handshake_cases c :
  (exists ms rest, rd_buf (cin c) = greeting ms ++ rest /\ zlen ms < 256
     /\ socks5Handshake c =
        (if bool_decide (Byte.x00 ∈ ms) then cwrite [Byte.x05; Byte.x00]
         else _ ← ignore (cwrite [Byte.x05; Byte.xff]); cm_err (errMsg "no acceptable auth method"))
          (CConn (Rd rest (rd_err (cin c))) (cout c) (cwr c)))
  \/ ((exists e, fst (socks5Handshake c) = Err e) /\ cout (snd (socks5Handshake c)) = cout c
      /\ ~ exists ms rest, rd_buf (cin c) = greeting ms ++ rest /\ zlen ms < 256).
Proof.
  destruct c as [[b e] out wr]. cbn [cin cout cwr rd_buf rd_err]. unfold socks5Handshake.
  destruct (readFull_split 2 b e) as [(h & r1 & -> & Hh & E1)|(Hs & e' & r' & E1)]; [lia| |].
  - destruct h as [|v [|k [|? ?]]]; try (unfold zlen in Hh; simpl in Hh; lia).
    rewrite (CM_bind_Ok _ _ _ [v; k] (CConn (Rd r1 e) out wr)) by (by apply cread_eq).
    change (at_ [v; k] 0) with v. change (at_ [v; k] 1) with k. pose proof (b2z_range k) as Hk.
    destruct (Z.eqb_spec (b2z v) 5) as [Hv|Hv]; cbn [negb].
    + assert (v = Byte.x05) as -> by (by apply b2z_inj).
      destruct (readFull_split (b2z k) r1 e) as [(ms & rest & -> & Hm & E2)|(Hs & e' & r' & E2)]; [lia| |].
      * left. exists ms, rest. unfold greeting. rewrite Hm, z2b_b2z. split; [done|]. split; [lia|].
        by rewrite (CM_bind_Ok _ _ _ ms (CConn (Rd rest e) out wr)) by (by apply cread_eq).
      * right. rewrite (CM_bind_Err _ _ _ e' (CConn r' out wr)) by (by apply cread_eq).
        split; [by eexists|]. split; [done|]. intros (ms & rest & E & Hm). simpl in E. simplify_eq.
        rewrite b2z_z2b_small, zlen_app in Hs by (pose proof (zlen_nonneg ms); lia). pose proof (zlen_nonneg rest). lia.
    + right. split; [by eexists|]. split; [done|]. intros (ms & rest & E & _). simpl in E. by simplify_eq.
  - right. rewrite (CM_bind_Err _ _ _ e' (CConn r' out wr)) by (by apply cread_eq).
    split; [by eexists|]. split; [done|]. intros (ms & rest & -> & _). unfold greeting in Hs. simpl in Hs.
    autorewrite with goz in Hs. pose proof (zlen_nonneg ms); pose proof (zlen_nonneg rest). lia.
Qed.

Lemma handshake_greeting c ms rest :
  rd_buf (cin c) = greeting ms ++ rest -> zlen ms < 256 -> Byte.x00 ∈ ms ->
  socks5Handshake c = cwrite [Byte.x05; Byte.x00] (CConn (Rd rest (rd_err (cin c))) (cout c) (cwr c)).
Proof.
  intros Hb Hl Hin. destruct c as [[b e] out wr]. simpl in Hb. subst b. unfold socks5Handshake.
  rewrite (CM_bind_Ok _ _ _ [Byte.x05; z2b (zlen ms)] (CConn (Rd (ms ++ rest) e) out wr))
    by (apply cread_eq; apply (readFull_app [Byte.x05; z2b (zlen ms)]); done).
  change (b2z (at_ [Byte.x05; z2b (zlen ms)] 0) =? 5) with true. cbn [negb].
  change (at_ [Byte.x05; z2b (zlen ms)] 1) with (z2b (zlen ms)).
  rewrite b2z_z2b_small by (pose proof (zlen_nonneg ms); lia).
  rewrite (CM_bind_Ok _ _ _ ms (CConn (Rd rest e) out wr)) by (apply cread_eq; by apply readFull_app).
  by rewrite bool_decide_true.
Qed.

(** A request: version 5, a command, a reserved byte and an address. *)
Definition requestBytes (cmd rsv : byte) (a : saddr) (p : Z) : bytes := [Byte.x05; cmd; rsv] ++ encodeAddr a p.

Lemma request_encode cmd rsv a p rest e out wr :
  addrWF a -> 0 <= p < 65536 ->
  socks5ReadRequest (CConn (Rd (requestBytes cmd rsv a p ++ rest) e) out wr)
  = (Ok (cmd, JoinHostPort (addrHost a) (itoa p)), CConn (Rd rest e) out wr).
Proof.
  intros Hw Hp. unfold socks5ReadRequest, requestBytes, encodeAddr.
  set (h := [Byte.x05; cmd; rsv; addrType a]). set (body := addrBody a ++ be_bytes 2 p ++ rest).
  replace (([Byte.x05; cmd; rsv] ++ addrType a :: addrBody a ++ be_bytes 2 p) ++ rest) with (h ++ body)
    by (unfold h, body; simpl; by rewrite <- app_assoc).
  rewrite (CM_bind_Ok _ _ _ h (CConn (Rd body e) out wr)) by (apply cread_eq; by apply readFull_app).
  change (b2z (at_ h 0) =? 5) with true. cbn [negb]. change (at_ h 3) with (addrType a). change (at_ h 1) with cmd.
  rewrite (CM_bind_Ok _ _ _ (addrHost a, itoa p) (CConn (Rd rest e) out wr)); [done|].
  apply cread_eq. by apply readAddrPort_encode.
Qed.

(** *** Ports and replies *)

Lemma parsePortLoop_digits s n v :
  0 <= n -> decVal n s = Some v -> v < portCutoff -> parsePortLoop s n = Some v.
Proof.
  revert n. induction s as [|d s IH]; intros n Hn E Hv; simpl in *; [done|].
  destruct (isDigit d) eqn:Ed; [|done]. assert (Hd : 0 <= b2z d - 48 <= 9) by (unfold isDigit in Ed; zbool; lia).
  assert (Hm : n * 10 + (b2z d - 48) <= v).
  { clear IH Hv. assert (Hn' : 0 <= n * 10 + (b2z d - 48)) by lia. revert E Hn'. generalize (n * 10 + (b2z d - 48)). clear.
    induction s as [|d s IH]; intros z E Hz; simpl in E; [by simplify_eq|].
    destruct (isDigit d) eqn:Ed; [|done]. unfold isDigit in Ed. zbool. apply IH in E; lia. }
  unfold portCutoff in *. destruct (Z.leb_spec (2 ^ 30) n); [lia|]. unfold u32.
  rewrite !(Z.mod_small (n * 10)), Z.mod_small by lia. destruct (Z.ltb_spec (n * 10 + (b2z d - 48)) (n * 10)); [lia|].
  apply IH; [lia|done|done].
Qed.

Lemma LookupPort_itoa services p : 0 <= p < 65536 -> LookupPort services (itoa p) = Some p.
Proof.
  intros Hp. destruct (itoa_spec p ltac:(lia)) as (Hd & Hne & Hv). unfold LookupPort, parsePort.
  destruct (itoa p) as [|b s] eqn:E; [done|]. inversion Hd as [|? ? Hb _]; subst.
  rewrite !bool_decide_false by (by intros ->). cbn [orb negb andb].
  rewrite (parsePortLoop_digits (b :: s) 0 p) by (done || unfold portCutoff; lia).
  unfold portCutoff. destruct (Z.leb_spec (2 ^ 30) p); [lia|].
  destruct (Z.ltb_spec p 0); [lia|]. destruct (Z.ltb_spec 65535 p); [lia|]. done.
Qed.

Lemma replyBytes_encode services rep a p :
  addrWF a -> domainOk a -> 0 <= p < 65536 -> (forall b, a = A6 b -> mapped b = false) ->
  replyBytes services rep (JoinHostPort (addrHost a) (itoa p)) = [Byte.x05; rep; Byte.x00] ++ encodeAddr a p.
Proof.
  intros Hw Hd Hp Hm. destruct (digits_portOk p Hp) as [Hpo _]. unfold replyBytes, encodeAddr.
  assert (Hho : hostOk (addrHost a)) by (destruct a; simpl in *; [apply ipString_hostOk; auto..|apply Hd]).
  rewrite split_join by done. rewrite LookupPort_itoa by done.
  replace (u16 (default 0 (Some p))) with p by (unfold u16; simpl; rewrite Z.mod_small; lia).
  destruct a as [a|a|d]; simpl in Hw; cbn [addrHost addrType addrBody].
  - rewrite ParseIP_ipString by auto. unfold To16. rewrite Hw. cbn [Nat.eqb]. by rewrite To4_prefix.
  - assert (H16 : To16 a = Some a) by (unfold To16; by rewrite Hw).
    assert (H4 : To4 a = None) by (specialize (Hm a eq_refl); unfold mapped in Hm; unfold To4; by rewrite Hw, Hm).
    rewrite ParseIP_ipString, H16, H4 by auto. cbn [default option_bind]. by rewrite H16.
  - destruct Hd as [_ Hn]. by rewrite Hn.
Qed.

(** *** Handlers *)

(** What the balancer knows about the upstreams. *)
Definition health {C} (lb : LoadBalancer C) : list (UpstreamConfig * hcState * hcState * Z * Z) :=
  (fun s => (cfg s, tcp s, udp s, tcpCooldownUntil s, udpCooldownUntil s)) <$> pool lb.

Section HandlerFacts.
Context {C W : Type} `{!WSConn C} `{!Dialers C W}.
Implicit Types (lb : LoadBalancer C) (w : W).

Lemma takeStandby_health isTCP i lb : health (snd (takeStandby isTCP i lb)) = health lb.
Proof.
  unfold takeStandby, health. simpl. apply list_eq. intros j. rewrite !list_lookup_fmap.
  destruct (decide (j = i)) as [->|]; [|by rewrite list_lookup_alter_ne].
  rewrite list_lookup_alter_eq. destruct (pool lb !! i); [|done]. by destruct isTCP.
Qed.
Lemma DialLimited_health e url lb w r lb' w' evs :
  DialWSStreamLimited e url lb w = (r, lb', w', evs) -> health lb' = health lb.
Proof.
  unfold DialWSStreamLimited, acquireDialSlot. destruct (dialSem lb <? dialLimit); [|by intros; simplify_eq].
  destruct (DialWSStream url w) as [[r0 w0] ev0]. intros; by simplify_eq.
Qed.
Lemma acquireTCPWS_health fuel nanos e i lb w r lb' w' evs cl :
  acquireTCPWS fuel nanos e i lb w = (r, lb', w', evs, cl) -> health lb' = health lb.
Proof.
  unfold acquireTCPWS. pose proof (takeStandby_health true i lb) as Ht. destruct (takeStandby true i lb) as [[c|] lb1].
  - simpl in Ht. rewrite <- Ht. destruct (wsAliveCheck fuel nanos c) as [[[[]|]|?|?] c1]; intros E; simplify_eq; try done;
      destruct (closed c1 "stale-standby") as [[?|?|?] cs]; simplify_eq; try done;
      destruct (DialWSStreamLimited _ _ _ _) as [[[? ?] ?] ?] eqn:Ed; apply DialLimited_health in Ed; by simplify_eq.
  - simpl in Ht. rewrite <- Ht. intros E. destruct (DialWSStreamLimited _ _ _ _) as [[[? ?] ?] ?] eqn:Ed.
    apply DialLimited_health in Ed. by simplify_eq.
Qed.

(** What the upstream [s] gives a request when [slots] dials are under way: its standby,
    found alive, or else what dialling its TCP address comes to. *)
Definition gives (q : request) (s : UpstreamState C) (slots : Z) w (r : res C) : Prop :=
  let dialled := exists w' evs, DialWSStream (TCPWSS (cfg s)) w = (r, w', evs) in
  let alive c := wsAliveCheck (q_fuel q) (q_nanos q) c in
  match r with
  | Ok wsc => (exists c, standbyTCP s = Some c /\ alive c = (Ok (Some true), wsc))
      \/ (forall c, standbyTCP s = Some c -> fst (alive c) <> Ok (Some true)) /\ slots < 32 /\ dialled
  | Err e => 32 <= slots /\ e = q_ctxErr q \/ slots < 32 /\ dialled
  | Panic x => slots < 32 /\ dialled
      \/ exists c, standbyTCP s = Some c
           /\ (fst (alive c) = Panic x \/ fst (closed (snd (alive c)) "stale-standby") = Panic x)
  end.

Lemma dialLimited_gives q s lb w : (forall c, standbyTCP s = Some c -> fst (wsAliveCheck (q_fuel q) (q_nanos q) c) <> Ok (Some true)) ->
  gives q s (dialSem lb) w (fst (fst (fst (DialWSStreamLimited (q_ctxErr q) (TCPWSS (cfg s)) lb w)))).
Proof.
  intros Hn. unfold DialWSStreamLimited, acquireDialSlot, dialLimit. destruct (Z.ltb_spec (dialSem lb) 32) as [Hl|Hl]; [|by left].
  destruct (DialWSStream _ w) as [[r w'] evs] eqn:E. destruct r; cbn; [right; split; [done|]|right|left]; (split; [done|]); eauto.
Qed.

Lemma acquireTCPWS_gives q i lb w s : pool lb !! i = Some s ->
  gives q s (dialSem lb) w (fst (fst (fst (fst (acquireTCPWS (q_fuel q) (q_nanos q) (q_ctxErr q) i lb w))))).
Proof.
  intros Hs. unfold acquireTCPWS, takeStandby. rewrite Hs. cbn [mbind option_bind slot]. set (lb1 := setPool lb _).
  assert (Hu : wssURL true i lb1 = TCPWSS (cfg s)) by (unfold wssURL, lb1; cbn; by rewrite list_lookup_alter_eq, Hs).
  rewrite Hu. change (dialSem lb) with (dialSem lb1). destruct (standbyTCP s) as [c|] eqn:Ec.
  - destruct (wsAliveCheck (q_fuel q) (q_nanos q) c) as [[[[]|]|e|x] c1] eqn:Ea; [left; by exists c|..|right; exists c; rewrite Ea; auto].
    all: destruct (closed c1 "stale-standby") as [rc cs] eqn:El; destruct rc; 
      try (apply (dialLimited_gives q s lb1 w); rewrite Ec; intros ? [= <-]; by rewrite Ea);
      try (right; exists c; rewrite Ea; cbn [snd]; rewrite El; auto).
  - apply (dialLimited_gives q s lb1 w). by rewrite Ec.
Qed.

Lemma health_lookup lb lb' i s :
  health lb' = health lb -> pool lb !! i = Some s -> exists s', pool lb' !! i = Some s' /\ cfg s' = cfg s.
Proof.
  intros H Hs. apply (f_equal (fun l => l !! i)) in H. unfold health in H. rewrite !list_lookup_fmap, Hs in H.
  destruct (pool lb' !! i) as [s'|]; [|done]. exists s'. by simplify_eq/=.
Qed.
End HandlerFacts.

(** ** Properties *)

(** The handshake is exact: a greeting is consumed completely and nothing more,
    and answered with "no authentication" when the client offers it and with
    "no acceptable method" and an error otherwise; anything else is an error and
    nothing is written. *)
Theorem socks5_handshake_exact (c : cconn) :
  let '(r, c') := socks5Handshake c in
  (exists ms rest, rd_buf (cin c) = greeting ms ++ rest /\ zlen ms < 256 /\ cin c' = Rd rest (rd_err (cin c))
     /\ (Byte.x00 ∈ ms /\ cout c' = cout c ++ [[Byte.x05; Byte.x00]]
           /\ r = match cwr c (length (cout c)) with None => Ok tt | Some e => Err e end
         \/ Byte.x00 ∉ ms /\ cout c' = cout c ++ [[Byte.x05; Byte.xff]] /\ exists e, r = Err e))
  \/ (~ exists ms rest, rd_buf (cin c) = greeting ms ++ rest /\ zlen ms < 256)
     /\ cout c' = cout c /\ exists e, r = Err e.
Proof.
  destruct (handshake_cases c) as [(ms & rest & Hb & Hl & ->)|(He & Ho & Hn)].
  - case_bool_decide as Hin; [|unfold mbind, CM_bind, ignore, cwrite; cbn [cin cout cwr]; destruct (cwr c _)]; simpl;
      left; exists ms, rest; (do 3 (split; [done|])); [by left|right; eauto..].
  - destruct (socks5Handshake c) as [r c']. simpl in *. auto.
Qed.

(** A SOCKS5 exchange round-trips: the request of a client for an address is
    read as its command and the printed address, leaving what follows unread, and
    the reply with a bound address, read back by a client, is that address. *)
Theorem socks5_messages_roundtrip (services : bytes -> option Z) (cmd rsv rep : byte) (a : saddr) (p : Z) (rest : bytes)
    (c : cconn)
    (Hwf : addrWF a) (Hdom : domainOk a) (Hport : 0 <= p < 65536) (Hplain : forall b, a = A6 b -> mapped b = false)
    (Hin : rd_buf (cin c) = requestBytes cmd rsv a p ++ rest) :
  let dst := JoinHostPort (addrHost a) (itoa p) in
  socks5ReadRequest c = (Ok (cmd, dst), CConn (Rd rest (rd_err (cin c))) (cout c) (cwr c))
  /\ cout (snd (socks5Reply services rep dst c)) = cout c ++ [requestBytes rep Byte.x00 a p]
  /\ parseSocksAddrAt (requestBytes rep Byte.x00 a p) 3
     = Ok (addrHost a, itoa p, length (requestBytes rep Byte.x00 a p)).
Proof.
  intros dst. split; [|split].
  - destruct c as [[b e] out wr]. simpl in Hin. subst b. by apply request_encode.
  - unfold socks5Reply, cwrite. simpl. unfold dst. by rewrite replyBytes_encode.
  - unfold requestBytes. pose proof (parseSocksAddrAt_encode [Byte.x05; rep; Byte.x00] a p [] Hwf Hport) as H.
    rewrite app_nil_r in H. etrans; [exact H|]. done.
Qed.

(** C7: the answer to a CONNECT request is honest. A client that offers "no
    authentication" and asks for an address gets the handshake answer and then one
    reply. Success is only sent once the upstream that was picked, healthy and out of
    its cooldown, has given a connection: its own standby connection, found alive, or a
    new one dialled to its own TCP address within the 32 slots. Then exactly the rest of
    the client's bytes and the requested address go to the relay over that connection,
    which is closed afterwards, and the health of the upstreams does not depend on how
    the relay ends. Otherwise the reply is "host unreachable", and either there is no
    upstream to take and nothing changes, or the picked one gave no connection and is
    marked down. *)
Theorem socks5_connect_honest {C W : Type} `{!WSConn C} `{!Dialers C W} (services : bytes -> option Z) (q : request)
    (proxy : cconn -> C -> UpstreamConfig -> bytes -> option gerror * cconn * C) (assoc : UpstreamConfig -> W -> res (bytes * (W -> W)) * W)
    (ms rest : bytes) (rsv : byte) (a : saddr) (p : Z) (e : gerror) (lb : LoadBalancer C) (w : W)
    (Hms : Byte.x00 ∈ ms) (Hlen : zlen ms < 256) (Hwf : addrWF a) (Hport : 0 <= p < 65536) :
  let c := CConn (Rd (greeting ms ++ requestBytes Byte.x01 rsv a p ++ rest) e) [] (fun _ => None) in
  let h := HandleConn services q proxy assoc c lb w in
  let replied rep := CConn (Rd rest e) [[Byte.x05; Byte.x00]; replyBytes services rep noAddr] (fun _ => None) in
  (exists i s r, fst (fst (PickTCP (q_now q) (q_nowLog q) lb)) = Ok i
     /\ pool lb !! i = Some s /\ healthy (tcp s) = true /\ tcpCooldownUntil s <= q_now q
     /\ gives q s (dialSem lb) w r
     /\ match r with
        | Ok wsc => exists er wsc' cl,
            proxy (replied Byte.x00) wsc (cfg s) (JoinHostPort (addrHost a) (itoa p)) = (er, h_conn h, wsc')
            /\ h_closed h = cl ++ snd (closed wsc' "close") /\ health (h_lb h) = health lb /\ h_panic h = None
        | Err _ => h_conn h = replied Byte.x04 /\ tcpDown i (h_lb h) /\ h_panic h = None
        | Panic x => h_panic h = Some x
        end)
  \/ (exists er, fst (fst (PickTCP (q_now q) (q_nowLog q) lb)) = Err er
      /\ h_conn h = replied Byte.x04 /\ h_lb h = lb /\ h_w h = w /\ h_panic h = None).
Proof.
  intros c h replied. unfold h, HandleConn.
  assert (Hhs : socks5Handshake c = (Ok tt, CConn (Rd (requestBytes Byte.x01 rsv a p ++ rest) e) [[Byte.x05; Byte.x00]] (fun _ => None))).
  { pose proof (handshake_greeting c ms (requestBytes Byte.x01 rsv a p ++ rest) eq_refl Hlen Hms) as H. exact H. }
  rewrite Hhs, request_encode by done. change (b2z Byte.x01 =? 1) with true. cbn iota. unfold handleConnect.
  pose proof (pick_pool true (q_now q) (q_nowLog q) lb) as Hp. pose proof (pick_sems true (q_now q) (q_nowLog q) lb) as Hsem.
  fold (PickTCP (C := C)) in Hp, Hsem.
  destruct (PickTCP (q_now q) (q_nowLog q) lb) as [[[i|er|x] lb1] evs] eqn:Ep; [left|right|by apply pickTCP_spec in Ep].
  - cbn in Hp, Hsem. assert (Hp1 : health lb1 = health lb) by (unfold health; by rewrite Hp).
    apply pickTCP_spec in Ep as ((s & Hs & Hh & Hcd) & _).
    pose proof (acquireTCPWS_gives q i lb1 w s ltac:(by rewrite Hp)) as Hg.
    assert (Hd : dialSem lb1 = dialSem lb) by (unfold sems in Hsem; congruence). rewrite Hd in Hg.
    destruct (acquireTCPWS _ _ _ i lb1 w) as [[[[r lb2] w2] ev2] cl] eqn:Ea. exists i, s, r.
    do 5 (split; [done|]). apply acquireTCPWS_health in Ea; rewrite Hp1 in Ea. destruct r as [wsc|er|x].
    + cbn [socks5Reply cwrite cwr]. destruct (health_lookup lb lb2 i s Ea Hs) as (s' & Hs' & Hcfg).
      rewrite Hs', Hcfg. change (CConn _ _ _) with (replied Byte.x00).
      destruct (proxy _ wsc (cfg s) _) as [[r c3] wsc'] eqn:Epr. by exists r, wsc', cl.
    + pose proof (reported_down (q_rng q) (q_nowFail q) i (Some er) lb2) as Hd'.
      by destruct (ReportTCPFailure _ _ _ _ lb2) as [lb3 ev3].
    + done.
  - apply pickTCP_spec in Ep as [-> _]. by exists er.
Qed.

(** UDP ASSOCIATE relays datagrams unchanged. A request of a client goes
    upstream as the encoded address and the data; the answer from an address goes
    back with the SOCKS header, to the client that sent the first packet, and is
    read back by it as that address and data; later senders do not change the
    client. *)
Theorem udp_associate_roundtrip {A : Type} (ParseAddr : bytes -> option bytes) (a : saddr) (p : Z) (data : bytes)
    (u0 : A) (ua : option A) (asc : UDPAssociation A)
    (Hwf : addrWF a) (Hport : 0 <= p < 65536) (Hpeer : peerUDP asc = Some u0)
    (Hlen : (8 <= length ([Byte.x00; Byte.x00; Byte.x00] ++ encodeAddr a p ++ data))%nat)
    (Hparse : ParseAddr (JoinHostPort (addrHost a) (itoa p)) = Some (encodeAddr a p)) :
  let pkt := [Byte.x00; Byte.x00; Byte.x00] ++ encodeAddr a p ++ data in
  readFromClient ParseAddr pkt ua asc = Ok (asc, Some (encodeAddr a p ++ data))
  /\ readFromUpstream (encodeAddr a p ++ data) asc = Ok (Some (pkt, u0))
  /\ parseSocksAddrAt pkt 3 = Ok (addrHost a, itoa p, (3 + length (encodeAddr a p))%nat)
  /\ drop (3 + length (encodeAddr a p)) pkt = data
  /\ readFromClient ParseAddr pkt (Some u0) (Assoc None) = Ok (Assoc (Some u0), Some (encodeAddr a p ++ data)).
Proof.
  intros pkt. pose proof (parseSocksAddrAt_encode [Byte.x00; Byte.x00; Byte.x00] a p data Hwf Hport) as H3.
  assert (Hdrop : drop (3 + length (encodeAddr a p)) pkt = data).
  { change (3 + length (encodeAddr a p))%nat with (length ([Byte.x00; Byte.x00; Byte.x00] ++ encodeAddr a p)).
    unfold pkt. rewrite app_assoc. apply drop_app_length. }
  assert (Hgo : forall ua (x : UDPAssociation A), readFromClient ParseAddr pkt ua x
    = Ok (match ua, peerUDP x with Some u, None => Assoc (Some u) | _, _ => x end, Some (encodeAddr a p ++ data))).
  { intros ua' x. unfold readFromClient. rewrite (proj2 (Nat.ltb_ge _ _)) by exact Hlen.
    change (b2z (at_ pkt 0) =? 0) with true. change (b2z (at_ pkt 1) =? 0) with true. change (b2z (at_ pkt 2) =? 0) with true.
    cbn [negb orb]. cbv zeta. change (parseSocksAddrAt pkt 3)
      with (parseSocksAddrAt ([Byte.x00; Byte.x00; Byte.x00] ++ encodeAddr a p ++ data) (length [Byte.x00; Byte.x00; Byte.x00])).
    rewrite H3, Hparse. cbn [length] in Hdrop |- *. by rewrite Hdrop. }
  split; [rewrite Hgo, Hpeer; by destruct ua|]. split; [|split; [exact H3|split; [done|by rewrite Hgo]]].
  pose proof (parseSocksAddrAt_encode [] a p data Hwf Hport) as H0. cbn [app length] in H0.
  unfold readFromUpstream, parseSocksAddrFromPlain. by rewrite H0, Hpeer, take_drop.
Qed.

Definition ipDemo : saddr := A4 [Byte.x01; Byte.x02; Byte.x03; Byte.x04].

Lemma socks5_messages_roundtrip_witness :
  socks5ReadRequest (CConn (Rd (requestBytes Byte.x01 Byte.x00 ipDemo 443 ++ [Byte.x16]) io_EOF) [] (fun _ => None))
  = (Ok (Byte.x01, str2b "1.2.3.4:443"), CConn (Rd [Byte.x16] io_EOF) [] (fun _ => None)).
Proof.
  refine (proj1 (socks5_messages_roundtrip (fun _ => None) Byte.x01 Byte.x00 Byte.x00 ipDemo 443 [Byte.x16]
    (CConn (Rd (requestBytes Byte.x01 Byte.x00 ipDemo 443 ++ [Byte.x16]) io_EOF) [] (fun _ => None)) _ _ _ _ _));
    try reflexivity; try exact I; try lia. intros b E; discriminate E.
Defined.

(** Connections and dials that always succeed. *)
#[local] Instance nullConn : WSConn unit := {
  ws_read := fun c => (Err io_EOF, c); ws_write := fun _ _ c => (Ok tt, c); ws_close := fun _ _ c => (Ok tt, c) }.
Definition qDemo : request := {|
  q_now := 100; q_nowLog := 100; q_nowFail := 100; q_nanos := 1; q_fuel := 1; q_ctxErr := context_Canceled;
  q_rng := fun _ => 0 |}.
Definition worldDemo : recW unit := {| rlog := []; rout := fun _ => Ok tt; rtime := 0 |}.

Lemma socks5_connect_honest_witness :
  let c := CConn (Rd (greeting [Byte.x00] ++ requestBytes Byte.x01 Byte.x00 ipDemo 443 ++ [Byte.x16]) io_EOF) [] (fun _ => None) in
  let h := HandleConn (fun _ => None) qDemo (fun c w _ _ => (None, c, w)) (fun _ w => (Err io_EOF, w)) c lbDemo worldDemo in
  h_conn h = CConn (Rd [Byte.x16] io_EOF) [[Byte.x05; Byte.x00]; replyBytes (fun _ => None) Byte.x00 noAddr] (fun _ => None)
  /\ h_panic h = None /\ health (h_lb h) = health lbDemo.
Proof.
  intros c h.
  destruct (socks5_connect_honest (fun _ => None) qDemo (fun c w _ _ => (None, c, w)) (fun _ w => (Err io_EOF, w)) [Byte.x00]
    [Byte.x16] Byte.x00 ipDemo 443 io_EOF lbDemo worldDemo) as [(i & s & r & _ & _ & _ & _ & _ & H)|(er & _ & H & _)].
  - vm_compute; constructor.
  - vm_compute; reflexivity.
  - reflexivity.
  - lia.
  - destruct r as [wsc|er|x].
    + destruct H as (er & wsc' & cl & _ & _ & Hh & Hp). split; [vm_compute; reflexivity|]. exact (conj Hp Hh).
    + exfalso. destruct H as [H _]. apply (f_equal cout) in H. vm_compute in H. discriminate H.
    + exfalso. vm_compute in H. discriminate H.
  - exfalso. apply (f_equal cout) in H. vm_compute in H. discriminate H.
Defined.

Lemma udp_associate_roundtrip_witness :
  readFromUpstream (encodeAddr ipDemo 53 ++ [Byte.xaa]) (Assoc (Some 7%nat))
  = Ok (Some ([Byte.x00; Byte.x00; Byte.x00] ++ encodeAddr ipDemo 53 ++ [Byte.xaa], 7%nat)).
Proof.
  refine (proj1 (proj2 (udp_associate_roundtrip (fun _ => Some (encodeAddr ipDemo 53)) ipDemo 53 [Byte.xaa] 7%nat None
    (Assoc (Some 7%nat)) _ _ _ _ _))); try reflexivity; try lia. vm_compute; lia.
Defined.
