(* ===== verification/Tun.v ===== *)
(** * The TUN device

    src/internal/tun_native.go: opening the device in its network namespace, the two
    packet pumps between the device and the network stack, the handler of a TCP flow
    with [DialOutlineTCP] (src/internal/outline_dial.go) and the upload of a UDP flow,
    and [RunTunNative] around them. The system and gVisor's stack are given by what
    their calls return; the reply side of a UDP flow runs beside the upload and is
    interleaved with the collections in PortTable. *)

From S2P Require Import Prelude GoNum GoNet Config Metrics HealthCheck LoadBalancer WSFrame WSConn Transport Standby SocksAddr UDPSession PortTable Relay Socks5.

(** ** The device *)

(** What is done to the thread, the namespaces and the device. *)
Inductive dact := DLock | DUnlock | DOpenOrig | DOpenTarget | DSetTarget | DRestore | DCloseTarget | DCloseOrig | DOpenTun | DCloseTun.

#[global] Instance dact_eq_dec : EqDecision dact.
Proof. solve_decision. Defined.

(** What the system answers: the namespace files, [Setns] there and back, the two
    look-ups of the interface (the second with its MTU), [water.New], whether its
    handle is a file, and the [ioctl]. *)
Record tunOS := {
  o_orig : option gerror; o_target : option gerror; o_setns : option gerror; o_restore : option gerror;
  o_byName : option gerror; o_new : option gerror; o_isFile : bool; o_persist : option gerror; o_byName2 : gerror + Z }.

Definition unix_EPERM : gerror := errSentinel "operation not permitted".

Section Device.
Context (O : tunOS) (quote : bytes -> string) (handleType : string).

(** [withNetNS(path, fn)]; [fn] is its outcome and what it did. *)
Definition withNetNS {A} (path : bytes) (fn : res A * list dact) : res A * list dact :=
  match path with
  | [] => fn
  | _ =>
      match o_orig O with
      | Some e => (Err (errWrap "open current netns: " e ""), [DLock; DUnlock])
      | None =>
          match o_target O with
          | Some e => (Err (errWrap ("open tun.netns " +:+ quote path +:+ ": ") e ""), [DLock; DOpenOrig; DCloseOrig; DUnlock])
          | None =>
              match o_setns O with
              | Some e => (Err (errWrap ("setns(" +:+ quote path +:+ "): ") e ""),
                           [DLock; DOpenOrig; DOpenTarget; DCloseTarget; DCloseOrig; DUnlock])
              | None => (fst fn, [DLock; DOpenOrig; DOpenTarget; DSetTarget] ++ snd fn
                           ++ (match o_restore O with None => [DRestore] | Some _ => [] end) ++ [DCloseTarget; DCloseOrig; DUnlock])
              end
          end
      end
  end.

(** [ensureTunPersistent(ifce, name, debug)]. *)
Definition ensureTunPersistent (name : bytes) : option gerror :=
  if negb (o_isFile O) then Some (errMsg ("tun " +:+ quote name +:+ ": unexpected handle type " +:+ handleType))
  else match o_persist O with
  | None => None
  | Some e => if bool_decide (e = unix_EPERM) then None else Some (errWrap ("set TUNSETPERSIST for " +:+ quote name +:+ ": ") e "")
  end.

(** [openExistingTun(name, debug)]: the MTU. *)
Definition openExistingTun (name : bytes) : res Z * list dact :=
  match name with
  | [] => (Err (errMsg "tun.device is empty"), [])
  | _ =>
      match o_byName O with
      | Some e => (Err (errWrap ("tun interface " +:+ quote name +:+ " not found (create it in start script): ") e ""), [])
      | None =>
          match o_new O with
          | Some e => (Err (errWrap ("open tun " +:+ quote name +:+ ": ") e ""), [])
          | None =>
              match ensureTunPersistent name with
              | Some e => (Err e, [DOpenTun; DCloseTun])
              | None =>
                  match o_byName2 O with
                  | inl e => (Err (errWrap ("InterfaceByName(" +:+ quote name +:+ "): ") e ""), [DOpenTun; DCloseTun])
                  | inr mtu => (Ok (if mtu <=? 0 then 1500 else mtu), [DOpenTun])
                  end
              end
          end
      end
  end.

(** The defaults [RunTunNative] fills in. *)
Definition runDefaults (c : TunConfig) : TunConfig := {|
  Device := Device c; MTU := MTU c; NetNS := NetNS c; Tun_Debug := Tun_Debug c;
  UDPMaxFlows := if UDPMaxFlows c =? 0 then 4096 else UDPMaxFlows c;
  UDPIdleTimeout := if UDPIdleTimeout c =? 0 then 60 * Second else UDPIdleTimeout c;
  UDPGCInterval := if UDPGCInterval c =? 0 then 10 * Second else UDPGCInterval c;
  UDPFlowIdleTimeout := UDPFlowIdleTimeout c; UDPMaxDstPerPort := UDPMaxDstPerPort c |}.

(** [RunTunNative(ctx, cfg, lb)]: [nic] is the text of a failed [CreateNIC], [fin] what
    the pumps end with, none when the context is done first. *)
Definition RunTunNative (c : TunConfig) (nic : option string) (fin : udpPortTable -> option gerror) : res unit * list dact :=
  match Device c with
  | [] => (Err (errMsg "tun.device is empty"), [])
  | _ =>
      let c := runDefaults c in
      match withNetNS (NetNS c) (openExistingTun (Device c)) with
      | (Err e, l) => (Err e, l)
      | (Panic w, l) => (Panic w, l)
      | (Ok _, l) =>
          (match nic with
           | Some t => Err (errMsg ("CreateNIC: " +:+ t))
           | None => match fin (newUDPPortTable c) with Some e => Err e | None => Ok tt end
           end, l ++ [DCloseTun])
      end
  end.
End Device.

(** ** The pumps *)

Inductive l3 := IPv4 | IPv6.
Inductive pump := Waiting | Returned (err : option gerror) | Panicked (why : string).

(** [tunToStack(ctx, ifce, ep, debug)]: [reads] is what the device's [Read] returns, the
    loop waits after that; the packets injected into the stack and the observations. *)
Fixpoint tunToStack (done : nat -> bool) (k : nat) (reads : list (gerror + bytes)) : pump * list (l3 * bytes) * list mev :=
  if done k then (Returned None, [], [])
  else match reads with
  | [] => (Waiting, [], [])
  | inl e :: _ => (Returned (Some e), [], [observeTunError (str2b "read")])
  | inr pkt :: reads =>
      match pkt with
      | [] => (Panicked "index out of range", [], [])
      | b :: _ =>
          let '(r, inj, evs) := tunToStack done (S k) reads in
          let v := Z.shiftr (b2z b) 4 in
          if v =? 4 then (r, (IPv4, pkt) :: inj, observeTunFrame (str2b "in") (zlen pkt) :: evs)
          else if v =? 6 then (r, (IPv6, pkt) :: inj, observeTunFrame (str2b "in") (zlen pkt) :: evs)
          else (r, inj, observeTunDrop (str2b "unknown_l3") :: evs)
      end
  end.

(** [stackToTun(ctx, ifce, ep, debug)]: [polls] is what [ep.Read] returns, nothing or a
    packet, [wr] the error of the [k]-th write. *)
Fixpoint stackToTun (done : nat -> bool) (wr : nat -> option gerror) (k : nat) (polls : list (option bytes)) : pump * list bytes * list mev :=
  if done k then (Returned None, [], [])
  else match polls with
  | [] => (Waiting, [], [])
  | None :: polls => stackToTun done wr (S k) polls
  | Some b :: polls =>
      match wr k with
      | Some e => (Returned (Some e), [], [observeTunError (str2b "write")])
      | None =>
          let '(r, out, evs) := stackToTun done wr (S k) polls in
          (r, b :: out, observeTunFrame (str2b "out") (zlen b) :: evs)
      end
  end.

(** ** TCP flows *)

(** What is closed, in order. *)
Inductive tact := CloseSS | CloseWS (reason : string) | CloseNS | CloseEP.

Section TCP.
Context {C W S : Type} `{!WSConn C} `{!Dialers C W} `{!SSLib C S}.
Implicit Types (lb : LoadBalancer C) (w : W).

(** [DialOutlineTCP(ctx, lb, up, dst)]. *)
Definition DialOutlineTCP (q : request) (i : nat) (dst : bytes) lb w : res S * LoadBalancer C * W * list tact :=
  match acquireTCPWS (q_fuel q) (q_nanos q) (q_ctxErr q) i lb w with
  | (Err e, lb, w, _, _) => (Err e, lb, w, [])
  | (Panic x, lb, w, _, _) => (Panic x, lb, w, [])
  | (Ok wsc, lb, w, _, _) =>
      match pool lb !! i with
      | None => (Panic "nil pointer dereference", lb, w, [])
      | Some s =>
          match newSSTCPConn wsc (Name (cfg s)) (Cipher (cfg s)) (Secret (cfg s)) dst with
          | inl (inl ss) => (Ok ss, lb, w, [])
          | inl (inr (e, closedSS)) =>
              (Err e, lb, w, (match closedSS with Some _ => [CloseSS] | None => [] end) ++ [CloseWS "dial-error"])
          | inr x => (Panic x, lb, w, [])
          end
      end
  end.

(** [Close()] of [wsBoundConn]. *)
Definition boundClose : list tact := [CloseSS; CloseWS "close"].

(** What a flow comes to: the stream that was relayed, if any. *)
Record tunFlow := TunFlow { tf_out : option (nat * S); tf_lb : LoadBalancer C; tf_w : W; tf_acts : list tact; tf_panic : option string }.

(** The destination of a flow: the local side of the stack's endpoint. *)
Definition tcpDst (addr : bytes) (port : Z) : bytes := JoinHostPort (ipString addr) (itoa port).

(** [tunHandleTCP(ctx, lb, epTCP, id, wq, debug)]; the copies of the relay end on their own. *)
Definition tunHandleTCP (q : request) (addr : bytes) (port : Z) lb w : tunFlow :=
  let dst := tcpDst addr port in
  match PickTCP (q_now q) (q_nowLog q) lb with
  | (Err _, lb, _) => TunFlow None lb w [CloseNS; CloseEP] None
  | (Panic x, lb, _) => TunFlow None lb w [CloseNS; CloseEP] (Some x)
  | (Ok i, lb, _) =>
      match DialOutlineTCP q i dst lb w with
      | (Err e, lb, w, l) =>
          TunFlow None (fst (ReportTCPFailure (q_rng q) (q_nowFail q) (Some i) (Some e) lb)) w (l ++ [CloseNS; CloseEP]) None
      | (Panic x, lb, w, l) => TunFlow None lb w (l ++ [CloseNS; CloseEP]) (Some x)
      | (Ok ss, lb, w, l) => TunFlow (Some (i, ss)) lb w (l ++ boundClose ++ [CloseNS; CloseEP]) None
      end
  end.
End TCP.

(** ** UDP flows *)

(** [netip.Addr.String] of a 4- or 16-byte address. *)
Definition netipString (a : bytes) : bytes :=
  if (length a =? 4)%nat then string4 a
  else if bool_decide (take 12 a = v4InV6Prefix) then str2b "::ffff:" ++ string4 (drop 12 a)
  else string6 a.

(** The key of the source and the destination of a flow. *)
Definition flowKey (remote : bytes) (port : Z) : udpPortKey := PortKey (if (length remote =? 4)%nat then 4 else 6) remote port.
Definition udpDst (addr : bytes) (port : Z) : bytes := JoinHostPort (netipString addr) (itoa port).

Section UDP.
Context {C : Type} (ParseAddr : bytes -> option bytes) (ErrAddressNotSupported : gerror).
(** The error of the [k]-th [WriteTo], and the clock after it. *)
Context (wr : nat -> option gerror) (clock : nat -> Z) (rng : Z -> Z) (nowFail : Z).
Implicit Types lb : LoadBalancer C.

(** The loop from the stack to the session: [ds] is what [nsUDP.ReadFrom] returns before
    it fails; the datagrams given to the session's connection. *)
Fixpoint uploadLoop (dst : bytes) (pk : udpPortKey) (p : nat) (k : nat) (ds : list bytes) lb (t : udpPortTable)
  : list bytes * LoadBalancer C * udpPortTable :=
  match ds with
  | [] => ([], lb, t)
  | [] :: ds => uploadLoop dst pk p k ds lb t
  | d :: ds =>
      let '(out, err) := Send ParseAddr ErrAddressNotSupported (fun _ => wr k) dst d in
      match err with
      | Some e => (option_list out, fst (ReportUDPFailure rng nowFail (ps_up <$> heap t !! p) (Some e) lb), t)
      | None =>
          let '(sent, lb, t) := uploadLoop dst pk p (S k) ds lb (touchFlow (clock k) dst pk p t) in
          (option_list out ++ sent, lb, t)
      end
  end.

(** [tunHandleUDP(ctx, lb, pt, epUDP, id, wq, debug)]: the upload and the end of the flow;
    the reply side, the metric of a failed send and the closing of the stack's ends are
    left out. *)
Definition tunHandleUDP {W} (now nowPick nowLog nowFlow : Z) (dial : nat -> LoadBalancer C -> W -> res unit * LoadBalancer C * W)
    (remote : bytes) (rport : Z) (addr : bytes) (port : Z) (ds : list bytes) lb (w : W) (t : udpPortTable)
  : res (list bytes) * LoadBalancer C * W * udpPortTable :=
  let dst := udpDst addr port in
  let pk := flowKey remote rport in
  match getOrCreate rng now nowPick nowLog nowFail dial pk lb w t with
  | (Err e, lb, w, t) => (Err e, lb, w, t)
  | (Panic x, lb, w, t) => (Panic x, lb, w, t)
  | (Ok p, lb, w, t) =>
      match heap t !! p with
      | None => (Panic "nil pointer dereference", lb, w, t)
      | Some ps =>
          match addFlow (pt_cfg t) nowFlow dst ps with
          | (Err e, _) => (Err e, lb, w, t)
          | (Panic x, _) => (Panic x, lb, w, t)
          | (Ok _, ps) =>
              let '(sent, lb, t) := uploadLoop dst pk p 0 ds lb (putSession p ps t) in
              match heap t !! p with
              | None => (Panic "nil pointer dereference", lb, w, t)
              | Some ps =>
                  match endFlow dst ps with
                  | Ok ps => (Ok sent, lb, w, putSession p ps t)
                  | Err e => (Err e, lb, w, t)
                  | Panic x => (Panic x, lb, w, t)
                  end
              end
          end
      end
  end.
End UDP.

(** ** Specification *)

(** Where a thread is after some actions: whether it is locked to the goroutine and
    whether it is in the target namespace. *)
Definition threadStep (s : bool * bool) (a : dact) : bool * bool :=
  match a with
  | DLock => (true, snd s)
  | DUnlock => (false, snd s)
  | DSetTarget => (fst s, true)
  | DRestore => (fst s, false)
  | _ => s
  end.
Definition threadAfter (l : list dact) : bool * bool := fold_left threadStep l (false, false).

(** A device that was opened was closed after that, once. *)
Definition deviceOf (l : list dact) : list dact := filter (fun a => a = DOpenTun \/ a = DCloseTun) l.

(** The packets of the device that go to the stack. *)
Definition version (pkt : bytes) : option l3 :=
  match pkt with
  | [] => None
  | b :: _ => if Z.shiftr (b2z b) 4 =? 4 then Some IPv4 else if Z.shiftr (b2z b) 4 =? 6 then Some IPv6 else None
  end.
Definition accepted (pkt : bytes) : option (l3 * bytes) := (fun v => (v, pkt)) <$> version pkt.
Definition countFrames (evs : list mev) : Z := zlen (omap (fun e => match e with observeTunFrame _ _ => Some e | _ => None end) evs).
Definition countDrops (evs : list mev) : Z := zlen (omap (fun e => match e with observeTunDrop _ => Some e | _ => None end) evs).

(** ** Lemmas *)

Lemma accepted_cons p ps : omap accepted (p :: ps) = match version p with Some v => (v, p) :: omap accepted ps | None => omap accepted ps end.
Proof. cbn [omap list_omap]. unfold accepted at 1. by destruct (version p). Qed.

Lemma tunToStack_app done k ps tail :
  (forall j, done j = false) -> Forall (fun p => p <> []) ps ->
  let '(r, inj, evs) := tunToStack done (k + length ps) tail in
  let '(r', inj', evs') := tunToStack done k ((inr <$> ps) ++ tail) in
  r' = r /\ inj' = omap accepted ps ++ inj
  /\ countFrames evs' = zlen (omap accepted ps) + countFrames evs
  /\ countDrops evs' = zlen ps - zlen (omap accepted ps) + countDrops evs.
Proof.
  intros Hd. revert k. induction ps as [|p ps IH]; intros k Hne.
  { rewrite Nat.add_0_r. destruct (tunToStack done k tail) as [[r inj] evs] eqn:E. cbn [fmap list_fmap app]. rewrite E. unfold zlen. cbn [omap list_omap length app]. repeat split; lia. }
  apply Forall_cons in Hne as [Hp Hne]. destruct p as [|b p]; [done|].
  specialize (IH (S k) Hne). cbn [length fmap list_fmap app tunToStack]. rewrite Hd. rewrite <- plus_n_Sm.
  change (S k + length ps)%nat with (S (k + length ps)) in IH.
  destruct (tunToStack done (S (k + length ps)) tail) as [[r inj] evs].
  destruct (tunToStack done (S k) _) as [[r' inj'] evs']. destruct IH as (-> & -> & Hf & Hdr).
  rewrite accepted_cons. cbn [version].
  destruct (Z.shiftr (b2z b) 4 =? 4); [|destruct (Z.shiftr (b2z b) 4 =? 6)]; cbn [fmap option_fmap option_map];
    unfold countFrames, countDrops in *; cbn [omap list_omap] in *; rewrite ?zlen_cons, ?Hf, ?Hdr; (split; [done|]; split; [done|]);
    rewrite ?zlen_cons; split; lia.
Qed.

Lemma stackToTun_app done wr k ps tail :
  (forall j, done j = false) -> (forall j, (j < k + length ps)%nat -> wr j = None) ->
  let '(r, out, evs) := stackToTun done wr (k + length ps) tail in
  let '(r', out', evs') := stackToTun done wr k (ps ++ tail) in
  r' = r /\ out' = omap id ps ++ out /\ countFrames evs' = zlen (omap id ps) + countFrames evs.
Proof.
  intros Hd. revert k. induction ps as [|p ps IH]; intros k Hw.
  { rewrite Nat.add_0_r. destruct (stackToTun done wr k tail) as [[r inj] evs] eqn:E. cbn [app]. rewrite E. unfold zlen. cbn [omap list_omap length app]. repeat split; lia. }
  specialize (IH (S k)). cbn [length app stackToTun]. rewrite Hd. rewrite <- plus_n_Sm.
  change (S k + length ps)%nat with (S (k + length ps)) in IH. cbn [length] in Hw.
  destruct (stackToTun done wr (S (k + length ps)) tail) as [[r inj] evs].
  destruct (stackToTun done wr (S k) (ps ++ tail)) as [[r' inj'] evs']. destruct IH as (-> & -> & Hf).
  { intros j Hj. apply Hw. lia. }
  destruct p as [b|]; cbn [omap list_omap id]; [|done]. rewrite Hw by lia. split; [done|]. split; [done|].
  unfold countFrames in *. cbn [omap list_omap]. rewrite !zlen_cons, Hf. lia.
Qed.

(** How many of [m] writes are tried, the [k]-th being the first, and the error that
    stops them. *)
Fixpoint attempts (wr : nat -> option gerror) (k m : nat) : nat * option gerror :=
  match m with
  | O => (O, None)
  | S m =>
      match wr k with
      | Some e => (1%nat, Some e)
      | None => let '(n, e) := attempts wr (S k) m in (S n, e)
      end
  end.

Lemma touchFlow_session now dst pk p t ps :
  heap t !! p = Some ps ->
  exists ps', heap (touchFlow now dst pk p t) !! p = Some ps' /\ ps_up ps' = ps_up ps /\ ps_sess ps' = ps_sess ps.
Proof.
  intros Hp. unfold touchFlow. cbv zeta. cbn [ports setHeap]. set (h := alter _ p (heap t)).
  assert (Hh : exists ps', h !! p = Some ps' /\ ps_up ps' = ps_up ps /\ ps_sess ps' = ps_sess ps)
    by (unfold h; rewrite list_lookup_alter_eq, Hp; by eexists).
  destruct Hh as (ps' & Hp' & Hu & Hs). destruct (ports t !! pk) as [cur|]; [|by exists ps'].
  cbn [heap setHeap]. destruct (decide (cur = p)) as [->|Hne].
  - rewrite list_lookup_alter_eq, Hp'. by eexists.
  - rewrite list_lookup_alter_ne by done. by exists ps'.
Qed.

Section UploadFacts.
Context {C : Type} (ParseAddr : bytes -> option bytes) (eAddr : gerror) (wr : nat -> option gerror) (clock : nat -> Z) (rng : Z -> Z) (nowFail : Z).
Implicit Types lb : LoadBalancer C.

Lemma uploadLoop_spec dst pk p a k ds lb t ps :
  ParseAddr dst = Some a -> heap t !! p = Some ps ->
  let ne := filter (fun d => d <> []) ds in
  let '(n, err) := attempts wr k (length ne) in
  exists t' ps', uploadLoop ParseAddr eAddr wr clock rng nowFail dst pk p k ds lb t
    = ((fun d => a ++ d) <$> take n ne,
       match err with Some e => fst (ReportUDPFailure rng nowFail (Some (ps_up ps)) (Some e) lb) | None => lb end, t')
  /\ heap t' !! p = Some ps' /\ ps_sess ps' = ps_sess ps.
Proof.
  intros Ha. revert k t ps. induction ds as [|d ds IH]; intros k t ps Hp.
  { cbn. exists t, ps. done. }
  cbv zeta. rewrite filter_cons. destruct d as [|b d].
  { rewrite decide_False by naive_solver. by apply IH. }
  rewrite decide_True by done. cbn [length attempts uploadLoop]. unfold Send. rewrite Ha. destruct (wr k) as [e|] eqn:Ew.
  { exists t, ps. rewrite Hp. done. }
  destruct (touchFlow_session (clock k) dst pk p t ps Hp) as (ps1 & Hp1 & Hu & Hs).
  specialize (IH (S k) _ _ Hp1). cbv zeta in IH. destruct (attempts wr (S k) _) as [n err].
  destruct IH as (t' & ps' & E & Hp' & Hs'). rewrite E. exists t', ps'. rewrite Hu. cbn [option_list app take fmap list_fmap].
  split; [done|]. split; [done|congruence].
Qed.

Lemma uploadLoop_refused dst pk p k ds lb t ps :
  ParseAddr dst = None -> heap t !! p = Some ps ->
  exists t' lb' ps', uploadLoop ParseAddr eAddr wr clock rng nowFail dst pk p k ds lb t = ([], lb', t') /\ heap t' !! p = Some ps'
  /\ ps_sess ps' = ps_sess ps.
Proof.
  intros Ha Hp. induction ds as [|[|b d] ds IH]; [by exists t, lb, ps|exact IH|]. cbn [uploadLoop]. unfold Send. rewrite Ha. by eexists _, _, _.
Qed.
End UploadFacts.

Lemma subs_setSubs s m cs : subs (setSubs s m cs) = m.
Proof. done. Qed.
Lemma subs_Release l s : subs (fold_left Release l s) = subs s.
Proof. revert s. induction l as [|a l IH]; intros s; [done|]. cbn [fold_left]. rewrite IH. unfold Release. by case_match. Qed.
Lemma Unsubscribe_gone from s s' k :
  Unsubscribe from s = Ok s' -> addrKeyFromHostPort from = Some k -> subs s' !! k = None.
Proof.
  intros H Hk. unfold Unsubscribe in H. rewrite Hk in H. destruct (subs s !! k) as [c|] eqn:E; [|by simplify_eq].
  unfold closeDrain in H. cbn [chans setSubs] in H. destruct (chans s !! c) as [ch|]; [|done]. destruct (c_closed ch); [done|].
  simplify_eq. rewrite subs_Release. cbn [subs setSubs]. apply lookup_delete_eq.
Qed.

(** ** Properties *)

(** The handler of a TCP flow through the device takes only a usable upstream. The
    flow is relayed only over a stream whose destination is the flow's; then the
    health of the upstreams is as before, and the stream, the websocket and both ends
    of the stack are closed. A flow that cannot be dialled marks its upstream down
    and closes the websocket it got; with no upstream nothing happens. *)
Theorem tun_tcp_flow {C W S : Type} `{!WSConn C} `{!Dialers C W} `{!SSLib C S} (q : request) (addr : bytes) (port : Z)
    (lb : LoadBalancer C) (w : W) :
  let f := tunHandleTCP (S := S) q addr port lb w in
  (exists i s ss wsc, tf_out f = Some (i, ss) /\ usable (q_now q) lb i /\ pool lb !! i = Some s
     /\ newSSTCPConn wsc (Name (cfg s)) (Cipher (cfg s)) (Secret (cfg s)) (tcpDst addr port) = inl (inl ss)
     /\ health (tf_lb f) = health lb /\ tf_acts f = [CloseSS; CloseWS "close"; CloseNS; CloseEP])
  \/ (tf_out f = None /\ exists i, usable (q_now q) lb i /\ tcpDown i (tf_lb f)
      /\ tf_acts f ∈ [[CloseNS; CloseEP]; [CloseWS "dial-error"; CloseNS; CloseEP]; [CloseSS; CloseWS "dial-error"; CloseNS; CloseEP]])
  \/ (tf_out f = None /\ tf_lb f = lb /\ tf_acts f = [CloseNS; CloseEP] /\ exists e, fst (fst (PickTCP (q_now q) (q_nowLog q) lb)) = Err e)
  \/ is_Some (tf_panic f).
Proof.
  intros f. unfold f, tunHandleTCP. cbv zeta. clear f.
  destruct (PickTCP (q_now q) (q_nowLog q) lb) as [[[i|er|x] lb1] evs] eqn:Ep; [|right; right; left|do 3 right; by eexists].
  - assert (Hp1 : health lb1 = health lb).
    { pose proof (pick_pool true (q_now q) (q_nowLog q) lb) as Hp. unfold PickTCP in Ep. rewrite Ep in Hp. simpl in Hp.
      unfold health. by rewrite Hp. }
    apply pickTCP_spec in Ep as (Hu & _). pose proof Hu as (s & Hs & _). unfold DialOutlineTCP.
    destruct (acquireTCPWS _ _ _ i lb1 w) as [[[[[wsc|er|x] lb2] w2] ev2] cl] eqn:Ea; [|right; left|do 3 right; by eexists].
    + apply acquireTCPWS_health in Ea. rewrite Hp1 in Ea. destruct (health_lookup lb lb2 i s Ea Hs) as (s' & Hs' & Hcfg).
      rewrite Hs', Hcfg. destruct (newSSTCPConn wsc _ _ _ _) as [[ss|[e ss]]|x] eqn:En; [left|right; left|do 3 right; by eexists].
      * by exists i, s, ss, wsc.
      * split; [done|]. exists i. split; [done|]. split; [apply reported_down|]. destruct ss; cbn; set_solver.
    + split; [done|]. exists i. split; [done|]. split; [apply reported_down|]. cbn. set_solver.
  - apply pickTCP_spec in Ep as [-> _]. split; [done|]. split; [done|]. split; [done|]. by exists er.
Qed.

(** C37: a run of the TUN mode closes the device once when it has opened it, after
    everything else, on every path; the thread is unlocked, and back in the original
    namespace unless the system refused to restore it after entering the other one:
    then it is handed back in the wrong namespace and the run goes on. *)
Theorem tun_run_cleanup (O : tunOS) (quote : bytes -> string) (ht : string) (c : TunConfig) (nic : option string)
    (fin : udpPortTable -> option gerror) :
  let '(r, l) := RunTunNative O quote ht c nic fin in
  (deviceOf l = [] \/ deviceOf l = [DOpenTun; DCloseTun])
  /\ (r = Ok tt -> deviceOf l = [DOpenTun; DCloseTun])
  /\ fst (threadAfter l) = false
  /\ (snd (threadAfter l) = true <-> Device c <> [] /\ NetNS c <> [] /\ o_orig O = None /\ o_target O = None /\ o_setns O = None
        /\ is_Some (o_restore O)).
Proof.
  unfold RunTunNative. destruct (Device c) as [|d0 dv] eqn:Ed; [cbn; naive_solver|].
  cbn [runDefaults Device NetNS]. rewrite Ed. set (op := openExistingTun O quote ht (d0 :: dv)).
  assert (Hop : (exists m, op = (Ok m, [DOpenTun])) \/ (exists e, op = (Err e, [])) \/ (exists e, op = (Err e, [DOpenTun; DCloseTun]))).
  { unfold op, openExistingTun. destruct (o_byName O); [eauto|]. destruct (o_new O); [eauto|].
    destruct (ensureTunPersistent _ _ _ _); [eauto|]. destruct (o_byName2 O); eauto. }
  unfold withNetNS. destruct (NetNS c) as [|n0 ns]; cbn iota.
  { destruct Hop as [[m ->]|[[e ->]|[e ->]]]; cbn; destruct nic; [|destruct (fin _)|..]; cbn; naive_solver. }
  destruct (o_orig O); [cbn; naive_solver|]. destruct (o_target O); [cbn; naive_solver|]. destruct (o_setns O); [cbn; naive_solver|].
  destruct Hop as [[m ->]|[[e ->]|[e ->]]]; destruct (o_restore O); cbn; destruct nic; try destruct (fin _); cbn;
    (split; [naive_solver|]; split; [naive_solver|]; split; [done|]; split; [eauto 8|]);
    try (by intros (_ & _ & _ & _ & _ & [? ?])); try done.
Qed.

(** The pump into the stack injects the IPv4 and IPv6 packets of the device, in
    order and whole, each counted, and counts the others as dropped; it ends with the
    error of the device. A read of no bytes makes it panic. *)
Theorem tun_to_stack_exact (done : nat -> bool) (ps : list bytes) (e : gerror) (rest : list (gerror + bytes))
    (Hd : forall k, done k = false) (Hne : Forall (fun p => p <> []) ps) :
  let inj := omap accepted ps in
  (exists evs, tunToStack done 0 (inr <$> ps) = (Waiting, inj, evs)
     /\ countFrames evs = zlen inj /\ countDrops evs = zlen ps - zlen inj)
  /\ (exists evs, tunToStack done 0 ((inr <$> ps) ++ inl e :: rest) = (Returned (Some e), inj, evs))
  /\ (exists evs, tunToStack done 0 ((inr <$> ps) ++ inr [] :: rest) = (Panicked "index out of range", inj, evs)).
Proof.
  intros inj. unfold inj. clear inj.
  pose proof (fun tail => tunToStack_app done 0 ps tail Hd Hne) as H. cbn [Nat.add] in H. split; [|split].
  - specialize (H []). rewrite app_nil_r in H. assert (E : tunToStack done (length ps) [] = (Waiting, [], [])) by (cbn; by rewrite Hd).
    rewrite E in H. destruct (tunToStack done 0 _) as [[r inj] evs]. destruct H as (-> & -> & Hf & Hdr). exists evs. rewrite app_nil_r.
    change (countFrames []) with 0 in Hf. change (countDrops []) with 0 in Hdr. split; [done|]. lia.
  - specialize (H (inl e :: rest)). cbn [tunToStack] in H. rewrite Hd in H.
    destruct (tunToStack done 0 _) as [[r inj] evs]. destruct H as (-> & -> & _). exists evs. by rewrite app_nil_r.
  - specialize (H (inr [] :: rest)). cbn [tunToStack] in H. rewrite Hd in H.
    destruct (tunToStack done 0 _) as [[r inj] evs]. destruct H as (-> & -> & _). exists evs. by rewrite app_nil_r.
Qed.

(** The pump out of the stack writes every packet of the stack to the device, in
    order, until a write fails, whose error it returns. *)
Theorem stack_to_tun_exact (done : nat -> bool) (wr : nat -> option gerror) (ps : list (option bytes)) (b : bytes) (e : gerror)
    (rest : list (option bytes)) (Hd : forall k, done k = false) (Hw : forall k, (k < length ps)%nat -> wr k = None)
    (He : wr (length ps) = Some e) :
  (exists evs, stackToTun done wr 0 ps = (Waiting, omap id ps, evs) /\ countFrames evs = zlen (omap id ps))
  /\ (exists evs, stackToTun done wr 0 (ps ++ Some b :: rest) = (Returned (Some e), omap id ps, evs)).
Proof.
  pose proof (fun tail => stackToTun_app done wr 0 ps tail Hd Hw) as H. cbn [Nat.add] in H. split.
  - specialize (H []). rewrite app_nil_r in H. assert (E : stackToTun done wr (length ps) [] = (Waiting, [], [])) by (cbn; by rewrite Hd).
    rewrite E in H. destruct (stackToTun done wr 0 _) as [[r out] evs]. destruct H as (-> & -> & Hf). exists evs. rewrite app_nil_r.
    change (countFrames []) with 0 in Hf. split; [done|]. lia.
  - specialize (H (Some b :: rest)). cbn [stackToTun] in H. rewrite Hd, He in H.
    destruct (stackToTun done wr 0 _) as [[r out] evs]. destruct H as (-> & -> & _). exists evs. by rewrite app_nil_r.
Qed.

(** The upload of a UDP flow sends every non-empty datagram of the flow to the
    session of its source, in order, behind the address of its destination, until
    the first write that fails, which marks the session's upstream; when the handler
    is done the flow is forgotten and its subscription is gone. *)
Theorem tun_udp_upload {C W : Type} (ParseAddr : bytes -> option bytes) (eAddr : gerror) (wr : nat -> option gerror)
    (clock : nat -> Z) (rng : Z -> Z) (nowFail now nowPick nowLog nowFlow : Z)
    (dial : nat -> LoadBalancer C -> W -> res unit * LoadBalancer C * W) (w w' : W) (remote : bytes) (rport : Z) (addr : bytes) (port : Z) (ds : list bytes) (lb lb' : LoadBalancer C) (t t' : udpPortTable)
    (sent : list bytes) (a : bytes)
    (Ha : ParseAddr (udpDst addr port) = Some a)
    (Hrun : tunHandleUDP ParseAddr eAddr wr clock rng nowFail now nowPick nowLog nowFlow dial remote rport addr port ds lb w t
            = (Ok sent, lb', w', t')) :
  let ne := filter (fun d => d <> []) ds in
  let '(n, err) := attempts wr 0 (length ne) in
  sent = (fun d => a ++ d) <$> take n ne
  /\ exists p ps lb1 t1, getOrCreate rng now nowPick nowLog nowFail dial (flowKey remote rport) lb w t = (Ok p, lb1, w', t1)
     /\ lb' = match err with Some e => fst (ReportUDPFailure rng nowFail (ps_up <$> heap t1 !! p) (Some e) lb1) | None => lb1 end
     /\ heap t' !! p = Some ps /\ flows ps !! udpDst addr port = None
     /\ forall k, addrKeyFromHostPort (udpDst addr port) = Some k -> subs (ps_sess ps) !! k = None.
Proof.
  cbv zeta. unfold tunHandleUDP in Hrun. cbv zeta in Hrun.
  destruct (getOrCreate _ _ _ _ _ _ _ lb w t) as [[[[p|e|x] lb1] w1] t1]; [|done|done].
  destruct (heap t1 !! p) as [ps|] eqn:Hp; [|done]. destruct (addFlow _ _ _ ps) as [[o|e|x] ps1] eqn:Ef; [|done|done].
  assert (Hup : ps_up ps1 = ps_up ps).
  { unfold addFlow in Ef. destruct (flows ps !! _); [by simplify_eq|]. destruct (maxDst _ <=? _); [done|]. destruct (Subscribe _ _) as [[? ?] ?]. by simplify_eq. }
  assert (Hp1 : heap (putSession p ps1 t1) !! p = Some ps1) by (cbn; apply list_lookup_insert_eq; by eapply lookup_lt_Some).
  pose proof (uploadLoop_spec (C := C) ParseAddr eAddr wr clock rng nowFail (udpDst addr port) (flowKey remote rport) p a 0 ds lb1 _ ps1 Ha Hp1) as H.
  cbv zeta in H. destruct (attempts wr 0 _) as [n err]. destruct H as (t2 & ps2 & E & Hp2 & Hs2). rewrite E, Hp2 in Hrun.
  unfold endFlow in Hrun. destruct (Unsubscribe _ (ps_sess ps2)) as [s|e|x] eqn:Eu; cbn in Hrun; [|done|done]. injection Hrun as <- <- <- <-.
  split; [done|]. eexists p, _, lb1, t1. split; [done|]. rewrite Hp. split; [by rewrite Hup|].
  split; [cbn; apply list_lookup_insert_eq; by eapply lookup_lt_Some|]. split; [apply lookup_delete_eq|].
  intros k Hk. by eapply Unsubscribe_gone.
Qed.

(** ** Witnesses *)

Lemma tun_to_stack_exact_witness :
  exists evs, tunToStack (fun _ => false) 0 ((inr <$> [[Byte.x45; Byte.x00]; [Byte.x11]; [Byte.x60]]) ++ [inl io_EOF])
    = (Returned (Some io_EOF), [(IPv4, [Byte.x45; Byte.x00]); (IPv6, [Byte.x60])], evs).
Proof.
  refine (proj1 (proj2 (tun_to_stack_exact (fun _ => false) [[Byte.x45; Byte.x00]; [Byte.x11]; [Byte.x60]] io_EOF [] _ _))).
  - intros k. reflexivity.
  - repeat constructor; discriminate.
Defined.

(** Two datagrams and an empty one, the second write fails. *)
Definition dialDemo (i : nat) (lb : LoadBalancer unit) (w : unit) : res unit * LoadBalancer unit * unit := (Ok tt, lb, w).
Definition uploadDemo : res (list bytes) * LoadBalancer unit * unit * udpPortTable :=
  tunHandleUDP (fun d => Some [Byte.xaa]) io_EOF (fun k => if (k =? 1)%nat then Some net_ErrClosed else None) (fun _ => 7) (fun _ => 0)
    9 6 6 6 6 dialDemo [Byte.x0a; Byte.x00; Byte.x00; Byte.x01] 1 [Byte.x01; Byte.x01; Byte.x01; Byte.x01] 53
    [[Byte.x01]; []; [Byte.x02]; [Byte.x03]] lbDemo tt tblDemo.

Lemma tun_udp_upload_witness :
  fst (fst (fst uploadDemo)) = Ok [[Byte.xaa; Byte.x01]; [Byte.xaa; Byte.x02]]
  /\ [[Byte.xaa; Byte.x01]; [Byte.xaa; Byte.x02]] = (fun d => [Byte.xaa] ++ d) <$> take 2 [[Byte.x01]; [Byte.x02]; [Byte.x03]].
Proof.
  split; [vm_compute; reflexivity|].
  refine (proj1 (tun_udp_upload (fun d => Some [Byte.xaa]) io_EOF (fun k => if (k =? 1)%nat then Some net_ErrClosed else None) (fun _ => 7) (fun _ => 0)
    9 6 6 6 6 dialDemo tt tt [Byte.x0a; Byte.x00; Byte.x00; Byte.x01] 1 [Byte.x01; Byte.x01; Byte.x01; Byte.x01] 53
    [[Byte.x01]; []; [Byte.x02]; [Byte.x03]] lbDemo (snd (fst (fst uploadDemo))) tblDemo (snd uploadDemo)
    [[Byte.xaa; Byte.x01]; [Byte.xaa; Byte.x02]] [Byte.xaa] _ _)).
  - reflexivity.
  - vm_compute. reflexivity.
Defined.
