(* ===== verification/RelayRun.v ===== *)
(** * The full-duplex relay

    [ProxyTCPOverOutlineWS] of src/internal/outline_tcp.go from the moment the
    Shadowsocks stream is there: the two copies, the goroutine that waits for them,
    the client, the upstream and the context, as steps. A copy is [io.CopyBuffer]:
    a read of at most one buffer, then a write of what was read. *)

From stdpp Require Import relations.
From S2P Require Import Prelude Relay.

(** ** State *)

Definition tcpRelayCopyBufferSize : Z := 256 * 1024.

(** A connection: everything its peer has sent, what of it was not read yet, how its
    input ends, whether the relay closed it, and what the relay wrote to it. *)
Record side := Side { s_sent : bytes; s_avail : bytes; s_end : option gerror; s_closed : bool; s_wrote : bytes }.

(** [io.CopyBuffer]: in [Read], with bytes to write, or returned. *)
Inductive cphase := CReading | CWriting (b : bytes) | CDone (err : option gerror).

(** The waiting goroutine: before the first result, after it, before the second, returned. *)
Inductive mphase := MWait1 | MCheck (e1 : option gerror) | MWait2 (e1 : option gerror) | MRet (r : option gerror).

Record relay := RelaySt {
  r_client : side; r_up : side; r_c2u : cphase; r_u2c : cphase;
  errC : list (option gerror); r_main : mphase; r_ctx : option gerror }.

(** [errC := make(chan relayResult, 2)]. *)
Definition errCCap : nat := 2.

Definition newSide : side := Side [] [] None false [].
Definition startRelay : relay := RelaySt newSide newSide CReading CReading [] MWait1 None.

Definition read (s : side) (rest : bytes) : side := Side (s_sent s) rest (s_end s) (s_closed s) (s_wrote s).
Definition write (s : side) (b : bytes) : side := Side (s_sent s) (s_avail s) (s_end s) (s_closed s) (s_wrote s ++ b).
Definition close (s : side) : side := Side (s_sent s) (s_avail s) (s_end s) true (s_wrote s).

(** ** Steps of a copy from [src] to [dst]: the last argument is what it returns. A
    read from a closed connection fails, with whatever error; a write can fail at any
    time, after a part of the bytes. *)
Inductive cstep : cphase -> side -> side -> cphase -> side -> side -> option (option gerror) -> Prop :=
| C_read src dst b rest :
    s_closed src = false -> s_avail src = b ++ rest -> b <> [] -> zlen b <= tcpRelayCopyBufferSize ->
    cstep CReading src dst (CWriting b) (read src rest) dst None
| C_read_end src dst e :
    s_closed src = false -> s_avail src = [] -> s_end src = Some e ->
    let r := if bool_decide (e = io_EOF) then None else Some e in
    cstep CReading src dst (CDone r) src dst (Some r)
| C_read_closed src dst e :
    s_closed src = true ->
    let r := if bool_decide (e = io_EOF) then None else Some e in
    cstep CReading src dst (CDone r) src dst (Some r)
| C_write src dst b :
    s_closed dst = false ->
    cstep (CWriting b) src dst CReading src (write dst b) None
| C_write_fail src dst b n e :
    cstep (CWriting b) src dst (CDone (Some e)) src (write dst (take n b)) (Some (Some e)).

(** Both connections closed, to unblock the other copy. *)
Definition teardown (st : relay) (errs : list (option gerror)) (m : mphase) : relay :=
  RelaySt (close (r_client st)) (close (r_up st)) (r_c2u st) (r_u2c st) errs m (r_ctx st).
(** The return, with the deferred [ssconn.Close()]. *)
Definition return_ (st : relay) (errs : list (option gerror)) (r : option gerror) : relay :=
  RelaySt (r_client st) (close (r_up st)) (r_c2u st) (r_u2c st) errs (MRet r) (r_ctx st).
Definition setMain (st : relay) (errs : list (option gerror)) (m : mphase) : relay :=
  RelaySt (r_client st) (r_up st) (r_c2u st) (r_u2c st) errs m (r_ctx st).

(** ** Steps of the relay itself. A copy that comes to its end sends its result, which
    waits for room in [errC]. *)
Inductive istep : relay -> relay -> Prop :=
| I_c2u st ph src dst out :
    cstep (r_c2u st) (r_client st) (r_up st) ph src dst out -> (length (errC st ++ option_list out) <= errCCap)%nat ->
    istep st (RelaySt src dst ph (r_u2c st) (errC st ++ option_list out) (r_main st) (r_ctx st))
| I_u2c st ph src dst out :
    cstep (r_u2c st) (r_up st) (r_client st) ph src dst out -> (length (errC st ++ option_list out) <= errCCap)%nat ->
    istep st (RelaySt dst src (r_c2u st) ph (errC st ++ option_list out) (r_main st) (r_ctx st))
| I_first st e1 rest :
    r_main st = MWait1 -> errC st = e1 :: rest ->
    istep st (if hard e1 then teardown st rest (MCheck e1) else setMain st rest (MCheck e1))
| I_cancelled st e1 c :
    r_main st = MCheck e1 -> r_ctx st = Some c ->
    istep st (return_ st (errC st) (snd (relayEnd e1 (Some c) (CtxDone c))))
| I_goes_on st e1 :
    r_main st = MCheck e1 -> r_ctx st = None -> istep st (setMain st (errC st) (MWait2 e1))
| I_second st e1 e2 rest :
    r_main st = MWait2 e1 -> errC st = e2 :: rest ->
    istep st (return_ st rest (snd (relayEnd e1 None (Copied e2))))
| I_done st e1 c :
    r_main st = MWait2 e1 -> r_ctx st = Some c ->
    istep st (teardown st (errC st) (MRet (snd (relayEnd e1 None (CtxDone c))))).

(** ** Steps of the world: data and the end of input on either side, cancellation. *)
Definition arrive (s : side) (b : bytes) : side := Side (s_sent s ++ b) (s_avail s ++ b) (s_end s) (s_closed s) (s_wrote s).
Definition finish (s : side) (e : gerror) : side := Side (s_sent s) (s_avail s) (Some e) (s_closed s) (s_wrote s).

Inductive estep : relay -> relay -> Prop :=
| E_client st b : s_end (r_client st) = None ->
    estep st (RelaySt (arrive (r_client st) b) (r_up st) (r_c2u st) (r_u2c st) (errC st) (r_main st) (r_ctx st))
| E_client_end st e : s_end (r_client st) = None ->
    estep st (RelaySt (finish (r_client st) e) (r_up st) (r_c2u st) (r_u2c st) (errC st) (r_main st) (r_ctx st))
| E_up st b : s_end (r_up st) = None ->
    estep st (RelaySt (r_client st) (arrive (r_up st) b) (r_c2u st) (r_u2c st) (errC st) (r_main st) (r_ctx st))
| E_up_end st e : s_end (r_up st) = None ->
    estep st (RelaySt (r_client st) (finish (r_up st) e) (r_c2u st) (r_u2c st) (errC st) (r_main st) (r_ctx st))
| E_cancel st c : r_ctx st = None ->
    estep st (RelaySt (r_client st) (r_up st) (r_c2u st) (r_u2c st) (errC st) (r_main st) (Some c)).

Inductive rstep (st st' : relay) : Prop :=
| R_inner : istep st st' -> rstep st st'
| R_world : estep st st' -> rstep st st'.
Definition reachable (st : relay) : Prop := rtc rstep startRelay st.

(** ** Invariant *)

(** One direction: what was written, is in flight and is unread is what was sent; a
    copy that returned has written a prefix, and all of it when it returned cleanly
    from a connection nobody closed. *)
Definition flowOk (ph : cphase) (src dst : side) : Prop :=
  match ph with
  | CReading => s_wrote dst ++ s_avail src = s_sent src
  | CWriting b => s_wrote dst ++ b ++ s_avail src = s_sent src
  | CDone None => s_wrote dst ++ s_avail src = s_sent src
                  /\ (s_closed src = false -> s_avail src = [] /\ s_end src = Some io_EOF)
  | CDone (Some _) => s_wrote dst `prefix_of` s_sent src
  end.

(** Results on their way to the waiting goroutine, and those it has. *)
Definition results (st : relay) : list (option gerror) :=
  match r_main st with MCheck e1 | MWait2 e1 => [e1] | _ => [] end ++ errC st.
Definition returned (ph : cphase) : list (option gerror) := match ph with CDone e => [e] | _ => [] end.
Definition isRet (m : mphase) : bool := match m with MRet _ => true | _ => false end.

(** Before the return: the results are those of the copies that returned, and nothing
    is closed unless the first of them is an error. After it: why it was returned. *)
Definition mainOk (st : relay) : Prop :=
  match r_main st with
  | MRet r =>
      s_closed (r_up st) = true
      /\ (r = None -> s_closed (r_client st) = false
          /\ exists e1 e2, (r_c2u st = CDone e1 /\ r_u2c st = CDone e2) /\ hard e1 = false /\ hard e2 = false)
  | _ =>
      results st ≡ₚ returned (r_c2u st) ++ returned (r_u2c st)
      /\ (match r_main st with MCheck e1 | MWait2 e1 => hard e1 = false | _ => True end ->
          s_closed (r_client st) = false /\ s_closed (r_up st) = false)
  end.

(** A clean copy, seen before anything was closed, has delivered everything. *)
Definition cleanOk (ph : cphase) (src dst : side) : Prop :=
  ph = CDone None -> s_closed src = false -> s_wrote dst = s_sent src /\ s_end src = Some io_EOF.

Record inv (st : relay) : Prop := {
  i_c2u : flowOk (r_c2u st) (r_client st) (r_up st);
  i_u2c : flowOk (r_u2c st) (r_up st) (r_client st);
  i_main : mainOk st;
  (** A clean return comes after both copies delivered everything. *)
  i_clean : r_main st = MRet None ->
    (r_c2u st = CDone None -> s_wrote (r_up st) = s_sent (r_client st) /\ s_end (r_client st) = Some io_EOF)
    /\ (r_u2c st = CDone None -> s_wrote (r_client st) = s_sent (r_up st) /\ s_end (r_up st) = Some io_EOF) }.

(** ** Lemmas *)

(** What a direction depends on. *)
Lemma flowOk_frame ph src dst src' dst' :
  s_wrote dst' = s_wrote dst -> s_avail src' = s_avail src -> s_sent src' = s_sent src -> s_end src' = s_end src ->
  (s_closed src' = false -> s_closed src = false) -> flowOk ph src dst -> flowOk ph src' dst'.
Proof. intros Ew Ea Es Hend Hc. destruct ph as [|b|[e|]]; cbn; rewrite ?Ew, ?Ea, ?Es, ?Hend; naive_solver. Qed.

Lemma flowOk_arrive ph src dst b : s_end src = None -> flowOk ph src dst -> flowOk ph (arrive src b) dst.
Proof.
  intros He. destruct ph as [|b'|[e|]]; cbn.
  - intros <-. by rewrite app_assoc.
  - intros <-. by rewrite <- !app_assoc.
  - intros [k ->]. exists (k ++ b). by rewrite app_assoc.
  - intros [<- Hc]. rewrite app_assoc. split; [done|]. intros H. destruct (Hc H) as [_ H']. congruence.
Qed.

(** A step of a copy: its own direction, what it leaves alone, what it returns. *)
Lemma cstep_ok ph src dst ph' src' dst' out :
  cstep ph src dst ph' src' dst' out -> flowOk ph src dst ->
  flowOk ph' src' dst'
  /\ (s_wrote src' = s_wrote src /\ s_sent src' = s_sent src /\ s_end src' = s_end src /\ s_closed src' = s_closed src)
  /\ (s_avail dst' = s_avail dst /\ s_sent dst' = s_sent dst /\ s_end dst' = s_end dst /\ s_closed dst' = s_closed dst)
  /\ returned ph = [] /\ returned ph' = option_list out.
Proof.
  intros Hs Hok. destruct Hs as [src dst b rest Hc Ha Hb Hl|src dst e Hc Ha He r|src dst e Hc r|src dst b Hc|src dst b n e]; cbn in *.
  - rewrite Ha in Hok. repeat split; done.
  - repeat split; try done. unfold r. case_bool_decide as Hd; [|by exists (s_avail src)]. subst e. done.
  - repeat split; try done. unfold r. case_bool_decide as Hd; [|by exists (s_avail src)]. split; [done|congruence].
  - rewrite <- app_assoc. repeat split; done.
  - repeat split; try done. exists (drop n b ++ s_avail src). rewrite <- Hok, <- app_assoc. f_equal. by rewrite app_assoc, take_drop.
Qed.

Lemma returned_le ph : (length (returned ph) <= 1)%nat.
Proof. destruct ph; cbn; lia. Qed.

(** All results are in: both copies have returned them. *)
Lemma two_results e1 e2 rest ph1 ph2 :
  [e1] ++ e2 :: rest ≡ₚ returned ph1 ++ returned ph2 ->
  (ph1 = CDone e1 /\ ph2 = CDone e2) \/ (ph1 = CDone e2 /\ ph2 = CDone e1).
Proof.
  intros H. pose proof (Permutation_length H) as Hl. rewrite !length_app in Hl. cbn [length] in Hl.
  destruct ph1 as [|b1|x], ph2 as [|b2|y]; cbn [returned length] in *; try lia.
  destruct rest; [|cbn in Hl; lia]. cbn in H. apply Permutation_length_2_inv in H as [H|H]; simplify_eq; auto.
Qed.

Lemma mainOk_copy st cl up c2u u2c out :
  mainOk st -> s_closed cl = s_closed (r_client st) -> s_closed up = s_closed (r_up st) ->
  (r_c2u st = c2u /\ returned (r_u2c st) = [] /\ returned u2c = option_list out
   \/ r_u2c st = u2c /\ returned (r_c2u st) = [] /\ returned c2u = option_list out) ->
  mainOk (RelaySt cl up c2u u2c (errC st ++ option_list out) (r_main st) (r_ctx st)).
Proof.
  intros Hm Hcl Hup Hcopy. unfold mainOk in *. cbn [r_main r_client r_up r_c2u r_u2c]. rewrite Hcl, Hup.
  assert (Hres : results st ≡ₚ returned (r_c2u st) ++ returned (r_u2c st) ->
    results (RelaySt cl up c2u u2c (errC st ++ option_list out) (r_main st) (r_ctx st)) ≡ₚ returned c2u ++ returned u2c).
  { unfold results. cbn [r_main errC]. rewrite app_assoc. intros ->.
    destruct Hcopy as [(<- & E1 & E2)|(<- & E1 & E2)]; rewrite E1, E2, ?app_nil_r, ?app_nil_l; [done|apply Permutation_app_comm]. }
  destruct (r_main st) as [|e1|e1|r]; [destruct Hm; split; auto..|].
  destruct Hm as [H1 H2]. split; [done|]. intros Hr. destruct (H2 Hr) as (H3 & e1 & e2 & [E1 E2] & H4).
  rewrite E1, E2 in Hcopy. cbn in Hcopy. naive_solver.
Qed.

Lemma inv_start : inv startRelay.
Proof. split; cbn; try done. Qed.

Lemma inv_copy st cl up c2u u2c out :
  inv st -> flowOk c2u cl up -> flowOk u2c up cl ->
  s_closed cl = s_closed (r_client st) -> s_closed up = s_closed (r_up st) ->
  (r_c2u st = c2u /\ returned (r_u2c st) = [] /\ returned u2c = option_list out
   \/ r_u2c st = u2c /\ returned (r_c2u st) = [] /\ returned c2u = option_list out) ->
  inv (RelaySt cl up c2u u2c (errC st ++ option_list out) (r_main st) (r_ctx st)).
Proof.
  intros [F1 F2 M Cn] H1 H2 Hc Hu Hcopy. split; [done|done|by apply mainOk_copy|]. cbn [r_main]. intros Hr.
  unfold mainOk in M. rewrite Hr in M. destruct M as [_ M]. destruct (M eq_refl) as (_ & e1 & e2 & [E1 E2] & _).
  rewrite E1, E2 in Hcopy. cbn in Hcopy. naive_solver.
Qed.

Lemma inv_istep st st' : inv st -> istep st st' -> inv st'.
Proof.
  intros Hinv Hs. destruct Hinv as [F1 F2 M Cn] eqn:Hi. clear Hi.
  destruct Hs as [st ph src dst out Hc Hcap|st ph src dst out Hc Hcap|st e1 rest Hm He|st e1 c Hm Hx|st e1 Hm Hx|st e1 e2 rest Hm He|st e1 c Hm Hx].
  - destruct (cstep_ok _ _ _ _ _ _ _ Hc F1) as (Fl & (A1 & A2 & A3 & A4) & (B1 & B2 & B3 & B4) & R1 & R2).
    apply inv_copy; [done|done| |done|done|by right]. eapply flowOk_frame; [..|exact F2]; congruence.
  - destruct (cstep_ok _ _ _ _ _ _ _ Hc F2) as (Fl & (A1 & A2 & A3 & A4) & (B1 & B2 & B3 & B4) & R1 & R2).
    apply inv_copy; [done| |done|done|done|by left]. eapply flowOk_frame; [..|exact F1]; congruence.
  - unfold mainOk, results in M. rewrite Hm, He in M. destruct M as [M1 M2]. destruct (hard e1) eqn:Eh; split; cbn; try done.
    + by eapply flowOk_frame; [..|exact F1].
    + by eapply flowOk_frame; [..|exact F2].
    + split; [done|]. by rewrite Eh.
    + split; [done|]. auto.
  - unfold mainOk in M. rewrite Hm in M. destruct M as [M1 M2].
    split; [by eapply flowOk_frame; [..|exact F1]|by eapply flowOk_frame; [..|exact F2]|..]; cbn.
    + split; [done|]. destruct (hard e1) eqn:Eh; [|done]. intros ->. done.
    + destruct (hard e1) eqn:Eh; [|done]. intros [= ->]. done.
  - unfold mainOk, results in M. rewrite Hm in M. split; cbn; done.
  - unfold mainOk, results in M. rewrite Hm, He in M. destruct M as [M1 M2]. apply two_results in M1.
    assert (Hret : snd (relayEnd e1 None (Copied e2)) = None -> hard e1 = false /\ hard e2 = false).
    { cbn. destruct (hard e1) eqn:E1; [by intros ->|]. destruct (hard e2) eqn:E2; [by intros ->|done]. }
    split.
    + by eapply flowOk_frame; [..|exact F1].
    + by eapply flowOk_frame; [..|exact F2].
    + unfold mainOk. cbn [r_main return_ r_client r_up r_c2u r_u2c s_closed close]. split; [done|]. intros Hr.
      destruct (Hret Hr) as [E1 E2]. split; [by apply M2|]. destruct M1 as [M1|[M1 M1']]; [by exists e1, e2|by exists e2, e1].
    + cbn [r_main return_ r_client r_up r_c2u r_u2c s_wrote s_sent s_end close]. intros [= Hr].
      destruct (Hret Hr) as [E1 _]. destruct (M2 E1) as [C1 C2]. split; intros Hd; [rewrite Hd in F1; destruct F1 as [F1 F1']|rewrite Hd in F2; destruct F2 as [F2 F2']].
      * destruct (F1' C1) as [Ha Hend]. rewrite Ha, app_nil_r in F1. done.
      * destruct (F2' C2) as [Ha Hend]. rewrite Ha, app_nil_r in F2. done.
  - unfold mainOk in M. rewrite Hm in M. destruct M as [M1 M2].
    split; [by eapply flowOk_frame; [..|exact F1]|by eapply flowOk_frame; [..|exact F2]|..]; cbn.
    + split; [done|]. destruct (hard e1) eqn:Eh; [|done]. intros ->. done.
    + destruct (hard e1) eqn:Eh; [|done]. intros [= ->]. done.
Qed.

Lemma inv_estep st st' : inv st -> estep st st' -> inv st'.
Proof.
  intros [F1 F2 M Cn] Hs.
  destruct Hs as [st b He|st e He|st b He|st e He|st c He].
  - split; [by apply flowOk_arrive|by eapply flowOk_frame; [..|exact F2]|exact M|].
    intros Hr. destruct (Cn Hr) as [C1 C2]. split; [|exact C2]. intros Hd. destruct (C1 Hd). congruence.
  - split; [|by eapply flowOk_frame; [..|exact F2]|exact M|].
    + cbn [r_c2u r_client r_up]. destruct (r_c2u st) as [|b|[x|]]; try exact F1. destruct F1 as [F1 F1']. split; [exact F1|].
      intros Hc. destruct (F1' Hc). congruence.
    + intros Hr. destruct (Cn Hr) as [C1 C2]. split; [|exact C2]. intros Hd. destruct (C1 Hd). congruence.
  - split; [by eapply flowOk_frame; [..|exact F1]|by apply flowOk_arrive|exact M|].
    intros Hr. destruct (Cn Hr) as [C1 C2]. split; [exact C1|]. intros Hd. destruct (C2 Hd). congruence.
  - split; [by eapply flowOk_frame; [..|exact F1]| |exact M|].
    + cbn [r_u2c r_client r_up]. destruct (r_u2c st) as [|b|[x|]]; try exact F2. destruct F2 as [F2 F2']. split; [exact F2|].
      intros Hc. destruct (F2' Hc). congruence.
    + intros Hr. destruct (Cn Hr) as [C1 C2]. split; [exact C1|]. intros Hd. destruct (C2 Hd). congruence.
  - by split.
Qed.

Lemma inv_reachable st : reachable st -> inv st.
Proof.
  apply (rtc_ind_r inv startRelay inv_start). intros st1 st2 _ [Hs|Hs] IH; [by eapply inv_istep|by eapply inv_estep].
Qed.

(** *** Termination *)

Definition cweight (ph : cphase) : nat := match ph with CReading => 2 | CWriting _ => 3 | CDone _ => 0 end.
Definition mweight (m : mphase) : nat := match m with MWait1 => 3 | MCheck _ => 2 | MWait2 _ => 1 | MRet _ => 0 end.
Definition measure (st : relay) : nat :=
  2 * (length (s_avail (r_client st)) + length (s_avail (r_up st))) + cweight (r_c2u st) + cweight (r_u2c st) + mweight (r_main st).

Lemma cstep_measure ph src dst ph' src' dst' out :
  cstep ph src dst ph' src' dst' out ->
  (2 * (length (s_avail src') + length (s_avail dst')) + cweight ph' < 2 * (length (s_avail src) + length (s_avail dst)) + cweight ph)%nat.
Proof.
  destruct 1 as [src dst b rest Hc Ha Hb Hl|src dst e Hc Ha He r|src dst e Hc r|src dst b Hc|src dst b n e]; cbn; try lia.
  rewrite Ha, length_app. destruct b; [done|]. cbn. lia.
Qed.

Lemma istep_measure st st' : istep st st' -> (measure st' < measure st)%nat.
Proof.
  destruct 1 as [st ph src dst out Hc Hcap|st ph src dst out Hc Hcap|st e1 rest Hm He|st e1 c Hm Hx|st e1 Hm Hx|st e1 e2 rest Hm He|st e1 c Hm Hx];
    unfold measure; try (apply cstep_measure in Hc); cbn; rewrite ?Hm; cbn; try lia.
  destruct (hard e1); cbn; lia.
Qed.

Lemma istep_sn st : sn istep st.
Proof.
  remember (measure st) as n eqn:E. revert st E. induction (lt_wf n) as [n _ IH]. intros st ->. constructor. intros st' Hs.
  eapply IH; [|done]. by apply istep_measure.
Qed.

Definition bothClosed (st : relay) : Prop := s_closed (r_client st) = true /\ s_closed (r_up st) = true.

Lemma cstep_closed ph src dst ph' src' dst' out :
  cstep ph src dst ph' src' dst' out -> s_closed src' = s_closed src /\ s_closed dst' = s_closed dst.
Proof. by destruct 1. Qed.

Lemma istep_closed st st' : istep st st' -> bothClosed st -> bothClosed st'.
Proof.
  unfold bothClosed. destruct 1 as [st ph src dst out Hc Hcap|st ph src dst out Hc Hcap|st e1 rest Hm He| | | |]; cbn; try (apply cstep_closed in Hc as [-> ->]); try tauto.
  by destruct (hard e1).
Qed.

(** The results that wait in the channel are of copies that have ended, so that there is
    room for every other; and after a hard error both connections are closed. *)
Definition chanOk (st : relay) : Prop :=
  (length (errC st) <= length (returned (r_c2u st) ++ returned (r_u2c st)))%nat
  /\ match r_main st with MCheck e1 | MWait2 e1 => hard e1 = true -> bothClosed st | _ => True end.

Lemma chanOk_istep st st' : istep st st' -> chanOk st -> chanOk st'.
Proof.
  intros Hs. pose proof (istep_closed _ _ Hs) as Hb. revert Hb.
  destruct Hs as [st ph src dst out Hc Hcap|st ph src dst out Hc Hcap|st e1 rest Hm He|st e1 c Hm Hx|st e1 Hm Hx|st e1 e2 rest Hm He|st e1 c Hm Hx];
    unfold chanOk; intros Hb [H1 H2].
  - split; [|cbn [r_main] in *; destruct (r_main st); auto]. cbn. rewrite !length_app in *.
    assert (Hr : returned (r_c2u st) = [] /\ returned ph = option_list out) by (by destruct Hc). destruct Hr as [Hr ->]. rewrite Hr in H1. cbn in *. lia.
  - split; [|cbn [r_main] in *; destruct (r_main st); auto]. cbn. rewrite !length_app in *.
    assert (Hr : returned (r_u2c st) = [] /\ returned ph = option_list out) by (by destruct Hc). destruct Hr as [Hr ->]. rewrite Hr in H1. cbn in *. lia.
  - rewrite He in H1. cbn in H1. destruct (hard e1) eqn:Eh; cbn; (split; [lia|]); [done|congruence].
  - by split.
  - rewrite Hm in H2. by split.
  - rewrite He in H1. split; [cbn in *; lia|done].
  - by split.
Qed.

Lemma chanOk_reachable st : reachable st -> chanOk st.
Proof.
  apply (rtc_ind_r chanOk startRelay); [split; [cbn; lia|done]|]. intros st1 st2 _ [Hs|Hs] IH; [by eapply chanOk_istep|].
  by destruct Hs.
Qed.

Lemma chanOk_room st : chanOk st -> returned (r_c2u st) = [] \/ returned (r_u2c st) = [] ->
  forall out, (length (errC st ++ option_list out) <= errCCap)%nat.
Proof.
  intros [H _] Hr out. rewrite !length_app in *. pose proof (returned_le (r_c2u st)). pose proof (returned_le (r_u2c st)).
  unfold errCCap. destruct Hr as [Hr|Hr]; rewrite Hr in *; destruct out; cbn in *; lia.
Qed.

(** A torn-down relay can go on until it has returned and both copies have. *)
Lemma torn_down_progress st :
  inv st -> chanOk st -> bothClosed st -> nf istep st -> exists r e1 e2, r_main st = MRet r /\ r_c2u st = CDone e1 /\ r_u2c st = CDone e2.
Proof.
  intros Hi Hch [Hc Hu] Hnf. pose proof (chanOk_room st Hch) as Hroom.
  assert (H1 : exists e1, r_c2u st = CDone e1).
  { destruct (r_c2u st) as [|b|e1] eqn:E; [| |by eexists]; destruct Hnf; eexists;
      (apply I_c2u; [rewrite E|apply Hroom; by left]); [by apply (C_read_closed _ _ io_EOF)|apply (C_write_fail _ _ _ 0 io_EOF)]. }
  assert (H2 : exists e2, r_u2c st = CDone e2).
  { destruct (r_u2c st) as [|b|e2] eqn:E; [| |by eexists]; destruct Hnf; eexists;
      (apply I_u2c; [rewrite E|apply Hroom; by right]); [by apply (C_read_closed _ _ io_EOF)|apply (C_write_fail _ _ _ 0 io_EOF)]. }
  destruct H1 as [e1 E1], H2 as [e2 E2]. pose proof (i_main st Hi) as M. unfold mainOk, results in M. rewrite E1, E2 in M. cbn in M.
  destruct (r_main st) as [|x|x|r] eqn:Em; [..|by exists r, e1, e2]; destruct Hnf; destruct M as [M _]; apply Permutation_length in M; cbn in M.
  - destruct (errC st) as [|y l] eqn:Ee; [done|]. eexists. by eapply I_first.
  - destruct (r_ctx st) eqn:Ex; eexists; [by eapply I_cancelled|by eapply I_goes_on].
  - destruct (errC st) as [|y l] eqn:Ee; [cbn in M; lia|]. eexists. by eapply I_second.
Qed.

(** *** The relay tears itself down *)

(** The first result is the hard error [e], received or next in the channel. *)
Definition failedWith (e : option gerror) (st : relay) : Prop :=
  hard e = true /\ match r_main st with
  | MWait1 => head (errC st) = Some e
  | MCheck e1 | MWait2 e1 => e1 = e
  | MRet _ => False
  end.
(** The context ends while the relay waits for the second copy. *)
Definition cancelledInWait (st : relay) : Prop := is_Some (r_ctx st) /\ exists e1, r_main st = MWait2 e1.

Definition allReturned (st : relay) : Prop :=
  exists r e1 e2, r_main st = MRet r /\ r_c2u st = CDone e1 /\ r_u2c st = CDone e2.

(** What holds from a hard error on, and from a cancellation on. *)
Definition failing (e : option gerror) (st : relay) : Prop :=
  failedWith e st /\ (r_main st = MWait1 \/ bothClosed st) \/ r_main st = MRet e /\ bothClosed st.
Definition stopping (st : relay) : Prop := cancelledInWait st \/ bothClosed st \/ allReturned st.

Lemma failing_istep e st st' : istep st st' -> failing e st -> failing e st'.
Proof.
  intros Hs. pose proof (istep_closed _ _ Hs) as Hb. revert Hb. unfold failing, failedWith.
  destruct Hs as [st ph src dst out Hc Hcap|st ph src dst out Hc Hcap|st e1 rest Hm He|st e1 c Hm Hx|st e1 Hm Hx|st e1 e2 rest Hm He|st e1 c Hm Hx];
    intros Hb [[[Hh Hf] Hcl]|[Hf Hcl]]; try congruence.
  1-4: cbn [r_main errC]; destruct (r_main st) eqn:Em; try done; try (right; split; [congruence|by apply Hb]);
    left; (split; [split; [done|]|destruct Hcl; [by left|right; by apply Hb]]); try done; by destruct (errC st).
  - rewrite Hm, He in Hf. cbn in Hf. injection Hf as ->. rewrite Hh. left. split; [by split|by right].
  - rewrite Hm in Hf. subst e1. right. split; [cbn; by rewrite Hh|]. destruct Hcl; [congruence|by apply Hb].
  - rewrite Hm in Hf. subst e1. left. split; [by split|]. right. destruct Hcl; [congruence|by apply Hb].
  - rewrite Hm in Hf. subst e1. right. split; [cbn; by rewrite Hh|]. destruct Hcl; [congruence|by apply Hb].
  - rewrite Hm in Hf. subst e1. right. split; [cbn; by rewrite Hh|done].
Qed.

Lemma stopping_istep st st' : inv st -> istep st st' -> stopping st -> stopping st'.
Proof.
  intros Hi Hs. pose proof (istep_closed _ _ Hs) as Hb. unfold stopping. intros [[Hx [e1 Hm]]|[H|(r & e1 & e2 & Hm & H1 & H2)]]; [|auto|].
  - destruct Hs as [st ph src dst out Hc Hcap|st ph src dst out Hc Hcap|st x rest Hm' He|st x c Hm' Hx'|st x Hm' Hx'|st x e2 rest Hm' He|st x c Hm' Hx'];
      try congruence; [left; split; [done|by exists e1]..|right; right|right; left; done].
    pose proof (i_main st Hi) as M. unfold mainOk, results in M. rewrite Hm', He in M. destruct M as [M _].
    apply two_results in M. unfold allReturned. cbn. destruct M as [[-> ->]|[-> ->]]; eauto 7.
  - exfalso. destruct Hs as [st ph src dst out Hc Hcap|st ph src dst out Hc Hcap| | | | |]; try congruence; [rewrite H1 in Hc|rewrite H2 in Hc]; inversion Hc.
Qed.

(** ** Properties *)

(** C20: in every interleaving of the two copies, the waiting goroutine, the peers and
    the cancellation, what reaches the upstream is a prefix of what the client has
    sent, and the other way round: no byte is lost in between, repeated or
    reordered. A relay that returns without error has closed the stream and left the
    client open, both copies have returned, and a copy that returned without error
    has delivered everything up to the end of its input. *)
Theorem relay_delivers (st : relay) (Hr : reachable st) :
  s_wrote (r_up st) `prefix_of` s_sent (r_client st) /\ s_wrote (r_client st) `prefix_of` s_sent (r_up st)
  /\ (r_main st = MRet None ->
      s_closed (r_up st) = true /\ s_closed (r_client st) = false
      /\ (exists e1 e2, (r_c2u st = CDone e1 /\ r_u2c st = CDone e2) /\ hard e1 = false /\ hard e2 = false)
      /\ (r_c2u st = CDone None -> s_wrote (r_up st) = s_sent (r_client st) /\ s_end (r_client st) = Some io_EOF)
      /\ (r_u2c st = CDone None -> s_wrote (r_client st) = s_sent (r_up st) /\ s_end (r_up st) = Some io_EOF)).
Proof.
  destruct (inv_reachable st Hr) as [F1 F2 M Cn].
  assert (Hp : forall ph src dst, flowOk ph src dst -> s_wrote dst `prefix_of` s_sent src).
  { intros ph src dst F. destruct ph as [|b|[e|]]; cbn in F; [by eexists|by eexists|done|]. destruct F as [F _]. by eexists. }
  split; [by eapply Hp|]. split; [by eapply Hp|]. intros Hm. unfold mainOk in M. rewrite Hm in M. destruct M as [M1 M2].
  destruct (M2 eq_refl) as [M3 M4]. split; [done|]. split; [done|]. split; [done|]. by apply Cn.
Qed.

(** C21: the relay tears itself down and ends. Its own steps are finite from any state.
    Once the first copy to end has failed with a hard error [e], whatever the other copy,
    the peers and the context are at, every run of the relay that can go no further has
    returned [e], both copies have ended and both connections are closed. Once the context
    ends while the relay waits for the second copy, every such run has returned, both
    copies have ended and the stream is closed. In both cases this needs the closing of
    both connections, which unblocks the copies, and the room for two results in [errC],
    which lets a copy end after the relay has returned. *)
Theorem relay_teardown_ends (st : relay) (Hr : reachable st) :
  sn istep st
  /\ (forall e st', failedWith e st -> rtc istep st st' -> nf istep st' ->
       r_main st' = MRet e /\ s_closed (r_client st') = true /\ s_closed (r_up st') = true
       /\ exists e1 e2, r_c2u st' = CDone e1 /\ r_u2c st' = CDone e2)
  /\ (forall st', cancelledInWait st -> rtc istep st st' -> nf istep st' ->
       s_closed (r_up st') = true /\ exists r e1 e2, r_main st' = MRet r /\ r_c2u st' = CDone e1 /\ r_u2c st' = CDone e2).
Proof.
  assert (Hinv : forall st', rtc istep st st' -> inv st' /\ chanOk st').
  { intros st' Hrun. assert (Hr' : reachable st') by (unfold reachable; etrans; [exact Hr|]; eapply (rtc_subrel istep rstep); [by constructor|done]).
    split; [by apply inv_reachable|by apply chanOk_reachable]. }
  split; [apply istep_sn|]. split.
  - intros e st' Hf Hrun Hnf. assert (H0 : failing e st).
    { left. split; [done|]. destruct (Hinv st ltac:(done)) as [_ [_ Hc]]. destruct Hf as [Hh Hf].
      destruct (r_main st) eqn:Em; [by left|right; subst; by apply Hc..|done]. }
    assert (H : failing e st') by (clear -Hrun H0; induction Hrun as [|x y z Hs _ IH]; [done|]; apply IH; by eapply failing_istep).
    destruct (Hinv st' Hrun) as [Hi Hch]. destruct H as [[[Hh Hf'] [Em|Hb]]|[Em Hb]].
    + destruct Hnf. rewrite Em in Hf'. destruct (errC st') as [|x l] eqn:Ee; [done|]. injection Hf' as ->. eexists. by eapply I_first.
    + destruct (torn_down_progress st' Hi Hch Hb Hnf) as (r & e1 & e2 & Em & _). by rewrite Em in Hf'.
    + destruct (torn_down_progress st' Hi Hch Hb Hnf) as (r & e1 & e2 & _ & E1 & E2). destruct Hb as [Hb1 Hb2].
      split; [done|]. split; [done|]. split; [done|]. by exists e1, e2.
  - intros st' Hc Hrun Hnf. assert (H : stopping st').
    { assert (H0 : stopping st) by (by left). clear -Hinv Hrun H0. revert st' Hrun. apply (rtc_ind_r (R := istep) stopping st); [done|].
      intros x y Hxy Hs. apply stopping_istep; [|done]. by apply Hinv. }
    destruct (Hinv st' Hrun) as [Hi Hch]. pose proof (i_main st' Hi) as M. assert (Ha : allReturned st').
    { destruct H as [[[c Hx] [e1 Em]]|[Hb|Ha]]; [|by apply torn_down_progress|done]. destruct Hnf. eexists. by eapply I_done. }
    split; [|done]. destruct Ha as (r & e1 & e2 & Em & _). unfold mainOk in M. rewrite Em in M. apply M.
Qed.

(** The end of the upstream's stream is not passed on: once it has ended cleanly
    and everything was delivered, a relay whose client neither sends nor closes can do
    nothing, and the client's connection stays open; a client that waits for the end
    of the answer waits for ever. Nor does the end of the context alone make the relay do
    anything while its copies both wait: it looks at the context only after a copy has
    ended (over HTTP/1.1 the library ends the read of the stream, a step of the world). *)
Theorem relay_keeps_client_waiting (st : relay)
    (Hr : reachable st) (Hc2u : r_c2u st = CReading) (Hidle : s_avail (r_client st) = []) (Hopen : s_end (r_client st) = None) :
  (r_u2c st = CDone None -> r_ctx st = None -> r_main st = MWait2 None ->
   s_closed (r_client st) = false /\ nf istep st)
  /\ (r_u2c st = CReading -> s_avail (r_up st) = [] -> s_end (r_up st) = None -> r_main st = MWait1 -> nf istep st).
Proof.
  pose proof (inv_reachable st Hr) as Hi. pose proof (i_main st Hi) as M. unfold mainOk, results in M.
  assert (Hnc : forall src dst ph' src' dst' out, s_closed src = false -> s_avail src = [] -> s_end src = None ->
    ~ cstep CReading src dst ph' src' dst' out).
  { intros src dst ph' src' dst' out Hc Ha He Hs. inversion Hs; subst; try congruence.
    match goal with H : s_avail src = _ ++ _ |- _ => rewrite Ha in H end. by destruct b. }
  split.
  - intros Hd Hx Hm. rewrite Hm, Hc2u, Hd in M. destruct M as [M1 M2]. destruct (M2 eq_refl) as [Hcc Hcu]. split; [done|].
    assert (He : errC st = []). { apply Permutation_length in M1. cbn in M1. destruct (errC st); [done|cbn in M1; lia]. }
    intros [st' Hs]. inversion Hs; subst; try congruence;
      match goal with H : cstep _ _ _ _ _ _ _ |- _ => rewrite ?Hc2u, ?Hd in H end; [by eapply Hnc in H|].
    match goal with H : cstep (CDone _) _ _ _ _ _ _ |- _ => inversion H end.
  - intros Hd Ha He Hm. rewrite Hm, Hc2u, Hd in M. destruct M as [M1 M2]. destruct (M2 I) as [Hcc Hcu].
    assert (Hch : errC st = []). { apply Permutation_length in M1. cbn in M1. by destruct (errC st). }
    intros [st' Hs]. inversion Hs; subst; try congruence;
      match goal with H : cstep _ _ _ _ _ _ _ |- _ => rewrite ?Hc2u, ?Hd in H; by eapply Hnc in H end.
Qed.

(** ** Witnesses *)

Definition answer : bytes := [Byte.x68; Byte.x69].

(** The upstream has answered and ended its stream, the client is silent. *)
Definition answered : relay :=
  RelaySt (Side [] [] None false answer) (Side answer [] (Some io_EOF) false []) CReading (CDone None) [] (MWait2 None) None.

Lemma answered_reachable : reachable answered.
Proof.
  eapply rtc_l; [apply R_world, (E_up _ answer); reflexivity|].
  eapply rtc_l; [apply R_inner, I_u2c; [apply (C_read _ _ answer []); vm_compute; (reflexivity || discriminate)|cbn; unfold errCCap; lia]|].
  eapply rtc_l; [apply R_inner, I_u2c; [apply C_write; reflexivity|cbn; unfold errCCap; lia]|].
  eapply rtc_l; [apply R_world, (E_up_end _ io_EOF); reflexivity|].
  eapply rtc_l; [apply R_inner, I_u2c; [apply (C_read_end _ _ io_EOF); reflexivity|cbn; unfold errCCap; lia]|].
  eapply rtc_l; [apply R_inner, (I_first _ None []); reflexivity|].
  eapply rtc_l; [apply R_inner, (I_goes_on _ None); reflexivity|]. apply rtc_refl.
Qed.

Lemma relay_keeps_client_waiting_witness : s_closed (r_client answered) = false /\ nf istep answered.
Proof.
  refine (proj1 (relay_keeps_client_waiting answered answered_reachable _ _ _) _ _ _); reflexivity.
Defined.

(** The client closes too, and the relay returns. *)
Definition completed : relay :=
  RelaySt (Side [] [] (Some io_EOF) false answer) (Side answer [] (Some io_EOF) true []) (CDone None) (CDone None) [] (MRet None) None.

Lemma completed_reachable : reachable completed.
Proof.
  unfold reachable. etrans; [apply answered_reachable|].
  eapply rtc_l; [apply R_world, (E_client_end _ io_EOF); reflexivity|].
  eapply rtc_l; [apply R_inner, I_c2u; [apply (C_read_end _ _ io_EOF); reflexivity|cbn; unfold errCCap; lia]|].
  eapply rtc_l; [apply R_inner, (I_second _ None None []); reflexivity|]. apply rtc_refl.
Qed.

Lemma relay_delivers_witness : s_wrote (r_client completed) = s_sent (r_up completed) /\ s_end (r_up completed) = Some io_EOF.
Proof.
  refine (proj2 (proj2 (proj2 (proj2 (proj2 (proj2 (relay_delivers completed completed_reachable)) _)))) _); reflexivity.
Defined.

(** A reset by the client tears the relay down. *)
Definition reset : relay :=
  RelaySt (Side [] [] (Some syscall_ECONNRESET) true []) (Side [] [] None true []) (CDone (Some syscall_ECONNRESET)) CReading []
    (MCheck (Some syscall_ECONNRESET)) None.

Lemma reset_reachable : reachable reset.
Proof.
  eapply rtc_l; [apply R_world, (E_client_end _ syscall_ECONNRESET); reflexivity|].
  eapply rtc_l; [apply R_inner, I_c2u; [apply (C_read_end _ _ syscall_ECONNRESET); reflexivity|cbn; unfold errCCap; lia]|].
  eapply rtc_l; [apply R_inner, (I_first _ (Some syscall_ECONNRESET) []); reflexivity|]. apply rtc_refl.
Qed.

(** It ends: the other copy fails on the closed connection and its result is received. *)
Definition resetEnd : relay :=
  RelaySt (Side [] [] (Some syscall_ECONNRESET) true []) (Side [] [] None true []) (CDone (Some syscall_ECONNRESET)) (CDone None) []
    (MRet (Some syscall_ECONNRESET)) None.

Lemma relay_teardown_ends_witness : r_main resetEnd = MRet (Some syscall_ECONNRESET) /\ s_closed (r_client resetEnd) = true.
Proof.
  destruct (proj1 (proj2 (relay_teardown_ends reset reset_reachable)) (Some syscall_ECONNRESET) resetEnd) as (H1 & H2 & _).
  - split; reflexivity.
  - eapply rtc_l; [apply I_u2c; [apply (C_read_closed _ _ io_EOF); reflexivity|cbn; unfold errCCap; lia]|].
    eapply rtc_l; [apply (I_goes_on _ (Some syscall_ECONNRESET)); reflexivity|].
    eapply rtc_l; [apply (I_second _ (Some syscall_ECONNRESET) None []); reflexivity|]. apply rtc_refl.
  - intros [st' Hs]. inversion Hs; subst; try discriminate; match goal with H : cstep _ _ _ _ _ _ _ |- _ => inversion H end.
  - exact (conj H1 H2).
Defined.
