(* ===== verification/Main.v ===== *)
(** * The program's life

    src/cmd/outline-cli-ws/main.go: what [main] starts for a configuration, then the
    goroutines it leaves behind, the accept loop and the shutdown, as steps. *)

From stdpp Require Import relations.
From S2P Require Import Prelude GoNum GoNet Config Metrics HealthCheck LoadBalancer.

(** ** Start *)

(** The command line: [-c], [-metrics] and [-no-probes]. *)
Record flags := Flags { cfgPath : bytes; metricsAddr : bytes; noProbes : bool }.

(** A goroutine that [main] starts. *)
Inductive service := StartMetricsServer (addr : bytes) | RunHealthChecks | RunWarmStandby | RunTun (c : TunConfig) | OnSignal.

(** What [main] does to the outside before it serves. *)
Inductive act := SetWebSocketDebug (b : bool) | EnableMetrics | Go (s : service) | Listen (addr : bytes).

(** The calls of [log.Fatal], and a panic while the configuration is read. *)
Inductive fatal :=
| FPanic (w : string)
| FConfig (e : gerror)
| FNothing
| FTunOnly (device : bytes) (e : gerror)
| FListen (addr : bytes) (e : gerror).

(** ** The running program *)

Inductive listener := NoListener | Listening | Closed.
(** [main]: in [<-ctx.Done()], in the accept loop, returned. *)
Inductive mainPhase := Waiting | Accepting | Exited.
(** The goroutine of [RunTunNative]: not started, running, returned with an error and
    about to cancel, finished. *)
Inductive tunPhase := TunOff | TunUp | TunFailed (e : gerror) | TunDone.
(** The signal handler: at [<-sigc], before [cancel()], before [ln.Close()], finished. *)
Inductive sigPhase := SigWait | SigGot | SigCancelled | SigDone.
(** A goroutine that runs until the context is done. *)
Inductive bgPhase := BgOff | BgUp | BgDone.

Record life := Life {
  ctxDone : bool; ln : listener; main_ : mainPhase; tun_ : tunPhase; sig_ : sigPhase;
  metrics_ : bgPhase; health_ : bgPhase; warm_ : bgPhase;
  (** for every accepted connection, whether the context it is served with was done *)
  served : list bool;
  (** the accept errors that were logged *)
  acceptErrs : list gerror }.

Section Main.
Context {C : Type}.
(** [LoadConfig] with its file, [net.InterfaceByName], [net.Listen], and the clock. *)
Context (readFile : bytes -> res bytes) (unmarshal : bytes -> res Config).
Context (interfaceByName listen : bytes -> option gerror) (now : nat -> Z).

Definition bg (b : bool) : bgPhase := if b then BgUp else BgOff.
Definition nonEmpty (s : bytes) : bool := match s with [] => false | _ => true end.

(** What is started before the front ends. *)
Definition background (f : flags) (c : Config) : list act :=
  [SetWebSocketDebug (WebSocket_Debug c)]
  ++ (if nonEmpty (metricsAddr f) then [EnableMetrics; Go (StartMetricsServer (metricsAddr f))] else [])
  ++ (if DisableProbes c || noProbes f then [] else [Go RunHealthChecks; Go RunWarmStandby]).

(** [main()] up to its last statement: a fatal end, or the balancer and the state in
    which the program goes on; and what was done. *)
Definition mainStart (f : flags) : (fatal + LoadBalancer C * life) * list act :=
  match LoadConfig readFile unmarshal (cfgPath f) with
  | Err e => (inl (FConfig e), [])
  | Panic w => (inl (FPanic w), [])
  | Ok c =>
      let lb := NewLoadBalancer (Upstreams c) (Healthcheck c) (Selection c) (Probe c) (Fwmark c) in
      let metrics := nonEmpty (metricsAddr f) in
      let disableProbes := DisableProbes c || noProbes f in
      let lb := if disableProbes then DisableBackgroundProbes now lb else lb in
      let acts := background f c in
      let socksAddr := Listen_SOCKS5 c in
      let socksEnabled := nonEmpty socksAddr in
      let tunEnabled := nonEmpty (Device (Tun c)) in
      if negb socksEnabled && negb tunEnabled then (inl FNothing, acts)
      else
        match (if tunEnabled && negb socksEnabled && negb (nonEmpty (NetNS (Tun c)))
               then interfaceByName (Device (Tun c)) else None) with
        | Some e => (inl (FTunOnly (Device (Tun c)) e), acts)
        | None =>
            match (if socksEnabled then listen socksAddr else None) with
            | Some e => (inl (FListen socksAddr e), acts)
            | None =>
                (inr (lb, Life false (if socksEnabled then Listening else NoListener)
                            (if socksEnabled then Accepting else Waiting)
                            (if tunEnabled then TunUp else TunOff) SigWait
                            (bg metrics) (bg (negb disableProbes)) (bg (negb disableProbes)) [] []),
                 acts ++ (if socksEnabled then [Listen socksAddr] else [])
                   ++ (if tunEnabled then [Go (RunTun (Tun c))] else []) ++ [Go OnSignal])
            end
        end
  end.

(** ** Steps of the program itself *)

Definition cancel (st : life) (t : tunPhase) (s : sigPhase) : life :=
  Life true (ln st) (main_ st) t s (metrics_ st) (health_ st) (warm_ st) (served st) (acceptErrs st).
Definition setTun (st : life) (t : tunPhase) : life :=
  Life (ctxDone st) (ln st) (main_ st) t (sig_ st) (metrics_ st) (health_ st) (warm_ st) (served st) (acceptErrs st).
Definition setMain (st : life) (m : mainPhase) : life :=
  Life (ctxDone st) (ln st) m (tun_ st) (sig_ st) (metrics_ st) (health_ st) (warm_ st) (served st) (acceptErrs st).
Definition setBg (st : life) (m h w : bgPhase) : life :=
  Life (ctxDone st) (ln st) (main_ st) (tun_ st) (sig_ st) m h w (served st) (acceptErrs st).
Definition closeListener (st : life) : life :=
  Life (ctxDone st) (match ln st with NoListener => NoListener | _ => Closed end) (main_ st) (tun_ st) SigDone
    (metrics_ st) (health_ st) (warm_ st) (served st) (acceptErrs st).
(** A failed [Accept]: the return, or a line in the log and the next round. *)
Definition acceptFailed (st : life) (e : gerror) : life :=
  if ctxDone st then setMain st Exited
  else Life (ctxDone st) (ln st) (main_ st) (tun_ st) (sig_ st) (metrics_ st) (health_ st) (warm_ st) (served st) (acceptErrs st ++ [e]).
(** A new connection, handled with the context of [main]. *)
Definition accepted (st : life) : life :=
  Life (ctxDone st) (ln st) (main_ st) (tun_ st) (sig_ st) (metrics_ st) (health_ st) (warm_ st) (served st ++ [ctxDone st]) (acceptErrs st).

(** The end of [main] is the end of every goroutine. *)
Inductive pstep : life -> life -> Prop :=
| P_cancel st : main_ st <> Exited -> sig_ st = SigGot -> pstep st (cancel st (tun_ st) SigCancelled)
| P_close st : main_ st <> Exited -> sig_ st = SigCancelled -> pstep st (closeListener st)
| P_tun_failed st e : main_ st <> Exited -> tun_ st = TunFailed e -> pstep st (cancel st TunDone (sig_ st))
| P_tun_done st : main_ st <> Exited -> tun_ st = TunUp -> ctxDone st = true -> pstep st (setTun st TunDone)
| P_ctx st : main_ st = Waiting -> ctxDone st = true -> pstep st (setMain st Exited)
| P_accept_closed st : main_ st = Accepting -> ln st = Closed -> pstep st (acceptFailed st net_ErrClosed)
| P_metrics st : main_ st <> Exited -> metrics_ st = BgUp -> ctxDone st = true -> pstep st (setBg st BgDone (health_ st) (warm_ st))
| P_health st : main_ st <> Exited -> health_ st = BgUp -> ctxDone st = true -> pstep st (setBg st (metrics_ st) BgDone (warm_ st))
| P_warm st : main_ st <> Exited -> warm_ st = BgUp -> ctxDone st = true -> pstep st (setBg st (metrics_ st) (health_ st) BgDone).

(** ** Steps of the world *)
Inductive wstep : life -> life -> Prop :=
| W_conn st : main_ st = Accepting -> ln st = Listening -> wstep st (accepted st)
| W_accept_err st e : main_ st = Accepting -> ln st = Listening -> wstep st (acceptFailed st e)
| W_signal st : main_ st <> Exited -> sig_ st = SigWait ->
    wstep st (Life (ctxDone st) (ln st) (main_ st) (tun_ st) SigGot (metrics_ st) (health_ st) (warm_ st) (served st) (acceptErrs st))
| W_tun st e : main_ st <> Exited -> tun_ st = TunUp ->
    wstep st (setTun st (TunFailed e))
| W_metrics st : main_ st <> Exited -> metrics_ st = BgUp -> wstep st (setBg st BgDone (health_ st) (warm_ st)).

Inductive lstep (st st' : life) : Prop :=
| L_program : pstep st st' -> lstep st st'
| L_world : wstep st st' -> lstep st st'.

(** The states of a program that was started. *)
Definition reachable (st : life) : Prop :=
  exists f lb st0 acts, mainStart f = (inr (lb, st0), acts) /\ rtc lstep st0 st.

(** ** Invariant *)

Record inv (st : life) : Prop := {
  i_closed : ln st = Closed -> sig_ st = SigDone;
  i_sig : sig_ st = SigCancelled \/ sig_ st = SigDone -> ctxDone st = true;
  i_sigdone : sig_ st = SigDone -> ln st <> Listening;
  i_exited : main_ st = Exited -> ctxDone st = true;
  i_waiting : main_ st = Waiting -> ln st = NoListener;
  i_accepting : main_ st = Accepting -> ln st <> NoListener;
  i_why : ctxDone st = true -> sig_ st = SigCancelled \/ sig_ st = SigDone \/ tun_ st = TunDone }.

Lemma life_start_inv f lb st acts : mainStart f = (inr (lb, st), acts) -> inv st.
Proof.
  unfold mainStart. destruct (LoadConfig _ _ _) as [c|e|w]; [|done..].
  generalize (bg (nonEmpty (metricsAddr f))) (bg (negb (DisableProbes c || noProbes f))) (nonEmpty (NetNS (Tun c))).
  intros b1 b2 ns. destruct (nonEmpty (Listen_SOCKS5 c)), (nonEmpty (Device (Tun c))); cbn [negb andb]; [..|done];
    repeat case_match; try done; intros H'; simplify_eq; split; cbn; try done; by intros [].
Qed.

Lemma inv_step st st' : inv st -> lstep st st' -> inv st'.
Proof.
  intros [I1 I2 I3 I4 I5 I6 I7] [Hs|Hs]; destruct Hs; unfold acceptFailed; try destruct (ctxDone st) eqn:Ed; split; cbn;
    try (intros; intuition congruence); destruct (ln st); intuition congruence.
Qed.

Lemma life_reachable_inv st : reachable st -> inv st.
Proof.
  intros (f & lb & st0 & acts & H0 & Hr). apply life_start_inv in H0. induction Hr as [|x y z Hs _ IH]; [done|].
  apply IH. by eapply inv_step.
Qed.

(** ** The program's own steps end *)

Definition bgRank (b : bgPhase) : nat := match b with BgUp => 1 | _ => 0 end.
Definition rank (st : life) : nat :=
  (match sig_ st with SigGot => 2 | SigCancelled => 1 | _ => 0 end
   + match tun_ st with TunUp | TunFailed _ => 1 | _ => 0 end
   + match main_ st with Exited => 0 | _ => 1 end
   + bgRank (metrics_ st) + bgRank (health_ st) + bgRank (warm_ st))%nat.

Lemma pstep_rank st st' : inv st -> pstep st st' -> (rank st' < rank st)%nat /\ acceptErrs st' = acceptErrs st.
Proof.
  intros Hi Hs. destruct Hs; unfold acceptFailed; try (rewrite (i_sig st Hi) by (right; by apply (i_closed st Hi))); split; try done;
    unfold rank; cbn; repeat match goal with H : _ _ = _ |- _ => rewrite H end; cbn; try lia.
  all: destruct (main_ st); try done; lia.
Qed.

Lemma pstep_sn st : inv st -> sn pstep st.
Proof.
  intros Hi. remember (rank st) as n eqn:E. revert st E Hi. induction (lt_wf n) as [n _ IH]. intros st -> Hi.
  constructor. intros st' Hs. pose proof (pstep_rank _ _ Hi Hs) as [Hl _].
  refine (IH _ Hl _ eq_refl _). eapply inv_step; [exact Hi|by apply L_program].
Qed.

Lemma psteps_inv st st' : inv st -> rtc pstep st st' -> inv st' /\ acceptErrs st' = acceptErrs st.
Proof.
  intros Hi Hr. induction Hr as [|x y z Hs _ IH]; [done|]. destruct IH as [Hz Ez]; [eapply inv_step; [done|by apply L_program]|].
  split; [done|]. rewrite Ez. by apply pstep_rank.
Qed.
End Main.

(** ** The pool at the start *)

Lemma pool_down {C} ups h se p fw now nowLog :
  PickTCP now nowLog (@NewLoadBalancer C ups h se p fw) = (Err (errMsg "no healthy upstreams"), NewLoadBalancer ups h se p fw, []).
Proof.
  unfold PickTCP, pickByEndpoint. cbn [current NewLoadBalancer].
  assert (Hb : pickBestCandidateByEndpoint true now (@NewLoadBalancer C ups h se p fw) = Err (errMsg "no healthy upstreams")).
  { pose proof (pickBest_spec true now (@NewLoadBalancer C ups h se p fw)) as H.
    destruct (pickBestCandidateByEndpoint _ _ _) as [[b rtt]|e|w]; [|destruct H; congruence|done].
    destruct H as (s & [Hs He] & _). cbn [pool NewLoadBalancer] in Hs. apply list_lookup_fmap_Some in Hs as (u & -> & _).
    apply eligible_spec in He as [He _]. done. }
  by rewrite Hb.
Qed.

Lemma pool_up {C} clock now i u ups h se p fw :
  0 <= now -> ups !! i = Some u -> usable now (DisableBackgroundProbes clock (@NewLoadBalancer C ups h se p fw)) i.
Proof.
  intros Hn Hu. eexists. cbn [pool DisableBackgroundProbes setPool NewLoadBalancer].
  rewrite list_lookup_imap, list_lookup_fmap, Hu. split; [done|]. split; [done|exact Hn].
Qed.

Lemma nonEmpty_spec s : s <> [] <-> nonEmpty s = true.
Proof. by destruct s. Qed.

Definition isProbe (a : act) : bool := match a with Go RunHealthChecks | Go RunWarmStandby => true | _ => false end.

Lemma background_probes f c tail : existsb isProbe tail = false ->
  (Go RunHealthChecks ∈ background f c ++ tail <-> DisableProbes c || noProbes f = false)
  /\ (Go RunWarmStandby ∈ background f c ++ tail <-> DisableProbes c || noProbes f = false).
Proof.
  intros Ht. assert (Hn : forall a, isProbe a = true -> a ∉ tail).
  { intros a Ha Hin%list_elem_of_In. rewrite <- not_true_iff_false, existsb_exists in Ht. destruct Ht. by exists a. }
  unfold background. rewrite !elem_of_app.
  pose proof (Hn (Go RunHealthChecks) eq_refl). pose proof (Hn (Go RunWarmStandby) eq_refl).
  destruct (nonEmpty (metricsAddr f)), (DisableProbes c || noProbes f); rewrite ?elem_of_cons, ?elem_of_nil; naive_solver.
Qed.

Lemma start_pool {C} (c : Config) (off : bool) clock lb :
  lb = (if off then DisableBackgroundProbes clock else id) (@NewLoadBalancer C (Upstreams c) (Healthcheck c) (Selection c) (Probe c) (Fwmark c)) ->
  cfg <$> pool lb = Upstreams c
  /\ (off = false -> forall now nowLog, (PickTCP now nowLog lb).1.1 = Err (errMsg "no healthy upstreams"))
  /\ (off = true -> forall now i, 0 <= now -> (i < length (Upstreams c))%nat -> usable now lb i).
Proof.
  intros ->. split; [|split].
  - apply list_eq. intros i. destruct off; cbn [id DisableBackgroundProbes setPool pool NewLoadBalancer];
      rewrite ?list_lookup_fmap, ?list_lookup_imap, ?list_lookup_fmap; by destruct (Upstreams c !! i).
  - intros -> now nowLog. cbn [id]. by rewrite pool_down.
  - intros -> now i Hn Hi. apply lookup_lt_is_Some in Hi as [u Hu]. by apply (pool_up _ _ _ u).
Qed.

(** Once a signal came, or without SOCKS5 once the context is done or the TUN device
    has failed, the program is about to end. *)
Definition ending (st : life) : Prop :=
  sig_ st <> SigWait \/ ln st = NoListener /\ (ctxDone st = true \/ exists e, tun_ st = TunFailed e).

Lemma ending_step st st' : pstep st st' -> ending st -> ending st'.
Proof.
  unfold ending. intros Hs. destruct Hs; unfold acceptFailed; try case_match; cbn; try naive_solver.
Qed.

Lemma ending_stops st : inv st -> ending st -> nf pstep st -> main_ st = Exited.
Proof.
  intros Hi He Hnf. destruct (main_ st) eqn:Em; [| |done]; destruct Hnf.
  - destruct (ctxDone st) eqn:Ec; [eexists; by apply P_ctx|].
    destruct He as [Hs|[_ [?|[e Ht]]]]; [|congruence|eexists; eapply P_tun_failed; [by rewrite Em|done]].
    destruct (sig_ st) eqn:Es; [done|eexists; apply P_cancel; congruence|eexists; apply P_close; congruence|].
    by rewrite (i_sig st Hi (or_intror Es)) in Ec.
  - destruct He as [Hs|[Hl _]]; [|by apply (i_accepting st Hi) in Em].
    destruct (sig_ st) eqn:Es; [done|eexists; apply P_cancel; congruence|eexists; apply P_close; congruence|].
    destruct (ln st) eqn:El; [by apply (i_accepting st Hi) in Em|by apply (i_sigdone st Hi) in El|eexists; by apply P_accept_closed].
Qed.

(** ** Properties *)


(** C24: shutdown completes. From any reachable state in which a signal has come (or,
    without SOCKS5, in which the context is done or the TUN device has failed) the
    program's own steps are finite whatever their order, and where they stop [main] has
    returned; the closing of the listener is not logged as an accept error. *)
Theorem shutdown_completes {C : Type} readFile unmarshal interfaceByName listen clock (st : life)
    (Hr : @reachable C readFile unmarshal interfaceByName listen clock st) (He : ending st) :
  sn pstep st
  /\ forall st', rtc pstep st st' -> acceptErrs st' = acceptErrs st /\ (nf pstep st' -> main_ st' = Exited).
Proof.
  apply life_reachable_inv in Hr. split; [by apply pstep_sn|]. intros st' Hs.
  destruct (psteps_inv _ _ Hr Hs) as [Hi Ha]. split; [done|]. apply ending_stops; [done|].
  clear Hi Ha Hr. induction Hs as [|x y z H _ IH]; [done|]. apply IH. by eapply ending_step.
Qed.

(** With SOCKS5 enabled a failure of the TUN device does not end the program: the
    context is done and the health checks stop, but the listener stays open and [main]
    stays in [Accept], whatever the program does; every connection accepted from then on
    is served with a context that is already done. *)
Theorem tun_failure_keeps_accepting {C : Type} readFile unmarshal interfaceByName listen clock (st st' : life)
    (Hr : @reachable C readFile unmarshal interfaceByName listen clock st) (Hm : main_ st = Accepting)
    (Hs : sig_ st = SigWait) (Hf : ctxDone st = true \/ exists e, tun_ st = TunFailed e)
    (Hrun : rtc pstep st st') (Hnf : nf pstep st') :
  main_ st' = Accepting /\ ln st' = Listening /\ ctxDone st' = true /\ tun_ st' = TunDone
  /\ health_ st' <> BgUp /\ warm_ st' <> BgUp /\ served (accepted st') = served st' ++ [true].
Proof.
  apply life_reachable_inv in Hr. destruct (psteps_inv _ _ Hr Hrun) as [Hi _].
  assert (H : (main_ st' = Accepting /\ sig_ st' = SigWait) /\ (ctxDone st' = true \/ exists e, tun_ st' = TunFailed e)).
  { clear Hnf Hi. induction Hrun as [|x y z H _ IH]; [done|].
    assert (Hi : inv y) by (eapply inv_step; [exact Hr|by apply L_program]).
    apply IH; [done|..]; destruct H; unfold acceptFailed; try case_match; cbn in *; try congruence; auto;
      try (pose proof (i_closed st Hr); intuition congruence); destruct Hf as [?|[??]]; try congruence; eauto. }
  destruct H as [[H1 H2] H3].
  assert (Hd : ctxDone st' = true).
  { destruct H3 as [?|[e H3]]; [done|]. destruct Hnf. eexists. eapply P_tun_failed; [by rewrite H1|done]. }
  assert (Hl : ln st' = Listening).
  { destruct (ln st') eqn:El; [by apply (i_accepting st' Hi) in H1|done|]. apply (i_closed st' Hi) in El. congruence. }
  split; [done|]. split; [done|]. split; [done|]. split; [destruct (i_why st' Hi Hd) as [?|[?|?]]; congruence|].
  assert (Hne : main_ st' <> Exited) by congruence.
  split; [intros Hh; apply Hnf; eexists; by apply P_health|]. split; [intros Hh; apply Hnf; eexists; by apply P_warm|].
  cbn [served accepted]. by rewrite Hd.
Qed.

(** ** Witnesses *)

Definition fileDemo : bytes -> res bytes := fun _ => Ok [].
Definition configDemo (socks dev : string) : Config := {|
  Listen_SOCKS5 := str2b socks;
  Tun := {| Device := str2b dev; MTU := 0; NetNS := []; Tun_Debug := false; UDPMaxFlows := 0; UDPIdleTimeout := 0;
            UDPGCInterval := 0; UDPFlowIdleTimeout := 0; UDPMaxDstPerPort := 0 |};
  WebSocket_Debug := false;
  Healthcheck := {| Interval := 0; Timeout := 0; FailThreshold := 0; SuccessThreshold := 0; MinInterval := 0; MaxInterval := 0;
                    Jitter := 0; BackoffFactor := f64_of_int 0; RTTScale := f64_of_int 0 |};
  Selection := {| StickyTTL := 0; Cooldown := 0; MinSwitch := 0; WarmStandbyN := 0; WarmStandbyInterval := 0;
                  StandbyKeepalive := false; StandbyKeepaliveInterval := 0; StandbyKeepaliveProbeTimeout := 0 |};
  Upstreams := [{| Name := str2b "a"; Weight := f64_of_int 1; TCPWSS := str2b "wss://a/tcp"; UDPWSS := []; Cipher := []; Secret := [] |}];
  Probe := {| EnableTCP := false; EnableUDP := false; Probe_Timeout := 0; TCPTarget := []; UDPTarget := []; DNSName := []; DNSType := [] |};
  DisableProbes := false; Fwmark := 0 |}.
Definition flagsDemo (np : bool) : flags := Flags (str2b "config.yaml") [] np.


Definition interfacesDemo : bytes -> option gerror := fun _ => None.
Definition reachableDemo (dev : string) : life -> Prop :=
  reachable (C := unit) fileDemo (fun _ => Ok (configDemo "127.0.0.1:1080" dev)) interfacesDemo interfacesDemo (fun _ => 1).

Definition startedDemo (t : tunPhase) (s : sigPhase) : life := Life false Listening Accepting t s BgOff BgOff BgOff [] [].

Lemma started_reachable dev t st : rtc lstep (startedDemo t SigWait) st ->
  t = (if nonEmpty (str2b dev) then TunUp else TunOff) -> reachableDemo dev st.
Proof.
  intros Hr ->. exists (flagsDemo true). unfold mainStart. cbn -[str2b nonEmpty NewLoadBalancer DisableBackgroundProbes].
  change (nonEmpty (str2b "127.0.0.1:1080")) with true.
  revert Hr. destruct (nonEmpty (str2b dev)); intros Hr; do 3 eexists; (split; [reflexivity|exact Hr]).
Qed.

Lemma shutdown_completes_witness : sn pstep (startedDemo TunOff SigGot).
Proof.
  refine (proj1 (shutdown_completes _ _ _ _ _ _ (started_reachable "" TunOff _ _ eq_refl) _)).
  - eapply rtc_l; [|apply rtc_refl]. apply L_world, (W_signal (startedDemo TunOff SigWait)); [discriminate|reflexivity].
  - left. discriminate.
Defined.

Definition tunDownDemo : life := Life true Listening Accepting TunDone SigWait BgOff BgOff BgOff [] [].

Lemma tun_failure_keeps_accepting_witness : served (accepted tunDownDemo) = [true].
Proof.
  refine (proj2 (proj2 (proj2 (proj2 (proj2 (proj2 (tun_failure_keeps_accepting _ _ _ _ _ (startedDemo (TunFailed io_EOF) SigWait) tunDownDemo
    (started_reachable "tun0" TunUp _ _ eq_refl) eq_refl eq_refl (or_intror (ex_intro _ io_EOF eq_refl)) _ _))))))).
  - eapply rtc_l; [|apply rtc_refl]. apply L_world, (W_tun (startedDemo TunUp SigWait)); [discriminate|reflexivity].
  - eapply rtc_l; [|apply rtc_refl]. apply (P_tun_failed (startedDemo (TunFailed io_EOF) SigWait) io_EOF); [discriminate|reflexivity].
  - intros [st' H]. inversion H; discriminate.
Defined.
