(* ===== verification/UDPSetup.v ===== *)
(** * Setting up UDP relays

    [NewUDPAssociation] and [UDPAssociation.Close] (src/internal/outline_udp.go),
    [NewOutlineUDPSession] and the closing of its connection
    (src/internal/outline_udp_session.go) over the balancer, with what they hold:
    contexts, sockets and websockets have identities, so that what is open can be
    compared before and after. *)

From S2P Require Import Prelude GoNum GoNet Config Metrics HealthCheck LoadBalancer WSFrame WSConn GoURL Transport Standby UDPSession PortTable Relay Socks5.

(** ** The system with what is open in it *)

(** What is open: websockets, contexts that were not cancelled, relay sockets; identities
    are given out in order. [s_left] counts the connections of a transport that dials have
    left open without returning them, [s_w] is the rest of the world. *)
Record sys {W : Type} := Sys { s_w : W; s_next : nat; s_ws : gset nat; s_ctx : gset nat; s_uc : gset nat; s_left : nat }.
Arguments sys W : clear implicits.
Arguments Sys {W} _ _ _ _ _ _.

(** What a dial leaves open besides the connection it returns: a dial over HTTP/3 leaves its
    QUIC endpoint, with a UDP socket, for every profile that fails after the QUIC handshake
    (H3.h3_failed_dial_leaks); over HTTP/2 and HTTP/1.1 it is up to the HTTP library. *)
Inductive dialKind := ByH3 | ByH2 | ByH1.
Class DialLeaves (W : Type) := dialLeaves : dialKind -> URL -> W -> nat.

(** A websocket with its identity. *)
Abbreviation conn C := (nat * C)%type.

Section Setup.
Context {C W : Type} `{!WSConn C} `{!Dialers C W} `{!DialLeaves W}.
Implicit Types (s : sys W).

#[export] Instance connWS : WSConn (conn C) := {
  ws_read := fun c => let '(r, c') := ws_read (snd c) in (r, (fst c, c'));
  ws_write := fun t b c => let '(r, c') := ws_write t b (snd c) in (r, (fst c, c'));
  ws_close := fun code reason c => let '(r, c') := ws_close code reason (snd c) in (r, (fst c, c')) }.

(** A dial of the world that leaves [k] connections. *)
Definition dialOpen (k : nat) (rw : res C * W) s : res (conn C) * sys W :=
  match rw with
  | (Ok c, w) => (Ok (s_next s, c), Sys w (S (s_next s)) ({[s_next s]} ∪ s_ws s) (s_ctx s) (s_uc s) (s_left s + k))
  | (Err e, w) => (Err e, Sys w (s_next s) (s_ws s) (s_ctx s) (s_uc s) (s_left s + k))
  | (Panic x, w) => (Panic x, Sys w (s_next s) (s_ws s) (s_ctx s) (s_uc s) (s_left s + k))
  end.

(** The dials of the world, each success with a new identity. *)
#[export] Instance sysDialers : Dialers (conn C) (sys W) := {
  dialRFC9220 := fun u s => dialOpen (dialLeaves ByH3 u (s_w s)) (dialRFC9220 u (s_w s)) s;
  dialRFC8441 := fun u s => dialOpen (dialLeaves ByH2 u (s_w s)) (dialRFC8441 u (s_w s)) s;
  dialCoderWebSocket := fun u s => dialOpen (dialLeaves ByH1 u (s_w s)) (dialCoderWebSocket u (s_w s)) s;
  clock := fun s => let '(t, w) := clock (s_w s) in (t, Sys w (s_next s) (s_ws s) (s_ctx s) (s_uc s) (s_left s)) }.

(** Operations on the system that can fail. *)
Definition SM (A : Type) : Type := sys W -> res A * sys W.
#[local] Instance sm_ret : MRet SM := fun A a s => (Ok a, s).
#[local] Instance sm_bind : MBind SM := fun A B f m s =>
  match m s with (Ok a, s) => f a s | (Err e, s) => (Err e, s) | (Panic x, s) => (Panic x, s) end.

(** [if err != nil { cleanup; return err }]. *)
Definition orElse {A} (m : SM A) (cleanup : SM unit) : SM A := fun s =>
  match m s with
  | (Err e, s) => match cleanup s with (Panic x, s) => (Panic x, s) | (_, s) => (Err e, s) end
  | r => r
  end.

(** [context.WithCancel(parent)] and its [cancel()]. *)
Definition WithCancel : SM nat := fun s =>
  (Ok (s_next s), Sys (s_w s) (S (s_next s)) (s_ws s) ({[s_next s]} ∪ s_ctx s) (s_uc s) (s_left s)).
Definition cancel (k : nat) : SM unit := fun s =>
  (Ok tt, Sys (s_w s) (s_next s) (s_ws s) (s_ctx s ∖ {[k]}) (s_uc s) (s_left s)).

(** [net.ListenPacket("udp", ":0")], which gives the address or an error, and [uc.Close()]. *)
Definition ListenPacket (listen : res bytes) : SM (nat * bytes) := fun s =>
  match listen with
  | Ok addr => (Ok (s_next s, addr), Sys (s_w s) (S (s_next s)) (s_ws s) (s_ctx s) ({[s_next s]} ∪ s_uc s) (s_left s))
  | Err e => (Err e, s)
  | Panic x => (Panic x, s)
  end.
Definition closeUC (k : nat) : SM unit := fun s =>
  (Ok tt, Sys (s_w s) (s_next s) (s_ws s) (s_ctx s) (s_uc s ∖ {[k]}) (s_left s)).

(** [_ = wsc.Close(WSStatusNormalClosure, reason)]. *)
Definition closeWS (reason : string) (c : conn C) : SM unit := fun s =>
  (match fst (ws_close WSStatusNormalClosure reason c) with Panic x => Panic x | _ => Ok tt end,
   Sys (s_w s) (s_next s) (s_ws s ∖ {[fst c]}) (s_ctx s) (s_uc s) (s_left s)).

Definition dialWS (url : bytes) : SM (conn C) := fun s => let '(r, s', _) := DialWSStream url s in (r, s').

(** [core.PickCipher(cipher, nil, secret)]: its error. *)
Context (PickCipher : bytes -> bytes -> option gerror).
Definition pickCipher (up : UpstreamConfig) : SM unit := fun s =>
  (match PickCipher (Cipher up) (Secret up) with Some e => Err e | None => Ok tt end, s).

(** ** [UDPAssociation] *)

(** The encrypted connection passes [Close] on to the packet connection below it. *)
Record association := Association { a_ctx : nat; a_uc : nat * bytes; a_wsc : conn C; a_enc : WSPacketConn (conn C) }.

(** [NewUDPAssociation(parent, up, fwmark)]. *)
Definition NewUDPAssociation (listen : res bytes) (up : UpstreamConfig) : SM association :=
  ctx ← WithCancel;
  uc ← orElse (ListenPacket listen) (cancel ctx);
  wsc ← orElse (dialWS (UDPWSS up)) (closeUC (fst uc);; cancel ctx);
  _ ← orElse (pickCipher up) (closeWS "close" wsc;; closeUC (fst uc);; cancel ctx);
  mret (Association ctx uc wsc (NewWSPacketConn wsc (Name up) (str2b "udp"))).

(** [LocalAddr().String()]. *)
Definition LocalAddr (a : association) : bytes := snd (a_uc a).

(** [UDPAssociation.Close()]. *)
Definition CloseAssociation (a : association) : SM unit :=
  cancel (a_ctx a);; closeUC (fst (a_uc a));; closeWS "close" (pc (a_enc a));; closeWS "" (a_wsc a).

(** The set-up and the deferred close as [handleUDPAssociate] uses them. *)
Definition associate (listen : res bytes) (up : UpstreamConfig) s : res (bytes * (sys W -> sys W)) * sys W :=
  match NewUDPAssociation listen up s with
  | (Ok a, s) => (Ok (LocalAddr a, fun s => snd (CloseAssociation a s)), s)
  | (Err e, s) => (Err e, s)
  | (Panic x, s) => (Panic x, s)
  end.

(** ** [OutlineUDPSession] *)

Record session := USession { u_ctx : nat; u_wsc : conn C; u_enc : WSPacketConn (conn C); u_sess : OutlineUDPSession }.

(** [NewOutlineUDPSession(parent, lb, up)]; [ctxErr] is for a wait for a dial slot that
    ends with the context. *)
Definition NewUDPSession (ctxErr : gerror) (i : nat) (lb : LoadBalancer (conn C)) s : res session * LoadBalancer (conn C) * sys W :=
  match WithCancel s with
  | (Ok ctx, s) =>
      match AcquireUDPWS ctxErr i lb s with
      | (Err e, lb, s, _) => (Err e, lb, snd (cancel ctx s))
      | (Panic x, lb, s, _) => (Panic x, lb, s)
      | (Ok wsc, lb, s, _) =>
          match pool lb !! i with
          | None => (Panic "nil pointer dereference", lb, s)
          | Some up =>
              match orElse (pickCipher (cfg up)) (closeWS "close" wsc;; cancel ctx) s with
              | (Ok _, s) => (Ok (USession ctx wsc (NewWSPacketConn wsc (Name (cfg up)) (str2b "udp")) NewOutlineUDPSession), lb, s)
              | (Err e, s) => (Err e, lb, s)
              | (Panic x, s) => (Panic x, lb, s)
              end
          end
      end
  | (Err e, s) => (Err e, lb, s)
  | (Panic x, s) => (Panic x, lb, s)
  end.

(** [OutlineUDPSession.Close()] up to the channels, which are [UDPSession.Close]. *)
Definition CloseUDPSession (u : session) : SM unit :=
  cancel (u_ctx u);; closeWS "close" (pc (u_enc u));; closeWS "close" (u_wsc u).

(** The set-up as [getOrCreate] uses it. *)
Definition dialSession (ctxErr : gerror) (i : nat) (lb : LoadBalancer (conn C)) s : res unit * LoadBalancer (conn C) * sys W :=
  let '(r, lb, s) := NewUDPSession ctxErr i lb s in (_ ← r; Ok tt, lb, s).
End Setup.
Arguments association C : clear implicits.
Arguments session C : clear implicits.

(** ** Lemmas *)

Section Facts.
Context {C W : Type} `{!WSConn C} `{!Dialers C W} `{!DialLeaves W} (PickCipher : bytes -> bytes -> option gerror).
Implicit Types (s : sys W) (lb : LoadBalancer (conn C)).

(** What is open. *)
Definition held s : gset nat * gset nat * gset nat := (s_ws s, s_ctx s, s_uc s).

(** Identities are fresh. *)
Definition sysOK s : Prop := forall k, (s_next s <= k)%nat -> k ∉ s_ws s /\ k ∉ s_ctx s /\ k ∉ s_uc s.

(** What some dials leave together. *)
Inductive leftBy : nat -> Prop :=
| leftBy_0 : leftBy 0
| leftBy_dial k u (w : W) l : leftBy l -> leftBy (dialLeaves k u w + l).
Lemma leftBy_one k u w : leftBy (dialLeaves k u w).
Proof. rewrite <- (Nat.add_0_r (dialLeaves _ _ _)). apply leftBy_dial, leftBy_0. Qed.
Lemma leftBy_add a b : leftBy a -> leftBy b -> leftBy (a + b).
Proof. intros Ha Hb. induction Ha as [|k u w l _ IH]; [done|]. rewrite <- Nat.add_assoc. by apply leftBy_dial. Qed.
Lemma leftBy_none l : (forall k u w, dialLeaves k u w = 0%nat) -> leftBy l -> l = 0%nat.
Proof. intros H. induction 1 as [|k u w l _ IH]; [done|]. by rewrite H, IH. Qed.
(** Nothing but what dials leave is added. *)
Definition leaves s s' : Prop := exists l, leftBy l /\ s_left s' = (s_left s + l)%nat.
Lemma leaves_refl s s' : s_left s' = s_left s -> leaves s s'.
Proof. intros E. exists 0%nat. split; [constructor|lia]. Qed.
Lemma leaves_trans s1 s2 s3 : leaves s1 s2 -> leaves s2 s3 -> leaves s1 s3.
Proof. intros (a & Ha & Ea) (b & Hb & Eb). exists (a + b)%nat. split; [by apply leftBy_add|]. rewrite Eb, Ea. lia. Qed.
Lemma leaves_same s s1 s2 : leaves s s1 -> s_left s2 = s_left s1 -> leaves s s2.
Proof. intros H E. unfold leaves. by rewrite E. Qed.

(** A step that opens at most the websocket [c]. *)
Definition opens (o : option nat) s s' : Prop :=
  leaves s s' /\ sysOK s' /\ (s_next s <= s_next s')%nat /\ s_ctx s' = s_ctx s /\ s_uc s' = s_uc s
  /\ match o with
     | Some k => k ∉ s_ws s /\ s_next s = k /\ s_next s' = S k /\ s_ws s' = {[k]} ∪ s_ws s
     | None => s_ws s' = s_ws s
     end.
Definition connId (r : res (conn C)) : option nat := match r with Ok c => Some (fst c) | _ => None end.

Lemma opens_refl s : sysOK s -> opens None s s.
Proof. intros H. split; [by apply leaves_refl|done]. Qed.

Lemma opens_trans o s1 s2 s3 : opens None s1 s2 -> s_next s2 = s_next s1 -> opens o s2 s3 -> opens o s1 s3.
Proof.
  intros (L1 & _ & _ & E1 & E2 & E3) En (L2 & Ok3 & Hn & F1 & F2 & F3). split; [by eapply leaves_trans|]. split; [done|]. split; [lia|]. rewrite F1, F2, E1, E2.
  split; [done|]. split; [done|]. destruct o; [|congruence]. rewrite <- En, <- E3. done.
Qed.

(** The dials of the world. *)
Lemma dialOpen_opens k u w0 rw s r s' : sysOK s -> dialOpen (C := C) (dialLeaves k u w0) rw s = (r, s') ->
  opens (connId r) s s' /\ (connId r = None -> s_next s' = s_next s).
Proof.
  intros Hs. assert (HL : forall n X, leaves s (Sys (snd rw) n X (s_ctx s) (s_uc s) (s_left s + dialLeaves k u w0)))
    by (intros; eexists; split; [apply leftBy_one|done]).
  destruct rw as [[c|e|x] w]; cbn; intros [= <- <-]; (split; [|done]); (split; [apply HL|]); cbn; [|done..].
  destruct (Hs (s_next s)) as [Hf _]; [lia|]. split; [|repeat split; auto; lia].
  intros j Hk. cbn in *. destruct (Hs j) as [H1 H2]; [lia|]. split; [|done]. rewrite elem_of_union, elem_of_singleton. intros [->|?]; [lia|done].
Qed.

Lemma clock_opens s t s' : sysOK s -> clock (Dialers := sysDialers) s = (t, s') -> opens None s s' /\ s_next s' = s_next s.
Proof. intros Hs. cbn. destruct (clock (s_w s)). intros [= <- <-]. split; [|done]. split; [by apply leaves_refl|done]. Qed.

Lemma dialed_opens upstream proto start c s0 s r s' evs : opens (Some (fst c)) s0 s ->
  dialed (Dialers0 := sysDialers) upstream proto start c s = (r, s', evs) -> r = Ok c /\ opens (connId r) s0 s'.
Proof.
  intros Ho. unfold dialed. destruct (clock s) as [t s1] eqn:Ec. intros [= <- <- <-]. split; [done|]. cbn in Ec.
  destruct (clock (s_w s)). injection Ec as <- <-. exact Ho.
Qed.

(** [DialWSStream] opens the connection it returns, and nothing when it fails. *)
Lemma dialH1_opens h upstream proto start uDial s r s' evs : sysOK s ->
  dialH1 (Dialers0 := sysDialers) h upstream proto start uDial s = (r, s', evs) -> opens (connId r) s s'.
Proof.
  intros Hs. unfold dialH1. destruct (connectOnly h); [intros [= <- <- <-]; by apply opens_refl|]. cbn [dialCoderWebSocket sysDialers].
  destruct (dialOpen _ _ s) as [q s2] eqn:E; apply dialOpen_opens in E as [Ho _]; [|done].
  destruct q as [c|e|x]; [|by intros [= <- <- <-]..]. intros H. by eapply dialed_opens in H as [_ H].
Qed.

Lemma dialH2_opens h t upstream proto start u uDial s r s' evs : sysOK s ->
  dialH2 (Dialers0 := sysDialers) h t upstream proto start u uDial s = (r, s', evs) -> opens (connId r) s s'.
Proof.
  intros Hs. unfold dialH2. cbn [dialRFC8441 sysDialers]. pose proof (opens_refl s Hs) as Hr.
  destruct (dialOpen (dialLeaves ByH2 uDial (s_w s)) (dialRFC8441 uDial (s_w s)) s) as [q s2] eqn:E; apply dialOpen_opens in E as [Ho Hn]; [|done].
  destruct (h2Only h); [destruct (negb _); [by intros [= <- <- <-]|]|destruct (t && _); [|by apply dialH1_opens]];
    (destruct q as [c|e|x]; [intros H; by eapply dialed_opens in H as [_ H]| |by intros [= <- <- <-]]).
  - by intros [= <- <- <-].
  - destruct (negb _); [by intros [= <- <- <-]|]. intros H. apply dialH1_opens in H; [|by destruct Ho as [_ [? _]]].
    eapply opens_trans; [exact Ho|by apply Hn|exact H].
Qed.

Lemma dial_opens url s r s' evs : sysOK s -> DialWSStream (Dialers0 := sysDialers) url s = (r, s', evs) -> opens (connId r) s s'.
Proof.
  intros Hs. unfold DialWSStream. destruct (clock s) as [start s0] eqn:Ec. apply clock_opens in Ec as [Hc En]; [|done].
  intros H. eapply opens_trans; [exact Hc|exact En|]. destruct Hc as [_ [Hs0 _]]. revert H. clear Hs s En.
  destruct (Parse url) as [u|e|x]; [|intros [= <- <- <-]; by apply opens_refl..]. destruct (upstreamFromURL (Some u)) as [up pr].
  cbv zeta. cbn [dialRFC9220 sysDialers]. destruct (tryH3 _ && _).
  - destruct (dialOpen _ _ s0) as [q s2] eqn:E; apply dialOpen_opens in E as [Ho Hn]; [|done].
    destruct q as [c|e|x]; [intros H; by eapply dialed_opens in H as [_ H]| |by intros [= <- <- <-]].
    destruct (h3Only _); [by intros [= <- <- <-]|]. intros H. apply dialH2_opens in H; [|by destruct Ho as [_ [? _]]].
    eapply opens_trans; [exact Ho|by apply Hn|exact H].
  - destruct (h3Only _); [intros [= <- <- <-]; by apply opens_refl|]. by apply dialH2_opens.
Qed.

(** Closing a websocket does not panic. *)
Definition closeSafe : Prop := forall code reason (c : C) x, fst (ws_close code reason c) <> Panic x.

Lemma closeWS_ok reason c s : closeSafe ->
  closeWS reason c s = (Ok tt, Sys (s_w s) (s_next s) (s_ws s ∖ {[fst c]}) (s_ctx s) (s_uc s) (s_left s)).
Proof.
  intros Hc. unfold closeWS. cbn. destruct (ws_close _ _ (snd c)) as [[u|e|x] c'] eqn:E; [done|done|].
  exfalso. apply (Hc WSStatusNormalClosure reason (snd c) x). by rewrite E.
Qed.

Lemma add_remove (k : nat) (X : gset nat) : k ∉ X -> ({[k]} ∪ X) ∖ {[k]} = X.
Proof. set_solver. Qed.

Definition associated s s' (a : association C) : Prop :=
  s_ws s' = {[fst (a_wsc a)]} ∪ s_ws s /\ s_ctx s' = {[a_ctx a]} ∪ s_ctx s /\ s_uc s' = {[fst (a_uc a)]} ∪ s_uc s
  /\ fst (a_wsc a) ∉ s_ws s /\ a_ctx a ∉ s_ctx s /\ fst (a_uc a) ∉ s_uc s /\ pc (a_enc a) = a_wsc a /\ leaves s s'.

Lemma association_spec listen up s r s' : sysOK s -> closeSafe ->
  NewUDPAssociation PickCipher listen up s = (r, s') ->
  match r with
  | Ok a => listen = Ok (LocalAddr a) /\ PickCipher (Cipher up) (Secret up) = None /\ associated s s' a
  | Err _ => held s' = held s /\ leaves s s'
  | Panic x => listen = Panic x \/ exists s1, fst (fst (DialWSStream (Dialers0 := sysDialers) (UDPWSS up) s1)) = Panic x
  end.
Proof.
  intros Hs Hc. destruct (Hs (s_next s)) as (Fw & Fc & Fu); [lia|]. destruct (Hs (S (s_next s))) as (Fw' & Fc' & Fu'); [lia|].
  unfold NewUDPAssociation, mbind, sm_bind, WithCancel, orElse at 1, ListenPacket.
  destruct listen as [addr|e|x]; cbn [cancel s_ws s_ctx s_uc s_next s_w];
    [|intros [= <- <-]; unfold held; cbn; rewrite add_remove by done; split; [done|by apply leaves_refl]|intros [= <- <-]; by left].
  unfold orElse at 1, dialWS. match goal with |- context [DialWSStream _ ?x] => set (s1 := x) end.
  assert (Hs1 : sysOK s1).
  { intros k Hk. cbn in *. destruct (Hs k) as (H1 & H2 & H3); [lia|]. split; [done|]. split; intros [->%elem_of_singleton|?]%elem_of_union; done || lia. }
  destruct (DialWSStream _ s1) as [[q s2] evs] eqn:Ed. pose proof (dial_opens _ _ _ _ _ Hs1 Ed) as (HL & _ & _ & Ec & Eu & Ew).
  assert (HL' : leaves s s2) by (eapply leaves_trans; [by apply (leaves_refl s s1)|done]).
  destruct q as [wsc|e|x]; cbn [connId] in Ew.
  - destruct Ew as (Fk & Ek & _ & Ew). unfold orElse, pickCipher. destruct (PickCipher _ _) as [e|].
    + rewrite closeWS_ok by done. cbn. intros [= <- <-]. unfold held. cbn. rewrite Ew, Ec, Eu. cbn. rewrite !add_remove by done.
      split; [done|by eapply leaves_same].
    + cbn. intros [= <- <-]. split; [done|]. split; [done|]. unfold associated. cbn. rewrite Ew, Ec, Eu. done.
  - cbn. intros [= <- <-]. unfold held. cbn. rewrite Ew, Ec, Eu. cbn. rewrite !add_remove by done. split; [done|by eapply leaves_same].
  - intros [= <- <-]. right. exists s1. by rewrite Ed.
Qed.

Lemma closeAssociation_held s s' a : closeSafe -> associated s s' a ->
  fst (CloseAssociation a s') = Ok tt /\ held (snd (CloseAssociation a s')) = held s /\ leaves s (snd (CloseAssociation a s')).
Proof.
  intros Hc (E1 & E2 & E3 & F1 & F2 & F3 & E4 & HL). unfold CloseAssociation, mbind, sm_bind. cbn [cancel closeUC].
  rewrite closeWS_ok by done. cbn [s_ws s_ctx s_uc s_next s_w]. rewrite closeWS_ok by done. split; [done|]. unfold held. cbn.
  rewrite E1, E2, E3, E4, !add_remove by done. split; [f_equal; f_equal; set_solver|by eapply leaves_same].
Qed.

(** The identities of the standby connections. *)
Definition slotIds lb : gset nat :=
  list_to_set (pool lb ≫= fun st => fst <$> option_list (standbyTCP st) ++ option_list (standbyUDP st)).

Lemma elem_of_option_list {A} (x : A) o : x ∈ option_list o <-> o = Some x.
Proof. destruct o; cbn; rewrite ?elem_of_cons, elem_of_nil; naive_solver. Qed.

Lemma slotIds_elem lb k :
  k ∈ slotIds lb <-> exists i st b c, pool lb !! i = Some st /\ slot b st = Some c /\ fst c = k.
Proof.
  unfold slotIds. rewrite elem_of_list_to_set, list_elem_of_bind. split.
  - intros (st & Hk & [i Hi]%list_elem_of_lookup). rewrite list_elem_of_fmap in Hk. destruct Hk as (c & -> & Hk).
    rewrite elem_of_app in Hk. destruct Hk as [Hk|Hk]; apply elem_of_option_list in Hk; [exists i, st, true, c|exists i, st, false, c]; done.
  - intros (i & st & b & c & Hi & Hs & <-). exists st. split; [|by eapply list_elem_of_lookup_2]. apply list_elem_of_fmap.
    exists c. split; [done|]. rewrite elem_of_app, !elem_of_option_list. destruct b; auto.
Qed.

Lemma slotIds_take b i lb o lb' : takeStandby b i lb = (o, lb') ->
  slotIds lb = slotIds lb' ∪ list_to_set (fst <$> option_list o) /\ dialSem lb' = dialSem lb.
Proof.
  intros [= <- <-]. split; [|done]. apply set_eq. intros k. rewrite elem_of_union, !slotIds_elem. cbn [pool setPool].
  rewrite elem_of_list_to_set, list_elem_of_fmap. setoid_rewrite elem_of_option_list. split.
  - intros (j & st & b' & c & Hj & Hs & <-). destruct (decide (j = i)) as [->|Hne].
    + destruct (decide (b' = b)) as [->|Hb]; [right; exists c; split; [done|]; by rewrite Hj|left].
      exists i, (setSlot b None st), b', c. rewrite list_lookup_alter_eq, Hj. by destruct b, b'.
    + left. exists j, st, b', c. by rewrite list_lookup_alter_ne.
  - intros [(j & st & b' & c & Hj & Hs & <-)|(c & -> & Hs)].
    + destruct (decide (j = i)) as [->|Hne]; [|rewrite list_lookup_alter_ne in Hj by done; by exists j, st, b', c].
      rewrite list_lookup_alter_eq in Hj. apply fmap_Some in Hj as (st0 & Hj & ->). exists i, st0, b', c. by destruct b, b'.
    + destruct (pool lb !! i) as [st|] eqn:Hi; [|done]. by exists i, st, b, c.
Qed.

Lemma slotIds_pool lb lb' : pool lb' = pool lb -> slotIds lb' = slotIds lb.
Proof. unfold slotIds. by intros ->. Qed.

(** What is open outside the standby slots. *)
Definition used lb s : gset nat := s_ws s ∖ slotIds lb.

(** A connection from the standby slot or a fresh one: nobody else uses it. *)
Definition acquired lb s lb' s' (o : option nat) : Prop :=
  leaves s s' /\ sysOK s' /\ s_ctx s' = s_ctx s /\ s_uc s' = s_uc s /\ (0 <= dialSem lb -> dialSem lb' = dialSem lb)
  /\ match o with Some k => s_ws s' ∖ {[k]} ∖ slotIds lb' = used lb s | None => used lb' s' = used lb s end.

Lemma limited_acquired ctxErr url lb s r lb' s' evs : sysOK s ->
  DialWSStreamLimited (Dialers0 := sysDialers) ctxErr url lb s = (r, lb', s', evs) -> acquired lb s lb' s' (connId r).
Proof.
  intros Hs. unfold DialWSStreamLimited, acquireDialSlot. destruct (dialSem lb <? dialLimit); [|intros [= <- <- <- <-]; split; [by apply leaves_refl|done]].
  destruct (DialWSStream url s) as [[q s2] ev2] eqn:E. intros [= <- <- <- <-]. apply dial_opens in E as (HL & Ok2 & Hn & Ec & Eu & Ew); [|done].
  split; [done|]. split; [done|]. split; [done|]. split; [done|]. split; [cbn; lia|]. unfold used.
  rewrite (slotIds_pool lb) by done. destruct (connId q) as [k|]; [|by rewrite Ew]. destruct Ew as (Fk & _ & _ & ->). by rewrite add_remove.
Qed.

Lemma acquireUDP_acquired ctxErr i lb s r lb' s' evs : sysOK s ->
  AcquireUDPWS (Dialers0 := sysDialers) ctxErr i lb s = (r, lb', s', evs) -> acquired lb s lb' s' (connId r).
Proof.
  intros Hs. unfold AcquireUDPWS. destruct (takeStandby false i lb) as [o lb1] eqn:Et. apply slotIds_take in Et as [Es Ed].
  destruct o as [c|]; cbn in Es.
  - intros [= <- <- <- <-]. split; [by apply leaves_refl|]. split; [done|]. split; [done|]. split; [done|]. split; [by intros|]. unfold used. rewrite Es. cbn [connId].
    rewrite difference_difference_l_L. f_equal. set_solver.
  - assert (Es' : slotIds lb = slotIds lb1) by set_solver. clear Es. rename Es' into Es. intros H. apply limited_acquired in H as (H0 & H1 & H2 & H3 & H4 & H5); [|done].
    split; [done|]. split; [done|]. split; [done|]. split; [done|]. rewrite <- Ed. split; [done|]. unfold used in *. by rewrite Es.
Qed.

Lemma session_spec ctxErr i lb s r lb' s' : sysOK s -> closeSafe ->
  NewUDPSession PickCipher ctxErr i lb s = (r, lb', s') ->
  match r with
  | Ok u => s_ctx s' = {[u_ctx u]} ∪ s_ctx s /\ u_ctx u ∉ s_ctx s /\ s_uc s' = s_uc s /\ pc (u_enc u) = u_wsc u
            /\ s_ws s' ∖ {[fst (u_wsc u)]} ∖ slotIds lb' = used lb s /\ leaves s s'
  | Err _ => s_ctx s' = s_ctx s /\ s_uc s' = s_uc s /\ used lb' s' = used lb s /\ leaves s s'
  | Panic x => pool lb' !! i = None \/ exists s1 lb1, fst (fst (fst (AcquireUDPWS (Dialers0 := sysDialers) ctxErr i lb1 s1))) = Panic x
  end /\ (0 <= dialSem lb -> dialSem lb' = dialSem lb).
Proof.
  intros Hs Hc. destruct (Hs (s_next s)) as (_ & Fc & _); [lia|]. unfold NewUDPSession, WithCancel.
  match goal with |- context [AcquireUDPWS _ _ _ ?x] => set (s1 := x) end.
  assert (Hs1 : sysOK s1).
  { intros k Hk. cbn in *. destruct (Hs k) as (H1 & H2 & H3); [lia|]. split; [done|]. split; [|done]. intros [->%elem_of_singleton|?]%elem_of_union; done || lia. }
  destruct (AcquireUDPWS ctxErr i lb s1) as [[[q lb1] s2] evs] eqn:Ea. pose proof Ea as Ha. apply acquireUDP_acquired in Ha as (HL & _ & Ec & Eu & Ed & Ew); [|done].
  assert (HL' : leaves s s2) by (eapply leaves_trans; [by apply (leaves_refl s s1)|done]).
  destruct q as [wsc|e|x]; cbn [connId] in Ew.
  - destruct (pool lb1 !! i) as [up|] eqn:Hi; [|intros [= <- <- <-]; split; [by left|done]].
    unfold orElse, pickCipher. destruct (PickCipher _ _) as [e|].
    + unfold mbind, sm_bind. rewrite closeWS_ok by done. cbn. intros [= <- <- <-]. split; [|done]. cbn. rewrite Ec, Eu. unfold used. cbn.
      rewrite Ew, add_remove by done. split; [done|]. split; [done|]. split; [done|by eapply leaves_same].
    + intros [= <- <- <-]. split; [|done]. cbn. rewrite Ec, Eu. done.
  - intros [= <- <- <-]. split; [|done]. cbn. rewrite Ec, Eu. cbn. rewrite add_remove by done. split; [done|]. split; [done|]. split; [done|by eapply leaves_same].
  - intros [= <- <- <-]. split; [|done]. right. exists s1, lb. by rewrite Ea.
Qed.

Lemma slotIds_report rng now u e lb : slotIds (fst (ReportUDPFailure rng now u e lb)) = slotIds lb /\ dialSem (fst (ReportUDPFailure rng now u e lb)) = dialSem lb.
Proof.
  destruct u as [i|]; [|done]. split; [|done]. apply set_eq. intros k. rewrite !slotIds_elem. cbn [ReportUDPFailure reportFailure fst pool setPool].
  split; intros (j & st & b & c & Hj & Hs & <-); destruct (decide (j = i)) as [->|Hne].
  - rewrite list_lookup_alter_eq in Hj. apply fmap_Some in Hj as (st0 & Hj & ->). exists i, st0, b, c. by destruct b.
  - rewrite list_lookup_alter_ne in Hj by done. by exists j, st, b, c.
  - eexists i, _, b, c. rewrite list_lookup_alter_eq, Hj. split; [done|]. by destruct b.
  - exists j, st, b, c. by rewrite list_lookup_alter_ne.
Qed.

Lemma closeSession_used u lb s s' : closeSafe ->
  s_ctx s' = {[u_ctx u]} ∪ s_ctx s -> u_ctx u ∉ s_ctx s -> s_uc s' = s_uc s -> pc (u_enc u) = u_wsc u -> leaves s s' ->
  fst (CloseUDPSession u s') = Ok tt
  /\ s_ctx (snd (CloseUDPSession u s')) = s_ctx s /\ s_uc (snd (CloseUDPSession u s')) = s_uc s
  /\ used lb (snd (CloseUDPSession u s')) = s_ws s' ∖ {[fst (u_wsc u)]} ∖ slotIds lb /\ leaves s (snd (CloseUDPSession u s')).
Proof.
  intros Hc E1 F1 E2 E3 HL. unfold CloseUDPSession, mbind, sm_bind. cbn [cancel]. rewrite closeWS_ok by done. cbn [s_ws s_ctx s_uc s_next s_w].
  rewrite closeWS_ok by done. cbn. rewrite E1, add_remove by done. split; [done|]. split; [done|]. split; [done|]. split; [unfold used; cbn; rewrite E3; set_solver|by eapply leaves_same].
Qed.

Lemma gocInsert_fresh now key j t t1 : gocLookup now key t = (None, t1) ->
  gocInsert key (fst (gocNew now key j t1)) (snd (gocNew now key j t1))
  = Ok (length (heap t1), setPorts (snd (gocNew now key j t1)) (<[key := length (heap t1)]> (ports t1))).
Proof.
  unfold gocLookup, gocInsert. destruct (ports t !! key) eqn:E; [done|]. destruct (portLimit _ <=? _); [done|]. intros [= <-].
  cbn [gocNew snd ports setHeap]. by rewrite E.
Qed.
End Facts.

(** ** Properties *)

(** C22: UDP ASSOCIATE leaves nothing of its own behind. A set-up that fails, at the socket,
    the dial or the cipher, has released the context, the relay socket and the websocket it
    had acquired; one that succeeds holds exactly one of each, all new, and [Close] releases
    exactly these. Hence, whatever happens to the request, when [handleUDPAssociate]
    returns the same contexts, relay sockets and websockets are open as before. The only
    thing that can stay open are connections which a dial itself left behind without
    returning them, as a refused HTTP/3 dial leaves its QUIC endpoint with a UDP socket;
    if the dials leave none, none stays. *)
Theorem udp_associate_releases {C W : Type} `{!WSConn C} `{!Dialers C W} `{!DialLeaves W} (PickCipher : bytes -> bytes -> option gerror)
    (services : bytes -> option Z) (q : request) (listen : res bytes) (up : UpstreamConfig) (c : cconn)
    (lb : LoadBalancer (conn C)) (s : sys W) (Hs : sysOK s) (Hclose : closeSafe (C := C)) :
  match NewUDPAssociation PickCipher listen up s with
  | (Ok a, s') => listen = Ok (LocalAddr a) /\ associated s s' a
                  /\ fst (CloseAssociation a s') = Ok tt /\ held (snd (CloseAssociation a s')) = held s
                  /\ leaves s (snd (CloseAssociation a s'))
  | (Err _, s') => held s' = held s /\ leaves s s'
  | (Panic x, _) => listen = Panic x \/ exists s1, fst (fst (DialWSStream (Dialers0 := sysDialers) (UDPWSS up) s1)) = Panic x
  end
  /\ (let h := handleUDPAssociate services q (associate PickCipher listen) c lb s in
      h_panic h = None -> held (h_w h) = held s /\ leaves s (h_w h))
  /\ ((forall k u (w : W), dialLeaves k u w = 0%nat) -> forall s', leaves s s' -> s_left s' = s_left s).
Proof.
  split; [|split; [|intros Hn s' (l & Hl & ->); rewrite (leftBy_none l Hn Hl); lia]].
  - destruct (NewUDPAssociation PickCipher listen up s) as [r s'] eqn:E. apply association_spec in E; [|done..].
    destruct r as [a|e|x]; [|done..]. destruct E as (E1 & E2 & E3). split; [done|]. split; [done|]. by apply closeAssociation_held.
  - cbv zeta. unfold handleUDPAssociate. destruct (PickUDP _ _ lb) as [[[i|e|x] lb1] evs]; [| |done].
    + destruct (pool lb1 !! i) as [st|]; [|done]. unfold associate.
      destruct (NewUDPAssociation PickCipher listen (cfg st) s) as [r s'] eqn:E. apply association_spec in E; [|done..].
      destruct r as [a|e|x]; [|destruct (ReportUDPFailure _ _ _ _ lb1); by intros _|done].
      destruct E as (_ & _ & E). destruct (closeAssociation_held s s' a Hclose E) as [_ Hh].
      destruct (socks5Reply _ _ _ c) as [[?|?|?] ?]; intros _; exact Hh.
    + destruct (ReportUDPFailure _ _ _ _ lb1). intros _. split; [done|by apply leaves_refl].
Qed.

(** C23: a UDP session that cannot be set up leaves nothing of its own behind. When
    [getOrCreate] fails with an error every context, relay socket and dial slot is as before
    and so is every websocket that is not a standby: a standby connection that was taken for
    the session is closed. A session that was set up and is closed again leaves nothing
    either. Again the only exception are the connections a dial left behind without
    returning them, of which there are none if the dials leave none. *)
Theorem udp_session_releases {C W : Type} `{!WSConn C} `{!Dialers C W} `{!DialLeaves W} (PickCipher : bytes -> bytes -> option gerror)
    (ctxErr : gerror) (rng : Z -> Z) (now nowPick nowLog nowFail : Z) (key : udpPortKey) (i : nat)
    (lb : LoadBalancer (conn C)) (s : sys W) (t : udpPortTable)
    (Hs : sysOK s) (Hclose : closeSafe (C := C)) (Hsem : 0 <= dialSem lb) :
  (forall e lb' s' t',
     getOrCreate rng now nowPick nowLog nowFail (dialSession PickCipher ctxErr) key lb s t = (Err e, lb', s', t') ->
     s_ctx s' = s_ctx s /\ s_uc s' = s_uc s /\ used lb' s' = used lb s /\ dialSem lb' = dialSem lb /\ leaves s s')
  /\ (forall u lb' s', NewUDPSession PickCipher ctxErr i lb s = (Ok u, lb', s') ->
     let '(r, s2) := CloseUDPSession u s' in
     r = Ok tt /\ s_ctx s2 = s_ctx s /\ s_uc s2 = s_uc s /\ used lb' s2 = used lb s /\ dialSem lb' = dialSem lb /\ leaves s s2)
  /\ ((forall k u (w : W), dialLeaves k u w = 0%nat) -> forall s', leaves s s' -> s_left s' = s_left s).
Proof.
  split; [|split; [|intros Hn s' (l & Hl & ->); rewrite (leftBy_none l Hn Hl); lia]].
  - intros e lb' s' t'. unfold getOrCreate. destruct (gocLookup now key t) as [[r|] t1] eqn:El; [intros [= -> <- <- <-]; by repeat split; try apply leaves_refl|].
    pose proof (pick_pool false nowPick nowLog lb) as Hp. pose proof (pick_sems false nowPick nowLog lb) as Hd. unfold PickUDP.
    destruct (pickByEndpoint false nowPick nowLog lb) as [[[j|e'|x] lb1] evs]; cbn [fst snd] in Hp, Hd; [| |done].
    + unfold dialSession. destruct (NewUDPSession PickCipher ctxErr j lb1 s) as [[r lb2] s2] eqn:E. apply session_spec in E as [E Ed]; [|done..].
      injection Hd as Hd _ _. rewrite Hd in Ed. specialize (Ed Hsem). unfold used in E. rewrite (slotIds_pool lb lb1 Hp) in E.
      destruct r as [u|e'|x]; cbn [mbind res_bind]; [|destruct (slotIds_report rng nowFail (Some j) (Some e') lb2) as [Hsl Hse]|done].
      * pose proof (gocInsert_fresh now key j t t1 El) as Hg. destruct (gocNew now key j t1) as [p t2]. cbn [fst snd] in Hg. by rewrite Hg.
      * revert Hsl Hse. generalize (fst (ReportUDPFailure rng nowFail (Some j) (Some e') lb2)). intros lb3 Hsl Hse [= <- <- <- <-]. destruct E as (E1 & E2 & E3 & HL). unfold used. by rewrite Hsl, Hse.
    + intros [= <- <- <- <-]. unfold used. rewrite (slotIds_pool lb lb1 Hp). injection Hd as Hd _ _. by repeat split; try apply leaves_refl.
  - intros u lb' s' E. apply session_spec in E as [(E1 & E2 & E3 & E4 & E5 & HL) Ed]; [|done..].
    destruct (closeSession_used u lb' s s' Hclose E1 E2 E3 E4 HL) as (H1 & H2 & H3 & H4 & H5).
    destruct (CloseUDPSession u s') as [r s2]. cbn [fst snd] in *. rewrite H4. repeat split; auto.
Qed.

(** ** Witnesses *)

(** A world whose dials succeed, and two ciphers of which one is unknown. *)
#[local] Instance quietConn : WSConn unit := {
  ws_read := fun c => (Err io_EOF, c); ws_write := fun _ _ c => (Ok tt, c); ws_close := fun _ _ c => (Ok tt, c) }.
#[local] Instance easyDialers : Dialers unit unit := {
  dialRFC9220 := fun _ w => (Ok tt, w); dialRFC8441 := fun _ w => (Ok tt, w); dialCoderWebSocket := fun _ w => (Ok tt, w);
  clock := fun w => (0, w) }.
Definition cipherDemo (c _ : bytes) : option gerror := match c with [] => Some (errMsg "cipher not supported") | _ => None end.
Definition upDemo (cipher : string) : UpstreamConfig := {|
  Name := str2b "a"; Weight := f64_of_int 1; TCPWSS := str2b "wss://a/tcp"; UDPWSS := str2b "wss://a/udp"; Cipher := str2b cipher; Secret := [] |}.
Definition sysDemo : sys unit := Sys tt 0 ∅ ∅ ∅ 0.
(** A dial over HTTP/3 that leaves its QUIC endpoint. *)
#[local] Instance leakyH3 : DialLeaves unit := fun k _ _ => match k with ByH3 => 1%nat | _ => 0%nat end.
Definition lbUDPDemo : LoadBalancer (conn unit) :=
  DisableBackgroundProbes (fun _ => 1) (NewLoadBalancer [upDemo ""] (hc lbDemo) (sel lbDemo) (probe lbDemo) 0).
Definition clientDemo : cconn := CConn (Rd [] io_EOF) [] (fun _ => None).

Lemma sysDemo_ok : sysOK sysDemo.
Proof. intros k _. repeat split; apply not_elem_of_empty. Qed.
Lemma quiet_close : closeSafe (C := unit).
Proof. intros code reason c x E. discriminate E. Qed.

Lemma udp_associate_releases_witness :
  held (snd (NewUDPAssociation cipherDemo (Ok (str2b "[::]:9")) (upDemo "") sysDemo)) = (∅, ∅, ∅)
  /\ s_uc (snd (NewUDPAssociation cipherDemo (Ok (str2b "[::]:9")) (upDemo "aes") sysDemo)) = {[1%nat]}
  /\ held (h_w (handleUDPAssociate (fun _ => None) qDemo (associate cipherDemo (Ok (str2b "[::]:9"))) clientDemo lbUDPDemo sysDemo)) = (∅, ∅, ∅).
Proof.
  pose proof (udp_associate_releases cipherDemo (fun _ => None) qDemo (Ok (str2b "[::]:9")) (upDemo "") clientDemo lbUDPDemo sysDemo
    sysDemo_ok quiet_close) as [H1 H2].
  split; [|split; [vm_compute; reflexivity|]].
  - destruct (NewUDPAssociation cipherDemo (Ok (str2b "[::]:9")) (upDemo "") sysDemo) as [r s'] eqn:E.
    assert (Er : r = Err (errMsg "cipher not supported")) by (apply (f_equal fst) in E; vm_compute in E; symmetry; exact E).
    rewrite Er in H1. exact (proj1 H1).
  - apply H2. vm_compute. reflexivity.
Defined.

Definition tblUDPDemo : udpPortTable := newUDPPortTable {|
  Device := []; MTU := 0; NetNS := []; Tun_Debug := false; UDPMaxFlows := 0; UDPIdleTimeout := 0; UDPGCInterval := 0;
  UDPFlowIdleTimeout := 0; UDPMaxDstPerPort := 0 |}.

Lemma udp_session_releases_witness :
  let r := getOrCreate (fun _ => 0) 5 5 5 5 (dialSession cipherDemo context_Canceled) (keyDemo 1) lbUDPDemo sysDemo tblUDPDemo in
  fst (fst (fst r)) = Err (errMsg "cipher not supported") /\ used (snd (fst (fst r))) (snd (fst r)) = ∅.
Proof.
  intros r. split; [vm_compute; reflexivity|].
  destruct (proj1 (udp_session_releases cipherDemo context_Canceled (fun _ => 0) 5 5 5 5 (keyDemo 1) 0 lbUDPDemo sysDemo tblUDPDemo
    sysDemo_ok quiet_close ltac:(vm_compute; discriminate)) (errMsg "cipher not supported") (snd (fst (fst r))) (snd (fst r)) (snd r)
    ltac:(vm_compute; reflexivity)) as (_ & _ & H & _ & _).
  rewrite H. vm_compute. reflexivity.
Defined.
