(* ===== verification/H3Peer.v ===== *)
(** * HTTP/3: the peer's side and the time of a dial

    The rest of src/internal/ws_h3.go: the context of the handshake, the drainer of the
    streams the peer opens, the wait for its SETTINGS and the hint made from them, and
    the texts for errors and the log. *)

From S2P Require Import Prelude GoNum GoNet GoURL Metrics Varint QPack H3.

(** ** The context of the handshake *)

(** [h3HandshakeTimeout] (ws_h3_timeouts.go). *)
Definition h3HandshakeTimeout : Z := 12 * Second.

(** A context by when it ends: its deadline and the time of its cancellation, if any. *)
Record pctx := PCtx { deadline : option Z; cancelAt : option Z }.

(** The earlier of two ends; the first argument wins a tie. *)
Definition earlier (a b : option (Z * gerror)) : option (Z * gerror) :=
  match a, b with
  | Some (s, e), Some (t, f) => if s <=? t then Some (s, e) else Some (t, f)
  | Some x, None => Some x
  | None, y => y
  end.
(** When a context is done and with which error. *)
Definition doneAt (c : pctx) : option (Z * gerror) :=
  earlier ((fun d => (d, context_DeadlineExceeded)) <$> deadline c) ((fun t => (t, context_Canceled)) <$> cancelAt c).

(** [rem > 0 && rem < effectiveH3Timeout]: the handshake does not inherit the deadline. *)
Definition dropsDeadline (now : Z) (c : pctx) : bool :=
  match deadline c with
  | Some ddl => let rem := timeSub ddl now in (0 <? rem) && (rem <? h3HandshakeTimeout)
  | None => false
  end.

(** [h3ctx] of [dialRFC9220Profile] at time [now]: its own timeout, and the end of the
    caller's context, or, when the caller's deadline is dropped, what the goroutine that
    waits for the caller's context makes of it. *)
Definition h3ctx (now : Z) (c : pctx) : option (Z * gerror) :=
  let own := Some (timeAdd now h3HandshakeTimeout, context_DeadlineExceeded) in
  if dropsDeadline now c then
    match doneAt c with
    | Some (t, e) => if negb (errors_Is e context_DeadlineExceeded) then earlier (Some (t, context_Canceled)) own else own
    | None => own
    end
  else earlier (doneAt c) own.

(** ** The peer's SETTINGS *)

(** [snapshot()]. *)
Definition snapshot (o : h3PeerObservations) : bool * bool := (sawSettings o, enableConnectProtocol o).

(** What happens to the observations over time: [fst] is when, [snd] what they are from
    then on, in the order of time. *)
Definition history : Type := list (Z * h3PeerObservations).
Definition at_time (o : h3PeerObservations) (h : history) (t : Z) : h3PeerObservations :=
  fold_left (fun cur '(s, o') => if s <=? t then o' else cur) h o.

(** The first time after [now] the channel is closed. *)
Fixpoint closedAt (h : history) : option Z :=
  match h with
  | [] => None
  | (s, o) :: h => if settingsClosed o then Some s else closedAt h
  end.

(** [waitSettings(timeout)] at time [now]: the time it returns at. *)
Definition waitSettings (timeout now : Z) (o : h3PeerObservations) (h : history) : Z :=
  if timeout <=? 0 then now
  else if sawSettings (at_time o h now) then now
  else match closedAt h with
       | Some t => if t <=? now + timeout then Z.max now t else now + timeout
       | None => now + timeout
       end.

Definition h3ErrorMessage : Z := 0x10e.

(** The chain of [errors.Unwrap], tested for a stream error [H3_MESSAGE_ERROR];
    [streamCode] is the type assertion to [quic.StreamErrorCode]. *)
Fixpoint isMessageErr (streamCode : gerror -> option Z) (e : gerror) : bool :=
  bool_decide (streamCode e = Some h3ErrorMessage)
  || match e with errWrap _ inner _ => isMessageErr streamCode inner | _ => false end.

Definition hintText : string :=
  "peer SETTINGS missing ENABLE_CONNECT_PROTOCOL=1 (enable RFC9220 Extended CONNECT on proxy, or remove h3=only for h1/h2 fallback)".

(** [h3PeerSupportHint(err, obs)] at time [now]. *)
Definition h3PeerSupportHint (streamCode : gerror -> option Z) (now : Z) (o : h3PeerObservations) (h : history) (e : gerror) : string :=
  if negb (isMessageErr streamCode e) then ""
  else
    let '(saw, enable) := snapshot (at_time o h (waitSettings (150 * Millisecond) now o h)) in
    if negb saw || enable then "" else hintText.

(** ** The drainer *)

(** A stream of the peer: whether it is unidirectional, and its bytes. *)
Record peerStream := PeerStream { IsReadOnly : bool; p_rd : rd }.

(** The goroutine for one stream: what it does to the observations. *)
Definition drainStream (o : h3PeerObservations) (st : peerStream) : res h3PeerObservations :=
  if IsReadOnly st then
    match readVarint (p_rd st) with
    | (Ok typ, r) => if typ =? h3StreamControl then h3LogPeerControlStream r o else Ok o
    | (Panic w, _) => Panic w
    | (Err _, _) => Ok o
    end
  else Ok o.

(** [startH3PeerStreamDrainer(c, obs)]: the streams [AcceptStream] gives until it fails,
    in the order in which their control frames arrive. *)
Definition startH3PeerStreamDrainer (sts : list peerStream) (o : h3PeerObservations) : res h3PeerObservations :=
  fold_left (fun r st => o ← r; drainStream o st) sts (Ok o).

(** ** Texts *)

(** [h3ConnectHeaderMap(u, authority)]. *)
Definition h3ConnectHeaderMap (u : URL) (authority : bytes) : gmap string string :=
  fold_left (fun m f => <[fst f := snd f]> m) (h3ConnectHeaderFields u authority) ∅.

(** [h3ProfileName(p)]. *)
Definition h3ProfileName (p : h3ClientStreamProfile) : string :=
  match p with h3ClientStreamsControlAndQPACK => "control+qpack" | h3ClientStreamsControlOnly => "control-only" end.

(** [h3ErrorName(code)] over the codes of the package. *)
Definition h3ErrorNames : list (Z * string) :=
  [(0x100, "H3_NO_ERROR"); (0x101, "H3_GENERAL_PROTOCOL_ERROR"); (0x102, "H3_INTERNAL_ERROR"); (0x103, "H3_STREAM_CREATION_ERROR");
   (0x104, "H3_CLOSED_CRITICAL_STREAM"); (0x105, "H3_FRAME_UNEXPECTED"); (0x106, "H3_FRAME_ERROR"); (0x107, "H3_EXCESSIVE_LOAD");
   (0x108, "H3_ID_ERROR"); (0x109, "H3_SETTINGS_ERROR"); (0x10a, "H3_MISSING_SETTINGS"); (0x10b, "H3_REQUEST_REJECTED");
   (0x10c, "H3_REQUEST_CANCELLED"); (0x10d, "H3_REQUEST_INCOMPLETE"); (0x10e, "H3_MESSAGE_ERROR"); (0x10f, "H3_CONNECT_ERROR");
   (0x110, "H3_VERSION_FALLBACK")].
Definition h3ErrorName (code : Z) : string :=
  match find (fun e => fst e =? code) h3ErrorNames with Some (_, n) => n | None => "unknown" end.

(** ** Lemmas *)

(** Streams of the peer: a control stream with its frames, a unidirectional stream of
    another type, a bidirectional one. *)
Inductive pstream := Control (fs : list (Z * bytes)) (e : gerror) | OtherUni (typ : Z) (data : bytes) (e : gerror) | Bidi (r : rd).
Definition streamOf (p : pstream) : peerStream :=
  match p with
  | Control fs e => PeerStream true (Rd (appendVarint [] h3StreamControl ++ frameBytes fs) e)
  | OtherUni typ data e => PeerStream true (Rd (appendVarint [] typ ++ data) e)
  | Bidi r => PeerStream false r
  end.
Definition frameFits (f : Z * bytes) : Prop := 0 <= fst f < 2 ^ 62 /\ zlen (snd f) <= maxAlloc.
Definition streamFits (p : pstream) : Prop :=
  match p with
  | Control fs _ => Forall frameFits fs
  | OtherUni typ _ _ => 0 <= typ < 2 ^ 62 /\ typ <> h3StreamControl
  | Bidi _ => True
  end.

(** The verdicts of the SETTINGS frames among some frames, and of those a stream shows. *)
Definition verdicts (fs : list (Z * bytes)) : list bool :=
  omap (fun f => if fst f =? h3FrameSettings then Some (h3ParseSettingsPayload (snd f)) else None) fs.
Definition shown (p : pstream) : list bool := match p with Control fs _ => verdicts (take 8 fs) | _ => [] end.

(** The observations after some verdicts: the last one counts. *)
Definition observe (bs : list bool) (o : h3PeerObservations) : h3PeerObservations :=
  match last bs with Some b => Obs true b true | None => o end.
Definition coherent (o : h3PeerObservations) : Prop := settingsClosed o = sawSettings o.

Lemma observe_cons b bs o : observe (b :: bs) o = observe bs (Obs true b true).
Proof. unfold observe. destruct bs using rev_ind; [done|]. by rewrite app_comm_cons, !last_snoc. Qed.
Lemma observe_app bs bs' o : observe (bs ++ bs') o = observe bs' (observe bs o).
Proof.
  unfold observe. destruct bs' as [|b bs'] using rev_ind; [by rewrite app_nil_r|]. by rewrite app_assoc, !last_snoc.
Qed.
Lemma observe_coherent bs o : coherent o -> coherent (observe bs o).
Proof. unfold observe. by destruct (last bs). Qed.
Lemma setSettings_observe b o : coherent o -> setSettings b o = Ok (Obs true b true).
Proof. unfold coherent, setSettings. intros ->. by destruct (sawSettings o). Qed.

Lemma control_spec fuel fs e o : Forall frameFits fs -> coherent o ->
  controlLoop fuel (Rd (frameBytes fs) e) o = Ok (observe (verdicts (take fuel fs)) o).
Proof.
  revert fs o. induction fuel as [|k IH]; intros fs o Hfs Ho; [done|]. destruct fs as [|[ft p] fs]; [by cbn|].
  inversion_clear Hfs as [|? ? [Hft Hp] Hfs']. cbn [fst snd] in *. change (frameBytes ((ft, p) :: fs)) with (frame ft p ++ frameBytes fs).
  cbn [controlLoop take]. assert (Hz : zlen p < 2 ^ 62) by (unfold maxAlloc in Hp; lia). rewrite frame_read by done.
  pose proof (zlen_nonneg p). erewrite RM_bind_Ok; [|rewrite makeslice_ok by lia; by apply readFull_app].
  cbn [mret RM_ret]. change (verdicts ((ft, p) :: take k fs))
    with (match (if ft =? h3FrameSettings then Some (h3ParseSettingsPayload p) else None) with Some y => y :: verdicts (take k fs) | None => verdicts (take k fs) end).
  destruct (ft =? h3FrameSettings); [|by apply IH]. rewrite setSettings_observe by done. cbn [mbind res_bind].
  rewrite IH by done. by rewrite observe_cons.
Qed.

Lemma drain_spec p o : streamFits p -> coherent o -> drainStream o (streamOf p) = Ok (observe (shown p) o).
Proof.
  intros Hp Ho. destruct p as [fs e|typ data e|r]; cbn [streamOf drainStream shown IsReadOnly p_rd]; [| |done].
  - rewrite readVarint_put by (unfold h3StreamControl; lia). rewrite Z.eqb_refl. by apply control_spec.
  - destruct Hp as [Ht Hn]. rewrite readVarint_put by done. by rewrite (proj2 (Z.eqb_neq _ _)) by done.
Qed.

Lemma drainer_spec ps o : Forall streamFits ps -> coherent o ->
  startH3PeerStreamDrainer (streamOf <$> ps) o = Ok (observe (ps ≫= shown) o).
Proof.
  intros Hps. revert o. unfold startH3PeerStreamDrainer. induction Hps as [|p ps Hp _ IH]; intros o Ho; [done|].
  cbn [fmap list_fmap fold_left mbind res_bind]. rewrite drain_spec by done. rewrite IH by (by apply observe_coherent).
  cbn [mbind list_bind]. by rewrite observe_app.
Qed.

Lemma earlier_own t e now : earlier (Some (t, e)) (Some (now, context_DeadlineExceeded))
  = Some (if t <=? now then (t, e) else (now, context_DeadlineExceeded)).
Proof. cbn. by destruct (t <=? now). Qed.

(** ** Properties *)

(** The caller's deadline does not shorten an HTTP/3 handshake. Unless the deadline
    has passed already, a handshake that starts at [now] and is not cancelled ends after
    [h3HandshakeTimeout], whatever the deadline; a cancellation ends it at once when it
    comes before that and before the caller's deadline, and a cancellation that comes
    after the caller's deadline is lost when the deadline was the shorter one. *)
Theorem h3_handshake_deadline (now : Z) (c : pctx)
    (Hpast : forall d, deadline c = Some d -> now < d <= now + maxInt64) :
  let limit := now + h3HandshakeTimeout in
  (cancelAt c = None -> h3ctx now c = Some (limit, context_DeadlineExceeded))
  /\ (forall t, cancelAt c = Some t -> t <= limit -> (forall d, deadline c = Some d -> t < d) -> h3ctx now c = Some (t, context_Canceled))
  /\ (forall t d, cancelAt c = Some t -> deadline c = Some d -> d < limit -> d <= t -> h3ctx now c = Some (limit, context_DeadlineExceeded)).
Proof.
  intros limit. destruct c as [dl ca]; cbn [deadline cancelAt] in *. unfold h3ctx, dropsDeadline, doneAt. cbn [deadline cancelAt].
  assert (Hsub : forall d, dl = Some d -> timeSub d now = d - now).
  { intros d E. specialize (Hpast d E). unfold timeSub, minInt64, maxInt64 in *. lia. }
  change (timeAdd now h3HandshakeTimeout) with limit. destruct dl as [d|].
  - rewrite (Hsub d eq_refl). specialize (Hpast d eq_refl). rewrite (proj2 (Z.ltb_lt 0 (d - now))) by lia. cbn [andb fmap option_fmap option_map].
    split; [|split].
    + intros ->. destruct (Z.ltb_spec (d - now) h3HandshakeTimeout); cbn; [done|]. destruct (Z.leb_spec d limit); [|done].
      assert (d = limit) by lia. by subst.
    + intros t -> Ht Hd. specialize (Hd d eq_refl). cbn [earlier fmap option_fmap option_map]. rewrite (proj2 (Z.leb_gt d t)) by lia.
      destruct (d - now <? h3HandshakeTimeout); cbn; by rewrite (proj2 (Z.leb_le t limit)).
    + intros t d' -> [= <-] Hl Hdt. rewrite (proj2 (Z.ltb_lt _ _)) by lia. cbn [earlier fmap option_fmap option_map]. by rewrite (proj2 (Z.leb_le d t)).
  - split; [by intros ->|]. split; [|done]. intros t -> Ht _. cbn. by rewrite (proj2 (Z.leb_le t limit)).
Qed.

(** The hint that the peer lacks extended CONNECT is given exactly for a stream error
    H3_MESSAGE_ERROR when the SETTINGS of the peer, read from the first eight frames of
    its control streams while all other streams are skipped, arrive within 150 ms and do
    not enable it; reading them does not panic. *)
Theorem h3_hint_exact (streamCode : gerror -> option Z) (ps : list pstream) (now t : Z) (e : gerror) (Hps : Forall streamFits ps) :
  exists o, startH3PeerStreamDrainer (streamOf <$> ps) newH3PeerObservations = Ok o
    /\ (sawSettings o = true <-> ps ≫= shown <> [])
    /\ h3PeerSupportHint streamCode now newH3PeerObservations [(t, o)] e
       = if isMessageErr streamCode e && bool_decide (last (ps ≫= shown) = Some false) && (t <=? now + 150 * Millisecond)
         then hintText else ""%string.
Proof.
  exists (observe (ps ≫= shown) newH3PeerObservations). split; [by apply drainer_spec|]. unfold observe.
  destruct (last (ps ≫= shown)) as [b|] eqn:El.
  - split; [split; [intros _ E; by rewrite E in El|done]|]. unfold h3PeerSupportHint. destruct (isMessageErr streamCode e); [|done].
    cbn [negb andb]. unfold waitSettings, at_time. cbn [fold_left closedAt settingsClosed].
    change (150 * Millisecond <=? 0) with false.
    assert (Hms : 0 < 150 * Millisecond) by (unfold Millisecond; lia). revert Hms. generalize (150 * Millisecond). intros d Hms.
    destruct (Z.leb_spec t now) as [H1|H1]; cbn [sawSettings newH3PeerObservations].
    + rewrite (proj2 (Z.leb_le t now)), (proj2 (Z.leb_le t (now + d))) by lia. cbn. rewrite andb_true_r. by destruct b.
    + destruct (Z.leb_spec t (now + d)).
      * rewrite Z.max_r by lia. rewrite Z.leb_refl. cbn. rewrite andb_true_r. by destruct b.
      * rewrite (proj2 (Z.leb_gt t (now + d))) by lia. cbn. by rewrite andb_false_r.
  - apply last_None in El. rewrite El. split; [done|]. unfold h3PeerSupportHint. destruct (isMessageErr streamCode e); [|done].
    cbn [negb andb]. unfold at_time. cbn [fold_left]. destruct (t <=? _); done.
Qed.

(** ** Witnesses *)

(** A probe with three seconds left. *)
Lemma h3_handshake_deadline_witness :
  h3ctx 0 (PCtx (Some (3 * Second)) None) = Some (12 * Second, context_DeadlineExceeded)
  /\ h3ctx 0 (PCtx (Some (3 * Second)) (Some (4 * Second))) = Some (12 * Second, context_DeadlineExceeded).
Proof.
  split.
  - refine (proj1 (h3_handshake_deadline 0 (PCtx (Some (3 * Second)) None) _) eq_refl).
    intros d [= <-]. vm_compute. split; [reflexivity|discriminate].
  - refine (proj2 (proj2 (h3_handshake_deadline 0 (PCtx (Some (3 * Second)) (Some (4 * Second))) _)) _ _ eq_refl eq_refl _ _).
    + intros d [= <-]. vm_compute. split; [reflexivity|discriminate].
    + vm_compute. reflexivity.
    + vm_compute. discriminate.
Defined.

Definition streamsDemo : list pstream :=
  [OtherUni h3StreamQpackEncoder [Byte.x3f] io_EOF; Control [(h3FrameSettings, settingsBytes [(6, 4096)])] io_EOF].

Lemma h3_hint_exact_witness :
  exists o, startH3PeerStreamDrainer (streamOf <$> streamsDemo) newH3PeerObservations = Ok o
    /\ h3PeerSupportHint (fun e => if bool_decide (e = errMsg "reset") then Some h3ErrorMessage else None) 0 newH3PeerObservations
         [(5 * Millisecond, o)] (errWrap "read: " (errMsg "reset") "") = hintText.
Proof.
  destruct (h3_hint_exact (fun e => if bool_decide (e = errMsg "reset") then Some h3ErrorMessage else None) streamsDemo 0 (5 * Millisecond)
    (errWrap "read: " (errMsg "reset") "")) as (o & H1 & _ & H2).
  - repeat constructor; vm_compute; try discriminate; intros H; discriminate H.
  - exists o. split; [exact H1|]. rewrite H2. vm_compute. reflexivity.
Defined.
