(* ===== verification/Balancer.v ===== *)
(** * The balancer as a whole

    Every operation on a [LoadBalancer], from selection (LoadBalancer), checks (Probing)
    and standby connections (Standby), and the loops of src/internal/lb.go that run them
    ([RunHealthChecks], [RunWarmStandby]): they keep it well-formed and its
    configuration unchanged. *)

From stdpp Require Import relations.
From S2P Require Import Prelude GoNum GoNet Config Metrics HealthCheck LoadBalancer WSFrame WSConn Transport Standby Probing.

(** ** The loops *)

(** [time.NewTicker(d)]. *)
Definition NewTicker (d : Z) : res unit := if 0 <? d then Ok tt else Panic "non-positive interval for NewTicker".

Section Loops.
Context {C W : Type} `{!WSConn C} `{!Dialers C W}.
Implicit Types (lb : LoadBalancer C) (w : W).

(** What the [select] of a loop finds: the context done, a tick, a keepalive tick. *)
Inductive wake := WDone | WTick (now : Z) | WKeepalive (nanos : Z).

(** [RunHealthChecks(ctx)] for a sequence of wake-ups: the checks it starts, up to the
    return; it keeps waiting when they are over. *)
Fixpoint healthLoop (ws : list wake) lb : bool * LoadBalancer C * list (bool * nat) :=
  match ws with
  | [] => (false, lb, [])
  | WDone :: _ => (true, lb, [])
  | WTick now :: ws =>
      let '(lb, new) := runDueChecks now lb in
      let '(ret, lb, more) := healthLoop ws lb in (ret, lb, new ++ more)
  | WKeepalive _ :: ws => healthLoop ws lb
  end.
Definition RunHealthChecks (now : Z) (ws : list wake) lb : bool * LoadBalancer C * list (bool * nat) :=
  healthLoop ws (RunHealthChecks_init now lb).

(** [RunWarmStandby(ctx)]: the goroutines of [EnsureStandbyTCP] and [EnsureStandbyUDP] it
    starts for the best upstreams, and the connections it closes. Without
    [StandbyKeepalive] the channel of that ticker is nil and never ready. *)
Fixpoint warmLoop (fuel : nat) (ws : list wake) lb : bool * LoadBalancer C * list (bool * nat) * list C :=
  match ws with
  | [] => (false, lb, [], [])
  | WDone :: _ => let '(lb, cs) := closeAllStandby lb in (true, lb, [], cs)
  | WTick now :: ws =>
      let new := warmTargets now lb ≫= fun i => [(true, i); (false, i)] in
      let '(ret, lb, more, cs) := warmLoop fuel ws lb in (ret, lb, new ++ more, cs)
  | WKeepalive nanos :: ws =>
      if StandbyKeepalive (sel lb) then
        let '(lb, c1) := checkStandbyKeepalive fuel nanos lb in
        let '(ret, lb, new, c2) := warmLoop fuel ws lb in (ret, lb, new, c1 ++ c2)
      else warmLoop fuel ws lb
  end.
Definition RunWarmStandby (fuel : nat) (ws : list wake) lb : res (bool * LoadBalancer C * list (bool * nat) * list C) :=
  _ ← NewTicker (WarmStandbyInterval (sel lb));
  _ ← (if StandbyKeepalive (sel lb) then NewTicker (StandbyKeepaliveInterval (sel lb)) else Ok tt);
  Ok (warmLoop fuel ws lb).

(** [runProbeDialLimited(ctx, fn)]: a probe under a dial slot, released after it; [waited]
    is the error of a context that ends before there is a slot. *)
Definition runProbeDialLimited {A} (waited : gerror) (fn : LoadBalancer C -> res A * LoadBalancer C) lb : res A * LoadBalancer C :=
  match acquireProbeDialSlot lb with
  | None => (Err waited, lb)
  | Some lb => let '(r, lb) := fn lb in (r, releaseProbeDialSlot lb)
  end.
End Loops.

(** ** Well-formedness *)

(** The counters of an endpoint are of [int] width and not both running, and an endpoint
    whose last result was an error has no successes. *)
Record epOk (h : hcState) : Prop := {
  e_fail : isI64 (failCount h); e_succ : isI64 (successCount h);
  e_one : failCount h = 0 \/ successCount h = 0;
  e_err : lastError h <> None -> successCount h = 0 }.

Section WF.
Context {C : Type}.
Implicit Types (lb : LoadBalancer C) (s : UpstreamState C).

Definition upOk s : Prop := epOk (tcp s) /\ epOk (udp s).

Record wf lb : Prop := {
  w_current : forall i, current lb = Some i -> (i < length (pool lb))%nat;
  w_dial : 0 <= dialSem lb <= dialLimit;
  w_probe : 0 <= probeSem lb <= probeParallelLimit;
  w_probeDial : 0 <= probeDialSem lb <= probeDialParallelLimit;
  w_log : dom (lastSelectionLog lb) = dom (lastSelectionLogAt lb);
  w_pool : Forall upOk (pool lb) }.

(** What never changes. *)
Definition configOf lb := (hc lb, sel lb, probe lb, fwmark lb, cfg <$> pool lb).

Definition keeps lb lb' : Prop := wf lb -> wf lb' /\ configOf lb' = configOf lb.

#[global] Instance keeps_preorder : PreOrder keeps.
Proof.
  split; [by intros lb H|]. intros x y z H1 H2 Hx. destruct (H1 Hx) as [Hy E1]. destruct (H2 Hy) as [Hz E2]. split; [done|congruence].
Qed.

(** *** The four kinds of update *)

Lemma keeps_pool lb p : cfg <$> p = cfg <$> pool lb -> (Forall upOk (pool lb) -> Forall upOk p) -> keeps lb (setPool lb p).
Proof.
  intros Hc Hp [W1 W2 W3 W4 W5 W6]. split; [|unfold configOf; cbn; by rewrite Hc].
  assert (Hl : length p = length (pool lb)) by (apply (f_equal length) in Hc; by rewrite !length_fmap in Hc).
  split; cbn; [rewrite Hl|..]; auto.
Qed.
Lemma keeps_sticky lb c t : (wf lb -> forall i, c = Some i -> (i < length (pool lb))%nat) -> keeps lb (setSticky lb c t).
Proof. intros Hc Hw. split; [|done]. pose proof (Hc Hw). destruct Hw. by split. Qed.
Lemma keeps_sems lb d p pd :
  (wf lb -> 0 <= d <= dialLimit /\ 0 <= p <= probeParallelLimit /\ 0 <= pd <= probeDialParallelLimit) -> keeps lb (setSems lb d p pd).
Proof. intros H Hw. split; [|done]. destruct (H Hw) as (? & ? & ?). destruct Hw. by split. Qed.

(** *** One endpoint *)

Lemma epOk_zero : epOk hcZero.
Proof. split; cbn; unfold isI64, minInt64, maxInt64; auto; lia. Qed.
Lemma epOk_up now h : epOk (forceUp now h).
Proof. split; cbn; unfold isI64, minInt64, maxInt64; auto; try lia. by intros []. Qed.
Lemma epOk_fail hcc rng now err h : epOk (failEndpoint hcc rng now err h).
Proof. split; cbn; [apply i64_range|unfold isI64, minInt64, maxInt64; lia|by right|done]. Qed.
Lemma epOk_result hcc rng now now' err rtt name proto h : epOk (fst (applyHCResult hcc rng now now' err rtt name proto h)).
Proof.
  unfold applyHCResult. destruct err; cbn; split; cbn; try apply i64_range; auto; try (unfold isI64, minInt64, maxInt64; lia). by intros [].
Qed.
Lemma epOk_same h h' : failCount h' = failCount h -> successCount h' = successCount h -> lastError h' = lastError h -> epOk h -> epOk h'.
Proof. intros E1 E2 E3 [H1 H2 H3 H4]. split; rewrite ?E1, ?E2, ?E3; auto. Qed.
Lemma upOk_set isTCP s h cool : epOk h -> upOk s -> upOk (setEndpoint isTCP s h cool).
Proof. intros Hh [Ht Hu]. by destruct isTCP. Qed.

(** *** Updates of one upstream and of all *)

Lemma keeps_alter lb f i : (forall s, cfg (f s) = cfg s) -> (forall s, upOk s -> upOk (f s)) -> keeps lb (setPool lb (alter f i (pool lb))).
Proof.
  intros Hc Hu. apply keeps_pool.
  - apply list_eq. intros j. rewrite !list_lookup_fmap. destruct (decide (i = j)) as [->|Hne].
    + rewrite list_lookup_alter_eq. destruct (pool lb !! j); cbn; [by rewrite Hc|done].
    + by rewrite list_lookup_alter_ne.
  - intros Hp. apply Forall_lookup_2. intros j s Hj. destruct (decide (i = j)) as [->|Hne].
    + rewrite list_lookup_alter_eq in Hj. apply fmap_Some in Hj as (s0 & Hs & ->). apply Hu. by eapply Forall_lookup_1.
    + rewrite list_lookup_alter_ne in Hj by done. by eapply Forall_lookup_1.
Qed.
Lemma keeps_imap lb (f : nat -> UpstreamState C -> UpstreamState C) :
  (forall i s, cfg (f i s) = cfg s) -> (forall i s, upOk s -> upOk (f i s)) -> keeps lb (setPool lb (imap f (pool lb))).
Proof.
  intros Hc Hu. apply keeps_pool.
  - apply list_eq. intros j. rewrite !list_lookup_fmap, list_lookup_imap. destruct (pool lb !! j); cbn; [by rewrite Hc|done].
  - intros Hp. apply Forall_lookup_2. intros j s Hj. rewrite list_lookup_imap in Hj. apply fmap_Some in Hj as (s0 & Hs & ->).
    apply Hu. by eapply Forall_lookup_1.
Qed.
Lemma keeps_fmap lb (f : UpstreamState C -> UpstreamState C) :
  (forall s, cfg (f s) = cfg s) -> (forall s, upOk s -> upOk (f s)) -> keeps lb (setPool lb (f <$> pool lb)).
Proof.
  intros Hc Hu. apply keeps_pool.
  - rewrite <- list_fmap_compose. apply list_fmap_ext. intros ? s _. apply Hc.
  - intros Hp. rewrite Forall_fmap. eapply Forall_impl; [exact Hp|]. intros s. apply Hu.
Qed.

(** *** Selection and reports *)

Lemma keeps_log now proto u r lb : keeps lb (fst (logSelectionIfChanged now proto u r lb)).
Proof.
  unfold logSelectionIfChanged. case_match; [reflexivity|]. intros Hw. split; [|done]. destruct Hw. split; try done. cbn. set_solver.
Qed.
Lemma keeps_select now nowLog i reason lb : (wf lb -> (i < length (pool lb))%nat) -> keeps lb (snd (fst (select now nowLog i reason lb))).
Proof.
  intros Hi. unfold select. match goal with |- context [logSelectionIfChanged ?a ?b ?c ?d ?e] =>
    pose proof (keeps_log a b c d e) as H; destruct (logSelectionIfChanged a b c d e) as [lb' evs] end. cbn [fst snd] in *.
  etrans; [|exact H]. apply keeps_sticky. intros Hw j [= <-]. by apply Hi.
Qed.
Lemma keeps_pick isTCP now nowLog lb : keeps lb (snd (fst (pickByEndpoint isTCP now nowLog lb))).
Proof.
  unfold pickByEndpoint. destruct (match current lb with Some _ => _ | None => _ end); [reflexivity|].
  pose proof (pickBest_spec isTCP now lb) as Hb. destruct (pickBestCandidateByEndpoint isTCP now lb) as [[b rtt]|e|w]; [|reflexivity..].
  destruct Hb as (s & [Hs _] & _). assert (Hl : (b < length (pool lb))%nat) by (by eapply lookup_lt_Some). destruct isTCP.
  - destruct (current lb) as [cur|] eqn:Ec; [|by apply keeps_select]. case_match; apply keeps_select; [|done]. intros Hw. by apply (w_current lb Hw).
  - match goal with |- context [logSelectionIfChanged ?a ?b ?c ?d ?e] =>
      pose proof (keeps_log a b c d e) as H; destruct (logSelectionIfChanged a b c d e) as [lb' evs] end. exact H.
Qed.
Lemma keeps_reportFailure isTCP rng now i err lb : keeps lb (fst (reportFailure isTCP rng now i err lb)).
Proof. apply keeps_alter; [by destruct isTCP|]. intros s Hs. apply upOk_set; [apply epOk_fail|done]. Qed.
Lemma keeps_reportTCP rng now u err lb : keeps lb (fst (ReportTCPFailure rng now u err lb)).
Proof.
  destruct u as [i|]; [|reflexivity]. unfold ReportTCPFailure. pose proof (keeps_reportFailure true rng now i err lb) as H.
  destruct (reportFailure true rng now i err lb) as [lb' evs]. cbn [fst] in *. case_match; [|done]. etrans; [exact H|].
  apply keeps_sticky. apply w_current.
Qed.
Lemma keeps_reportUDP rng now u err lb : keeps lb (fst (ReportUDPFailure rng now u err lb)).
Proof. destruct u as [i|]; [|reflexivity]. apply keeps_reportFailure. Qed.
Lemma keeps_disable now lb : keeps lb (DisableBackgroundProbes now lb).
Proof. apply keeps_imap; [done|]. intros i s _. split; apply epOk_up. Qed.

(** *** Checks *)

Lemma epOk_inFlight h b : epOk h -> epOk (setInFlight h b).
Proof. by apply epOk_same. Qed.
Lemma epOk_dueNow hcc now h : epOk h -> epOk (dueNow hcc now h).
Proof. by apply epOk_same. Qed.

Lemma keeps_due now lb : keeps lb (fst (runDueChecks now lb)).
Proof.
  apply keeps_fmap; [done|]. intros s [Ht Hu]. unfold launch. split; cbn; case_match; auto using epOk_inFlight.
Qed.
Lemma keeps_dueNow now lb : keeps lb (RunHealthChecks_init now lb).
Proof. apply keeps_fmap; [done|]. intros s [Ht Hu]. split; by apply epOk_dueNow. Qed.
Lemma keeps_cancel t i lb : keeps lb (cancelCheck t i lb).
Proof. apply keeps_alter; [by destruct t|]. intros s [Ht Hu]. apply upOk_set; [|done]. destruct t; by apply epOk_inFlight. Qed.
Lemma keeps_apply rng t now now' err rtt i lb : keeps lb (fst (applyCheck rng t now now' err rtt i lb)).
Proof.
  unfold applyCheck. destruct (pool lb !! i) as [s|] eqn:Hs; [|reflexivity].
  match goal with |- context [applyHCResult ?a ?b ?c ?d ?e ?f ?g ?h ?k] =>
    pose proof (epOk_result a b c d e f g h k) as Hh; destruct (applyHCResult a b c d e f g h k) as [h' evs] end. cbn [fst] in *.
  apply keeps_pool.
  - rewrite list_fmap_insert. apply list_insert_id. rewrite list_lookup_fmap, Hs. by destruct t.
  - intros Hp. apply Forall_insert; [done|]. apply upOk_set; [by apply epOk_inFlight|]. by eapply Forall_lookup_1.
Qed.

(** *** Semaphores *)

Lemma keeps_probeSlot lb lb' : acquireProbeSlot lb = Some lb' -> keeps lb lb'.
Proof.
  unfold acquireProbeSlot, acquire. case_match eqn:E; [|done]. intros [= <-]. apply keeps_sems. intros []. zbool. lia.
Qed.
Lemma keeps_probeDialSlot lb lb' : acquireProbeDialSlot lb = Some lb' -> keeps lb lb'.
Proof.
  unfold acquireProbeDialSlot, acquire. case_match eqn:E; [|done]. intros [= <-]. apply keeps_sems. intros []. zbool. lia.
Qed.
Lemma release_range n m : 0 <= n <= m -> 0 <= release n <= m.
Proof. unfold release. destruct (Z.ltb_spec 0 n); lia. Qed.
Lemma keeps_releaseProbe lb : keeps lb (releaseProbeSlot lb).
Proof. apply keeps_sems. intros []. auto using release_range. Qed.
Lemma keeps_releaseProbeDial lb : keeps lb (releaseProbeDialSlot lb).
Proof. apply keeps_sems. intros []. auto using release_range. Qed.

(** *** Standby connections *)

Lemma keeps_take t i lb : keeps lb (snd (takeStandby t i lb)).
Proof. apply keeps_alter; intros s; by destruct t. Qed.
Lemma keeps_putStandby t i c lb : keeps lb (snd (putStandby t i c lb)).
Proof. unfold putStandby. case_match; [reflexivity|]. apply keeps_alter; intros s; by destruct t. Qed.

Context {W : Type} `{!WSConn C} `{!Dialers C W}.

Lemma keeps_limited ctxErr url lb (w : W) : keeps lb (DialWSStreamLimited ctxErr url lb w).1.1.2.
Proof.
  unfold DialWSStreamLimited, acquireDialSlot. destruct (dialSem lb <? dialLimit) eqn:E; [|reflexivity]. destruct (DialWSStream url w) as [[r w'] evs]. cbn [fst snd].
  zbool. etrans; [apply (keeps_sems lb (dialSem lb + 1) (probeSem lb) (probeDialSem lb)); intros []; lia|].
  apply keeps_sems. intros [_ H1 H2 H3 _ _]. cbn in *. lia.
Qed.
Lemma keeps_acquireUDP ctxErr i lb (w : W) : keeps lb (AcquireUDPWS ctxErr i lb w).1.1.2.
Proof.
  unfold AcquireUDPWS. pose proof (keeps_take false i lb) as H. destruct (takeStandby false i lb) as [[c|] lb1]; [exact H|].
  etrans; [exact H|apply keeps_limited].
Qed.
Lemma keeps_acquireTCP fuel nanos ctxErr i lb (w : W) : keeps lb (acquireTCPWS fuel nanos ctxErr i lb w).1.1.1.2.
Proof.
  unfold acquireTCPWS. pose proof (keeps_take true i lb) as H. destruct (takeStandby true i lb) as [[c|] lb1]; cbn [snd] in H.
  - destruct (wsAliveCheck fuel nanos c) as [[[[]|]|e|p] c1]; try exact H;
      (destruct (closed c1 _) as [[?|?|?] cs]; [..|exact H]; etrans; [exact H|apply keeps_limited|exact H|apply keeps_limited]).
  - etrans; [exact H|apply keeps_limited].
Qed.
Lemma keeps_ensure t now i lb (w : W) : keeps lb (EnsureStandby t now i lb w).1.1.1.
Proof.
  unfold EnsureStandby. pose proof (keeps_take t i lb) as H. destruct (negb _).
  - destruct (takeStandby t i lb) as [[c|] lb1]; [exact H|reflexivity].
  - case_match; [reflexivity|]. destruct (DialWSStream _ w) as [[[c|e|p] w'] evs]; [|reflexivity..].
    pose proof (keeps_putStandby t i c lb) as Hp. destruct (putStandby t i c lb) as [[c'|] lb1]; exact Hp.
Qed.
Lemma keeps_keepaliveOne fuel nanos t i lb : keeps lb (fst (keepaliveOneStandby fuel nanos t i lb)).
Proof.
  unfold keepaliveOneStandby. pose proof (keeps_take t i lb) as H. destruct (takeStandby t i lb) as [[c|] lb1]; [|reflexivity]. cbn [snd] in H.
  destruct (wsAliveCheck fuel nanos c) as [[[[]|]|e|p] c1]; try exact H.
  pose proof (keeps_putStandby t i c1 lb1) as Hp. destruct (putStandby t i c1 lb1) as [[c'|] lb2]; (etrans; [exact H|exact Hp]).
Qed.

(** A loop over the pool whose rounds keep the balancer. *)
Lemma keeps_fold {A} (f : LoadBalancer C * list C -> A -> LoadBalancer C * list C) l x :
  (forall y a, keeps (fst y) (fst (f y a))) -> keeps (fst x) (fst (fold_left f l x)).
Proof. intros Hf. revert x. induction l as [|a l IH]; intros x; [reflexivity|]. cbn. etrans; [apply Hf|apply IH]. Qed.
Lemma keeps_keepalive fuel nanos lb : keeps lb (fst (checkStandbyKeepalive fuel nanos lb)).
Proof.
  apply (keeps_fold _ _ (lb, [])). intros [y cs] i. cbn [fst].
  pose proof (keeps_keepaliveOne fuel nanos true i y) as H1. destruct (keepaliveOneStandby fuel nanos true i y) as [y1 c1].
  pose proof (keeps_keepaliveOne fuel nanos false i y1) as H2. destruct (keepaliveOneStandby fuel nanos false i y1) as [y2 c2].
  etrans; [exact H1|exact H2].
Qed.
Lemma keeps_closeAll lb : keeps lb (fst (closeAllStandby lb)).
Proof.
  apply (keeps_fold _ _ (lb, [])). intros [y cs] i. cbn [fst].
  pose proof (keeps_take true i y) as H1. destruct (takeStandby true i y) as [t y1].
  pose proof (keeps_take false i y1) as H2. destruct (takeStandby false i y1) as [u y2]. etrans; [exact H1|exact H2].
Qed.

Lemma keeps_healthLoop ws lb : keeps lb (snd (fst (healthLoop ws lb))).
Proof.
  revert lb. induction ws as [|[|now|n] ws IH]; intros lb; cbn [healthLoop]; [reflexivity..| |apply IH].
  pose proof (keeps_due now lb) as H. destruct (runDueChecks now lb) as [lb1 new]. cbn [fst] in H. specialize (IH lb1).
  destruct (healthLoop ws lb1) as [[ret lb2] more]. etrans; [exact H|exact IH].
Qed.
Lemma keeps_warmLoop fuel ws lb : keeps lb (warmLoop fuel ws lb).1.1.2.
Proof.
  revert lb. induction ws as [|[|now|n] ws IH]; intros lb; cbn [warmLoop]; [reflexivity|..].
  - pose proof (keeps_closeAll lb) as H. by destruct (closeAllStandby lb) as [lb1 cs].
  - specialize (IH lb). by destruct (warmLoop fuel ws lb) as [[[ret lb2] more] cs].
  - destruct (StandbyKeepalive (sel lb)); [|apply IH]. pose proof (keeps_keepalive fuel n lb) as H.
    destruct (checkStandbyKeepalive fuel n lb) as [lb1 c1]. specialize (IH lb1). destruct (warmLoop fuel ws lb1) as [[[ret lb2] more] cs].
    etrans; [exact H|exact IH].
Qed.

(** ** All operations *)

Inductive bstep : LoadBalancer C -> LoadBalancer C -> Prop :=
| B_pick isTCP now nowLog lb : bstep lb (snd (fst (pickByEndpoint isTCP now nowLog lb)))
| B_reportTCP rng now u err lb : bstep lb (fst (ReportTCPFailure rng now u err lb))
| B_reportUDP rng now u err lb : bstep lb (fst (ReportUDPFailure rng now u err lb))
| B_disable now lb : bstep lb (DisableBackgroundProbes now lb)
| B_health now ws lb : bstep lb (snd (fst (RunHealthChecks now ws lb)))
| B_probeSlot lb lb' : acquireProbeSlot lb = Some lb' -> bstep lb lb'
| B_releaseProbe lb : bstep lb (releaseProbeSlot lb)
| B_probeDialSlot lb lb' : acquireProbeDialSlot lb = Some lb' -> bstep lb lb'
| B_releaseProbeDial lb : bstep lb (releaseProbeDialSlot lb)
| B_cancelCheck t i lb : bstep lb (cancelCheck t i lb)
| B_check rng t now now' err rtt i lb : bstep lb (fst (applyCheck rng t now now' err rtt i lb))
| B_dial ctxErr url lb (w : W) : bstep lb (DialWSStreamLimited ctxErr url lb w).1.1.2
| B_acquireUDP ctxErr i lb (w : W) : bstep lb (AcquireUDPWS ctxErr i lb w).1.1.2
| B_acquireTCP fuel nanos ctxErr i lb (w : W) : bstep lb (acquireTCPWS fuel nanos ctxErr i lb w).1.1.1.2
| B_ensure t now i lb (w : W) : bstep lb (EnsureStandby t now i lb w).1.1.1
| B_warm fuel ws lb ret lb' new cs : RunWarmStandby fuel ws lb = Ok (ret, lb', new, cs) -> bstep lb lb'.

Lemma bstep_keeps lb lb' : bstep lb lb' -> keeps lb lb'.
Proof.
  destruct 1; eauto using keeps_pick, keeps_reportTCP, keeps_reportUDP, keeps_disable, keeps_probeSlot, keeps_releaseProbe, keeps_probeDialSlot,
    keeps_releaseProbeDial, keeps_cancel, keeps_apply, keeps_limited, keeps_acquireUDP, keeps_acquireTCP, keeps_ensure.
  - unfold RunHealthChecks. etrans; [apply keeps_dueNow|apply keeps_healthLoop].
  - unfold RunWarmStandby in H. destruct (NewTicker (WarmStandbyInterval (sel lb))); cbn in H; [|done..]. pose proof (keeps_warmLoop fuel ws lb) as Hk.
    destruct (if StandbyKeepalive (sel lb) then _ else _); cbn in H; [|done..]. injection H as H. by rewrite H in Hk.
Qed.

Lemma wf_new ups h se p fw : wf (NewLoadBalancer (C := C) ups h se p fw).
Proof.
  split; cbn; try done. apply Forall_fmap, Forall_true. intros u. split; apply epOk_zero.
Qed.

(** *** Shutdown empties the slots *)

Definition emptyAt lb (i : nat) : Prop := forall s, pool lb !! i = Some s -> standbyTCP s = None /\ standbyUDP s = None.

Lemma take_empty t i lb j : emptyAt lb j -> emptyAt (snd (takeStandby t i lb)) j.
Proof.
  intros He s. cbn. destruct (decide (i = j)) as [->|Hne]; [|rewrite list_lookup_alter_ne by done; apply He].
  rewrite list_lookup_alter_eq. intros (s0 & Hs & ->)%fmap_Some. destruct (He s0 Hs). by destruct t.
Qed.
Lemma take_both i lb : emptyAt (snd (takeStandby false i (snd (takeStandby true i lb)))) i.
Proof.
  intros s. cbn. rewrite !list_lookup_alter_eq. destruct (pool lb !! i); cbn; [|done]. by intros [= <-].
Qed.

Lemma closeAll_loop (l : list nat) lb cs j : emptyAt lb j \/ j ∈ l ->
  emptyAt (fst (fold_left (fun '(lb, cs) i =>
    let '(t, lb) := takeStandby true i lb in
    let '(u, lb) := takeStandby false i lb in
    (lb, cs ++ (option_list t ++ option_list u ≫= fun c => snd (closed c "shutdown")))) l (lb, cs))) j.
Proof.
  revert lb cs. induction l as [|i l IH]; intros lb cs Hj; [destruct Hj as [Hj|Hj]; [exact Hj|by apply elem_of_nil in Hj]|].
  cbn [fold_left]. pose proof (take_both i lb) as Hb. pose proof (take_empty true i lb j) as H1.
  pose proof (take_empty false i (snd (takeStandby true i lb)) j) as H2.
  destruct (takeStandby true i lb) as [t lb1]. cbn [snd] in *. destruct (takeStandby false i lb1) as [u lb2]. cbn [snd] in *.
  apply IH. destruct Hj as [Hj|[->|Hj]%elem_of_cons]; [left; by auto|left; exact Hb|by right].
Qed.

Lemma closeAll_empty lb i : (i < length (pool lb))%nat -> emptyAt (fst (closeAllStandby lb)) i.
Proof. intros Hi. apply closeAll_loop. right. apply elem_of_seq. lia. Qed.

Lemma warmLoop_returns fuel ws lb : wf lb ->
  let '(ret, lb', new, cs) := warmLoop fuel ws lb in
  (ret = true <-> WDone ∈ ws) /\ (ret = true -> forall i, (i < length (pool lb))%nat -> emptyAt lb' i).
Proof.
  revert lb. induction ws as [|[|now|n] ws IH]; intros lb Hw; cbn [warmLoop].
  - split; [|done]. by rewrite elem_of_nil.
  - pose proof (closeAll_empty lb) as H. destruct (closeAllStandby lb) as [lb1 cs]. split; [|by auto]. split; [by constructor|done].
  - specialize (IH lb Hw). destruct (warmLoop fuel ws lb) as [[[ret lb2] more] cs]. rewrite elem_of_cons. naive_solver.
  - destruct (StandbyKeepalive (sel lb)); [|specialize (IH lb Hw); destruct (warmLoop fuel ws lb) as [[[ret lb2] more] cs]; rewrite elem_of_cons; naive_solver].
    pose proof (keeps_keepalive fuel n lb Hw) as [Hw1 Hc]. destruct (checkStandbyKeepalive fuel n lb) as [lb1 c1]. cbn [fst] in *.
    assert (Hl : length (pool lb1) = length (pool lb)).
    { injection Hc as _ _ _ _ Hc. apply (f_equal length) in Hc. by rewrite !length_fmap in Hc. }
    specialize (IH lb1 Hw1). rewrite Hl in IH. destruct (warmLoop fuel ws lb1) as [[[ret lb2] more] cs]. rewrite elem_of_cons. naive_solver.
Qed.
End WF.

(** ** Properties *)

(** C19: the balancer stays well-formed. Whatever sequence of selections, reports, checks,
    probe and dial slots, acquisitions and standby operations runs on a new balancer, the
    current upstream is one of the pool, the three semaphores stay within their
    capacities, the counters of every endpoint are of [int] width, at most one of them
    runs and an endpoint in error has no successes, the two maps of the selection log have the
    same keys, and neither the upstreams nor the settings have changed. *)
Theorem lb_well_formed {C W : Type} `{!WSConn C} `{!Dialers C W} (ups : list UpstreamConfig) (h : HealthcheckConfig)
    (se : SelectionConfig) (p : ProbeConfig) (fw : Z) (lb : LoadBalancer C)
    (Hrun : rtc (bstep (W := W)) (NewLoadBalancer ups h se p fw) lb) :
  wf lb /\ configOf lb = (h, se, p, fw, ups).
Proof.
  assert (H : keeps (NewLoadBalancer ups h se p fw) lb).
  { induction Hrun as [|x y z Hs _ IH]; [reflexivity|]. etrans; [by apply bstep_keeps|exact IH]. }
  destruct (H (wf_new _ _ _ _ _)) as [Hw Hc]. split; [done|]. rewrite Hc. unfold configOf. cbn.
  rewrite <- list_fmap_compose. by rewrite list_fmap_id.
Qed.

(** The loop of the warm standby. With a loaded configuration it panics exactly when
    an interval it uses was set to a negative value, which the defaults let through;
    otherwise it returns exactly when the context is done, and then every standby slot
    is empty. *)
Theorem warm_standby_loop {C W : Type} `{!WSConn C} `{!Dialers C W} (raw : SelectionConfig) (fuel : nat) (ws : list wake) (lb : LoadBalancer C)
    (Hw : wf lb) (Hsel : sel lb = selDefaults raw) :
  match RunWarmStandby fuel ws lb with
  | Ok (ret, lb', new, cs) => (ret = true <-> WDone ∈ ws) /\ (ret = true -> forall i, (i < length (pool lb))%nat -> emptyAt lb' i)
  | Err _ => False
  | Panic _ => WarmStandbyInterval raw < 0 \/ (StandbyKeepalive raw = true /\ StandbyKeepaliveInterval raw < 0)
  end
  /\ (WarmStandbyInterval raw < 0 -> exists x, RunWarmStandby fuel ws lb = Panic x).
Proof.
  unfold RunWarmStandby, NewTicker. rewrite Hsel. cbn [selDefaults WarmStandbyInterval StandbyKeepalive StandbyKeepaliveInterval].
  assert (Hor : forall x d, 0 < d -> (0 <? orZ x d) = negb (x <? 0)).
  { intros x d Hd. unfold orZ. destruct (Z.eqb_spec x 0), (Z.ltb_spec x 0); cbn [negb]; first [lia|apply Z.ltb_lt; lia|apply Z.ltb_ge; lia]. }
  rewrite !Hor by (vm_compute; reflexivity). pose proof (warmLoop_returns fuel ws lb Hw) as Hl.
  destruct (Z.ltb_spec (WarmStandbyInterval raw) 0); cbn [negb mbind res_bind]; [split; [by left|by eexists]|].
  split; [|lia]. destruct (StandbyKeepalive raw) eqn:Ek; cbn [mbind res_bind].
  - destruct (Z.ltb_spec (StandbyKeepaliveInterval raw) 0); cbn [negb mbind res_bind]; [by right|]. by destruct (warmLoop fuel ws lb) as [[[ret lb2] more] cs].
  - by destruct (warmLoop fuel ws lb) as [[[ret lb2] more] cs].
Qed.

(** ** Witnesses *)

#[local] Instance idleConn : WSConn unit := {
  ws_read := fun c => (Err io_EOF, c); ws_write := fun _ _ c => (Ok tt, c); ws_close := fun _ _ c => (Ok tt, c) }.

Definition lbStart : LoadBalancer unit := NewLoadBalancer (cfg <$> pool lbDemo) (hc lbDemo) (sel lbDemo) (probe lbDemo) 0.
(** A successful check, then a selection. *)
Definition lbChecked : LoadBalancer unit := fst (applyCheck (fun _ => 0) true 50 60 None 1000 0 lbStart).

Lemma lb_well_formed_witness : wf (snd (fst (pickByEndpoint true 100 100 lbChecked))).
Proof.
  refine (proj1 (lb_well_formed (W := recW unit) (cfg <$> pool lbDemo) (hc lbDemo) (sel lbDemo) (probe lbDemo) 0 _ _)).
  eapply rtc_l; [apply (B_check (fun _ => 0) true 50 60 None 1000 0)|].
  eapply rtc_l; [apply (B_pick true 100 100)|]. apply rtc_refl.
Defined.

Definition selRaw (d : Z) : SelectionConfig := {|
  StickyTTL := 0; Cooldown := 0; MinSwitch := 0; WarmStandbyN := 0; WarmStandbyInterval := d;
  StandbyKeepalive := false; StandbyKeepaliveInterval := 0; StandbyKeepaliveProbeTimeout := 0 |}.

Lemma warm_standby_loop_witness :
  exists x, RunWarmStandby 1 [WDone] (NewLoadBalancer (C := unit) [] (hc lbDemo) (selDefaults (selRaw (-1))) (probe lbDemo) 0) = Panic x.
Proof.
  apply (proj2 (warm_standby_loop (W := recW unit) (selRaw (-1)) 1 [WDone]
    (NewLoadBalancer (C := unit) [] (hc lbDemo) (selDefaults (selRaw (-1))) (probe lbDemo) 0) (wf_new _ _ _ _ _) eq_refl)).
  reflexivity.
Defined.
