(* ===== verification/Dialling.v ===== *)
(** * Dialling over the modelled transports

    The handshakes of RawH2 and H3 and the dial of coder/websocket
    (src/internal/ws_coder.go) as the [Dialers] of [DialWSStream] (src/internal/ws.go):
    which of them are tried, and that the code tries exactly the plan the hints give. *)

From S2P Require Import Prelude GoNum GoNet Metrics GoURL WSConn Transport H3 RawH2.

(** ** The world of the dials *)

(** What net/http and the raw connection answer to one HTTP/2 dial. *)
Record h2answer := H2Answer {
  a_canSet : bool; a_newReq : option gerror; a_doReq : gerror + Z * string; a_tls : option tlsConfig;
  a_env : h2env; a_frames : list h2frame; a_rerr : gerror }.
(** What the QUIC library answers to one HTTP/3 dial with a profile. *)
Record h3answer := H3Answer { a_lib : qlib; a_await : awaited }.

(** Answers by the number of the dial; what was tried so far, on which URL. *)
Record net (X : Type) := Net {
  n_h3 : nat -> h3ClientStreamProfile -> h3answer; n_h2 : nat -> h2answer; n_h1 : nat -> gerror + X;
  n_time : nat -> Z; n_tick : nat; n_log : list (attempt * URL) }.
Arguments Net {X} _ _ _ _ _ _.
Arguments n_h3 {X} _ _ _.
Arguments n_h2 {X} _ _.
Arguments n_h1 {X} _ _.
Arguments n_time {X} _ _.
Arguments n_tick {X} _.
Arguments n_log {X} _.

(** A connection, by what carries it: a stream of net/http, a raw HTTP/2 stream, an
    HTTP/3 stream, or a connection of coder/websocket ([coderConn]). *)
Inductive carrier (X : Type) :=
| ViaHTTP (dial : nat)
| ViaRawH2 (st : rawH2Stream)
| ViaH3 (id : nat) (st : Stream.h3wsStream)
| ViaCoder (c : X).
Arguments ViaHTTP {X} _.
Arguments ViaRawH2 {X} _.
Arguments ViaH3 {X} _ _.
Arguments ViaCoder {X} _.

Section Dialling.
Context {X : Type} (huffmanDecode : bytes -> option string).
Context (hpackEncode : list (string * string) -> bytes) (hpackDecode : bytes -> list (string * string) * option gerror).
Context (errCodeText : Z -> string) (hint : gerror -> string) (fmtHeaders : gmap string string -> string).
Implicit Types (w : net X).

Definition attempted (a : attempt) (u : URL) w : net X :=
  Net (n_h3 w) (n_h2 w) (n_h1 w) (n_time w) (S (n_tick w)) (n_log w ++ [(a, u)]).

(** [dialRFC9220(ctx, u, fwmark)]: both profiles with a connection of their own. *)
Definition dialOverH3 (u : URL) w : res (carrier X) * net X :=
  let profile p :=
    let ans := n_h3 w (n_tick w) p in
    fst (dialRFC9220Profile (a_lib ans) huffmanDecode u p (a_await ans) hint fmtHeaders (QState [] 0 0)) in
  (match H3.dialRFC9220 profile with Ok (id, st) => Ok (ViaH3 id st) | Err e => Err e | Panic p => Panic p end, attempted H3 u w).

(** [dialRFC8441(ctx, u, tr)] with the raw dial it may use. *)
Definition dialOverH2 (u : URL) w : res (carrier X) * net X :=
  let ans := n_h2 w (n_tick w) in
  let raw :=
    match dialRFC8441RawH2 (a_env ans) hpackEncode hpackDecode errCodeText u (a_tls ans) (newRawH2Conn (a_frames ans) (a_rerr ans)) with
    | (Ok _, c) => Ok (ViaRawH2 (RawStream (a_env ans) c))
    | (Err e, _) => Err e
    | (Panic p, _) => Panic p
    end in
  (fst (RawH2.dialRFC8441 u (a_canSet ans) (a_newReq ans) (a_doReq ans) raw (ViaHTTP (n_tick w))), attempted H2 u w).

(** [dialCoderWebSocket(ctx, rawurl, tr)]: the library dials, its connection is wrapped. *)
Definition dialOverH1 (u : URL) w : res (carrier X) * net X :=
  (match n_h1 w (n_tick w) with inl e => Err e | inr c => Ok (ViaCoder c) end, attempted H1 u w).

#[export] Instance netDialers : Dialers (carrier X) (net X) := {
  dialRFC9220 := dialOverH3; dialRFC8441 := dialOverH2; dialCoderWebSocket := dialOverH1;
  clock w := (n_time w (n_tick w), w) }.

(** ** The plan the hints give *)

(** The transports to try in order, each after the failure of the one before it, with
    the text put before a final error; or an error without any dial. *)
Definition plan (h : hints) (scheme : bytes) : gerror + list attempt * string :=
  let ws := isWebSocketLikeScheme scheme in
  if tryH3 h && ws then
    if h3Only h then inr ([H3], "h3-only connect failed: ")
    else inr ([H3; H2], if h2Only h then "h2-only connect failed: " else "")
  else if h3Only h then inl (errMsg ("h3-only mode requires ws/wss URL, got scheme=" +:+ b2str scheme))
  else if h2Only h then
    if ws then inr ([H2], "h2-only connect failed: ")
    else inl (errMsg ("h2-only mode requires ws/wss URL, got scheme=" +:+ b2str scheme))
  else if tryH2 h && ws then inr ([H2], "")
  else if connectOnly h then inl (errMsg "extended-connect-only mode blocks h1 websocket upgrade fallback")
  else inr ([H1], "").

Definition dialOver (a : attempt) : URL -> net X -> res (carrier X) * net X :=
  match a with H3 => dialOverH3 | H2 => dialOverH2 | H1 => dialOverH1 end.
Definition prefixed (pre : string) (e : gerror) : gerror := if bool_decide (pre = ""%string) then e else errWrap pre e "".

(** Try one after the other until one succeeds. *)
Fixpoint tryAll (ts : list attempt) (pre : string) (u : URL) w : res (carrier X) * net X :=
  match ts with
  | [] => (Err (errMsg "nothing to try"), w)
  | t :: ts' =>
      match dialOver t u w with
      | (Err e, w) => match ts' with [] => (Err (prefixed pre e), w) | _ => tryAll ts' pre u w end
      | r => r
      end
  end.

(** The plan carried out, with the time of a success observed. *)
Definition dialPlanned (rawurl : bytes) w : res (carrier X) * net X * list mev :=
  match Parse rawurl with
  | Err e => (Err e, w, [])
  | Panic p => (Panic p, w, [])
  | Ok u =>
      match plan (parseTransportHints (Query u)) (Scheme u) with
      | inl e => (Err e, w, [])
      | inr (ts, pre) =>
          match tryAll ts pre (default u (stripHealthcheckQueryParams (Some u))) w with
          | (Ok c, w') =>
              let '(upstream, proto) := upstreamFromURL (Some u) in
              (Ok c, w', [observeDial upstream proto (timeSub (n_time w' (n_tick w')) (n_time w (n_tick w)))])
          | (Err e, w') => (Err e, w', [])
          | (Panic p, w') => (Panic p, w', [])
          end
      end
  end.
End Dialling.

(** ** Lemmas *)

(** An error that was not made from the sentinel, which only this package has. *)
Definition foreign (e : gerror) : Prop := errors_Is e errRFC8441NotSupported = false.

Record foreignEnv (E : h2env) : Prop := {
  f_ctx : forall k e, e_ctx E k = Some e -> foreign e;
  f_write : forall k e, e_write E k = Some e -> foreign e;
  f_tcp : forall e, e_tcp E = Some e -> foreign e;
  f_tls : forall e, e_tls E = Some e -> foreign e;
  f_rand : forall e, e_rand E = inl e -> foreign e }.

(** What the libraries return to HTTP/2 dials is foreign. *)
Definition foreignNet {X} (hpackDecode : bytes -> list (string * string) * option gerror) (w : net X) : Prop :=
  (forall b fs e, hpackDecode b = (fs, Some e) -> foreign e)
  /\ forall k, foreignEnv (a_env (n_h2 w k)) /\ foreign (a_rerr (n_h2 w k))
       /\ (forall e, a_newReq (n_h2 w k) = Some e -> foreign e) /\ (forall e, a_doReq (n_h2 w k) = inl e -> foreign e).

Section Foreign.
Context (E : h2env) (HE : foreignEnv E) (hpackEncode : list (string * string) -> bytes).
Context (hpackDecode : bytes -> list (string * string) * option gerror) (errCodeText : Z -> string).
Context (Hd : forall b fs e, hpackDecode b = (fs, Some e) -> foreign e).

(** A call whose errors are foreign when those of the peer's stream are. *)
Definition yields {A} (m : HM A) : Prop := forall c,
  h_rerr (snd (m c)) = h_rerr c /\ (forall e, foreign (h_rerr c) -> fst (m c) = Err e -> foreign e).

Lemma yields_fail {A} e : foreign e -> yields (hfail (A := A) e).
Proof. intros He c. split; [done|]. by intros e' _ [= <-]. Qed.
Lemma yields_ret {A} (a : A) : yields (mret a).
Proof. by intros c. Qed.
Lemma yields_panic {A} x : yields (hpanic (A := A) x).
Proof. by intros c. Qed.
Lemma yields_bind {A B} (m : HM A) (f : A -> HM B) : yields m -> (forall a, yields (f a)) -> yields (m ≫= f).
Proof.
  intros Hm Hf c. destruct (Hm c) as [R1 F1]. unfold mbind, HM_bind. destruct (m c) as [[a|e|w] c1]; cbn [fst snd] in *.
  - destruct (Hf a c1) as [R2 F2]. split; [congruence|]. intros e Hr. apply F2. by rewrite R1.
  - split; [done|]. intros e' Hr [= <-]. by apply F1.
  - done.
Qed.
Lemma yields_put a : yields (put E a).
Proof. intros c. unfold put. destruct (e_write E (h_clock c)) eqn:Ew; (split; [done|]); intros e' _ H; simplify_eq/=. by eapply (f_write E HE). Qed.
Lemma yields_hctx : yields (hctx E).
Proof. intros c. unfold hctx. destruct (e_ctx E (h_clock c)) eqn:Ew; (split; [done|]); intros e' _ H; simplify_eq/=. by eapply (f_ctx E HE). Qed.
Lemma yields_readFrame : yields readFrame.
Proof. intros c. unfold readFrame. destruct (h_in c); (split; [done|]); intros e' Hr H; by simplify_eq/=. Qed.
Lemma yields_ignore m : yields m -> yields (ignore m).
Proof. intros Hm c. destruct (Hm c) as [R F]. unfold ignore. by destruct (m c) as [[|e|w] c']. Qed.
Lemma yields_perFrame {A} (f : nat -> HM A) : (forall k, yields (f k)) -> yields (perFrame f).
Proof. intros Hf c. apply Hf. Qed.

#[local] Hint Resolve yields_ret yields_panic yields_put yields_hctx yields_readFrame yields_ignore yields_perFrame : yields.
#[local] Hint Extern 1 (yields (hfail _)) => apply yields_fail; reflexivity : yields.
#[local] Hint Extern 2 (yields (_ ≫= _)) => apply yields_bind; [|intros ?] : yields.
#[local] Hint Extern 2 (yields (writeFrame _ _)) => unfold writeFrame : yields.

Lemma yields_init : yields (init E).
Proof.
  assert (Hl : forall k, yields (initLoop E k)).
  { induction k as [|k IH]; cbn [initLoop]; [auto with yields|]. apply yields_bind; [auto with yields|intros _].
    apply yields_bind; [auto with yields|]. intros [[|] ss| | | | | | |]; auto with yields. case_match; auto 7 with yields. }
  unfold init. auto 12 with yields.
Qed.

Lemma yields_response k sid block : yields (responseLoop E hpackDecode errCodeText k sid block).
Proof.
  revert block. induction k as [|k IH]; intros block; cbn [responseLoop]; [auto with yields|].
  apply yields_bind; [auto with yields|intros _]. apply yields_bind; [auto with yields|].
  assert (Hdec : forall b, yields (decodeBlock hpackDecode b)).
  { intros b. unfold decodeBlock. destruct (hpackDecode b) as [fs [e|]] eqn:Eb; [|auto with yields]. apply yields_fail. by eapply Hd. }
  intros [[|] ss| | | | | | |]; repeat (case_match; auto with yields). all: auto 8 with yields.
Qed.

Lemma yields_open u : yields (openWebSocketStream E hpackEncode hpackDecode errCodeText u).
Proof.
  unfold openWebSocketStream. apply yields_bind.
  { intros c. split; [done|]. cbn. destruct (e_rand E) eqn:Er; [|done]. intros e _ [= <-]. by eapply (f_rand E HE). }
  intros keyRaw. apply yields_bind; [auto 6 with yields|intros _].
  apply yields_bind; [apply yields_perFrame; intros k; apply yields_response|]. intros [status hdrs].
  case_match; [apply yields_fail; reflexivity|]. case_match; [apply yields_fail; reflexivity|apply yields_ret].
Qed.

Lemma raw_dial_foreign u conf c e c' : foreign (h_rerr c) ->
  dialRFC8441RawH2 E hpackEncode hpackDecode errCodeText u conf c = (Err e, c') -> foreign e.
Proof.
  intros Hr. unfold dialRFC8441RawH2. case_match; [by intros [= <- _]|]. destruct (e_tcp E) eqn:Et; [intros [= <- _]; by apply (f_tcp E HE)|].
  cbv zeta. destruct (e_tls E) eqn:Es; [intros [= <- _]; by apply (f_tls E HE)|]. case_match; [by intros [= <- _]|].
  match goal with |- context [init E ?x] => destruct (yields_init x) as [R1 F1]; destruct (init E x) as [[[]|e1|p] c1] end; cbn [fst snd] in *;
    [|intros [= <- _]; by apply F1|done].
  match goal with |- context [openWebSocketStream _ _ _ _ _ ?x] => destruct (yields_open u x) as [R2 F2]; destruct (openWebSocketStream E _ _ _ u x) as [[[]|e2|p] c2] end;
    [done| |done]. intros [= <- _]. apply F2; [|done]. by rewrite R1.
Qed.
End Foreign.

Section Equivalence.
Context {X : Type} (huffmanDecode : bytes -> option string).
Context (hpackEncode : list (string * string) -> bytes) (hpackDecode : bytes -> list (string * string) * option gerror).
Context (errCodeText : Z -> string) (hint : gerror -> string) (fmtHeaders : gmap string string -> string).
Implicit Types (w : net X).

Abbreviation D := (netDialers (X := X) huffmanDecode hpackEncode hpackDecode errCodeText hint fmtHeaders).
Abbreviation over2 := (dialOverH2 (X := X) hpackEncode hpackDecode errCodeText).
Abbreviation run := (tryAll (X := X) huffmanDecode hpackEncode hpackDecode errCodeText hint fmtHeaders).

Lemma dialOverH2_foreign u w e w' : foreignNet hpackDecode w -> over2 u w = (Err e, w') -> foreign e.
Proof.
  intros [Hd Hw]. destruct (Hw (n_tick w)) as (HE & Hr & Hn & Ho). unfold dialOverH2, RawH2.dialRFC8441. cbv zeta.
  case_match; [by intros [= <- _]|]. destruct (a_newReq _) eqn:En; [intros [= <- _]; by apply Hn|]. destruct (a_canSet _); cbn [negb fst].
  - destruct (a_doReq _) as [e'|[code st]] eqn:Eo; [intros [= <- _]; by apply Ho|]. case_match; by intros [= <- _].
  - destruct (dialRFC8441RawH2 _ _ _ _ _ _ _) as [[[]|e'|p] c] eqn:Er; intros [= <- _]. by eapply (raw_dial_foreign (a_env (n_h2 w (n_tick w)))); [..|exact Er].
Qed.

(** What [DialWSStream] makes of the outcome of a plan. *)
Definition finish (upstream proto : bytes) (start : Z) (r : res (carrier X) * net X) : res (carrier X) * net X * list mev :=
  match r with
  | (Ok c, w') => (Ok c, w', [observeDial upstream proto (timeSub (n_time w' (n_tick w')) start)])
  | (Err e, w') => (Err e, w', [])
  | (Panic p, w') => (Panic p, w', [])
  end.

Lemma dialH1_finish h up pr start u w : connectOnly h = false ->
  dialH1 (Dialers0 := D) h up pr start u w = finish up pr start (run [H1] "" u w).
Proof.
  intros Hc. unfold dialH1. rewrite Hc. cbn [dialCoderWebSocket netDialers tryAll dialOver]. by destruct (dialOverH1 u w) as [[c|e|p] w'].
Qed.

(** From the second transport on; [t2] is whether HTTP/2 is tried. *)
Lemma dialH2_finish h t2 up pr start u ud w : foreignNet hpackDecode w -> isWebSocketLikeScheme (Scheme u) = true -> h2Only h || t2 = true ->
  dialH2 (Dialers0 := D) h t2 up pr start u ud w
  = finish up pr start (run [H2] (if h2Only h then "h2-only connect failed: " else "") ud w).
Proof.
  intros Hf Hs Ht. unfold dialH2. rewrite Hs. cbn [negb Transport.dialRFC8441 netDialers tryAll dialOver].
  pose proof (fun e w' => dialOverH2_foreign ud w e w' Hf) as He.
  destruct (h2Only h); cbn [orb] in Ht; [|rewrite Ht; cbn [andb]]; destruct (dialOverH2 _ _ _ ud w) as [[c|e|p] w'] eqn:E; try reflexivity.
  specialize (He e w' eq_refl). unfold foreign in He. by rewrite He.
Qed.
End Equivalence.

(** ** Properties *)

(** C18: [DialWSStream] over the modelled handshakes is the plan of the hints carried out:
    at most two transports are tried, HTTP/2 only after a failed HTTP/3 or on its own,
    and the HTTP/1.1 upgrade exactly when neither HTTP/3 nor HTTP/2 applies and extended
    CONNECT is not required. In particular no failure of HTTP/2 leads to HTTP/1.1, since
    no error of the HTTP/2 dial is the sentinel the code tests for. *)
Theorem dial_equals_plan {X : Type} (huffmanDecode : bytes -> option string)
    (hpackEncode : list (string * string) -> bytes) (hpackDecode : bytes -> list (string * string) * option gerror)
    (errCodeText : Z -> string) (hint : gerror -> string) (fmtHeaders : gmap string string -> string)
    (rawurl : bytes) (w : net X) (Hf : foreignNet hpackDecode w) :
  DialWSStream (Dialers0 := netDialers huffmanDecode hpackEncode hpackDecode errCodeText hint fmtHeaders) rawurl w
  = dialPlanned huffmanDecode hpackEncode hpackDecode errCodeText hint fmtHeaders rawurl w.
Proof.
  unfold DialWSStream, dialPlanned. cbn [clock netDialers Transport.dialRFC9220].
  destruct (Parse rawurl) as [u|e|p]; [|done..]. destruct (upstreamFromURL (Some u)) as [up pr]. cbv zeta.
  set (h := parseTransportHints (Query u)). set (ud := default u _). unfold plan. cbv zeta.
  destruct (tryH3 h && isWebSocketLikeScheme (Scheme u)) eqn:E3.
  - apply andb_true_iff in E3 as [_ Es]. destruct (h3Only h); cbn [tryAll dialOver].
    + destruct (dialOverH3 _ _ _ ud w) as [[c|e|p] w']; reflexivity.
    + destruct (dialOverH3 _ _ _ ud w) as [[c|e|p] w'] eqn:E; [reflexivity| |reflexivity].
      assert (Hf' : foreignNet hpackDecode w') by (unfold dialOverH3 in E; by injection E as _ <-).
      rewrite (dialH2_finish _ _ _ _ _ _ h true) by (done || by rewrite orb_true_r). cbn [tryAll dialOver].
      by destruct (dialOverH2 _ _ _ ud w') as [[c|e2|p] w2].
  - destruct (h3Only h); [done|]. destruct (h2Only h) eqn:E2.
    + destruct (isWebSocketLikeScheme (Scheme u)) eqn:Es; [|unfold dialH2; by rewrite E2, Es].
      rewrite (dialH2_finish _ _ _ _ _ _ h (tryH2 h)) by (done || by rewrite E2). by rewrite E2.
    + destruct (tryH2 h && isWebSocketLikeScheme (Scheme u)) eqn:Et.
      * apply andb_true_iff in Et as [Et Es]. rewrite (dialH2_finish _ _ _ _ _ _ h (tryH2 h)) by (done || by rewrite E2, Et). by rewrite E2.
      * unfold dialH2. rewrite E2, Et. destruct (connectOnly h) eqn:Ec; [unfold dialH1; by rewrite Ec|]. by rewrite dialH1_finish.
Qed.

(** ** Witness *)

(** A server that refuses the HTTP/2 connection. *)
Definition refusedEnv : h2env := {|
  e_ctx := fun _ => None; e_write := fun _ => None; e_closed := fun _ => false; e_pipe := fun _ => true;
  e_tcp := Some (errMsg "connection refused"); e_tls := None; e_alpn := []; e_rand := inr [] |}.
Definition refusedNet : net unit :=
  Net (fun _ _ => H3Answer {| l_listen := Some (errMsg "no socket"); l_dial := None; l_open := fun _ => None;
                             l_write := fun _ b => (zlen b, None); l_ctx := fun _ => None |} (CtxDone context_Canceled ""))
    (fun _ => H2Answer false None (inr (200, "200 OK")) None refusedEnv [] io_EOF) (fun _ => inr tt) (fun _ => 7) 0 [].

Lemma refusedNet_foreign : foreignNet (fun _ => ([], None)) refusedNet.
Proof.
  split; [discriminate|]. intros k. split; [|split; [reflexivity|split; discriminate]].
  split; try discriminate. by intros e [= <-].
Qed.

Lemma dial_equals_plan_witness :
  DialWSStream (Dialers0 := netDialers (fun _ => None) (fun _ => []) (fun _ => ([], None)) (fun _ => ""%string) (fun _ => ""%string) (fun _ => ""%string))
    (str2b "wss://host/tcp?h2=1") refusedNet
  = dialPlanned (fun _ => None) (fun _ => []) (fun _ => ([], None)) (fun _ => ""%string) (fun _ => ""%string) (fun _ => ""%string)
      (str2b "wss://host/tcp?h2=1") refusedNet
  /\ fst <$> n_log (snd (fst (dialPlanned (X := unit) (fun _ => None) (fun _ => []) (fun _ => ([], None)) (fun _ => ""%string) (fun _ => ""%string) (fun _ => ""%string)
      (str2b "wss://host/tcp?h2=1") refusedNet))) = [H2].
Proof. split; [apply dial_equals_plan, refusedNet_foreign|vm_compute; reflexivity]. Defined.
