(* ===== verification/Debug.v ===== *)
(** * Debug logging

    src/internal/ws_debug.go, ws_payload_debug.go and ws_h3_qlog_debug.go: the switch,
    the preview of payloads, and the handler of the QUIC log, with the lines they write
    as values. Socket marks (fwmark_linux.go) and the metrics server's start
    (metrics.go) are here too. *)

From stdpp Require Import pretty.
From S2P Require Import Prelude GoNum GoNet GoURL Metrics Transport.

(** ** The switch and the payloads *)

(** [SetWebSocketDebug(enabled)]: the switch after it. *)
Definition SetWebSocketDebug (enabled old : bool) : bool := enabled.
(** [wsDebugf(format, args)] with what it logs. *)
Definition wsDebugf {A} (enabled : bool) (line : A) : list A := if enabled then [line] else [].

Definition wsPayloadDebugPreviewBytes : Z := 48.

(** The line of [wsDebugPayload]: length, the bytes shown in hexadecimal, and whether
    the line ends in dots. *)
Record payloadLine := PayloadLine { pl_dir : string; pl_upstream : bytes; pl_proto : bytes; pl_len : Z; pl_preview : bytes; pl_dots : bool }.
Definition wsDebugPayload (enabled : bool) (direction : string) (upstream proto payload : bytes) : list payloadLine :=
  if negb enabled then []
  else
    let previewLen := if wsPayloadDebugPreviewBytes <? zlen payload then wsPayloadDebugPreviewBytes else zlen payload in
    let preview := take (Z.to_nat previewLen) payload in
    wsDebugf enabled (PayloadLine direction upstream proto (zlen payload) preview (previewLen <? zlen payload)).

(** ** The QUIC log *)

(** Attributes of a [slog.Record], resolved: groups, lists of values (of which only
    groups are looked at), and everything else by its text. *)
Inductive attr := Attr (key : string) (v : avalue)
with avalue := VGroup (l : list attr) | VList (l : list avalue) | VText (s : string).

(** [flattenAttr(out, prefix, a)]. *)
Fixpoint flattenAttr (prefix : string) (a : attr) (out : gmap string string) : gmap string string :=
  let '(Attr key v) := a in
  let k := if bool_decide (prefix = ""%string) then key else prefix +:+ "." +:+ key in
  match v with
  | VGroup l => (fix go l out := match l with [] => out | ga :: l => go l (flattenAttr k ga out) end) l out
  | VList fs =>
      (fix frames (i : N) fs out :=
         match fs with
         | [] => out
         | VGroup l :: fs =>
             frames (i + 1)%N fs
               ((fix go l out := match l with [] => out | fa :: l => go l (flattenAttr (k +:+ "[" +:+ pretty i +:+ "]") fa out) end) l out)
         | _ :: fs => frames (i + 1)%N fs out
         end) 0%N fs out
  | VText s => <[k := s]> out
  end.
(** [collectSlogAttrs(r)]. *)
Definition collectSlogAttrs (l : list attr) : gmap string string := fold_left (fun out a => flattenAttr "" a out) l ∅.

(** A missing key reads as the empty string. *)
Definition get (m : gmap string string) (k : string) : string := default ""%string (m !! k).
Definition frameKey (i : nat) : string := "frames[" +:+ pretty (N.of_nat i) +:+ "].frame_type".

(** [packetHeaderSummary(attrs)]: packet type and number. *)
Definition packetHeaderSummary (m : gmap string string) : string * string := (get m "header.packet_type", get m "header.packet_number").
(** [packetFrameTypes(attrs)] and [packetHasFrameType(attrs, want)]: the first twelve frames. *)
Definition packetFrameTypes (m : gmap string string) : list string :=
  filter (fun t => t <> ""%string) ((fun i => get m (frameKey i)) <$> seq 0 12).
Definition packetHasFrameType (m : gmap string string) (want : string) : bool :=
  existsb (fun i => bool_decide (get m (frameKey i) = want)) (seq 0 12).

Definition h3QlogFirstPackets : Z := 20.
Record h3QlogDebugHandler := Handler { sent : Z; recv : Z }.

Inductive qline :=
| LParams (m : gmap string string)
| LPacket (out : bool) (n : Z) (hdr : string * string) (types : list string)
| LClose (out : bool) (m : gmap string string)
| LDropped (m : gmap string string)
| LClosed (msg : string) (m : gmap string string).

(** The branch of a sent or received packet with its counter [n]. *)
Definition packetLines (out : bool) (n : Z) (m : gmap string string) : list qline :=
  (if n <=? h3QlogFirstPackets then [LPacket out n (packetHeaderSummary m) (packetFrameTypes m)] else [])
  ++ (if packetHasFrameType m "connection_close" then [LClose out m] else []).

(** [Handle(ctx, r)]: the lines given to [wsDebugf]. *)
Definition Handle (h : h3QlogDebugHandler) (r : string * list attr) : h3QlogDebugHandler * list qline :=
  let '(msg, l) := r in
  let attrs := collectSlogAttrs l in
  if bool_decide (msg = "transport:parameters_set"%string) then (h, [LParams attrs])
  else if bool_decide (msg = "transport:packet_sent"%string) then
    let n := add64 (sent h) 1 in (Handler n (recv h), packetLines true n attrs)
  else if bool_decide (msg = "transport:packet_received"%string) then
    let n := add64 (recv h) 1 in (Handler (sent h) n, packetLines false n attrs)
  else if bool_decide (msg = "connectivity:packet_dropped"%string) then (h, [LDropped attrs])
  else if contains (str2b "connection_closed") (str2b msg) then (h, [LClosed msg attrs]) else (h, []).

(** A log of records. *)
Fixpoint handleAll (h : h3QlogDebugHandler) (rs : list (string * list attr)) : h3QlogDebugHandler * list qline :=
  match rs with
  | [] => (h, [])
  | r :: rs => let '(h, l) := Handle h r in let '(h, l') := handleAll h rs in (h, l ++ l')
  end.

(** ** Socket marks and the metrics server *)

(** [setSocketMark(fd, mark)] on Linux: the option that is set, if any, and the error. *)
Definition setSocketMark (setsockopt : Z -> option gerror) (mark : Z) : option Z * option gerror :=
  if mark =? 0 then (None, None)
  else (Some mark, match setsockopt mark with
                   | Some e => Some (errWrap ("setsockopt SO_MARK=" +:+ pretty mark +:+ ": ") e "")
                   | None => None
                   end).

Definition http_ErrServerClosed : gerror := errSentinel "http: Server closed".
(** [StartMetricsServer(ctx, addr)]: [serve] is what [ListenAndServe] returns. *)
Definition StartMetricsServer (addr : bytes) (serve : gerror) : option gerror :=
  match TrimSpace addr with
  | [] => Some (errMsg "empty metrics address")
  | _ => if negb (errors_Is serve http_ErrServerClosed) then Some (errWrap "metrics server: " serve "") else None
  end.

(** ** Lemmas *)

Definition msgOf (out : bool) : string := if out then "transport:packet_sent" else "transport:packet_received".
Definition counter (out : bool) (h : h3QlogDebugHandler) : Z := if out then sent h else recv h.
(** The packets of a direction, and the numbers under which they are shown. *)
Definition packets (out : bool) (rs : list (string * list attr)) : Z :=
  zlen (filter (fun r => fst r = msgOf out) rs).
Definition numbers (out : bool) (ls : list qline) : list Z :=
  omap (fun l => match l with LPacket o n _ _ => if Bool.eqb o out then Some n else None | _ => None end) ls.

Lemma packetLines_numbers out o n m : numbers out (packetLines o n m) = if Bool.eqb o out && (n <=? h3QlogFirstPackets) then [n] else [].
Proof. unfold packetLines. destruct (n <=? _), (packetHasFrameType m _), o, out; done. Qed.

(** One record: it counts for its own direction only. *)
Lemma handle_step out h r :
  let '(h', ls) := Handle h r in
  if bool_decide (fst r = msgOf out)
  then counter out h' = add64 (counter out h) 1 /\ numbers out ls = if add64 (counter out h) 1 <=? h3QlogFirstPackets then [add64 (counter out h) 1] else []
  else counter out h' = counter out h /\ numbers out ls = [].
Proof.
  destruct r as [msg l]. unfold Handle. cbn [fst].
  case_bool_decide as H1; [subst; by destruct out|]. case_bool_decide as H2.
  { subst. destruct out; cbn -[add64 packetLines numbers]; rewrite packetLines_numbers; done. }
  case_bool_decide as H3.
  { subst. destruct out; cbn -[add64 packetLines numbers]; rewrite packetLines_numbers; done. }
  rewrite (bool_decide_eq_false_2 (msg = msgOf out)) by (destruct out; done).
  case_bool_decide; [done|]. by destruct (contains _ _).
Qed.

Lemma packets_cons out r rs : packets out (r :: rs) = (if bool_decide (fst r = msgOf out) then 1 else 0) + packets out rs.
Proof.
  unfold packets. rewrite filter_cons. case_decide; case_bool_decide; try done. unfold zlen. cbn [length]. lia.
Qed.

Lemma handleAll_numbers out h rs : 0 <= counter out h -> counter out h + zlen rs <= maxInt64 ->
  numbers out (snd (handleAll h rs)) = seqZ (counter out h + 1) (Z.min h3QlogFirstPackets (counter out h + packets out rs) - counter out h).
Proof.
  revert h. induction rs as [|r rs IH]; intros h H0 Hmax.
  { change (packets out []) with 0. rewrite seqZ_nil by lia. done. }
  cbn [handleAll]. pose proof (handle_step out h r) as Hs. destruct (Handle h r) as [h1 l1].
  assert (Hz : zlen (r :: rs) = 1 + zlen rs) by (unfold zlen; cbn [length]; lia). rewrite Hz in Hmax. pose proof (zlen_nonneg rs).
  assert (Ha : add64 (counter out h) 1 = counter out h + 1) by (apply i64_small; unfold isI64, minInt64; lia).
  rewrite Ha in Hs. specialize (IH h1). destruct (handleAll h1 rs) as [h2 l2]. cbn [snd] in *. unfold numbers in *. rewrite omap_app.
  rewrite packets_cons. case_bool_decide; destruct Hs as [Hc Hn]; rewrite Hc in IH; rewrite IH, Hn by lia; clear IH Hn.
  - unfold h3QlogFirstPackets in *. assert (Hp : 0 <= packets out rs) by apply zlen_nonneg.
    destruct (Z.leb_spec (counter out h + 1) 20).
    + rewrite (seqZ_cons (counter out h + 1)) by lia. cbn [app]. f_equal. f_equal; lia.
    + rewrite !seqZ_nil by lia. done.
  - cbn [app]. done.
Qed.

Lemma handleAll_app h rs1 r rs2 l : In l (snd (Handle (fst (handleAll h rs1)) r)) -> In l (snd (handleAll h (rs1 ++ r :: rs2))).
Proof.
  revert h. induction rs1 as [|r1 rs1 IH]; intros h; cbn [handleAll app fst].
  - destruct (Handle h r) as [h1 l1]. cbn [snd]. destruct (handleAll h1 rs2) as [h2 l2]. intros H. apply in_app_iff. by left.
  - destruct (Handle h r1) as [h1 l1]. specialize (IH h1). destruct (handleAll h1 rs1) as [h2 l2]. cbn [fst] in *.
    destruct (handleAll h1 (rs1 ++ r :: rs2)) as [h3 l3]. cbn [snd] in *. intros H. apply in_app_iff. right. by apply IH.
Qed.

(** ** Properties *)

(** The packet log is bounded and closes are never lost: of the packets of each
    direction exactly the first twenty are shown, numbered from one, and a packet with a
    CONNECTION_CLOSE among its first twelve frames is reported however late it is. *)
Theorem qlog_bounded (out : bool) (rs : list (string * list attr)) (Hlen : zlen rs <= maxInt64) :
  numbers out (snd (handleAll (Handler 0 0) rs)) = seqZ 1 (Z.min h3QlogFirstPackets (packets out rs))
  /\ forall rs1 l rs2, rs = rs1 ++ (msgOf out, l) :: rs2 -> packetHasFrameType (collectSlogAttrs l) "connection_close" = true ->
       In (LClose out (collectSlogAttrs l)) (snd (handleAll (Handler 0 0) rs)).
Proof.
  split.
  - rewrite handleAll_numbers by (destruct out; cbn; lia). destruct out; cbn; by rewrite Z.sub_0_r.
  - intros rs1 l rs2 -> Hc. apply handleAll_app. generalize (fst (handleAll (Handler 0 0) rs1)). intros h. unfold Handle.
    destruct out; cbn -[add64 packetLines collectSlogAttrs]; unfold packetLines; rewrite Hc; apply in_app_iff; right; by left.
Qed.
