(* ===== verification/TunReply.v ===== *)
(** * The reply side of UDP flows

    The goroutine that [tunHandleUDP] (src/internal/tun_native.go) starts for a new
    destination, together with the handlers of that destination and the read loop of
    their session, as steps: a handler files the flow and subscribes, datagrams in both
    directions touch the flow, both the handler and the goroutine unsubscribe when they
    end, and idle flows are collected. One source port and one destination are looked at. *)

From stdpp Require Import relations.
From S2P Require Import Prelude GoNum GoNet SocksAddr Config UDPSession PortTable.

(** A handler: in its upload loop, or past it with the flow deleted and the subscription
    not yet closed. *)
Inductive hphase := HRunning | HDeleted.
(** The goroutine: in its [select], with a payload to write to the stack, after the write,
    before its deferred [Unsubscribe]. *)
Inductive rphase := RWaiting | RWriting (a : nat) | RTouching | RLeaving.

(** The session, the handlers, the goroutines with their channels, and what was written
    to the stack. *)
Record flowState := Flow { f_ps : udpPortSession; f_h : list hphase; f_r : list (nat * rphase); f_out : list bytes }.

Section Flow.
Context (c : TunConfig) (dst : bytes).

Definition touch (now : Z) (ps : udpPortSession) : udpPortSession := setFlows ps (<[dst := now]> (flows ps)).

Inductive fstep : flowState -> flowState -> Prop :=
(** A handler for a destination whose flow is filed, or not. *)
| F_known now ps ps' hs rs out :
    addFlow c now dst ps = (Ok None, ps') -> fstep (Flow ps hs rs out) (Flow ps' (hs ++ [HRunning]) rs out)
| F_new now ch ps ps' hs rs out :
    addFlow c now dst ps = (Ok (Some (Some ch)), ps') ->
    fstep (Flow ps hs rs out) (Flow ps' (hs ++ [HRunning]) (rs ++ [(ch, RWaiting)]) out)
(** A datagram of the flow was sent; the end of the handler, in two critical sections. *)
| F_datagram now ps hs1 hs2 rs out :
    fstep (Flow ps (hs1 ++ HRunning :: hs2) rs out) (Flow (touch now ps) (hs1 ++ HRunning :: hs2) rs out)
| F_delete ps hs1 hs2 rs out :
    fstep (Flow ps (hs1 ++ HRunning :: hs2) rs out) (Flow (setFlows ps (delete dst (flows ps))) (hs1 ++ HDeleted :: hs2) rs out)
| F_unsubscribe ps s hs1 hs2 rs out :
    Unsubscribe dst (ps_sess ps) = Ok s ->
    fstep (Flow ps (hs1 ++ HDeleted :: hs2) rs out) (Flow (setSess ps s) (hs1 ++ hs2) rs out)
(** The goroutine: a payload, a closed channel, or the end of the context. *)
| F_reply ch a buf cl s es ps hs rs1 rs2 out :
    chans (ps_sess ps) !! ch = Some (Chan (a :: buf) cl) -> ustep (ps_sess ps) (ATake ch) = Ok (s, es) ->
    fstep (Flow ps hs (rs1 ++ (ch, RWaiting) :: rs2) out) (Flow (setSess ps s) hs (rs1 ++ (ch, RWriting a) :: rs2) out)
| F_closed ch ps hs rs1 rs2 out :
    chans (ps_sess ps) !! ch = Some (Chan [] true) ->
    fstep (Flow ps hs (rs1 ++ (ch, RWaiting) :: rs2) out) (Flow ps hs (rs1 ++ (ch, RLeaving) :: rs2) out)
| F_ctx ch ps hs rs1 rs2 out :
    fstep (Flow ps hs (rs1 ++ (ch, RWaiting) :: rs2) out) (Flow ps hs (rs1 ++ (ch, RLeaving) :: rs2) out)
(** The write to the stack, with the release of the payload. *)
| F_written ch a i s es ps hs rs1 rs2 out :
    held (ps_sess ps) !! i = Some a -> ustep (ps_sess ps) (ARelease i) = Ok (s, es) ->
    fstep (Flow ps hs (rs1 ++ (ch, RWriting a) :: rs2) out)
      (Flow (setSess ps s) hs (rs1 ++ (ch, RTouching) :: rs2) (out ++ [content (ps_sess ps) a]))
| F_write_failed ch a i s es ps hs rs1 rs2 out :
    held (ps_sess ps) !! i = Some a -> ustep (ps_sess ps) (ARelease i) = Ok (s, es) ->
    fstep (Flow ps hs (rs1 ++ (ch, RWriting a) :: rs2) out) (Flow (setSess ps s) hs (rs1 ++ (ch, RLeaving) :: rs2) out)
| F_touched now ch ps hs rs1 rs2 out :
    fstep (Flow ps hs (rs1 ++ (ch, RTouching) :: rs2) out) (Flow (touch now ps) hs (rs1 ++ (ch, RWaiting) :: rs2) out)
(** The deferred [Unsubscribe]. *)
| F_leave ch s ps hs rs1 rs2 out :
    Unsubscribe dst (ps_sess ps) = Ok s ->
    fstep (Flow ps hs (rs1 ++ (ch, RLeaving) :: rs2) out) (Flow (setSess ps s) hs (rs1 ++ rs2) out)
(** The read loop of the session. *)
| F_session x s es ps hs rs out :
    match x with APacket _ _ | AReadErr | ALookup | ASend => True | _ => False end ->
    ustep (ps_sess ps) x = Ok (s, es) -> fstep (Flow ps hs rs out) (Flow (setSess ps s) hs rs out)
(** [gcOnce]: the idle flows of the session are deleted and unsubscribed, in one critical
    section of the session; the session itself is closed. *)
| F_collect now ps ps' hs rs out :
    gcFlows now (flowIdle c) ps = Ok ps' -> fstep (Flow ps hs rs out) (Flow ps' hs rs out)
| F_close s ps hs rs out :
    Close (ps_sess ps) = Ok s -> fstep (Flow ps hs rs out) (Flow (setSess ps s) hs rs out).

Definition startFlow (ps : udpPortSession) : flowState := Flow ps [] [] [].
End Flow.

(** ** Lemmas *)

Lemma takeBuffer_subs pick data s s' a : takeBuffer pick data s = (s', a) -> subs s' = subs s.
Proof. unfold takeBuffer. by repeat case_match; intros [= <- <-]. Qed.
Lemma Release_subs s a : subs (Release s a) = subs s.
Proof. unfold Release. by case_match. Qed.

(** Only subscribing, unsubscribing and closing change the subscriptions. *)
Lemma ustep_subs s x s' es :
  match x with ASubscribe _ | AUnsubscribe _ | AClose => False | _ => True end -> ustep s x = Ok (s', es) -> subs s' = subs s.
Proof.
  intros Hx H. destruct x as [| | |plain pick| | | |ch|i]; try done; cbn [ustep] in H.
  - destruct (UDPSession.rd s); [|by simplify_eq..]. unfold readPacket in H. destruct (parseAddrKeyFromPlain plain) as [[[k off]|]|e|w]; cbn in H; try by simplify_eq.
    case_match; [by simplify_eq|]. case_match; [by simplify_eq|]. destruct (takeBuffer _ _ s) as [s1 a] eqn:E. simplify_eq. by apply takeBuffer_subs in E.
  - destruct (UDPSession.rd s); by simplify_eq.
  - destruct (UDPSession.rd s); by simplify_eq.
  - destruct (UDPSession.rd s) as [| |k ch a|]; try by simplify_eq. unfold trySend in H. destruct ch as [ch|]; cbn in H; [|simplify_eq; by rewrite Release_subs].
    destruct (chans s !! ch) as [x|]; cbn in H; [|simplify_eq; by rewrite Release_subs]. destruct (c_closed x); [done|].
    case_match; cbn in H; simplify_eq; [done|by rewrite Release_subs].
  - destruct (chans s !! ch) as [[[|a buf] cl]|]; by simplify_eq.
  - destruct (held s !! i); simplify_eq; [by rewrite Release_subs|done].
Qed.

(** Collecting subscribes nobody. *)
Lemma gcFlows_subs k now idle ps ps' : gcFlows now idle ps = Ok ps' -> subs (ps_sess ps) !! k = None -> subs (ps_sess ps') !! k = None.
Proof.
  unfold gcFlows. generalize (map_to_list (flows ps)). intros l. revert ps. induction l as [|[d last] l IH]; intros ps E Hn; [by simplify_eq/=|].
  cbn [fold_left mbind res_bind] in E. destruct (idle <? timeSub now last); [|by apply (IH ps)].
  destruct (Unsubscribe d (ps_sess ps)) as [s|e|w] eqn:Eu; cbn [mbind res_bind] in E.
  - eapply IH; [exact E|]. cbn. rewrite (Unsubscribe_subs _ _ _ Eu). destruct (addrKeyFromHostPort d); [|done]. by rewrite lookup_delete_None; right.
  - exfalso. clear -E. induction l as [|[d' last'] l IH]; [done|]. by apply IH.
  - exfalso. clear -E. induction l as [|[d' last'] l IH]; [done|]. by apply IH.
Qed.

Lemma Close_subs s s' : Close s = Ok s' -> subs s' = ∅.
Proof. unfold Close. destruct (closeChans _ _); cbn; intros E; by simplify_eq. Qed.

(** The flow is filed and nobody is subscribed to its peer. *)
Definition lost (dst : bytes) (k : addrKey) (st : flowState) : Prop :=
  subs (ps_sess (f_ps st)) !! k = None /\ is_Some (flows (f_ps st) !! dst).

(** ** Property *)

(** C38: a goroutine that ends unsubscribes whatever flow has the destination by then: when
    the handler it belonged to has ended and a new one has filed the flow and subscribed
    again, the new subscription is closed. From then on, until a handler of the
    destination ends or the flow is collected as idle, nothing subscribes again, neither
    new handlers nor datagrams in either direction, so the replies of the peer are
    dropped. *)
Theorem reply_end_unsubscribes_next_flow (c : TunConfig) (dst : bytes) (k : addrKey) (Hk : addrKeyFromHostPort dst = Some k)
    (ch : nat) (ps : udpPortSession) (hs : list hphase) (rs1 rs2 : list (nat * rphase)) (out : list bytes) (st1 st2 : flowState)
    (s : OutlineUDPSession) (Hfiled : is_Some (flows ps !! dst)) (Hun : Unsubscribe dst (ps_sess ps) = Ok s) :
  let st0 := Flow (setSess ps s) hs (rs1 ++ rs2) out in
  fstep c dst (Flow ps hs (rs1 ++ (ch, RLeaving) :: rs2) out) st0 /\ lost dst k st0
  /\ (lost dst k st1 -> fstep c dst st1 st2 ->
      lost dst k st2 \/ flows (f_ps st2) = delete dst (flows (f_ps st1))
      \/ (exists now, gcFlows now (flowIdle c) (f_ps st1) = Ok (f_ps st2) /\ flows (f_ps st2) !! dst = None)).
Proof.
  intros st0. split; [by apply F_leave|]. split.
  { split; [|done]. cbn. rewrite (Unsubscribe_subs _ _ _ Hun), Hk. apply lookup_delete_eq. }
  intros [Hn Hf] Hs. destruct Hs; cbn [f_ps ps_sess flows setSess setFlows touch] in *.
  - left. unfold addFlow in H. destruct Hf as [v Hf]. rewrite Hf in H. simplify_eq. by split.
  - unfold addFlow in H. destruct Hf as [v Hf]. by rewrite Hf in H.
  - left. split; [done|]. cbn. rewrite lookup_insert_eq. by eexists.
  - by right; left.
  - left. split; [|done]. cbn. rewrite (Unsubscribe_subs _ _ _ H), Hk. apply lookup_delete_eq.
  - left. split; [|done]. cbn. by rewrite (ustep_subs _ (ATake ch0) _ _ I H0).
  - by left.
  - by left.
  - left. split; [|done]. cbn. by rewrite (ustep_subs _ (ARelease i) _ _ I H0).
  - left. split; [|done]. cbn. by rewrite (ustep_subs _ (ARelease i) _ _ I H0).
  - left. split; [done|]. cbn. rewrite lookup_insert_eq. by eexists.
  - left. split; [|done]. cbn. rewrite (Unsubscribe_subs _ _ _ H), Hk. apply lookup_delete_eq.
  - left. split; [|done]. cbn. rewrite (ustep_subs _ x _ _ ltac:(by destruct x) H0). done.
  - destruct (flows ps' !! dst) as [v|] eqn:Ev; [left|right; right; by exists now].
    split; [by eapply gcFlows_subs|by eexists].
  - left. split; [|done]. cbn. by rewrite (Close_subs _ _ H).
Qed.

(** ** Witness *)

(** A first handler has ended and a second one has subscribed, before the goroutine of
    the first has noticed. *)
Definition restarted : udpPortSession :=
  match Unsubscribe peerDemo (ps_sess (snd (addFlow cfgDemo 5 peerDemo (sessDemo 1)))) with
  | Ok s => snd (addFlow cfgDemo 7 peerDemo (setSess (setFlows (snd (addFlow cfgDemo 5 peerDemo (sessDemo 1))) ∅) s))
  | _ => sessDemo 1
  end.

Lemma restarted_reachable :
  rtc (fstep cfgDemo peerDemo) (startFlow (sessDemo 1)) (Flow restarted [HRunning] ([(0%nat, RLeaving)] ++ [(1%nat, RWaiting)]) []).
Proof.
  eapply rtc_l; [eapply (F_new cfgDemo peerDemo 5 0); vm_compute; reflexivity|].
  eapply rtc_l; [eapply (F_delete _ _ _ [] [])|].
  eapply rtc_l; [eapply (F_unsubscribe _ _ _ _ [] []); vm_compute; reflexivity|].
  eapply rtc_l; [eapply (F_closed _ _ 0 _ _ [] []); vm_compute; reflexivity|].
  eapply rtc_l; [eapply (F_new cfgDemo peerDemo 7 1); vm_compute; reflexivity|].
  vm_compute. apply rtc_refl.
Qed.

Lemma reply_end_unsubscribes_next_flow_witness :
  exists st, rtc (fstep cfgDemo peerDemo) (startFlow (sessDemo 1)) st /\ f_h st = [HRunning]
    /\ lost peerDemo (addrKeyOf (A4 [Byte.x01; Byte.x01; Byte.x01; Byte.x01]) 53) st.
Proof.
  destruct (Unsubscribe peerDemo (ps_sess restarted)) as [s|e|x] eqn:E; [|vm_compute in E; discriminate E..].
  destruct (reply_end_unsubscribes_next_flow cfgDemo peerDemo (addrKeyOf (A4 [Byte.x01; Byte.x01; Byte.x01; Byte.x01]) 53)
    ltac:(vm_compute; reflexivity) 0 restarted [HRunning] [] [(1%nat, RWaiting)] [] (startFlow restarted) (startFlow restarted) s
    ltac:(vm_compute; eexists; reflexivity) E) as (H1 & H2 & _).
  eexists. split; [eapply rtc_r; [exact restarted_reachable|exact H1]|]. split; [reflexivity|exact H2].
Defined.
