(* ===== verification/TunTCP.v ===== *)
(** * The two copies of a TCP flow through the TUN device

    The end of [tunHandleTCP] (src/internal/tun_native.go), once the destination is
    dialled: one copy in a goroutine, from the stack's connection to the upstream, the
    other in the handler, after which the deferred calls close both. The connections and
    the copies are those of RelayRun: [io.Copy] has a smaller buffer, or the stream's own
    [ReadFrom] and [WriteTo], so its reads are among those of a copy there. Whatever
    ends the upstream's input (its end, an error, the context) is a step of the world. *)

From stdpp Require Import relations.
From S2P Require Import Prelude Relay RelayRun.

(** The stack's connection, the upstream's, the copy of the goroutine, that of the
    handler, and whether the handler has returned. *)
Record tflow := TFlow { t_ns : side; t_out : side; t_up : cphase; t_down : cphase; t_ret : bool }.
Definition startTunTCP : tflow := TFlow newSide newSide CReading CReading false.

Inductive tcpstep : tflow -> tflow -> Prop :=
| X_up st ph src dst out :
    cstep (t_up st) (t_ns st) (t_out st) ph src dst out -> tcpstep st (TFlow src dst ph (t_down st) (t_ret st))
| X_down st ph src dst out :
    cstep (t_down st) (t_out st) (t_ns st) ph src dst out -> tcpstep st (TFlow dst src (t_up st) ph (t_ret st))
(** The return of the handler with its deferred calls. *)
| X_return st e :
    t_down st = CDone e -> t_ret st = false -> tcpstep st (TFlow (close (t_ns st)) (close (t_out st)) (t_up st) (t_down st) true).

Inductive worldstep : tflow -> tflow -> Prop :=
| Y_ns st b : s_end (t_ns st) = None -> worldstep st (TFlow (arrive (t_ns st) b) (t_out st) (t_up st) (t_down st) (t_ret st))
| Y_ns_end st e : s_end (t_ns st) = None -> worldstep st (TFlow (finish (t_ns st) e) (t_out st) (t_up st) (t_down st) (t_ret st))
| Y_out st b : s_end (t_out st) = None -> worldstep st (TFlow (t_ns st) (arrive (t_out st) b) (t_up st) (t_down st) (t_ret st))
| Y_out_end st e : s_end (t_out st) = None -> worldstep st (TFlow (t_ns st) (finish (t_out st) e) (t_up st) (t_down st) (t_ret st)).

Inductive flowstep (st st' : tflow) : Prop :=
| Z_program : tcpstep st st' -> flowstep st st'
| Z_world : worldstep st st' -> flowstep st st'.
Definition flowReachable (st : tflow) : Prop := rtc flowstep startTunTCP st.

(** ** Invariant *)

Record tinv (st : tflow) : Prop := {
  ti_up : flowOk (t_up st) (t_ns st) (t_out st);
  ti_down : flowOk (t_down st) (t_out st) (t_ns st);
  ti_closed : s_closed (t_out st) = t_ret st /\ s_closed (t_ns st) = t_ret st;
  ti_ret : t_ret st = true -> exists e, t_down st = CDone e;
  ti_clean : t_down st = CDone None -> s_wrote (t_ns st) = s_sent (t_out st) /\ s_end (t_out st) = Some io_EOF }.

Lemma flowOk_finish ph src dst e : s_end src = None -> flowOk ph src dst -> flowOk ph (finish src e) dst.
Proof.
  intros He. destruct ph as [|b|[x|]]; try done. intros [F F']. split; [exact F|]. intros Hc. destruct (F' Hc). congruence.
Qed.

Lemma tinv_program st st' : tinv st -> tcpstep st st' -> tinv st'.
Proof.
  intros [F1 F2 [C1 C2] R Cl] Hs. destruct Hs as [st ph src dst out Hc|st ph src dst out Hc|st e Hd Hr].
  - destruct (cstep_ok _ _ _ _ _ _ _ Hc F1) as (Fl & (A1 & A2 & A3 & A4) & (B1 & B2 & B3 & B4) & _).
    split; cbn; [done|by eapply flowOk_frame; [..|exact F2]; congruence|split; congruence|done|]. intros Hd. rewrite A1, B2, B3. by apply Cl.
  - destruct (cstep_ok _ _ _ _ _ _ _ Hc F2) as (Fl & (A1 & A2 & A3 & A4) & (B1 & B2 & B3 & B4) & R1 & _).
    assert (Hret : t_ret st = false). { destruct (t_ret st); [|done]. destruct (R eq_refl) as [e E]. by rewrite E in R1. }
    split; cbn; [by eapply flowOk_frame; [..|exact F1]; congruence|done|split; congruence|by rewrite Hret|].
    intros ->. destruct Fl as [Fl Fl']. destruct Fl' as [Ha He]; [congruence|]. by rewrite Ha, app_nil_r in Fl.
  - split; cbn; [by eapply flowOk_frame; [..|exact F1]|by eapply flowOk_frame; [..|exact F2]|done|by eauto|exact Cl].
Qed.

Lemma tinv_world st st' : tinv st -> worldstep st st' -> tinv st'.
Proof.
  intros [F1 F2 C R Cl] Hs. destruct Hs as [st b He|st e He|st b He|st e He]; split; cbn; try done;
    first [by apply flowOk_arrive|by apply flowOk_finish|by eapply flowOk_frame; [..|exact F1]|by eapply flowOk_frame; [..|exact F2]
          |intros Hd; destruct (Cl Hd); congruence].
Qed.

Lemma tinv_reachable st : flowReachable st -> tinv st.
Proof.
  apply (rtc_ind_r tinv startTunTCP); [by split|]. intros st1 st2 _ [Hs|Hs] IH; [by eapply tinv_program|by eapply tinv_world].
Qed.

(** ** Termination *)

Definition tmeasure (st : tflow) : nat :=
  2 * (length (s_avail (t_ns st)) + length (s_avail (t_out st))) + cweight (t_up st) + cweight (t_down st) + (if t_ret st then 0 else 1).

Lemma tcpstep_sn st : sn tcpstep st.
Proof.
  remember (tmeasure st) as n eqn:E. revert st E. induction (lt_wf n) as [n _ IH]. intros st ->. constructor. intros st' Hs.
  eapply IH; [|done]. destruct Hs as [st ph src dst out Hc|st ph src dst out Hc|st e Hd Hr]; unfold tmeasure;
    try (apply cstep_measure in Hc); cbn; rewrite ?Hr; lia.
Qed.

(** A copy that cannot go on: it has returned, or it waits for an open and silent peer. *)
Lemma copy_stuck ph src dst : (forall ph' src' dst' out, ~ cstep ph src dst ph' src' dst' out) ->
  (exists e, ph = CDone e) \/ (ph = CReading /\ s_closed src = false /\ s_avail src = [] /\ s_end src = None).
Proof.
  intros Hn. destruct ph as [|b|e]; [|exfalso; by apply (Hn _ _ _ _ (C_write_fail src dst b 0 io_EOF))|left; by eexists]. right.
  destruct (s_closed src) eqn:Hc; [exfalso; by apply (Hn _ _ _ _ (C_read_closed src dst io_EOF Hc))|].
  destruct (s_avail src) as [|x l] eqn:Ha.
  - destruct (s_end src) as [e|] eqn:He; [exfalso; by apply (Hn _ _ _ _ (C_read_end src dst e Hc Ha He))|done].
  - exfalso. apply (Hn _ _ _ _ (C_read src dst [x] l Hc Ha ltac:(done) ltac:(vm_compute; discriminate))).
Qed.

Lemma flow_stuck st : tinv st -> nf tcpstep st ->
  (t_ret st = true /\ (exists e, t_up st = CDone e) /\ exists e, t_down st = CDone e)
  \/ (t_ret st = false /\ t_down st = CReading /\ s_avail (t_out st) = [] /\ s_end (t_out st) = None).
Proof.
  intros [F1 F2 [C1 C2] R _] Hnf.
  destruct (copy_stuck (t_down st) (t_out st) (t_ns st)) as [[e Hd]|(Hd & Hc & Ha & He)].
  { intros ph' src' dst' out Hs. apply Hnf. eexists. by eapply X_down. }
  - destruct (t_ret st) eqn:Er; [|destruct Hnf; eexists; by eapply X_return]. left. split; [done|]. split; [|by exists e].
    destruct (copy_stuck (t_up st) (t_ns st) (t_out st)) as [?|(_ & Hc & _)]; [|done|congruence].
    intros ph' src' dst' out Hs. apply Hnf. eexists. by eapply X_up.
  - right. split; [congruence|done].
Qed.

(** ** Property *)

(** C36: a TCP flow of the TUN device. In every interleaving what reaches the upstream is a
    prefix of what the workload sent and the other way round; every run is finite
    without new input. Where it stops after the upstream has ended, the handler and both
    copies have returned, both connections are closed, and after a clean end the
    workload has everything the upstream sent. But the end of the workload is not
    passed on: as long as the upstream is silent, the handler waits and the upstream's
    connection stays open. *)
Theorem tun_tcp_relay (st : tflow) (Hr : flowReachable st) :
  s_wrote (t_out st) `prefix_of` s_sent (t_ns st) /\ s_wrote (t_ns st) `prefix_of` s_sent (t_out st) /\ sn tcpstep st
  /\ (nf tcpstep st -> is_Some (s_end (t_out st)) ->
      t_ret st = true /\ s_closed (t_ns st) = true /\ s_closed (t_out st) = true
      /\ (exists e, t_up st = CDone e) /\ (exists e, t_down st = CDone e)
      /\ (t_down st = CDone None -> s_wrote (t_ns st) = s_sent (t_out st)))
  /\ (t_up st = CDone None -> t_down st = CReading -> s_avail (t_out st) = [] -> s_end (t_out st) = None ->
      nf tcpstep st /\ s_closed (t_out st) = false).
Proof.
  pose proof (tinv_reachable st Hr) as Hi. pose proof Hi as [F1 F2 [C1 C2] R Cl].
  assert (Hp : forall ph src dst, flowOk ph src dst -> s_wrote dst `prefix_of` s_sent src).
  { intros ph src dst F. destruct ph as [|b|[e|]]; cbn in F; [by eexists|by eexists|done|]. destruct F as [F _]. by eexists. }
  split; [by eapply Hp|]. split; [by eapply Hp|]. split; [apply tcpstep_sn|]. split.
  - intros Hnf [e He]. destruct (flow_stuck st Hi Hnf) as [(Er & Hu & Hd)|(_ & _ & _ & Hn)]; [|congruence].
    rewrite C1, C2, Er. split; [done|]. split; [done|]. split; [done|]. split; [done|]. split; [done|]. intros E. by apply Cl.
  - intros Hu Hd Ha He. assert (Er : t_ret st = false). { destruct (t_ret st); [|done]. destruct (R eq_refl) as [e E]. congruence. }
    split; [|congruence]. intros [st' Hs]. inversion Hs; subst; try congruence;
      match goal with H : cstep _ _ _ _ _ _ _ |- _ => rewrite ?Hu, ?Hd in H; inversion H; subst end; try congruence.
    match goal with H : s_avail _ = _ ++ _ |- _ => rewrite Ha in H end. by destruct b.
Qed.

(** ** Witness *)

(** The workload has sent a request and closed; the upstream is silent. *)
Definition halfClosed : tflow :=
  TFlow (Side answer [] (Some io_EOF) false []) (Side [] [] None false answer) (CDone None) CReading false.

Lemma halfClosed_reachable : flowReachable halfClosed.
Proof.
  eapply rtc_l; [apply Z_world, (Y_ns _ answer); reflexivity|].
  eapply rtc_l; [eapply Z_program, X_up, (C_read _ _ answer []); vm_compute; (reflexivity || discriminate)|].
  eapply rtc_l; [eapply Z_program, X_up, C_write; reflexivity|].
  eapply rtc_l; [apply Z_world, (Y_ns_end _ io_EOF); reflexivity|].
  eapply rtc_l; [eapply Z_program, X_up, (C_read_end _ _ io_EOF); reflexivity|]. apply rtc_refl.
Qed.

Lemma tun_tcp_relay_witness : nf tcpstep halfClosed /\ s_closed (t_out halfClosed) = false.
Proof. refine (proj2 (proj2 (proj2 (proj2 (tun_tcp_relay halfClosed halfClosed_reachable)))) _ _ _ _); reflexivity. Defined.
