(* ===== verification/BalancerRun.v ===== *)
(** * The running balancer

    Every goroutine that works on a [LoadBalancer] at once: the selections and reports of
    the data path, one critical section of src/internal/lb.go at a time, with the check
    goroutines of Probing and the standby goroutines of Standby, on one balancer. *)

From stdpp Require Import relations.
From S2P Require Import Prelude GoNum GoNet Config Metrics HealthCheck LoadBalancer WSFrame WSConn Transport Standby Probing Balancer.

(** ** The data path, lock by lock *)

(** A call of [pickByEndpoint] at the time [now] it has read: before its first lock; about
    to look at the sticky upstream; in the loop of [pickBestCandidateByEndpoint] before
    the upstream [i]; about to look at the current upstream once more; about to set the
    current upstream; about to log; returned. A call of [ReportTCPFailure] or
    [ReportUDPFailure]: before its first and its second lock; returned. *)
Inductive flow :=
| PStart (isTCP : bool) (now : Z)
| PSticky (now : Z) (cur : nat)
| PScan (isTCP : bool) (now : Z) (cur : option nat) (i : nat) (best : option nat) (bestScore : float64) (bestRTT : Z)
| PHyst (now : Z) (cur best : nat) (bestRTT : Z)
| PSet (now : Z) (i : nat) (reason : bytes)
| PLog (isTCP : bool) (i : nat) (reason : bytes)
| PDone (isTCP : bool) (r : res nat)
| RMark (isTCP : bool) (rng : Z -> Z) (now : Z) (i : nat) (err : option gerror)
| RReset (i : nat)
| RDone.

Section Flow.
Context {C : Type}.
Implicit Types (lb : LoadBalancer C) (f : flow).

(** The loop starts with [best] nil. *)
Definition scan (isTCP : bool) (now : Z) (cur : option nat) : flow := PScan isTCP now cur 0 None maxScore 0.

(** One round of the loop, under the lock of the upstream [s]. *)
Definition scanOne (hcc : HealthcheckConfig) (isTCP : bool) (now : Z) (cur : option nat) (i : nat) (s : UpstreamState C)
    (best : option nat) (bestScore : float64) (bestRTT : Z) : flow :=
  if negb (eligible isTCP now s) then PScan isTCP now cur (S i) best bestScore bestRTT
  else
    let sc := scoreOf hcc isTCP now s in
    if f64_ltb sc bestScore then PScan isTCP now cur (S i) (Some i) sc (rttEWMA (endpoint isTCP s))
    else PScan isTCP now cur (S i) best bestScore bestRTT.

(** What follows the loop. *)
Definition scanned (isTCP : bool) (now : Z) (cur best : option nat) (bestRTT : Z) : flow :=
  match best with
  | None => PDone isTCP (Err (errMsg "no healthy upstreams"))
  | Some b =>
      if isTCP then
        match cur with
        | Some c => PHyst now c b bestRTT
        | None => PSet now b (str2b "best-candidate")
        end
      else PLog false b (str2b "best-candidate")
  end.

(** The next critical section of a goroutine, with what it shows outside; [nowLog] is the
    clock in [logSelectionIfChanged]. *)
Definition fnext (nowLog : Z) lb f : option (LoadBalancer C * flow * list ev) :=
  match f with
  | PStart isTCP now =>
      let cur := current lb in
      Some (lb, match cur with
                | Some c => if isTCP && Before now (stickyUntil lb) then PSticky now c else scan isTCP now cur
                | None => scan isTCP now cur
                end, [])
  | PSticky now c =>
      Some (if curOK now lb c then (lb, PDone true (Ok c), [EvMetric (observeSelection (nameOf lb c) sTCP)])
            else (lb, scan true now (Some c), []))
  | PScan isTCP now cur i best bestScore bestRTT =>
      Some (lb, match pool lb !! i with
                | Some s => scanOne (hc lb) isTCP now cur i s best bestScore bestRTT
                | None => scanned isTCP now cur best bestRTT
                end, [])
  | PHyst now c b bestRTT =>
      Some (lb, if keepCurrent now lb c b bestRTT then PSet now c (str2b "hysteresis") else PSet now b (str2b "best-candidate"), [])
  | PSet now i reason => Some (setSticky lb (Some i) (timeAdd now (StickyTTL (sel lb))), PLog true i reason, [])
  | PLog isTCP i reason =>
      let proto := if isTCP then sTCP else sUDP in
      let '(lb, evs) := logSelectionIfChanged nowLog proto (nameOf lb i) reason lb in
      Some (lb, PDone isTCP (Ok i), evs ++ [EvMetric (observeSelection (nameOf lb i) proto)])
  | RMark isTCP rng now i err =>
      let '(lb, evs) := reportFailure isTCP rng now i err lb in Some (lb, if isTCP then RReset i else RDone, evs)
  | RReset i => Some (if bool_decide (current lb = Some i) then setSticky lb (current lb) timeZero else lb, RDone, [])
  | PDone _ _ | RDone => None
  end.

(** A goroutine on its own: at most [fuel] critical sections. *)
Fixpoint runFlow (fuel : nat) (nowLog : Z) lb f : LoadBalancer C * flow * list ev :=
  match fuel with
  | O => (lb, f, [])
  | S k =>
      match fnext nowLog lb f with
      | None => (lb, f, [])
      | Some (lb, f, evs) => let '(lb, f, more) := runFlow k nowLog lb f in (lb, f, evs ++ more)
      end
  end.

(** *** Alone, the critical sections amount to the operations of LoadBalancer *)

Lemma runFlow_next fuel nowLog lb f lb' f' evs :
  fnext nowLog lb f = Some (lb', f', evs) ->
  runFlow (S fuel) nowLog lb f = let '(lb, f, more) := runFlow fuel nowLog lb' f' in (lb, f, evs ++ more).
Proof. intros E. cbn [runFlow]. by rewrite E. Qed.

(** The loop over the rest of the pool, then what follows it. *)
Lemma runFlow_scan fuel nowLog lb isTCP now cur p i best bs rtt :
  pool lb = take i (pool lb) ++ p -> length (take i (pool lb)) = i ->
  runFlow (length p + S fuel) nowLog lb (PScan isTCP now cur i best bs rtt)
  = let '(b, _, r) := pickLoop (hc lb) isTCP now (fun _ => false) i p best bs rtt in
    runFlow fuel nowLog lb (scanned isTCP now cur b r).
Proof.
  revert i best bs rtt. induction p as [|s p IH]; intros i best bs rtt Hp Hi.
  - cbn [length Nat.add pickLoop]. rewrite app_nil_r in Hp.
    assert (Hn : pool lb !! i = None) by (apply lookup_ge_None_2; rewrite Hp; lia).
    rewrite (runFlow_next _ _ lb _ lb (scanned isTCP now cur best rtt) []) by (cbn; by rewrite Hn).
    by destruct (runFlow _ _ _ _) as [[? ?] ?].
  - assert (Hs : pool lb !! i = Some s) by (rewrite Hp; by apply list_lookup_middle).
    assert (Hp' : pool lb = take (S i) (pool lb) ++ p /\ length (take (S i) (pool lb)) = S i).
    { rewrite (take_S_r _ _ _ Hs), length_app, Hi. cbn. split; [|lia]. by rewrite <- app_assoc. }
    destruct Hp' as [Hp1 Hp2]. cbn [length Nat.add pickLoop orb].
    rewrite (runFlow_next _ _ lb _ lb (scanOne (hc lb) isTCP now cur i s best bs rtt) []) by (cbn; by rewrite Hs).
    unfold scanOne. destruct (negb (eligible isTCP now s)); [|destruct (f64_ltb _ _)];
      (rewrite IH; [|done..]); destruct (pickLoop _ _ _ _ _ _ _ _ _) as [[? ?] ?]; by destruct (runFlow _ _ _ _) as [[? ?] ?].
Qed.

Lemma runFlow_scan0 fuel nowLog lb isTCP now cur :
  runFlow (length (pool lb) + S fuel) nowLog lb (scan isTCP now cur)
  = let '(b, _, r) := pickLoop (hc lb) isTCP now (fun _ => false) 0 (pool lb) None maxScore 0 in
    runFlow fuel nowLog lb (scanned isTCP now cur b r).
Proof. by apply runFlow_scan. Qed.

(** The tail of a selection for TCP. *)
Lemma runFlow_set fuel nowLog lb now i reason :
  runFlow (S (S fuel)) nowLog lb (PSet now i reason)
  = let '(r, lb', evs) := select now nowLog i reason lb in (lb', PDone true r, evs).
Proof.
  cbn [runFlow fnext]. unfold select. destruct (logSelectionIfChanged _ _ _ _ _) as [lb' evs].
  destruct fuel; cbn; by rewrite app_nil_r.
Qed.

(** What a selection comes to from the loop on. *)
Definition chosen (isTCP : bool) (now nowLog : Z) lb : res nat * LoadBalancer C * list ev :=
  match pickBestCandidateByEndpoint isTCP now lb with
  | Ok (best, bestRTT) =>
      if isTCP then
        match current lb with
        | Some cur =>
            if keepCurrent now lb cur best bestRTT then select now nowLog cur (str2b "hysteresis") lb
            else select now nowLog best (str2b "best-candidate") lb
        | None => select now nowLog best (str2b "best-candidate") lb
        end
      else
        let '(lb, evs) := logSelectionIfChanged nowLog sUDP (nameOf lb best) (str2b "best-candidate") lb in
        (Ok best, lb, evs ++ [EvMetric (observeSelection (nameOf lb best) sUDP)])
  | Err e => (Err e, lb, [])
  | Panic w => (Panic w, lb, [])
  end.

Lemma runFlow_chosen k nowLog lb isTCP now cur : cur = current lb ->
  runFlow (length (pool lb) + S (S (S (S k)))) nowLog lb (scan isTCP now cur)
  = let '(r, lb', evs) := chosen isTCP now nowLog lb in (lb', PDone isTCP r, evs).
Proof.
  intros ->. rewrite runFlow_scan0. unfold chosen, pickBestCandidateByEndpoint.
  destruct (pickLoop _ _ _ _ _ _ _ _ _) as [[[b|] bs] r]; cbn [scanned]; [|done].
  destruct isTCP.
  - destruct (current lb) as [c|]; [|apply runFlow_set].
    rewrite (runFlow_next _ _ lb _ lb _ []) by done. destruct (keepCurrent _ _ _ _ _);
      rewrite runFlow_set; by destruct (select _ _ _ _ _) as [[? ?] ?].
  - cbn [runFlow fnext]. destruct (logSelectionIfChanged _ _ _ _ _) as [lb' evs]. cbn. by rewrite app_nil_r.
Qed.

Lemma runFlow_pick fuel nowLog lb isTCP now :
  runFlow (length (pool lb) + 6 + fuel) nowLog lb (PStart isTCP now)
  = let '(r, lb', evs) := pickByEndpoint isTCP now nowLog lb in (lb', PDone isTCP r, evs).
Proof.
  replace (length (pool lb) + 6 + fuel)%nat with (S (S (length (pool lb) + S (S (S (S fuel))))))%nat by lia.
  unfold pickByEndpoint. fold (chosen isTCP now nowLog lb). destruct (current lb) as [c|] eqn:Ec.
  - destruct (isTCP && Before now (stickyUntil lb)) eqn:Es.
    + apply andb_true_iff in Es as [-> Es]. rewrite (runFlow_next _ _ lb _ lb (PSticky now c) []) by (cbn; by rewrite Ec, Es).
      cbn [andb]. destruct (curOK now lb c) eqn:Eo.
      * cbn [runFlow fnext]. rewrite Eo. by destruct (length (pool lb) + _)%nat.
      * rewrite (runFlow_next _ _ lb _ lb (scan true now (Some c)) []) by (cbn; by rewrite Eo).
        rewrite (runFlow_chosen _ _ _ _ _ (Some c)) by done. by destruct (chosen _ _ _ _) as [[? ?] ?].
    + cbn [andb]. rewrite (runFlow_next _ _ lb _ lb (scan isTCP now (Some c)) []) by (cbn; by rewrite Ec, Es).
      rewrite plus_n_Sm, (runFlow_chosen _ _ _ _ _ (Some c)) by done. by destruct (chosen _ _ _ _) as [[? ?] ?].
  - rewrite (runFlow_next _ _ lb _ lb (scan isTCP now None) []) by (cbn; by rewrite Ec).
    rewrite plus_n_Sm, (runFlow_chosen _ _ _ _ _ None) by done. by destruct (chosen _ _ _ _) as [[? ?] ?].
Qed.

Lemma runFlow_report nowLog lb rng now i err :
  runFlow 2 nowLog lb (RMark true rng now i err) = let '(lb', evs) := ReportTCPFailure rng now (Some i) err lb in (lb', RDone, evs).
Proof. cbn. by case_bool_decide. Qed.
Lemma runFlow_reportUDP fuel nowLog lb rng now i err :
  runFlow (S fuel) nowLog lb (RMark false rng now i err) = let '(lb', evs) := ReportUDPFailure rng now (Some i) err lb in (lb', RDone, evs).
Proof. cbn. by destruct fuel. Qed.
End Flow.

(** ** All goroutines at once *)

Definition setLb (st : pstate) (lb : LoadBalancer nat) : pstate := PState lb (ps_threads st) (ps_out st) (ps_closed st) (ps_fresh st).

Record gstate := G { g_st : pstate; g_checks : list chk; g_flows : list flow }.
Definition g_lb (g : gstate) : LoadBalancer nat := ps_lb (g_st g).

Inductive gstep : gstate -> gstate -> Prop :=
(** Warm standby and acquisitions (Standby). *)
| G_standby st st' cs fs : sbstep st st' -> gstep (G st cs fs) (G st' cs fs)
(** The scheduler and the check goroutines (Probing). *)
| G_check st lb' cs cs' fs : ckstep (SState (ps_lb st) cs) (SState lb' cs') -> gstep (G st cs fs) (G (setLb st lb') cs' fs)
(** A call of [PickTCP], [PickUDP] or of a report begins; a critical section of one. *)
| G_pick isTCP now st cs fs : gstep (G st cs fs) (G st cs (fs ++ [PStart isTCP now]))
| G_report isTCP rng now i err st cs fs : gstep (G st cs fs) (G st cs (fs ++ [RMark isTCP rng now i err]))
| G_flow k f nowLog lb' f' evs st cs fs :
    fs !! k = Some f -> fnext nowLog (ps_lb st) f = Some (lb', f', evs) ->
    gstep (G st cs fs) (G (setLb st lb') cs (<[k := f']> fs)).

(** The program's start: a new balancer whose checks are all due. *)
Definition gstart (lb : LoadBalancer nat) : gstate := G (PState lb [] [] [] 0) [] [].

(** What Standby and Probing see of it. *)
Definition standbyOf (g : gstate) : pstate := g_st g.
Definition checksOf (g : gstate) : sstate nat := SState (g_lb g) (g_checks g).

(** ** Frames *)

Section Frames.
Implicit Types (lb : LoadBalancer nat).

Lemma sameSlots_pool lb p : (fun s => (standbyTCP s, standbyUDP s)) <$> p = (fun s => (standbyTCP s, standbyUDP s)) <$> pool lb -> sameSlots lb (setPool lb p).
Proof. intros H i. cbn. rewrite <- !list_lookup_fmap. by rewrite H. Qed.

Lemma sameSlots_alter lb (f : UpstreamState nat -> UpstreamState nat) i :
  (forall s, standbyTCP (f s) = standbyTCP s /\ standbyUDP (f s) = standbyUDP s) -> sameSlots lb (setPool lb (alter f i (pool lb))).
Proof.
  intros Hf j. cbn. destruct (decide (i = j)) as [->|]; [|by rewrite list_lookup_alter_ne].
  rewrite list_lookup_alter_eq. destruct (pool lb !! j) as [s|]; [|done]. cbn. by destruct (Hf s) as [-> ->].
Qed.
Lemma sameSlots_insert lb s s' i :
  pool lb !! i = Some s -> standbyTCP s' = standbyTCP s -> standbyUDP s' = standbyUDP s -> sameSlots lb (setPool lb (<[i := s']> (pool lb))).
Proof.
  intros Hs Ht Hu j. cbn. destruct (decide (i = j)) as [->|]; [|by rewrite list_lookup_insert_ne].
  rewrite list_lookup_insert_eq, Hs by (by eapply lookup_lt_Some). cbn. by rewrite Ht, Hu.
Qed.

(** A check leaves the slots and the dial semaphore alone. *)
Lemma ckstep_frame lb lb' cs cs' :
  ckstep (SState lb cs) (SState lb' cs') -> sameSlots lb lb' /\ dialSem lb' = dialSem lb /\ keeps lb lb'.
Proof.
  intros Hs. inversion Hs; subst.
  - unfold launchAt in *. destruct (pool lb !! i) as [s|] eqn:Es; simplify_eq; [|done].
    split; [by eapply sameSlots_insert|]. split; [done|]. apply keeps_pool.
    + rewrite list_fmap_insert. apply list_insert_id. by rewrite list_lookup_fmap, Es.
    + intros Hp. apply Forall_insert; [done|]. destruct (Forall_lookup_1 _ _ _ _ Hp Es) as [Ht Hu].
      unfold launch. split; cbn; case_match; auto using epOk_inFlight.
  - match goal with H : acquireProbeSlot _ = _ |- _ => split; [|split; [|by apply keeps_probeSlot]]; unfold acquireProbeSlot in H; destruct (acquire _ _); by simplify_eq/= end.
  - split; [|split; [done|apply keeps_cancel]]. apply sameSlots_alter. intros s. by destruct t.
  - match goal with H : acquireProbeDialSlot _ = _ |- _ => split; [|split; [|by apply keeps_probeDialSlot]]; unfold acquireProbeDialSlot in H; destruct (acquire _ _); by simplify_eq/= end.
  - done.
  - split; [done|]. split; [done|apply keeps_releaseProbeDial].
  - split; [done|]. split; [done|apply keeps_releaseProbeDial].
  - match goal with H : acquireProbeDialSlot _ = _ |- _ => split; [|split; [|by apply keeps_probeDialSlot]]; unfold acquireProbeDialSlot in H; destruct (acquire _ _); by simplify_eq/= end.
  - done.
  - split; [done|]. split; [done|apply keeps_releaseProbeDial].
  - split; [|split; [by injection (applyCheck_sems rng t now now' err rtt i lb) as -> _ _|apply keeps_apply]].
    unfold applyCheck. destruct (pool lb !! i) as [s|] eqn:Es; [|done]. destruct (applyHCResult _ _ _ _ _ _ _ _ _) as [h evs].
    cbn [fst]. eapply sameSlots_insert; [done|by destruct t..].
  - split; [done|]. split; [done|apply keeps_releaseProbe].
Qed.

(** The indices a goroutine of the data path has in its hands. *)
Definition indices (f : flow) : list nat :=
  match f with
  | PSticky _ c => [c]
  | PScan _ _ cur _ best _ _ => option_list cur ++ option_list best
  | PHyst _ c b _ => [c; b]
  | PSet _ i _ => [i]
  | _ => []
  end.
Definition inPool lb (f : flow) : Prop := Forall (fun i => (i < length (pool lb))%nat) (indices f).

Lemma fnext_frame nowLog lb f lb' f' evs :
  fnext nowLog lb f = Some (lb', f', evs) -> sameSlots lb lb' /\ sems lb' = sems lb /\ sameMarks lb lb'.
Proof.
  destruct f; cbn [fnext]; intros E; simplify_eq; try done.
  - by case_match; simplify_eq.
  - destruct (logSelectionIfChanged _ _ _ _ _) as [lb1 evs1] eqn:El. simplify_eq. unfold logSelectionIfChanged in El.
    by case_match; simplify_eq.
  - unfold reportFailure in E. simplify_eq. split; [|split; [done|]].
    + apply sameSlots_alter. intros s. by destruct isTCP.
    + split; [done|]. split; [done|]. intros t j. unfold flag. cbn. destruct (decide (i = j)) as [->|]; [|by rewrite list_lookup_alter_ne].
      rewrite list_lookup_alter_eq. destruct (pool lb !! j) as [s|]; [|done]. by destruct isTCP, t.
  - by case_bool_decide.
Qed.

Lemma fnext_keeps nowLog lb f lb' f' evs : inPool lb f -> fnext nowLog lb f = Some (lb', f', evs) -> keeps lb lb'.
Proof.
  destruct f; cbn [fnext]; intros Hi E; simplify_eq; try reflexivity.
  - case_match; simplify_eq; reflexivity.
  - apply keeps_sticky. intros _ j [= <-]. by apply Forall_cons in Hi as [Hi _].
  - pose proof (keeps_log nowLog (if isTCP then sTCP else sUDP) (nameOf lb i) reason lb) as Hk.
    destruct (logSelectionIfChanged _ _ _ _ _) as [lb1 evs1]. by simplify_eq.
  - unfold reportFailure in E. simplify_eq. apply (keeps_reportFailure isTCP rng now i err lb).
  - case_bool_decide; [|reflexivity]. apply keeps_sticky. apply w_current.
Qed.

Lemma fnext_inPool nowLog lb f lb' f' evs : wf lb -> inPool lb f -> fnext nowLog lb f = Some (lb', f', evs) -> inPool lb f'.
Proof.
  intros Hw Hi. unfold inPool in *.
  destruct f; cbn [fnext indices] in *; intros E; auto; try (injection E as <- <- <-; cbn [indices]).
  - destruct (current lb) as [c|] eqn:Ec; [|constructor]. pose proof (w_current lb Hw c Ec).
    destruct (_ && _); repeat constructor; done.
  - destruct (curOK now lb cur); simplify_eq; cbn; [constructor|done].
  - destruct (pool lb !! i) as [s|] eqn:Es.
    + apply lookup_lt_Some in Es. unfold scanOne. case_match; [done|]. case_match; [|done]. cbn [indices].
      apply Forall_app in Hi as [Hi _]. apply Forall_app. split; [done|by repeat constructor].
    + unfold scanned. apply Forall_app in Hi as [Hc Hb]. destruct best as [b|]; [|constructor]. destruct isTCP; [|constructor].
      apply Forall_cons in Hb as [Hb _]. destruct cur as [c|]; [|by repeat constructor]. apply Forall_cons in Hc as [Hc _]. by repeat constructor.
  - apply Forall_cons in Hi as [Hc Hb]. case_match; cbn; [by repeat constructor|done].
  - constructor.
  - destruct (logSelectionIfChanged _ _ _ _ _). simplify_eq. constructor.
  - done.
  - destruct isTCP; constructor.
  - constructor.
  - done.
Qed.

(** Standby operations leave the marks and the semaphores of the probes alone. *)
Lemma sameMarks_slots lb isTCP x i : sameMarks lb (setPool lb (alter (setSlot isTCP x) i (pool lb))).
Proof.
  split; [done|]. split; [done|]. intros t j. unfold flag. cbn. destruct (decide (i = j)) as [->|]; [|by rewrite list_lookup_alter_ne].
  rewrite list_lookup_alter_eq. destruct (pool lb !! j) as [s|]; [|done]. by destruct isTCP, t.
Qed.

Lemma sbstep_frame st st' : sbstep st st' -> sameMarks (ps_lb st) (ps_lb st') /\ keeps (ps_lb st) (ps_lb st').
Proof.
  assert (Htake : forall t i lb x lb', takeStandby t i lb = (x, lb') -> sameMarks lb lb' /\ keeps lb lb').
  { intros t i lb x lb' E. pose proof (keeps_take t i lb) as Hk. rewrite E in Hk. split; [|exact Hk].
    injection E as _ <-. apply sameMarks_slots. }
  assert (Hput : forall t i c lb x lb', putStandby t i c lb = (x, lb') -> sameMarks lb lb' /\ keeps lb lb').
  { intros t i c lb x lb' E. pose proof (keeps_putStandby t i c lb) as Hk. rewrite E in Hk. split; [|exact Hk].
    unfold putStandby in E. case_match; injection E as _ <-; [done|apply sameMarks_slots]. }
  assert (Hrel : forall lb, sameMarks lb (releaseDialSlot lb) /\ keeps lb (releaseDialSlot lb)).
  { intros lb. split; [done|]. apply keeps_sems. intros []. lia. }
  destruct 1; cbn [ps_lb]; eauto; try (by split); try (split; [done|reflexivity]).
  unfold acquireDialSlot in H. case_match; zbool; simplify_eq. split; [done|]. apply keeps_sems. intros []. lia.
Qed.
End Frames.

(** ** Refinement and invariant *)

Lemma setLb_id st : setLb st (ps_lb st) = st.
Proof. by destruct st. Qed.

(** Every step is one of Standby, or one that leaves the slots alone. *)
Lemma gstep_standby g g' : gstep g g' -> step (standbyOf g) (standbyOf g').
Proof.
  destruct 1 as [st st' cs fs H|st lb' cs cs' fs H|isTCP now st cs fs|isTCP rng now i err st cs fs|k f nowLog lb' f' evs st cs fs Hk H]; cbn.
  - by apply SStandby.
  - apply SOther. by apply ckstep_frame in H as (? & _).
  - rewrite <- (setLb_id st) at 2. by apply SOther.
  - rewrite <- (setLb_id st) at 2. by apply SOther.
  - apply SOther. by apply fnext_frame in H as (? & _).
Qed.

(** Every step is one of Probing, or one that leaves the marks alone. *)
Lemma gstep_checks g g' : gstep g g' -> sstep (checksOf g) (checksOf g').
Proof.
  destruct 1 as [st st' cs fs H|st lb' cs cs' fs H|isTCP now st cs fs|isTCP rng now i err st cs fs|k f nowLog lb' f' evs st cs fs Hk H]; unfold checksOf, g_lb; cbn.
  - apply (StOther (SState (ps_lb st) cs)). by apply sbstep_frame in H as [? _].
  - by apply StCheck.
  - by apply (StOther (SState (ps_lb st) cs)).
  - by apply (StOther (SState (ps_lb st) cs)).
  - apply (StOther (SState (ps_lb st) cs)). by apply fnext_frame in H as (_ & _ & ?).
Qed.

Record ginv (g : gstate) : Prop := {
  gi_wf : wf (g_lb g);
  gi_dials : dialsOk (g_st g);
  gi_flows : Forall (inPool (g_lb g)) (g_flows g) }.

Lemma config_length {C} (lb lb' : LoadBalancer C) : configOf lb' = configOf lb -> length (pool lb') = length (pool lb).
Proof. unfold configOf. intros [= _ _ _ _ H]. apply (f_equal length) in H. by rewrite !length_fmap in H. Qed.

Lemma inPool_config lb lb' f : configOf lb' = configOf lb -> inPool lb f -> inPool lb' f.
Proof. intros H. unfold inPool. by rewrite (config_length _ _ H). Qed.

Lemma gstep_inv g g' : gstep g g' -> ginv g -> ginv g' /\ configOf (g_lb g') = configOf (g_lb g).
Proof.
  intros Hs [Hw Hd Hf].
  destruct Hs as [st st' cs fs H|st lb' cs cs' fs H|isTCP now st cs fs|isTCP rng now i err st cs fs|k f nowLog lb' f' evs st cs fs Hk H];
    unfold g_lb in *; cbn [g_st g_flows ps_lb setLb] in *.
  - destruct (sbstep_frame _ _ H) as [_ Hkp]. destruct (Hkp Hw) as [Hw' Hc]. split; [|done]. split; [done|by eapply sbstep_dials|].
    eapply Forall_impl; [exact Hf|]. intros f. by apply inPool_config.
  - destruct (ckstep_frame _ _ _ _ H) as (_ & Es & Hkp). destruct (Hkp Hw) as [Hw' Hc]. split; [|done]. split; [done| |].
    + unfold dialsOk in *. cbn. by rewrite Es.
    + eapply Forall_impl; [exact Hf|]. intros f. by apply inPool_config.
  - split; [|done]. split; [done|done|]. apply Forall_app. split; [done|by repeat constructor].
  - split; [|done]. split; [done|done|]. apply Forall_app. split; [done|by repeat constructor].
  - pose proof (Forall_lookup_1 _ _ _ _ Hf Hk) as Hi. destruct (fnext_frame _ _ _ _ _ _ H) as (_ & Es & _).
    destruct (fnext_keeps _ _ _ _ _ _ Hi H Hw) as [Hw' Hc]. split; [|done]. split; [done| |].
    + unfold dialsOk in *. cbn. injection Es as -> _ _. done.
    + apply Forall_insert; [eapply Forall_impl; [exact Hf|]; intros x; by apply inPool_config|].
      eapply inPool_config; [exact Hc|]. by eapply fnext_inPool.
Qed.

Lemma ginv_run g g' : rtc gstep g g' -> ginv g -> ginv g' /\ configOf (g_lb g') = configOf (g_lb g).
Proof.
  induction 1 as [g|g1 g2 g3 Hs _ IH]; [done|]. intros Hi. destruct (gstep_inv _ _ Hs Hi) as [Hi2 E2].
  destruct (IH Hi2) as [Hi3 E3]. split; [done|congruence].
Qed.

(** ** What a selection saw *)

(** The upstream is eligible in this state for a selection with this clock. *)
Definition eligibleIn (isTCP : bool) (now : Z) (i : nat) (g : gstate) : bool :=
  match pool (g_lb g) !! i with Some s => eligible isTCP now s | None => false end.

(** A run with the states it leaves. *)
Inductive trace : gstate -> list gstate -> gstate -> Prop :=
| T_nil g : trace g [] g
| T_cons g1 g2 l g3 : gstep g1 g2 -> trace g2 l g3 -> trace g1 (g1 :: l) g3.

(** A call of [pickByEndpoint] with this protocol and clock that has not taken [i]. *)
Definition without (isTCP : bool) (now : Z) (i : nat) (f : flow) : Prop :=
  match f with
  | PStart t n => t = isTCP /\ n = now
  | PSticky n _ => isTCP = true /\ n = now
  | PScan t n _ _ best _ _ => t = isTCP /\ n = now /\ best <> Some i
  | PHyst n _ b _ => isTCP = true /\ n = now /\ b <> i
  | PSet _ j _ => isTCP = true /\ j <> i
  | PLog t j _ => t = isTCP /\ j <> i
  | PDone t r => t = isTCP /\ r <> Ok i
  | _ => False
  end.

Lemma curOK_eligible now (lb : LoadBalancer nat) c : curOK now lb c = true -> exists s, pool lb !! c = Some s /\ eligible true now s = true.
Proof. intros H. destruct (curOK_usable _ _ _ H) as (s & Hs & Hh & Hc). exists s. split; [done|]. by apply eligible_spec. Qed.

Lemma keepCurrent_ok now (lb : LoadBalancer nat) c b rtt : keepCurrent now lb c b rtt = true -> curOK now lb c = true.
Proof. unfold keepCurrent. intros H. apply andb_true_iff in H as [H _]. repeat (apply andb_true_iff in H as [H ?]). done. Qed.

(** A critical section in a state where [i] is not eligible does not take it. *)
Lemma fnext_without isTCP now i nowLog (lb : LoadBalancer nat) f lb' f' evs :
  (forall s, pool lb !! i = Some s -> eligible isTCP now s = false) ->
  fnext nowLog lb f = Some (lb', f', evs) -> without isTCP now i f -> without isTCP now i f'.
Proof.
  intros Hb.
  assert (Hcur : forall c, isTCP = true -> curOK now lb c = true -> c <> i).
  { intros c -> Hc ->. destruct (curOK_eligible _ _ _ Hc) as (s & Hs & He). by rewrite (Hb s Hs) in He. }
  destruct f as [t n|n c|t n cur j best bs rtt|n c b rtt|n j r|t j r|t r|t rng n j err|j|]; cbn [fnext without]; try done.
  - intros E [-> ->]. injection E as <- <- <-. destruct (current lb) as [c|]; [|done]. destruct (isTCP && _) eqn:Ea; [|done].
    apply andb_true_iff in Ea as [-> _]. done.
  - intros E [-> ->]. destruct (curOK now lb c) eqn:Ec; simplify_eq; [|done]. split; [done|]. intros [= ->]. by apply (Hcur i).
  - intros E (-> & -> & Hn). injection E as <- <- <-. destruct (pool lb !! j) as [s|] eqn:Es.
    + unfold scanOne. destruct (negb (eligible isTCP now s)) eqn:Ee; [done|]. destruct (f64_ltb _ _); [|done].
      split; [done|]. split; [done|]. intros [= ->]. by rewrite (Hb s Es) in Ee.
    + unfold scanned. destruct best as [b|]; [|done]. assert (b <> i) by congruence. destruct isTCP; [|done]. by destruct cur.
  - intros E (-> & -> & Hn). injection E as <- <- <-. destruct (keepCurrent now lb c b rtt) eqn:Ek; [|done].
    split; [done|]. apply (Hcur c eq_refl). by eapply keepCurrent_ok.
  - intros E [-> Hn]. by injection E as <- <- <-.
  - intros E [-> Hn]. destruct (logSelectionIfChanged _ _ _ _ _). simplify_eq. split; [done|congruence].
Qed.

Lemma gstep_flow_without isTCP now i k g g' f :
  gstep g g' -> eligibleIn isTCP now i g = false -> g_flows g !! k = Some f -> without isTCP now i f ->
  exists f', g_flows g' !! k = Some f' /\ without isTCP now i f'.
Proof.
  intros Hs Hb Hk Hf. destruct Hs as [st st' cs fs H|st lb' cs cs' fs H|t n st cs fs|t rng n j err st cs fs|k' f0 nowLog lb' f' evs st cs fs Hk' H];
    cbn [g_flows] in *; eauto.
  - exists f. split; [|done]. by apply lookup_app_l_Some.
  - exists f. split; [|done]. by apply lookup_app_l_Some.
  - destruct (decide (k' = k)) as [->|Hne]; [|exists f; by rewrite list_lookup_insert_ne].
    exists f'. rewrite list_lookup_insert_eq by (by eapply lookup_lt_Some). split; [done|]. simplify_eq.
    eapply fnext_without; [|exact H|exact Hf]. intros s Hs'. unfold eligibleIn, g_lb in Hb. cbn in Hb. by rewrite Hs' in Hb.
Qed.

Lemma trace_without isTCP now i k g l g' f :
  trace g l g' -> Forall (fun a => eligibleIn isTCP now i a = false) l -> g_flows g !! k = Some f -> without isTCP now i f ->
  exists f', g_flows g' !! k = Some f' /\ without isTCP now i f'.
Proof.
  intros Ht. revert f. induction Ht as [g|g1 g2 l g3 Hs _ IH]; intros f Hl Hk Hf; [eauto|].
  apply Forall_cons in Hl as [H1 Hl]. destruct (gstep_flow_without _ _ _ _ _ _ _ Hs H1 Hk Hf) as (f2 & Hk2 & Hf2). by eapply IH.
Qed.

(** ** Quarantine *)

(** The TCP side of the upstream is marked down. *)
Definition down (i : nat) (g : gstate) : Prop := forall s, pool (g_lb g) !! i = Some s -> healthy (tcp s) = false.

(** The step in which a check of the upstream that succeeded is applied. *)
Definition upCheck (i : nat) (g g' : gstate) : Prop :=
  exists rtt cs1 cs2, g_checks g = cs1 ++ Chk true i (CApply None rtt) :: cs2 /\ g_checks g' = cs1 ++ Chk true i CRelease :: cs2.

(** Calls that are no selection for TCP. *)
Definition otherCall (f : flow) : Prop :=
  match f with
  | PStart t _ | PScan t _ _ _ _ _ _ | PLog t _ _ | PDone t _ => t = false
  | RMark _ _ _ _ _ | RReset _ | RDone => True
  | _ => False
  end.
Definition cleared (i : nat) (f : flow) : Prop := (exists now, without true now i f) \/ otherCall f.

Lemma down_ineligible i now g s : down i g -> pool (g_lb g) !! i = Some s -> eligible true now s = false.
Proof. intros H Hs. unfold eligible. cbn [endpoint]. by rewrite (H s Hs). Qed.

Lemma fnext_cleared i nowLog (lb : LoadBalancer nat) f lb' f' evs :
  (forall s, pool lb !! i = Some s -> healthy (tcp s) = false) ->
  fnext nowLog lb f = Some (lb', f', evs) -> cleared i f -> cleared i f'.
Proof.
  intros Hd E [[now Hw]|Ho].
  - left. exists now. eapply fnext_without; [|exact E|exact Hw]. intros s Hs. unfold eligible. cbn [endpoint]. by rewrite (Hd s Hs).
  - right. destruct f as [t n|n c|t n cur j best bs rtt|n c b rtt|n j r|t j r|t r|t rng n j err|j|]; cbn [fnext otherCall] in *; try done; subst.
    + injection E as <- <- <-. by destruct (current lb).
    + injection E as <- <- <-. destruct (pool lb !! j); [|by destruct best]. unfold scanOne. by repeat case_match.
    + destruct (logSelectionIfChanged _ _ _ _ _). by simplify_eq.
    + destruct (reportFailure _ _ _ _ _ _). simplify_eq. by destruct t.
    + by simplify_eq.
Qed.

Lemma fnext_down i nowLog (lb : LoadBalancer nat) f lb' f' evs :
  fnext nowLog lb f = Some (lb', f', evs) ->
  (forall s, pool lb !! i = Some s -> healthy (tcp s) = false) -> forall s, pool lb' !! i = Some s -> healthy (tcp s) = false.
Proof.
  intros E Hd. assert (Hp : pool lb' = pool lb \/ exists t rng n j err, lb' = fst (reportFailure t rng n j err lb)).
  { destruct f; cbn [fnext] in E; simplify_eq; auto.
    - case_match; simplify_eq; auto.
    - destruct (logSelectionIfChanged _ _ _ _ _) as [lb1 evs1] eqn:El. simplify_eq. apply logSelection_frame in El as (-> & _). auto.
    - right. destruct (reportFailure _ _ _ _ _ _) eqn:Er. simplify_eq. do 5 eexists. by rewrite Er.
    - left. by case_bool_decide. }
  destruct Hp as [->|(t & rng & n & j & err & ->)]; [exact Hd|]. intros s. cbn. destruct (decide (j = i)) as [->|]; [|rewrite list_lookup_alter_ne by done; apply Hd].
  rewrite list_lookup_alter_eq. intros Hs. apply fmap_Some in Hs as (s0 & Hs0 & ->). destruct t; [done|exact (Hd s0 Hs0)].
Qed.

Lemma alter_slot_down isTCP x i j (lb : LoadBalancer nat) :
  (forall s, pool lb !! i = Some s -> healthy (tcp s) = false) ->
  forall s, alter (setSlot isTCP x) j (pool lb) !! i = Some s -> healthy (tcp s) = false.
Proof.
  intros Hd s. destruct (decide (j = i)) as [->|]; [|rewrite list_lookup_alter_ne by done; apply Hd].
  rewrite list_lookup_alter_eq. intros Hs. apply fmap_Some in Hs as (s0 & Hs0 & ->). destruct isTCP; exact (Hd s0 Hs0).
Qed.

Lemma sbstep_down i st st' :
  sbstep st st' -> (forall s, pool (ps_lb st) !! i = Some s -> healthy (tcp s) = false) ->
  forall s, pool (ps_lb st') !! i = Some s -> healthy (tcp s) = false.
Proof.
  destruct 1; cbn [ps_lb]; intros Hd; auto;
    repeat match goal with
    | E : takeStandby _ _ _ = _ |- _ => injection E as _ <-; cbn; by apply alter_slot_down
    | E : putStandby _ _ _ _ = _ |- _ => unfold putStandby in E; case_match; injection E as _ <-; [exact Hd|cbn; by apply alter_slot_down]
    | E : acquireDialSlot _ = Some _ |- _ => unfold acquireDialSlot in E; case_match; simplify_eq; exact Hd
    end.
Qed.

(** A check that failed does not mark an endpoint up. *)
Lemma failed_check_down hcc rng now now' e rtt name proto h :
  healthy h = false -> healthy (fst (applyHCResult hcc rng now now' (Some e) rtt name proto h)) = false.
Proof. intros Hh. cbn. by destruct (FailThreshold hcc <=? _). Qed.

Lemma ckstep_down i lb lb' cs cs' :
  ckstep (SState lb cs) (SState lb' cs') ->
  ~ (exists rtt cs1 cs2, cs = cs1 ++ Chk true i (CApply None rtt) :: cs2 /\ cs' = cs1 ++ Chk true i CRelease :: cs2) ->
  (forall s : UpstreamState nat, pool lb !! i = Some s -> healthy (tcp s) = false) -> forall s, pool lb' !! i = Some s -> healthy (tcp s) = false.
Proof.
  intros Hs Hn Hd. inversion Hs; subst; auto; try (match goal with H : _ = Some lb' |- _ =>
    unfold acquireProbeSlot, acquireProbeDialSlot in H; destruct (acquire _ _); simplify_eq/=; exact Hd end).
  - unfold launchAt in *. destruct (pool lb !! i0) as [s0|] eqn:Es; simplify_eq; [|done]. cbn. intros s.
    destruct (decide (i0 = i)) as [->|]; [|rewrite list_lookup_insert_ne by done; apply Hd].
    rewrite list_lookup_insert_eq by (by eapply lookup_lt_Some). intros [= <-]. cbn. case_match; exact (Hd s0 Es).
  - intros s. cbn. destruct (decide (i0 = i)) as [->|]; [|rewrite list_lookup_alter_ne by done; apply Hd].
    rewrite list_lookup_alter_eq. intros Hs'. apply fmap_Some in Hs' as (s0 & Hs0 & ->). destruct t; exact (Hd s0 Hs0).
  - unfold applyCheck. destruct (pool lb !! i0) as [s0|] eqn:Es; [|exact Hd].
    destruct (decide (i0 = i)) as [->|Hne].
    + destruct t.
      * destruct err as [e|]; [|exfalso; apply Hn; by do 3 eexists].
        pose proof (failed_check_down (hc lb) rng now now' e rtt (Name (cfg s0)) (protoName true) (tcp s0) (Hd _ Es)) as Hf.
        cbn [endpoint]. destruct (applyHCResult _ _ _ _ _ _ _ _ _) as [h evs]. cbn [fst] in *. intros s. cbn.
        rewrite list_lookup_insert_eq by (by eapply lookup_lt_Some). by intros [= <-].
      * destruct (applyHCResult _ _ _ _ _ _ _ _ _) as [h evs]. intros s. cbn.
        rewrite list_lookup_insert_eq by (by eapply lookup_lt_Some). intros [= <-]. exact (Hd s0 Es).
    + destruct (applyHCResult _ _ _ _ _ _ _ _ _) as [h evs]. intros s. cbn. rewrite list_lookup_insert_ne by done. apply Hd.
Qed.

(** The invariant of the quarantine: marked down, and no call after the first [n] has taken it. *)
Definition quarantine (i n : nat) (g : gstate) : Prop :=
  down i g /\ (n <= length (g_flows g))%nat /\ forall k f, (n <= k)%nat -> g_flows g !! k = Some f -> cleared i f.

Lemma gstep_quarantine i n g g' : gstep g g' -> ~ upCheck i g g' -> quarantine i n g -> quarantine i n g'.
Proof.
  assert (Hnew : forall fs f0, (n <= length fs)%nat -> (forall k f, (n <= k)%nat -> fs !! k = Some f -> cleared i f) -> cleared i f0 ->
    forall k f, (n <= k)%nat -> (fs ++ [f0]) !! k = Some f -> cleared i f).
  { intros fs f0 _ Hf H0 k f Hn. rewrite lookup_app_Some. intros [Hk|[Hl Hk]]; [by eapply Hf|].
    apply list_lookup_singleton_Some in Hk as [_ <-]. done. }
  intros Hs Hup (Hd & Hl & Hf).
  destruct Hs as [st st' cs fs H|st lb' cs cs' fs H|t m st cs fs|t rng m j err st cs fs|k' f0 nowLog lb' f' evs st cs fs Hk H];
    unfold quarantine, down, upCheck, g_lb in *; cbn [g_st g_flows g_checks ps_lb setLb] in *.
  - split; [by eapply sbstep_down|done].
  - split; [by eapply ckstep_down|done].
  - rewrite length_app. split; [done|]. split; [lia|]. apply Hnew; [done|done|]. destruct t; [left; by exists m|by right].
  - rewrite length_app. split; [done|]. split; [lia|]. apply Hnew; [done|done|]. by right.
  - rewrite length_insert. split; [by eapply fnext_down|]. split; [done|]. intros k f Hn Hlk.
    apply list_lookup_insert_Some in Hlk as [(-> & <- & _)|[_ Hlk]]; [|by eapply Hf]. eapply fnext_cleared; [exact Hd|exact H|by eapply Hf].
Qed.

(** ** Bounded selections *)

(** The critical sections a call has still to do when the pool has [n] upstreams. *)
Definition fweight (n : nat) (f : flow) : nat :=
  match f with
  | PStart _ _ => n + 6
  | PSticky _ _ => n + 5
  | PScan _ _ _ i _ _ _ => (n - i) + 4
  | PHyst _ _ _ _ => 3
  | PSet _ _ _ | RMark _ _ _ _ _ => 2
  | PLog _ _ _ | RReset _ => 1
  | PDone _ _ | RDone => 0
  end.

Lemma fnext_weight {C} nowLog (lb lb' : LoadBalancer C) f f' evs :
  fnext nowLog lb f = Some (lb', f', evs) -> (fweight (length (pool lb)) f' < fweight (length (pool lb)) f)%nat.
Proof.
  destruct f as [t n|n c|t n cur j best bs rtt|n c b rtt|n j r|t j r|t r|t rng n j err|j|]; cbn [fnext]; intros E; try done.
  - injection E as <- <- <-. destruct (current lb); [case_match|]; cbn; lia.
  - case_match; simplify_eq; cbn; lia.
  - injection E as <- <- <-. destruct (pool lb !! j) as [s|] eqn:Es.
    + apply lookup_lt_Some in Es. unfold scanOne. repeat case_match; cbn; lia.
    + unfold scanned. repeat case_match; cbn; lia.
  - injection E as <- <- <-. case_match; cbn; lia.
  - injection E as <- <- <-. cbn. lia.
  - destruct (logSelectionIfChanged _ _ _ _ _). simplify_eq. cbn. lia.
  - destruct (reportFailure _ _ _ _ _ _). simplify_eq. destruct t; cbn; lia.
  - injection E as <- <- <-. cbn. lia.
Qed.

(** ** What a selection and a report do, on the fields *)

Section Alone.
Context {C : Type}.
Implicit Types (lb : LoadBalancer C) (s : UpstreamState C).

(** Healthy and out of its cooldown. *)
Definition upNow (isTCP : bool) (now : Z) s : Prop :=
  if isTCP then healthy (tcp s) = true /\ tcpCooldownUntil s <= now
  else healthy (udp s) = true /\ udpCooldownUntil s <= now.
Definition scoreNow (isTCP : bool) (now : Z) lb s : float64 :=
  score (hc lb) now (if isTCP then tcp s else udp s) (Weight (cfg s)).

(** The upstream [b] is the first of those with the lowest score, which is below 1e18. *)
Definition bestUp (isTCP : bool) (now : Z) lb (b : nat) s : Prop :=
  pool lb !! b = Some s /\ upNow isTCP now s /\ f64_ltb (scoreNow isTCP now lb s) maxScore = true
  /\ forall j s', pool lb !! j = Some s' -> upNow isTCP now s' ->
       f64_ltb (scoreNow isTCP now lb s') (scoreNow isTCP now lb s) = false
       /\ ((j < b)%nat -> f64_key (scoreNow isTCP now lb s') <> None -> f64_ltb (scoreNow isTCP now lb s) (scoreNow isTCP now lb s') = true).
Definition noneUp (isTCP : bool) (now : Z) lb : Prop :=
  forall j s, pool lb !! j = Some s -> upNow isTCP now s -> f64_ltb (scoreNow isTCP now lb s) maxScore = false.

(** The current upstream is up, its cooldown strictly over. *)
Definition currentUp (now : Z) lb (c : nat) s : Prop :=
  current lb = Some c /\ pool lb !! c = Some s /\ healthy (tcp s) = true /\ tcpCooldownUntil s < now.
(** The current upstream is kept over another one whose round trip is not shorter by [MinSwitch]. *)
Definition tooClose lb s (sb : UpstreamState C) : Prop :=
  0 < rttEWMA (tcp s) /\ 0 < rttEWMA (tcp sb) /\ sub64 (rttEWMA (tcp s)) (rttEWMA (tcp sb)) < MinSwitch (sel lb).

(** The outcome of a selection for TCP: the sticky upstream, unchanged; or the upstream
    with the best score; or the current one because the best is not better by enough. *)
Inductive tcpOutcome (now : Z) lb : res nat -> option nat * Z -> Prop :=
| OutSticky c s : currentUp now lb c s -> now < stickyUntil lb -> tcpOutcome now lb (Ok c) (Some c, stickyUntil lb)
| OutBest b sb : bestUp true now lb b sb ->
    (forall c s, currentUp now lb c s -> stickyUntil lb <= now /\ (c = b \/ ~ tooClose lb s sb)) ->
    tcpOutcome now lb (Ok b) (Some b, now + StickyTTL (sel lb))
| OutKeep c s b sb : bestUp true now lb b sb -> currentUp now lb c s -> stickyUntil lb <= now -> c <> b -> tooClose lb s sb ->
    tcpOutcome now lb (Ok c) (Some c, now + StickyTTL (sel lb))
| OutNone e : noneUp true now lb -> (forall c s, currentUp now lb c s -> stickyUntil lb <= now) ->
    e = errMsg "no healthy upstreams" -> tcpOutcome now lb (Err e) (current lb, stickyUntil lb).

(** The endpoint of the upstream [i] after a report at [now]: down, one more failure, no
    success, in its cooldown, and due after [MinInterval] with its jitter. *)
Definition reported (isTCP : bool) (rng : Z -> Z) (now : Z) (err : option gerror) lb s (s' : UpstreamState C) : Prop :=
  let h := if isTCP then tcp s else udp s in let h' := if isTCP then tcp s' else udp s' in
  healthy h' = false /\ failCount h' = add64 (failCount h) 1 /\ successCount h' = 0 /\ lastError h' = err
  /\ hcEvery h' = MinInterval (hc lb) /\ nextHC h' = now + applyJitter rng (MinInterval (hc lb)) (Jitter (hc lb))
  /\ rttEWMA h' = rttEWMA h /\ inFlight h' = inFlight h
  /\ (if isTCP then tcpCooldownUntil s' else udpCooldownUntil s') = now + Cooldown (sel lb)
  /\ (if isTCP then udp s' = udp s /\ udpCooldownUntil s' = udpCooldownUntil s
      else tcp s' = tcp s /\ tcpCooldownUntil s' = tcpCooldownUntil s)
  /\ cfg s' = cfg s /\ standbyTCP s' = standbyTCP s /\ standbyUDP s' = standbyUDP s.

Lemma eligible_up isTCP now s : eligible isTCP now s = true <-> upNow isTCP now s.
Proof. rewrite eligible_spec. by destruct isTCP. Qed.
Lemma scoreIn_now isTCP now lb s : scoreIn isTCP now lb s = scoreNow isTCP now lb s.
Proof. by destruct isTCP. Qed.

Lemma pickBest_up isTCP now lb :
  match pickBestCandidateByEndpoint isTCP now lb with
  | Ok (b, rtt) => exists s, bestUp isTCP now lb b s /\ rtt = rttEWMA (if isTCP then tcp s else udp s)
  | Err e => e = errMsg "no healthy upstreams" /\ noneUp isTCP now lb
  | Panic _ => False
  end.
Proof.
  pose proof (pickBest_spec isTCP now lb) as H. destruct (pickBestCandidateByEndpoint isTCP now lb) as [[b rtt]|e|w]; [|..|done].
  - destruct H as (s & [Hs He] & -> & Hm & H1 & H2). exists s. split; [|by destruct isTCP].
    split; [done|]. split; [by apply eligible_up|]. split; [by rewrite <- scoreIn_now|].
    intros j s' Hj Hu%eligible_up. rewrite <- !scoreIn_now. split; [by apply (H1 j)|]. intros. by apply (H2 j).
  - destruct H as [-> H]. split; [done|]. intros j s Hj Hu%eligible_up. rewrite <- scoreIn_now. by apply (H j).
Qed.

Lemma curOK_up now lb c : current lb = Some c ->
  (curOK now lb c = true -> exists s, currentUp now lb c s) /\ (curOK now lb c = false -> forall c' s, ~ currentUp now lb c' s).
Proof.
  intros Hc. unfold curOK, currentUp, After. split.
  - case_match eqn:E; [|done]. intros [H1 H2]%andb_true_iff. zbool. eauto 6.
  - intros H c' s (E & Es & Hh & Hn). rewrite Hc in E. injection E as <-. rewrite Es, Hh in H. cbn in H. zbool. lia.
Qed.

Lemma keepCurrent_close now lb c s b sb : currentUp now lb c s -> pool lb !! b = Some sb ->
  keepCurrent now lb c b (rttEWMA (tcp sb)) = true <-> c <> b /\ tooClose lb s sb.
Proof.
  intros (_ & Hs & Hh & Hn) Hb. unfold keepCurrent, curOK, curRTT, tooClose, After. rewrite Hs, Hh, (proj2 (Z.ltb_lt _ _) Hn).
  rewrite !andb_true_iff, negb_true_iff, Nat.eqb_neq, !Z.ltb_lt. cbn. tauto.
Qed.

Lemma keepCurrent_current now lb c b rtt : keepCurrent now lb c b rtt = true -> curOK now lb c = true.
Proof. unfold keepCurrent. rewrite !andb_true_iff. tauto. Qed.

Lemma chosen_tcp now nowLog lb r lb' evs :
  (forall c s, currentUp now lb c s -> stickyUntil lb <= now) -> chosen true now nowLog lb = (r, lb', evs) ->
  pool lb' = pool lb /\ tcpOutcome now lb r (current lb', stickyUntil lb').
Proof.
  intros Hst E. unfold chosen in E. pose proof (pickBest_up true now lb) as Hb.
  destruct (pickBestCandidateByEndpoint true now lb) as [[b rtt]|e|w]; [|..|done].
  - destruct Hb as (sb & Hb & ->). pose proof Hb as [Hsb _]. destruct (current lb) as [c|] eqn:Ec.
    + pose proof (curOK_up now lb c Ec) as [Hok Hno]. destruct (curOK now lb c) eqn:Eo.
      * destruct (Hok eq_refl) as [s Hs]. pose proof (keepCurrent_close now lb c s b sb Hs Hsb) as Hk.
        destruct (keepCurrent _ _ _ _ _); apply select_spec in E as (-> & -> & -> & ->); (split; [done|]).
        -- destruct (proj1 Hk eq_refl). by eapply OutKeep; eauto.
        -- eapply OutBest; [done|]. intros c' s' Hs'. split; [by eapply Hst|].
           destruct (decide (c' = b)) as [|Hne]; [by left|right]. intros Ht. destruct Hs as (E1 & E2 & _), Hs' as (E3 & E4 & _).
           assert (false = true); [|done]. apply Hk. naive_solver.
      * destruct (keepCurrent now lb c b (rttEWMA (tcp sb))) eqn:Ek; [apply keepCurrent_current in Ek; congruence|].
        apply select_spec in E as (-> & -> & -> & ->). split; [done|]. eapply OutBest; [done|]. intros c' s' Hs'. by destruct (Hno eq_refl c' s').
    + apply select_spec in E as (-> & -> & -> & ->). split; [done|]. eapply OutBest; [done|]. intros c' s' [Hc' _]. congruence.
  - destruct Hb as [-> Hb]. simplify_eq. split; [done|]. by apply OutNone.
Qed.

Lemma pick_tcp_outcome now nowLog lb r lb' evs : pickByEndpoint true now nowLog lb = (r, lb', evs) ->
  pool lb' = pool lb /\ tcpOutcome now lb r (current lb', stickyUntil lb').
Proof.
  intros E. unfold pickByEndpoint in E. fold (chosen true now nowLog lb) in E. cbn [andb] in E.
  destruct (current lb) as [c|] eqn:Ec; [|by eapply chosen_tcp; [intros c s [Hc _]; congruence|]].
  pose proof (curOK_up now lb c Ec) as [Hok Hno]. unfold Before in E. destruct (Z.ltb_spec now (stickyUntil lb)) as [Hlt|Hge]; cbn [andb] in E.
  - destruct (curOK now lb c) eqn:Eo.
    + destruct (Hok eq_refl) as [s Hs]. simplify_eq. split; [done|]. rewrite Ec. by eapply OutSticky.
    + eapply chosen_tcp; [|exact E]. intros c' s' Hs. by destruct (Hno eq_refl c' s').
  - by eapply chosen_tcp; [|exact E].
Qed.

Lemma pick_udp_outcome now nowLog lb r lb' evs : pickByEndpoint false now nowLog lb = (r, lb', evs) ->
  pool lb' = pool lb /\ current lb' = current lb /\ stickyUntil lb' = stickyUntil lb
  /\ match r with
     | Ok b => exists s, bestUp false now lb b s
     | Err e => e = errMsg "no healthy upstreams" /\ noneUp false now lb
     | Panic _ => False
     end.
Proof.
  intros E. unfold pickByEndpoint in E. cbn [andb] in E.
  replace (match current lb with Some _ => None | None => None end) with (@None nat) in E by (by destruct (current lb)).
  pose proof (pickBest_up false now lb) as Hb. destruct (pickBestCandidateByEndpoint false now lb) as [[b rtt]|e|w]; [|by simplify_eq|done].
  destruct Hb as (s & Hb & _). destruct (logSelectionIfChanged _ _ _ _ _) as [lb1 evs1] eqn:El.
  apply logSelection_frame in El as (E1 & E2 & E3 & _). simplify_eq. eauto 6.
Qed.

Lemma report_fields (isTCP : bool) rng now i err lb :
  let lb' := fst ((if isTCP then ReportTCPFailure else ReportUDPFailure) rng now (Some i) err lb) in
  (forall s, pool lb !! i = Some s -> exists s', pool lb' !! i = Some s' /\ reported isTCP rng now err lb s s')
  /\ (forall j, j <> i -> pool lb' !! j = pool lb !! j)
  /\ current lb' = current lb
  /\ stickyUntil lb' = (if isTCP && bool_decide (current lb = Some i) then timeZero else stickyUntil lb).
Proof.
  intros lb'. assert (Hp : pool lb' = pool (fst (reportFailure isTCP rng now i err lb)))
    by (destruct isTCP; [apply (ReportTCPFailure_pool rng now (Some i))|done]).
  split; [|split; [|split]].
  - intros s Hs. rewrite Hp. cbn. rewrite list_lookup_alter_eq, Hs. eexists. split; [done|]. by destruct isTCP.
  - intros j Hj. rewrite Hp. cbn. by rewrite list_lookup_alter_ne.
  - unfold lb'. destruct isTCP; [|done]. cbn. by case_bool_decide.
  - unfold lb'. destruct isTCP; [|done]. cbn. by case_bool_decide.
Qed.
End Alone.

(** ** Properties *)


(** C2: the running balancer refines its parts. Whatever the interleaving of selections and
    reports lock by lock, check goroutines, acquisitions, warm-ups and keepalive rounds on
    one new balancer, the run is a run of Standby and a run of Probing, so what is proved
    there holds of it; the balancer is well-formed, its settings are those it was made
    with, and the dial semaphore counts the fresh dials under way, at most 32. *)
Theorem balancer_run_refines (now : Z) (ups : list UpstreamConfig) (h : HealthcheckConfig) (se : SelectionConfig)
    (p : ProbeConfig) (fw : Z) (g : gstate)
    (Hrun : rtc gstep (gstart (RunHealthChecks_init now (NewLoadBalancer ups h se p fw))) g) :
  let lb0 := RunHealthChecks_init now (NewLoadBalancer ups h se p fw) in
  rtc step (PState lb0 [] [] [] 0) (standbyOf g)
  /\ rtc sstep (SState lb0 []) (checksOf g)
  /\ owned (standbyOf g) /\ schedOk (checksOf g)
  /\ wf (g_lb g) /\ configOf (g_lb g) = (h, se, p, fw, ups)
  /\ dialSem (g_lb g) = countb dials (ps_threads (g_st g)) /\ dialSem (g_lb g) <= 32.
Proof.
  intros lb0. assert (H1 : rtc step (PState lb0 [] [] [] 0) (standbyOf g)).
  { clear -Hrun. change (PState lb0 [] [] [] 0) with (standbyOf (gstart lb0)). fold lb0 in Hrun.
    induction Hrun as [|g1 g2 g3 Hs _ IH]; [done|]. eapply rtc_l; [by apply gstep_standby|done]. }
  assert (H2 : rtc sstep (SState lb0 []) (checksOf g)).
  { clear -Hrun. change (SState lb0 []) with (checksOf (gstart lb0)). fold lb0 in Hrun.
    induction Hrun as [|g1 g2 g3 Hs _ IH]; [done|]. eapply rtc_l; [by apply gstep_checks|done]. }
  destruct (keeps_dueNow now (NewLoadBalancer (C := nat) ups h se p fw) (wf_new _ _ _ _ _)) as [Hw0 Hc0]. fold lb0 in Hw0, Hc0.
  destruct (ginv_run _ _ Hrun) as [[Hw [Hd Hd'] Hf] Hc]; [by split; [| |constructor]|].
  split; [done|]. split; [done|]. split.
  { assert (H0 : owned (PState lb0 [] [] [] 0)).
    { unfold owned, places. cbn. rewrite !app_nil_r. unfold slots. cbn. clear. induction ups; [done|]. cbn. by rewrite IHups. }
    clear -H1 H0. induction H1 as [|x y z Hs _ IH]; [done|]. apply IH. by eapply step_owned. }
  split; [eapply schedOk_steps; [exact H2|apply idle_schedOk, new_idle]|]. split; [done|]. split; [|done].
  fold lb0 in Hc. unfold gstart, g_lb in Hc. cbn [g_st ps_lb] in Hc. unfold g_lb. rewrite Hc, Hc0. unfold configOf. cbn.
  by rewrite <- list_fmap_compose, list_fmap_id.
Qed.

(** C4: a selection returns an upstream that it saw fit. In every interleaving with other
    goroutines, the upstream a call of [pickByEndpoint] returns was healthy and out of
    its cooldown, for the clock the call has read, in a state the balancer was in between
    the start of the call and its return. *)
Theorem pick_saw_eligible (isTCP t : bool) (now : Z) (i k : nat) (g g' : gstate) (l : list gstate)
    (Hstart : g_flows g !! k = Some (PStart isTCP now)) (Htrace : trace g l g')
    (Hret : g_flows g' !! k = Some (PDone t (Ok i))) :
  exists a, a ∈ l /\ eligibleIn isTCP now i a = true.
Proof.
  destruct (decide (Exists (fun a => eligibleIn isTCP now i a = true) l)) as [He|He]; [by apply Exists_exists in He|].
  apply not_Exists_Forall in He; [|apply _]. exfalso.
  destruct (trace_without isTCP now i k g l g' (PStart isTCP now)) as (f' & Hk & Hw); [done| |done|done|].
  - eapply Forall_impl; [exact He|]. intros a Ha. cbn in Ha. by destruct (eligibleIn _ _ _ _).
  - rewrite Hret in Hk. injection Hk as <-. by destruct Hw as [_ Hw].
Qed.

(** C3: a failed upstream stays out of use although selections run concurrently with
    reports and checks. From any state in which the TCP side of an upstream is marked down,
    however the goroutines interleave, it stays marked down and no call of [PickTCP] that
    begins later returns it, until a check of it that succeeded is applied. *)
Theorem lb_quarantine_run (i : nat) (g g' : gstate) (Hdown : down i g)
    (Hrun : rtc (fun a b => gstep a b /\ ~ upCheck i a b) g g') :
  down i g' /\ forall k, (length (g_flows g) <= k)%nat -> g_flows g' !! k <> Some (PDone true (Ok i)).
Proof.
  assert (Hq : quarantine i (length (g_flows g)) g).
  { split; [done|]. split; [done|]. intros k f Hk Hf. apply lookup_lt_Some in Hf. lia. }
  remember (length (g_flows g)) as n eqn:En. clear En Hdown.
  assert (Hq' : quarantine i n g') by (induction Hrun as [|a b c [Hs Hu] _ IH]; [done|]; apply IH; by eapply gstep_quarantine).
  destruct Hq' as (Hd & _ & Hf). split; [done|]. intros k Hk E. destruct (Hf k _ Hk E) as [[now [_ Hn]]|Ho]; [done|]. by cbn in Ho.
Qed.

(** C26: a check begun before a failure was reported can end the quarantine. Let a check of
    an upstream have its result, a success; whatever failure is reported before it is
    applied, there is a run in which the report marks the upstream down with its cooldown,
    no probe is made, and the stale result is then applied. With a success threshold of at
    most one, the default, the upstream is healthy again at once and its cooldown is gone;
    with a larger threshold it stays down in its cooldown, with one success counted. *)
Theorem stale_check_lifts_quarantine (g : gstate) (i : nat) (s : UpstreamState nat) (rtt : Z) (cs1 cs2 : list chk)
    (rng : Z -> Z) (now : Z) (err : option gerror)
    (Hs : pool (g_lb g) !! i = Some s) (Hc : g_checks g = cs1 ++ Chk true i (CApply None rtt) :: cs2) :
  exists g1 g2 s1 s2, rtc gstep g g1 /\ rtc gstep g1 g2
  /\ pool (g_lb g1) !! i = Some s1 /\ healthy (tcp s1) = false /\ tcpCooldownUntil s1 = timeAdd now (Cooldown (sel (g_lb g)))
  /\ g_checks g1 = g_checks g /\ g_checks g2 = cs1 ++ Chk true i CRelease :: cs2
  /\ pool (g_lb g2) !! i = Some s2
  /\ (if SuccessThreshold (hc (g_lb g)) <=? 1 then healthy (tcp s2) = true /\ tcpCooldownUntil s2 = timeZero
      else healthy (tcp s2) = false /\ successCount (tcp s2) = 1 /\ tcpCooldownUntil s2 = timeAdd now (Cooldown (sel (g_lb g)))).
Proof.
  destruct g as [st cs fs]. unfold g_lb in *. cbn [g_st g_checks] in *. subst cs.
  set (lb1 := fst (reportFailure true rng now i err (ps_lb st))).
  set (g1 := G (setLb st lb1) (cs1 ++ Chk true i (CApply None rtt) :: cs2) (<[length fs := RReset i]> (fs ++ [RMark true rng now i err]))).
  set (s1 := setEndpoint true s (failEndpoint (hc (ps_lb st)) rng now err (tcp s)) (timeAdd now (Cooldown (sel (ps_lb st))))).
  assert (Hs1 : pool lb1 !! i = Some s1) by (unfold lb1; cbn; by rewrite list_lookup_alter_eq, Hs).
  exists g1, (G (setLb (setLb st lb1) (fst (applyCheck (fun _ => 0) true now now None rtt i lb1))) (cs1 ++ Chk true i CRelease :: cs2) (g_flows g1)).
  unfold applyCheck. rewrite Hs1. destruct (applyHCResult (hc lb1) (fun _ => 0) now now None rtt (Name (cfg s1)) (protoName true) (endpoint true s1)) as [h evs] eqn:Eh.
  assert (Hh : healthy h = (SuccessThreshold (hc (ps_lb st)) <=? 1) /\ successCount h = 1).
  { apply (f_equal fst) in Eh. cbn in Eh. rewrite <- Eh. cbn [healthy successCount]. change (hc lb1) with (hc (ps_lb st)).
    change (add64 0 1) with 1. split; [|done]. by destruct (_ <=? 1). }
  exists s1, (setEndpoint true s1 (setInFlight h false) (if healthy h then timeZero else cooldown true s1)).
  split. { eapply rtc_l; [apply G_report|]. eapply rtc_l; [|apply rtc_refl]. eapply (G_flow (length fs) _ 0); [by rewrite list_lookup_middle|done]. }
  split. { eapply rtc_l; [|apply rtc_refl]. eapply (G_check (setLb st lb1)). pose proof (StApply true i None rtt (fun _ => 0) now now lb1 cs1 cs2) as Hst.
    unfold applyCheck in Hst. rewrite Hs1, Eh in Hst. exact Hst. }
  split; [done|]. split; [done|]. split; [done|]. split; [done|]. split; [done|]. split.
  { cbn. rewrite list_lookup_insert_eq; [done|]. by eapply lookup_lt_Some. }
  destruct Hh as [Hh Hsc]. cbn. rewrite Hh. by destruct (_ <=? 1).
Qed.

(** ** Witnesses *)

(** One upstream, which is up, and one that has never been checked. *)
Definition upLb : LoadBalancer nat :=
  DisableBackgroundProbes (fun _ => 1) (NewLoadBalancer [upDemo "a"] hcDemo (selDefaults (Selection zeroConfig)) (Probe zeroConfig) 0).
Definition newLb : LoadBalancer nat :=
  RunHealthChecks_init 0 (NewLoadBalancer [upDemo "a"] hcDemo (selDefaults (Selection zeroConfig)) (Probe zeroConfig) 0).


(** The selection of [upLb] alone, with the states it leaves. *)
Fixpoint leaves (fuel : nat) (g : gstate) : list gstate * gstate :=
  match fuel with
  | O => ([], g)
  | S n =>
      match g_flows g !! 0%nat with
      | Some f =>
          match fnext 9 (g_lb g) f with
          | Some (lb', f', _) =>
              let '(l, g') := leaves n (G (setLb (g_st g) lb') (g_checks g) (<[0%nat := f']> (g_flows g))) in (g :: l, g')
          | None => ([], g)
          end
      | None => ([], g)
      end
  end.
Lemma leaves_trace fuel g : trace g (fst (leaves fuel g)) (snd (leaves fuel g)).
Proof.
  revert g. induction fuel as [|n IH]; intros g; [apply T_nil|]. cbn [leaves]. destruct (g_flows g !! 0%nat) as [f|] eqn:Ef; [|apply T_nil].
  destruct (fnext 9 (g_lb g) f) as [[[lb' f'] evs]|] eqn:E; [|apply T_nil]. destruct g as [st cs fs].
  specialize (IH (G (setLb st lb') cs (<[0%nat := f']> fs))). cbn [g_st g_checks g_flows] in *.
  destruct (leaves n _) as [l g']. eapply T_cons; [|exact IH]. by eapply G_flow.
Qed.
Definition picking : gstate := G (PState upLb [] [] [] 0) [] [PStart true 5].

Lemma pick_saw_eligible_witness : exists a, a ∈ fst (leaves 9 picking) /\ eligibleIn true 5 0 a = true.
Proof. apply (pick_saw_eligible true true 5 0 0 picking (snd (leaves 9 picking))); [reflexivity|apply leaves_trace|vm_compute; reflexivity]. Defined.

Lemma balancer_run_refines_witness : wf newLb /\ dialSem newLb <= 32.
Proof.
  destruct (balancer_run_refines 0 [upDemo "a"] hcDemo (selDefaults (Selection zeroConfig)) (Probe zeroConfig) 0
    (G (PState newLb [TEnsure true 0 false] [] [] 0) [] [PStart true 5])) as (_ & _ & _ & _ & H1 & _ & _ & H2).
  - eapply rtc_l; [apply (G_pick true 5)|]. eapply rtc_l; [apply G_standby, (SEnsure true 5 0)|]. apply rtc_refl.
  - exact (conj H1 H2).
Defined.

(** A selection that begins while the only upstream is down fails. *)
Lemma lb_quarantine_run_witness :
  down 0 (gstart newLb) /\ (G (PState newLb [] [] [] 0) [] [scan true 5 None]).(g_flows) !! 0%nat <> Some (PDone true (Ok 0%nat)).
Proof.
  assert (Hd : down 0 (gstart newLb)) by (intros s E; vm_compute in E; injection E as <-; reflexivity).
  split; [exact Hd|]. refine (proj2 (lb_quarantine_run 0 (gstart newLb) (G (PState newLb [] [] [] 0) [] [scan true 5 None]) Hd _) 0%nat _); [|apply Nat.le_refl].
  assert (Hno : forall g', ~ upCheck 0 (gstart newLb) g') by (intros g' (rtt & cs1 & cs2 & E & _); by destruct cs1).
  eapply rtc_l; [split; [apply (G_pick true 5)|apply Hno]|].
  eapply rtc_l; [split; [eapply (G_flow 0 _ 9 newLb (scan true 5 None) []); reflexivity|]|apply rtc_refl].
  intros (rtt & cs1 & cs2 & E & _). by destruct cs1.
Defined.

Lemma stale_check_lifts_quarantine_witness :
  exists g2 s2, pool (g_lb g2) !! 0%nat = Some s2 /\ healthy (tcp s2) = true /\ tcpCooldownUntil s2 = timeZero.
Proof.
  destruct (pool newLb !! 0%nat) as [s|] eqn:Es; [|vm_compute in Es; discriminate Es].
  destruct (stale_check_lifts_quarantine (G (PState newLb [] [] [] 0) [Chk true 0 (CApply None 7)] []) 0 s 7 [] [] (fun _ => 0) 5 (Some io_EOF))
    as (g1 & g2 & s1 & s2 & _ & _ & _ & _ & _ & _ & _ & Hp & H); [exact Es|reflexivity|].
  exists g2, s2. exact (conj Hp H).
Defined.
