(* ===== verification/Tunnel.v ===== *)
(** * The tunnel, layer over layer

    [WSStreamConn] over [framedWSConn] over a stream, and over the HTTP/3 stream in
    particular: what the server decodes is what was written, and what is read is what
    the server sent, however the layers cut it up and whatever else happens on the
    connection. The peer's side is read with the code's own [readFrame] and HTTP/3 reader. *)

From S2P Require Import Prelude Metrics WSFrame WSConn Relay Varint QPack H3.

(** ** Frames on the wire *)

(** A masked frame: key, type and payload. *)
Record mframe := MF { mf_key : bytes; mf_typ : Z; mf_data : bytes }.
Definition mfBytes (f : mframe) : bytes :=
  z2b (Z.lor 0x80 (Z.land (mf_typ f) 0x0F)) :: len_byte true (len7 (zlen (mf_data f))) :: len_ext (zlen (mf_data f))
    ++ mf_key f ++ maskBytes (mf_key f) (mf_data f).
Definition mfOk (f : mframe) : Prop := length (mf_key f) = 4%nat /\ 0 <= mf_typ f < 16 /\ zlen (mf_data f) <= wsMaxPayload.
Definition wire (fs : list mframe) : bytes := fs ≫= mfBytes.
Definition shown (f : mframe) : Z * bytes := (mf_typ f, mf_data f).

(** A server that reads frames to the end of its input. *)
Fixpoint serverFrames (fuel : nat) (r : rd) : option (list (Z * bytes)) :=
  match rd_buf r, fuel with
  | [], _ => Some []
  | _ :: _, O => None
  | _ :: _, S k =>
      match readFrame true r with
      | (Ok (typ, p, true), r) => cons (typ, p) <$> serverFrames k r
      | _ => None
      end
  end.

(** What the application on the server sees of them: the data messages. *)
Definition dataOf (fs : list (Z * bytes)) : list (Z * bytes) :=
  filter (fun f => fst f = WSMessageText \/ fst f = WSMessageBinary) fs.

Lemma mfBytes_build key typ d : buildFrame (Ok key) typ d true = Ok (mfBytes (MF key typ d)).
Proof. by rewrite buildFrame_eq. Qed.

Lemma length_mfBytes f : (2 <= length (mfBytes f))%nat.
Proof. unfold mfBytes. cbn [length]. lia. Qed.

Lemma serverFrames_wire fuel fs e :
  Forall mfOk fs -> (length fs <= fuel)%nat -> serverFrames fuel (Rd (wire fs) e) = Some (shown <$> fs).
Proof.
  revert fuel. induction fs as [|f fs IH]; intros fuel Hok Hl; [by destruct fuel|].
  apply Forall_cons in Hok as [(Hk & Ht & Hd) Hok]. destruct fuel as [|fuel]; [simpl in Hl; lia|].
  destruct (readFrame_buildFrame (mf_key f) (mf_typ f) (mf_data f) (wire fs) true e Ht Hk Hd) as (fr & Eb & Er).
  rewrite mfBytes_build in Eb. injection Eb as <-. replace (MF (mf_key f) (mf_typ f) (mf_data f)) with f in Er by (by destruct f). change (wire (f :: fs)) with (mfBytes f ++ wire fs).
  cbn [serverFrames rd_buf]. pose proof (length_mfBytes f). destruct (mfBytes f ++ wire fs) eqn:E.
  { apply (f_equal length) in E. rewrite length_app in E. cbn in E. lia. }
  rewrite Er. cbn. rewrite IH by (done || simpl in Hl; lia). done.
Qed.

Lemma length_wire fs : (length fs <= length (wire fs))%nat.
Proof.
  induction fs as [|f fs IH]; [done|]. change (wire (f :: fs)) with (mfBytes f ++ wire fs). rewrite length_app.
  pose proof (length_mfBytes f). simpl. lia.
Qed.

(** ** Writing *)

Section Upload.
Context {Strm : Type} `{!RWCloser Strm}.
Implicit Types c : Framed.t Strm.

(** A stream as [io.Writer] promises: a write takes a part of the bytes it is given, all of
    what it says when it says so without an error; [written] is what it has taken, and
    [failed] remembers that a write returned an error or took nothing. *)
Context (written : Strm -> bytes) (failed : Strm -> bool).
Class Sink : Prop := {
  sink_write p st : p <> [] ->
    let '(n, err, st') := rwc_write p st in
    n <= zlen p /\ (exists k, written st' = written st ++ take k p)
    /\ (if bool_decide (err = None) && (1 <=? n) then written st' = written st ++ take (Z.to_nat n) p /\ failed st' = failed st
        else failed st' = true);
  sink_close st : written (snd (rwc_close st)) = written st /\ failed (snd (rwc_close st)) = failed st }.
Context `{HSink : !Sink}.

(** [rand.Read] fills the four bytes of a key or fails. *)
Definition keysOk (e : env) : Prop := forall n, match randKey e n with Ok k => length k = 4%nat | Err _ => True | Panic _ => False end.

(** The loop that writes a frame: all of it, or a part of it and the stream has failed. *)
Lemma writeLoop_sink fuel p st :
  (length p <= fuel)%nat -> exists st' k, written st' = written st ++ take k p
  /\ (Framed.writeLoop fuel p st = (Ok tt, st') /\ (length p <= k)%nat /\ failed st' = failed st
      \/ exists e, Framed.writeLoop fuel p st = (Err e, st') /\ failed st' = true).
Proof.
  revert p st. induction fuel as [|fuel IH]; intros p st Hl;
    (destruct p as [|b p]; [exists st, 0%nat; split; [by rewrite app_nil_r|left; by repeat split]|]); [simpl in Hl; lia|].
  pose proof (sink_write (b :: p) st ltac:(done)) as Hw. cbn [Framed.writeLoop].
  destruct (rwc_write (b :: p) st) as [[n [e|]] st1]; cbn in Hw; destruct Hw as (Hn & [k Hk] & Hw).
  - exists st1, k. split; [done|]. right. by exists e.
  - destruct (Z.leb_spec 1 n) as [H1|H1].
    + destruct Hw as [Hw Hf]. rewrite (proj2 (Z.leb_gt _ _)), (proj2 (Z.ltb_ge _ _)) by lia.
      destruct (IH (drop (Z.to_nat n) (b :: p)) st1) as (st' & k' & Hw' & Hr); [rewrite length_drop; simpl in *; lia|].
      exists st', (Z.to_nat n + k')%nat. split; [by rewrite Hw', Hw, <- app_assoc, take_take_drop|].
      destruct Hr as [(-> & Hk' & ->)|(e & -> & ->)]; [left|right; by exists e]. rewrite length_drop in Hk'. repeat split; [lia|done].
    + rewrite (proj2 (Z.leb_le _ _)) by lia. exists st1, k. split; [done|]. right. by eexists.
Qed.

(** From [c] to [c'] the frames [fs] are put on the wire: all of them while no write fails,
    else the first of them and then other bytes. *)
Definition emits c c' (fs : list mframe) : Prop :=
  (exists fs1 fs2 junk, fs = fs1 ++ fs2 /\ written (Framed.s c') = written (Framed.s c) ++ wire fs1 ++ junk
     /\ (failed (Framed.s c') = false -> failed (Framed.s c) = false /\ fs2 = [] /\ junk = []))
  /\ Forall mfOk fs /\ Framed.ev c' = Framed.ev c.

Lemma emits_nil c c' : Framed.s c' = Framed.s c -> Framed.ev c' = Framed.ev c -> emits c c' [].
Proof. intros Es Ev. unfold emits. rewrite Es, Ev. split; [|done]. exists [], [], []. cbn. rewrite app_nil_r. by repeat split. Qed.
Lemma emits_junk c c' junk : written (Framed.s c') = written (Framed.s c) ++ junk -> failed (Framed.s c') = true ->
  Framed.ev c' = Framed.ev c -> emits c c' [].
Proof. intros Ew Ef Ev. split; [|done]. exists [], [], junk. split; [done|]. split; [done|congruence]. Qed.
Lemma emits_stream c c' c'' fs : emits c c' fs -> written (Framed.s c'') = written (Framed.s c') ->
  failed (Framed.s c'') = failed (Framed.s c') -> Framed.ev c'' = Framed.ev c' -> emits c c'' fs.
Proof. intros (H & Hok & Hv) Ew Ef Ev. unfold emits. by rewrite Ew, Ef, Ev. Qed.
Lemma emits_trans c1 c2 c3 fs1 fs2 : emits c1 c2 fs1 -> emits c2 c3 fs2 -> emits c1 c3 (fs1 ++ fs2).
Proof.
  intros ((a1 & b1 & j1 & -> & E1 & F1) & H1 & V1) ((a2 & b2 & j2 & -> & E2 & F2) & H2 & V2).
  split; [|split; [by apply Forall_app|congruence]]. destruct (failed (Framed.s c2)) eqn:Ef.
  - exists a1, (b1 ++ a2 ++ b2), (j1 ++ wire a2 ++ j2). split; [by rewrite <- !app_assoc|]. split; [by rewrite E2, E1, <- !app_assoc|].
    intros Hf. by destruct (F2 Hf).
  - destruct (F1 eq_refl) as (F1' & -> & ->). exists (a1 ++ a2), b2, j2. rewrite !app_nil_r in *. split; [by rewrite app_assoc|].
    split; [unfold wire in *; by rewrite E2, E1, bind_app, <- !app_assoc|]. intros Hf. by destruct (F2 Hf) as (_ & -> & ->).
Qed.

(** A frame through the loop. *)
Lemma writeLoop_emits f c c0 : mfOk f -> Framed.s c0 = Framed.s c -> Framed.ev c0 = Framed.ev c ->
  exists st', (forall c', Framed.s c' = st' -> Framed.ev c' = Framed.ev c ->
    (Framed.writeLoop (length (mfBytes f)) (mfBytes f) (Framed.s c0) = (Ok tt, st') /\ emits c c' [f]
     \/ exists e, Framed.writeLoop (length (mfBytes f)) (mfBytes f) (Framed.s c0) = (Err e, st') /\ failed st' = true /\ emits c c' [])).
Proof.
  intros Hf -> _. destruct (writeLoop_sink (length (mfBytes f)) (mfBytes f) (Framed.s c) ltac:(done)) as (st' & k & Hw & Hr).
  exists st'. intros c' Es Ev. destruct Hr as [(E & Hk & Hfl)|(e & E & Hfl)]; [left|right; exists e]; (split; [done|]).
  - split; [|split; [by constructor|done]]. exists [f], [], []. rewrite take_ge in Hw by lia. subst st'.
    split; [done|]. split; [unfold wire; cbn; by rewrite Hw, !app_nil_r|]. intros ?. split; [congruence|done].
  - split; [done|]. eapply emits_junk; [by rewrite Es|by rewrite Es|done].
Qed.

Lemma Write_emits typ d c :
  keysOk (Framed.ev c) -> 0 <= typ < 16 -> zlen d <= wsMaxPayload ->
  exists fs, emits c (snd (Framed.Write typ d c)) fs
    /\ (fst (Framed.Write typ d c) = Ok tt /\ shown <$> fs = [(typ, d)] \/ (exists e, fst (Framed.Write typ d c) = Err e) /\ fs = []).
Proof.
  intros Hk Ht Hd. unfold Framed.Write, Framed.ctx_Err. destruct (ctxErr _ _) as [e|].
  { exists []. split; [by apply emits_nil|]. right. split; [by eexists|done]. }
  cbn. specialize (Hk (S (Framed.tick c))). destruct (randKey _ _) as [key|e|w]; [| |done].
  - rewrite mfBytes_build. unfold Framed.writeRaw. cbn [Framed.closeSent Framed.next].
    destruct (Framed.closeSent c); [exists []; split; [by apply emits_nil|]; right; split; [by eexists|done]|].
    destruct (writeLoop_emits (MF key typ d) c (Framed.next (Framed.next c))) as (st' & H); [by split|done|done|].
    destruct (H (Framed.set_s (Framed.next (Framed.next c)) st') eq_refl eq_refl) as [[-> He]|(e & -> & _ & He)].
    + exists [MF key typ d]. split; [done|by left].
    + exists []. split; [done|]. right. split; [by eexists|done].
  - exists []. split; [by apply emits_nil|]. right. split; [by eexists|done].
Qed.

(** A connection that is not cancelled, gets its mask keys and has not been closed accepts
    what is written to it unless the stream fails. *)
Definition goodEnv (e : env) : Prop := (forall n, ctxErr e n = None) /\ forall n, exists k, randKey e n = Ok k /\ length k = 4%nat.

Lemma Write_accepts typ d c :
  goodEnv (Framed.ev c) -> Framed.closeSent c = false ->
  let '(r, c') := Framed.Write typ d c in
  Framed.ev c' = Framed.ev c /\ Framed.closeSent c' = false
  /\ (failed (Framed.s c') = true \/ r = Ok tt /\ failed (Framed.s c') = failed (Framed.s c)
      /\ exists key, length key = 4%nat /\ written (Framed.s c') = written (Framed.s c) ++ mfBytes (MF key typ d)).
Proof.
  intros [Hctx Hrand] Hc. destruct (Hrand (S (Framed.tick c))) as (key & Ek & Hl).
  unfold Framed.Write, Framed.ctx_Err. rewrite Hctx. unfold Framed.rand_Read. cbn [Framed.next Framed.ev Framed.tick].
  rewrite Ek, mfBytes_build. unfold Framed.writeRaw. cbn [Framed.closeSent Framed.next Framed.s]. rewrite Hc.
  destruct (writeLoop_sink (length (mfBytes (MF key typ d))) (mfBytes (MF key typ d)) (Framed.s c) ltac:(done))
    as (st' & k & Hw & [(-> & Hk & Hf)|(e & -> & Hf)]); (split; [done|]; split; [done|]); [right|by left].
  split; [done|]. split; [done|]. exists key. split; [done|]. cbn. by rewrite Hw, take_ge.
Qed.

(** Frames other than data messages. *)
Definition control (f : mframe) : Prop := mf_typ f = WSMessagePong \/ mf_typ f = WSMessageClose.

Lemma sendClose_emits d c :
  keysOk (Framed.ev c) -> zlen d <= wsMaxPayload -> exists fs, emits c (snd (Framed.sendClose d c)) fs /\ Forall control fs
    /\ forall w, fst (Framed.sendClose d c) <> Panic w.
Proof.
  intros Hk Hd. unfold Framed.sendClose, Framed.rand_Read. specialize (Hk (Framed.tick c)). cbn. destruct (randKey _ _) as [key|e|w]; [| |done].
  - rewrite mfBytes_build. destruct (Framed.closeSent c); [exists []; split; [by apply emits_nil|by split]|].
    destruct (writeLoop_emits (MF key WSMessageClose d) c (Framed.next c)) as (st' & H);
      [split; [done|]; split; [vm_compute; split; congruence|done]|done|done|].
    match goal with |- context [Framed.set_s ?x] => destruct (H (Framed.set_s x st') eq_refl eq_refl) as [[Hl He]|(e & Hl & _ & He)] end;
      cbn [Framed.s Framed.next] in *; rewrite Hl.
    + exists [MF key WSMessageClose d]. split; [done|]. split; [constructor; [by right|constructor]|done].
    + exists []. split; [done|]. by split.
  - exists []. split; [by apply emits_nil|by split].
Qed.

(** A pong in reply to a ping, then whatever follows. *)
Lemma pong_emits {A} d c (k : Framed.t Strm -> res A * Framed.t Strm) :
  keysOk (Framed.ev c) -> zlen d <= wsMaxPayload ->
  (forall c', Framed.ev c' = Framed.ev c -> exists fs, emits c' (snd (k c')) fs /\ Forall control fs) ->
  exists fs, emits c (snd (Framed.ignoreErr (Framed.Write WSMessagePong d c) k)) fs /\ Forall control fs.
Proof.
  intros Hk Hd Hrest. destruct (Write_emits WSMessagePong d c Hk ltac:(vm_compute; split; congruence) Hd) as (fs & He & Hr).
  destruct (Framed.Write WSMessagePong d c) as [r c1]. cbn [fst snd] in *.
  assert (Hc : Forall control fs).
  { destruct Hr as [[_ Hs]|[_ ->]]; [|constructor]. destruct fs as [|f [|]]; try done. injection Hs as Hs _. constructor; [by left|constructor]. }
  destruct (Hrest c1) as (fs2 & He2 & Hc2); [by apply He|]. exists (fs ++ fs2).
  replace (snd (Framed.ignoreErr (r, c1) k)) with (snd (k c1)) by (by destruct Hr as [[-> _]|[[e ->] _]]).
  split; [by eapply emits_trans|by apply Forall_app].
Qed.

Lemma close_emits {A} d c (r : res A) :
  keysOk (Framed.ev c) -> zlen d <= wsMaxPayload ->
  exists fs, emits c (snd (Framed.ignoreErr (Framed.sendClose d c) (fun c => (r, Framed.closeStream c)))) fs /\ Forall control fs.
Proof.
  intros Hk Hd. destruct (sendClose_emits d c Hk Hd) as (fs & He & Hc & Hp). exists fs. split; [|done].
  destruct (Framed.sendClose d c) as [x c1]. cbn [fst snd] in *. destruct x as [u|e|w]; [| |by destruct (Hp w)]; cbn;
    (eapply emits_stream; [exact He|apply sink_close|apply sink_close|done]).
Qed.

Lemma set_br_emits c r c' fs : emits (Framed.set_br (Framed.next c) r) c' fs -> emits c c' fs.
Proof. done. Qed.

Lemma readFragments_emits fuel ft buf c :
  keysOk (Framed.ev c) -> exists fs, emits c (snd (Framed.readFragments fuel ft buf c)) fs /\ Forall control fs.
Proof.
  revert buf c. induction fuel as [|fuel IH]; intros buf c Hk; [exists []; split; [by apply emits_nil|done]|].
  cbn [Framed.readFragments]. unfold Framed.ctx_Err.
  assert (Hstop : forall r, exists fs, emits c (Framed.set_br (Framed.next c) r) fs /\ Forall control fs)
    by (intros r; exists []; split; [by apply emits_nil|done]).
  destruct (ctxErr _ _); [exists []; split; [by apply emits_nil|done]|].
  destruct (readFrame false _) as [[[[op p] fin]|e|w] r] eqn:E; [|apply Hstop..]. apply readFrame_result in E as [_ Hp].
  cbv zeta. repeat case_match; try apply Hstop.
  - destruct (pong_emits p (Framed.set_br (Framed.next c) r) (Framed.readFragments fuel ft buf)) as (fs & He & Hc); [done|done| |by exists fs].
    intros c' Hc'. apply IH. by rewrite Hc'.
  - destruct (IH buf (Framed.set_br (Framed.next c) r) Hk) as (fs & He & Hc). by exists fs.
  - destruct (close_emits p (Framed.set_br (Framed.next c) r) (Err io_EOF : res (Z * bytes))) as (fs & He & Hc); [done|done|by exists fs].
  - destruct (IH (buf ++ p) (Framed.set_br (Framed.next c) r) Hk) as (fs & He & Hc). by exists fs.
Qed.

Lemma readLoop_emits fuel c : keysOk (Framed.ev c) -> exists fs, emits c (snd (Framed.readLoop fuel c)) fs /\ Forall control fs.
Proof.
  revert c. induction fuel as [|fuel IH]; intros c Hk; [exists []; split; [by apply emits_nil|done]|].
  cbn [Framed.readLoop]. unfold Framed.ctx_Err.
  assert (Hstop : forall r, exists fs, emits c (Framed.set_br (Framed.next c) r) fs /\ Forall control fs)
    by (intros r; exists []; split; [by apply emits_nil|done]).
  destruct (ctxErr _ _); [exists []; split; [by apply emits_nil|done]|].
  destruct (readFrame false _) as [[[[op p] fin]|e|w] r] eqn:E; [|apply Hstop..]. apply readFrame_result in E as [_ Hp].
  cbv zeta. unfold Framed.readFragmentedMessage. repeat case_match; try apply Hstop.
  - destruct (pong_emits p (Framed.set_br (Framed.next c) r) (Framed.readLoop fuel)) as (fs & He & Hc); [done|done| |by exists fs].
    intros c' Hc'. apply IH. by rewrite Hc'.
  - destruct (IH (Framed.set_br (Framed.next c) r) Hk) as (fs & He & Hc). by exists fs.
  - destruct (close_emits p (Framed.set_br (Framed.next c) r) (Err io_EOF : res (Z * bytes))) as (fs & He & Hc); [done|done|by exists fs].
  - destruct (readFragments_emits fuel op p (Framed.set_br (Framed.next c) r) Hk) as (fs & He & Hc). by exists fs.
Qed.

(** *** Any sequence of operations *)

Definition opFits (o : FramedFacts.op) : Prop :=
  match o with
  | FramedFacts.OpWrite typ d => (typ = WSMessageText \/ typ = WSMessageBinary) /\ zlen d <= wsMaxPayload
  | FramedFacts.OpRead => True
  | FramedFacts.OpClose code reason => 2 + zlen (str2b reason) <= wsMaxPayload
  end.
(** The message an operation has written. *)
Definition acceptedOne c (o : FramedFacts.op) : list (Z * bytes) :=
  match o with
  | FramedFacts.OpWrite typ d => match fst (Framed.Write typ d c) with Ok _ => [(typ, d)] | _ => [] end
  | _ => []
  end.

Lemma dataOf_control fs : Forall control fs -> dataOf (shown <$> fs) = [].
Proof.
  induction 1 as [|f fs Hf _ IH]; [done|]. unfold dataOf. rewrite fmap_cons, filter_cons_False; [exact IH|].
  destruct Hf as [Hf|Hf]; cbn; rewrite Hf; intros [?|?]; done.
Qed.

Lemma runOp_emits c o :
  keysOk (Framed.ev c) -> opFits o -> exists fs, emits c (FramedFacts.runOp c o) fs /\ dataOf (shown <$> fs) = acceptedOne c o.
Proof.
  intros Hk Ho. destruct o as [typ d| |code reason]; cbn [FramedFacts.runOp acceptedOne].
  - destruct Ho as [Ht Hd].
    destruct (Write_emits typ d c Hk) as (fs & He & [[Er Hs]|[[e Er] ->]]); [destruct Ht as [->| ->]; vm_compute; split; congruence|done|..];
      rewrite Er; [|by exists []]. exists fs. split; [done|]. rewrite Hs. unfold dataOf. by rewrite filter_cons_True.
  - destruct (readLoop_emits (S (length (rd_buf (Framed.br c)))) c Hk) as (fs & He & Hc). exists fs. split; [done|]. by apply dataOf_control.
  - unfold Framed.Close. set (payload := if negb (code =? 0) then _ else _).
    assert (Hp : zlen payload <= wsMaxPayload).
    { unfold payload. cbn in Ho. rewrite wsMaxPayload_val in *. destruct (negb (code =? 0)); [rewrite zlen_app|]; unfold zlen in *; rewrite ?length_be_bytes; cbn [length] in *; lia. }
    destruct (sendClose_emits payload c Hk Hp) as (fs & He & Hc & Hn). exists fs. split; [|by apply dataOf_control].
    destruct (Framed.sendClose payload c) as [[u|e|w] c1]; [exact He..|by destruct (Hn w)].
Qed.

(** *** The stream on top *)

(** A message off the connection takes input away. *)
Lemma readFragments_shrinks fuel ft buf c m c' :
  Framed.readFragments fuel ft buf c = (Ok m, c') -> (length (rd_buf (Framed.br c')) < length (rd_buf (Framed.br c)))%nat.
Proof.
  revert buf c. induction fuel as [|fuel IH]; intros buf c; [done|]. cbn [Framed.readFragments]. unfold Framed.ctx_Err.
  destruct (ctxErr _ _); [done|]. change (Framed.br (Framed.next c)) with (Framed.br c).
  destruct (readFrame false (Framed.br c)) as [[[[op p] fin]|e|w] r] eqn:E; [|done|done]. apply consumes_readFrame in E.
  case_match; [intros Hx%FramedFacts.ignoreErr_Ok|].
  { apply IH in Hx. destruct (FramedFacts.Write_sameInput WSMessagePong p (Framed.set_br (Framed.next c) r)) as [Hb _].
    rewrite Hb in Hx. cbn in Hx. lia. }
  case_match; [intros Hx%IH; cbn in Hx; lia|]. case_match; [by intros Hx%FramedFacts.ignoreErr_Ok|]. case_match; [|done].
  case_match; [intros Hx; simplify_eq; cbn; lia|]. intros Hx%IH. cbn in Hx. lia.
Qed.

Lemma readLoop_shrinks fuel c m c' :
  Framed.readLoop fuel c = (Ok m, c') -> (length (rd_buf (Framed.br c')) < length (rd_buf (Framed.br c)))%nat.
Proof.
  revert c. induction fuel as [|fuel IH]; intros c; [done|]. cbn [Framed.readLoop]. unfold Framed.ctx_Err.
  destruct (ctxErr _ _); [done|]. change (Framed.br (Framed.next c)) with (Framed.br c).
  destruct (readFrame false (Framed.br c)) as [[[[op p] fin]|e|w] r] eqn:E; [|done|done]. apply consumes_readFrame in E.
  case_match; [intros Hx%FramedFacts.ignoreErr_Ok|].
  { apply IH in Hx. destruct (FramedFacts.Write_sameInput WSMessagePong p (Framed.set_br (Framed.next c) r)) as [Hb _].
    rewrite Hb in Hx. cbn in Hx. lia. }
  case_match; [intros Hx%IH; cbn in Hx; lia|]. case_match; [by intros Hx%FramedFacts.ignoreErr_Ok|]. case_match; [done|].
  case_match; [|done]. unfold Framed.readFragmentedMessage. case_match; [intros Hx; simplify_eq; cbn; lia|].
  intros Hx%readFragments_shrinks. cbn in Hx. lia.
Qed.

(** [Read] of the stream is some reads of the connection; the length of the input bounds them. *)
Lemma fill_reads fuel (w : WSStreamConn (Framed.t Strm)) :
  keysOk (Framed.ev (sc w)) -> (length (rd_buf (Framed.br (sc w))) < fuel)%nat ->
  exists r w' evs fs, fill fuel w = Some (r, w', evs) /\ emits (sc w) (sc w') fs /\ Forall control fs.
Proof.
  revert w. induction fuel as [|fuel IH]; intros w Hk Hl; [lia|]. cbn [fill]. destruct (rb w) as [|b l].
  2:{ do 3 eexists. exists []. split; [done|]. split; [by apply emits_nil|done]. }
  destruct (readLoop_emits (S (length (rd_buf (Framed.br (sc w))))) (sc w) Hk) as (fs & He & Hc).
  change (ws_read (sc w)) with (Framed.Read (sc w)). unfold Framed.Read in *.
  destruct (Framed.readLoop _ (sc w)) as [[[typ d]|e|p] c'] eqn:E; cbn [snd] in He.
  - apply readLoop_shrinks in E. destruct (negb (typ =? WSMessageBinary)).
    + destruct (IH (setConn w c' [])) as (r & w' & evs & fs' & Hf & He' & Hc'); [cbn; destruct He as (_ & _ & ->); done|cbn; lia|].
      exists r, w', evs, (fs ++ fs'). split; [done|]. split; [by eapply emits_trans|by apply Forall_app].
    + destruct (IH (setConn w c' d)) as (r & w' & evs & fs' & Hf & He' & Hc'); [cbn; destruct He as (_ & _ & ->); done|cbn; lia|].
      rewrite Hf. do 3 eexists. exists (fs ++ fs'). split; [done|]. split; [by eapply emits_trans|by apply Forall_app].
  - do 3 eexists. exists fs. by split.
  - do 3 eexists. exists fs. by split.
Qed.

(** Calls of [Write], [Read] and [Close] on a [WSStreamConn], in any order: the connection after
    them and the pieces that [Write] took; [None] would be a [Read] without an end. *)
Inductive sop := SWrite (p : bytes) | SRead (n : nat) | SClose.
Definition streamOp (w : WSStreamConn (Framed.t Strm)) (o : sop) : option (WSStreamConn (Framed.t Strm) * list bytes) :=
  match o with
  | SWrite p => let '(r, w', _) := Relay.Write p w in Some (w', match r with Ok _ => [p] | _ => [] end)
  | SRead n =>
      match Relay.Read (S (length (rd_buf (Framed.br (sc w))))) n w with
      | Some (_, w', _) => Some (w', [])
      | None => None
      end
  | SClose => let '(_, w') := Relay.Close w in Some (w', [])
  end.
Fixpoint streamOps (w : WSStreamConn (Framed.t Strm)) (os : list sop) : option (WSStreamConn (Framed.t Strm) * list bytes) :=
  match os with
  | [] => Some (w, [])
  | o :: os =>
      match streamOp w o with
      | Some (w, ps) => match streamOps w os with Some (w, qs) => Some (w, ps ++ qs) | None => None end
      | None => None
      end
  end.
Definition sopFits (o : sop) : Prop := match o with SWrite p => zlen p <= wsMaxPayload | _ => True end.

Lemma streamOp_emits w o :
  keysOk (Framed.ev (sc w)) -> sopFits o ->
  exists w' ps fs, streamOp w o = Some (w', ps) /\ emits (sc w) (sc w') fs /\ dataOf (shown <$> fs) = pair WSMessageBinary <$> ps.
Proof.
  intros Hk Ho. destruct o as [p|n|]; cbn [streamOp].
  - destruct (runOp_emits (sc w) (FramedFacts.OpWrite WSMessageBinary p) Hk) as (fs & He & Hd); [split; [by right|done]|].
    unfold Relay.Write. cbn [FramedFacts.runOp acceptedOne] in *. change (ws_write WSMessageBinary p (sc w)) with (Framed.Write WSMessageBinary p (sc w)).
    destruct (Framed.Write WSMessageBinary p (sc w)) as [[u|e|x] c']; cbn [fst snd] in *; do 2 eexists; exists fs; by split.
  - destruct (fill_reads (S (length (rd_buf (Framed.br (sc w))))) w Hk ltac:(lia)) as (r & w' & evs & fs & Hf & He & Hc).
    unfold Relay.Read. rewrite Hf. destruct r as [u|e|x]; do 2 eexists; exists fs; (split; [done|]); (split; [done|]); by apply dataOf_control.
  - unfold Relay.Close. destruct (sc_closed w); [exists w, [], []; split; [done|]; split; [by apply emits_nil|done]|].
    destruct (runOp_emits (sc w) (FramedFacts.OpClose 1000 "") Hk) as (fs & He & Hd); [vm_compute; discriminate|].
    cbn [FramedFacts.runOp acceptedOne] in *. change (ws_close 1000 "" (sc w)) with (Framed.Close 1000 "" (sc w)).
    destruct (Framed.Close 1000 "" (sc w)) as [r c']. do 2 eexists. exists fs. by split.
Qed.

Lemma streamOps_emits w os :
  keysOk (Framed.ev (sc w)) -> Forall sopFits os ->
  exists w' ps fs, streamOps w os = Some (w', ps) /\ emits (sc w) (sc w') fs /\ dataOf (shown <$> fs) = pair WSMessageBinary <$> ps.
Proof.
  revert w. induction os as [|o os IH]; intros w Hk Ho; [exists w, [], []; split; [done|]; split; [by apply emits_nil|done]|].
  apply Forall_cons in Ho as [Ho Hos]. destruct (streamOp_emits w o Hk Ho) as (w1 & ps & fs & E1 & H1 & D1).
  destruct (IH w1) as (w2 & qs & gs & E2 & H2 & D2); [by destruct H1 as (_ & _ & ->)|done|].
  cbn [streamOps]. rewrite E1, E2. exists w2, (ps ++ qs), (fs ++ gs). split; [done|]. split; [by eapply emits_trans|].
  unfold dataOf in *. by rewrite !fmap_app, filter_app, D1, D2.
Qed.

(** Pieces written one after the other, with what each [Write] returned. *)
Fixpoint writeAll (ps : list bytes) (w : WSStreamConn (Framed.t Strm)) : list (res Z) * WSStreamConn (Framed.t Strm) :=
  match ps with
  | [] => ([], w)
  | p :: ps => let '(r, w, _) := Relay.Write p w in let '(rs, w) := writeAll ps w in (r :: rs, w)
  end.

Lemma piece_accepted p w : goodEnv (Framed.ev (sc w)) -> Framed.closeSent (sc w) = false ->
  let '(r, w', _) := Relay.Write p w in
  Framed.ev (sc w') = Framed.ev (sc w) /\ Framed.closeSent (sc w') = false
  /\ (failed (Framed.s (sc w')) = true \/ r = Ok (zlen p) /\ failed (Framed.s (sc w')) = failed (Framed.s (sc w))
      /\ exists key, length key = 4%nat /\ written (Framed.s (sc w')) = written (Framed.s (sc w)) ++ mfBytes (MF key WSMessageBinary p)).
Proof.
  intros He Hc. pose proof (Write_accepts WSMessageBinary p (sc w) He Hc) as H. unfold Relay.Write.
  change (ws_write WSMessageBinary p (sc w)) with (Framed.Write WSMessageBinary p (sc w)).
  destruct (Framed.Write WSMessageBinary p (sc w)) as [r c'] eqn:E. destruct H as (H1 & H2 & H3).
  destruct r; cbn [sc setConn]; (split; [done|]; split; [done|]); destruct H3 as [?|(Hr & ?)]; auto; simplify_eq; auto.
Qed.

(** Only writes, on a connection that is good: a failed stream, or every piece was accepted. *)
Lemma streamOps_writes ps w w' qs :
  goodEnv (Framed.ev (sc w)) -> Framed.closeSent (sc w) = false -> Forall (fun p => zlen p <= wsMaxPayload) ps ->
  streamOps w (SWrite <$> ps) = Some (w', qs) -> failed (Framed.s (sc w')) = false -> qs = ps.
Proof.
  intros He Hc Hfit E Hf. revert w qs He Hc E. induction Hfit as [|p ps Hp Hps IH]; intros w qs He Hc E; [cbn in E; congruence|].
  cbn [fmap list_fmap streamOps streamOp] in E. pose proof (piece_accepted p w He Hc) as Hpc.
  destruct (Relay.Write p w) as [[r w1] evs]. destruct Hpc as (Hv & Hcs & Hr). rewrite <- Hv in He.
  assert (Hk : keysOk (Framed.ev (sc w1))) by (intros k; destruct (proj2 He k) as (key & -> & Hl); exact Hl).
  destruct (streamOps_emits w1 (SWrite <$> ps)) as (w2 & qs2 & fs & E2 & ((a & b & j & _ & _ & Hem) & _) & _); [done|by apply Forall_fmap|].
  rewrite E2 in E. simplify_eq. destruct (Hem Hf) as [Hf1 _]. destruct Hr as [?|(-> & _)]; [congruence|].
  cbn. f_equal. by apply (IH w1).
Qed.

(** The frames of pieces with their mask keys. *)
Lemma pieces_frames keys ps : Forall (fun k : bytes => length k = 4%nat) keys -> length keys = length ps -> Forall (fun p => zlen p <= wsMaxPayload) ps ->
  let fs := zip_with (fun k p => MF k WSMessageBinary p) keys ps in Forall mfOk fs /\ (shown <$> fs) = pair WSMessageBinary <$> ps.
Proof.
  intros Hk Hl Hp. revert keys Hk Hl. induction Hp as [|p ps Hp _ IH]; intros [|k keys] Hk Hl; try done.
  apply Forall_cons in Hk as [Hk Hks]. injection Hl as Hl. destruct (IH keys Hks Hl) as [H1 H2]. split; [|cbn in *; by rewrite H2].
  constructor; [|done]. split; [done|]. split; [vm_compute; split; congruence|done].
Qed.

(** The same with the bytes on the wire, over a stream that never fails. *)
Lemma writeAll_wire ps w : (forall st, failed st = false) ->
  goodEnv (Framed.ev (sc w)) -> Framed.closeSent (sc w) = false ->
  exists keys w', Forall (fun k => length k = 4%nat) keys /\ length keys = length ps
    /\ writeAll ps w = ((fun p => Ok (zlen p)) <$> ps, w')
    /\ written (Framed.s (sc w')) = written (Framed.s (sc w)) ++ wire (zip_with (fun k p => MF k WSMessageBinary p) keys ps).
Proof.
  intros Hnf. revert w. induction ps as [|p ps IH]; intros w He Hc; [exists [], w; by rewrite app_nil_r|].
  cbn [writeAll]. pose proof (piece_accepted p w He Hc) as Hpc. destruct (Relay.Write p w) as [[r w1] evs].
  destruct Hpc as (Hv & Hcs & [Hr|(-> & _ & key & Hkey & Hw)]); [congruence|].
  destruct (IH w1) as (keys & w2 & Hks & Hl & E2 & Hw2); [by rewrite Hv|done|]. rewrite E2.
  exists (key :: keys), w2. split; [by constructor|]. split; [simpl; lia|]. split; [done|].
  rewrite Hw2, Hw, <- app_assoc. done.
Qed.
End Upload.

(** ** Reading *)

(** A message as a server may send it: control frames first, then one frame, or a first
    fragment, more of them between control frames, and a last one. *)
Record smsg := SMsg { m_pre : list FramedFacts.midFrame; m_typ : Z; m_first : bytes; m_rest : option (list FramedFacts.midFrame * bytes) }.
Definition smsgBytes (m : smsg) : bytes :=
  concat (map FramedFacts.midBytes (m_pre m))
  ++ match m_rest m with
     | None => srvFrame true (m_typ m) (m_first m)
     | Some (mids, final) =>
         srvFrame false (m_typ m) (m_first m) ++ concat (map FramedFacts.midBytes mids) ++ srvFrame true WSMessageContinuation final
     end.
Definition smsgData (m : smsg) : bytes :=
  m_first m ++ match m_rest m with None => [] | Some (mids, final) => concat (map FramedFacts.midPayload mids) ++ final end.
Definition smsgOk (m : smsg) : Prop :=
  (m_typ m = WSMessageText \/ m_typ m = WSMessageBinary) /\ Forall FramedFacts.midFits (m_pre m) /\ Forall FramedFacts.isControl (m_pre m)
  /\ zlen (m_first m) <= wsMaxPayload
  /\ match m_rest m with None => True | Some (mids, final) => Forall FramedFacts.midFits mids /\ zlen final <= wsMaxPayload end.

Section Download.
Context {Strm : Type} `{!RWCloser Strm} `{!WriterOk Strm}.
Implicit Types c : Framed.t Strm.

Lemma readFragments_ev fuel ft buf c : Framed.ev (snd (Framed.readFragments fuel ft buf c)) = Framed.ev c.
Proof.
  revert buf c. induction fuel as [|fuel IH]; intros buf c; [done|]. cbn [Framed.readFragments]. unfold Framed.ctx_Err.
  destruct (ctxErr _ _); [done|]. destruct (readFrame false _) as [[[[op p] fin]|e|w] r]; [|done|done]. cbv zeta.
  case_match.
  { destruct (FramedFacts.Write_sameInput WSMessagePong p (Framed.set_br (Framed.next c) r)) as [_ He].
    destruct (Framed.Write _ _ _) as [[u|e|w] c1]; cbn in *; rewrite ?IH; done. }
  case_match; [by rewrite IH|]. case_match.
  { destruct (FramedFacts.sendClose_sameInput p (Framed.set_br (Framed.next c) r)) as [_ He].
    destruct (Framed.sendClose _ _) as [[u|e|w] c1]; cbn in *; done. }
  case_match; [|done]. case_match; [done|]. by rewrite IH.
Qed.

Lemma readLoop_ev fuel c : Framed.ev (snd (Framed.readLoop fuel c)) = Framed.ev c.
Proof.
  revert c. induction fuel as [|fuel IH]; intros c; [done|]. cbn [Framed.readLoop]. unfold Framed.ctx_Err.
  destruct (ctxErr _ _); [done|]. destruct (readFrame false _) as [[[[op p] fin]|e|w] r]; [|done|done]. cbv zeta.
  case_match.
  { destruct (FramedFacts.Write_sameInput WSMessagePong p (Framed.set_br (Framed.next c) r)) as [_ He].
    destruct (Framed.Write _ _ _) as [[u|e|w] c1]; cbn in *; rewrite ?IH; done. }
  case_match; [by rewrite IH|]. case_match.
  { destruct (FramedFacts.sendClose_sameInput p (Framed.set_br (Framed.next c) r)) as [_ He].
    destruct (Framed.sendClose _ _) as [[u|e|w] c1]; cbn in *; done. }
  case_match; [done|]. case_match; [|done]. unfold Framed.readFragmentedMessage. case_match; [done|]. by rewrite readFragments_ev.
Qed.

(** A message in one frame. *)
Lemma Read_single pre typ d rest e c :
  typ = WSMessageText \/ typ = WSMessageBinary -> Forall FramedFacts.midFits pre -> Forall FramedFacts.isControl pre ->
  zlen d <= wsMaxPayload -> FramedFacts.quietEnv (Framed.ev c) ->
  Framed.br c = Rd (concat (map FramedFacts.midBytes pre) ++ srvFrame true typ d ++ rest) e ->
  exists c', Framed.Read c = (Ok (typ, d), c') /\ Framed.br c' = Rd rest e.
Proof.
  intros Ht Hp Hc Hd Hq Hbr. unfold Framed.Read. pose proof (FramedFacts.length_midBytes pre) as L.
  set (N := S (length (rd_buf (Framed.br c)))).
  assert (HN : (length pre + 1 <= N)%nat) by (unfold N; rewrite Hbr; cbn [rd_buf]; rewrite !length_app; lia).
  destruct (FramedFacts.readLoop_controls pre N _ e c ltac:(lia) Hp Hc Hq Hbr) as (c1 & -> & Hb1 & He1).
  destruct (N - length pre)%nat as [|k] eqn:Ek; [lia|]. cbn [Framed.readLoop]. unfold Framed.ctx_Err. rewrite He1, (proj1 Hq).
  change (Framed.br (Framed.next c1)) with (Framed.br c1). rewrite Hb1.
  rewrite readFrame_srvFrame by (auto; destruct Ht as [-> | ->]; vm_compute; split; congruence).
  destruct Ht as [-> | ->]; by eexists.
Qed.

Lemma Read_smsg m rest e c :
  smsgOk m -> FramedFacts.quietEnv (Framed.ev c) -> Framed.br c = Rd (smsgBytes m ++ rest) e ->
  exists c', Framed.Read c = (Ok (m_typ m, smsgData m), c') /\ Framed.br c' = Rd rest e /\ Framed.ev c' = Framed.ev c.
Proof.
  intros (Ht & Hp & Hc & Hf & Hr) Hq Hbr.
  assert (H : exists c', Framed.Read c = (Ok (m_typ m, smsgData m), c') /\ Framed.br c' = Rd rest e).
  { unfold smsgBytes, smsgData in *. destruct (m_rest m) as [[mids final]|].
    - destruct Hr as [Hm Hfin]. apply (FramedFacts.Read_fragmented (m_pre m) (m_typ m) (m_first m) mids final rest e c); auto.
      rewrite Hbr. by rewrite <- !app_assoc.
    - rewrite app_nil_r. apply (Read_single (m_pre m) (m_typ m) (m_first m) rest e c); auto. rewrite Hbr. by rewrite <- !app_assoc. }
  destruct H as (c' & E & Hb). exists c'. split; [done|]. split; [done|].
  pose proof (readLoop_ev (S (length (rd_buf (Framed.br c)))) c) as Hev. unfold Framed.Read in E. by rewrite E in Hev.
Qed.

Definition smsgsBytes (ms : list smsg) : bytes := ms ≫= smsgBytes.
Definition smsgShown (m : smsg) : Z * bytes := (m_typ m, smsgData m).

Lemma yields_smsgs ms e c :
  Forall smsgOk ms -> FramedFacts.quietEnv (Framed.ev c) -> Framed.br c = Rd (smsgsBytes ms) e -> yields c (smsgShown <$> ms) e.
Proof.
  revert c. induction ms as [|m ms IH]; intros c Hok Hq Hbr.
  - eapply yields_end. change (ws_read c) with (Framed.Read c). unfold Framed.Read. cbn [Framed.readLoop]. unfold Framed.ctx_Err.
    rewrite (proj1 Hq). change (Framed.br (Framed.next c)) with (Framed.br c). by rewrite Hbr.
  - apply Forall_cons in Hok as [Hm Hok]. destruct (Read_smsg m (smsgsBytes ms) e c Hm Hq Hbr) as (c' & E & Hb & Hev).
    eapply yields_msg; [exact E|]. apply IH; [done|by rewrite Hev|done].
Qed.
End Download.

(** ** Over HTTP/3 *)

Section OverH3.
(** What the writes of the QUIC stream return. *)
Context (wr : nat -> bytes -> Z * option gerror).
Definition quicTakes : Prop := forall k b, b <> [] -> 1 <= fst (wr k b) <= zlen b /\ snd (wr k b) = None.

(** The stream as the payloads given to [h3wsStream.Write], and what they are on the QUIC
    stream. *)
Definition h3out : Type := list bytes.
Definition quicBytes (st : h3out) : bytes := st ≫= fun p => snd (Stream.Write None wr p).

#[export] Instance h3_rwc : RWCloser h3out := {
  rwc_write p st :=
    match fst (Stream.Write None wr p) with
    | Ok n => (n, None, st ++ [p])
    | Err e => (0, Some e, st)
    | Panic w => (0, Some (errMsg w), st)
    end;
  rwc_close st := (None, st) }.

Context (Hwr : quicTakes).

Lemma h3Write_all p : Stream.Write None wr p = (Ok (zlen p), Stream.dataFrame p).
Proof.
  unfold Stream.Write.
  destruct (StreamFacts.writeLoop_all (length (Stream.dataFrame p)) (fun _ => None) wr 0 (Stream.dataFrame p) []) as (k & ->).
  - intros k b Hb. split; [done|]. by apply Hwr.
  - done.
  - by destruct p.
Qed.

Lemma quicBytes_frames st : quicBytes st = StreamFacts.frames st.
Proof. induction st as [|p st IH]; [done|]. unfold quicBytes, StreamFacts.frames in *. rewrite !bind_cons, IH. by rewrite h3Write_all. Qed.

Lemma h3_writer_ok : WriterOk h3out.
Proof. constructor. intros p st n st'. cbn. rewrite h3Write_all. intros [= <- _]. lia. Qed.

(** The header of a frame has at most 14 bytes. *)
Definition pieceFits (p : bytes) : Prop := zlen p + 14 <= h3MaxDataFrameSize.

Lemma length_len_ext l : (length (len_ext l) <= 8)%nat.
Proof. unfold len_ext. repeat case_match; rewrite ?length_be_bytes; simpl; lia. Qed.
Lemma mfBytes_fits f : mfOk f -> pieceFits (mf_data f) -> StreamFacts.sizeOk (mfBytes f).
Proof.
  intros (Hk & _) Hp. unfold StreamFacts.sizeOk, pieceFits, mfBytes, zlen in *. cbn [length]. rewrite !length_app, length_maskBytes, Hk.
  pose proof (length_len_ext (Z.of_nat (length (mf_data f)))). lia.
Qed.

Lemma h3_writeLoop (fr : bytes) (st : h3out) : fr <> [] -> Framed.writeLoop (length fr) fr st = (Ok tt, st ++ [fr]).
Proof.
  destruct fr as [|b m]; [done|]. intros _. cbn [length Framed.writeLoop rwc_write h3_rwc]. rewrite h3Write_all. cbn [fst].
  pose proof (zlen_nonneg m). rewrite zlen_cons. rewrite (proj2 (Z.leb_gt _ _)), (proj2 (Z.ltb_ge _ _)) by lia.
  rewrite drop_ge; [by destruct (length m)|]. unfold zlen in *. cbn [length]. lia.
Qed.

(** One piece through all layers: a DATA frame with a masked binary frame. *)
Lemma h3_write_piece p (w : WSStreamConn (Framed.t h3out)) :
  goodEnv (Framed.ev (sc w)) -> Framed.closeSent (sc w) = false ->
  exists key w' evs, length key = 4%nat /\ Relay.Write p w = (Ok (zlen p), w', evs)
    /\ Framed.s (sc w') = Framed.s (sc w) ++ [mfBytes (MF key WSMessageBinary p)]
    /\ Framed.ev (sc w') = Framed.ev (sc w) /\ Framed.closeSent (sc w') = false.
Proof.
  intros [Hctx Hrand] Hc. destruct (Hrand (S (Framed.tick (sc w)))) as (key & Ek & Hl).
  unfold Relay.Write. change (ws_write WSMessageBinary p (sc w)) with (Framed.Write WSMessageBinary p (sc w)).
  pose proof (length_mfBytes (MF key WSMessageBinary p)) as Hne. pose proof (mfBytes_build key WSMessageBinary p) as Eb.
  exists key. revert Hne Eb. generalize (mfBytes (MF key WSMessageBinary p)) as fr. intros fr Hne Eb.
  unfold Framed.Write, Framed.ctx_Err. rewrite Hctx. unfold Framed.rand_Read. cbn [Framed.next Framed.ev Framed.tick]. rewrite Ek, Eb.
  unfold Framed.writeRaw. change (Framed.closeSent (Framed.next (Framed.next (sc w)))) with (Framed.closeSent (sc w)). rewrite Hc.
  change (Framed.s (Framed.next (Framed.next (sc w)))) with (Framed.s (sc w)).
  rewrite (h3_writeLoop fr) by (destruct fr; [simpl in Hne; lia|done]). do 2 eexists. split; [done|]. split; [done|]. by split.
Qed.

Lemma h3_writeAll ps w :
  goodEnv (Framed.ev (sc w)) -> Framed.closeSent (sc w) = false ->
  exists keys w', Forall (fun k => length k = 4%nat) keys /\ length keys = length ps
    /\ writeAll (RWCloser0 := h3_rwc) ps w = ((fun p => Ok (zlen p)) <$> ps, w')
    /\ Framed.s (sc w') = Framed.s (sc w) ++ zip_with (fun k p => mfBytes (MF k WSMessageBinary p)) keys ps.
Proof.
  revert w. induction ps as [|p ps IH]; intros w He Hc; [exists [], w; by rewrite app_nil_r|].
  destruct (h3_write_piece p w He Hc) as (key & w1 & evs & Hk & E1 & Es & Ev & Ec).
  destruct (IH w1) as (keys & w2 & Hks & Hl & E2 & Es2); [by rewrite Ev|done|].
  exists (key :: keys), w2. split; [by constructor|]. split; [simpl; lia|]. cbn [writeAll]. rewrite E1, E2. split; [done|].
  by rewrite Es2, Es, <- app_assoc.
Qed.
End OverH3.

(** ** Properties *)


Lemma goodEnv_quiet e : goodEnv e -> FramedFacts.quietEnv e.
Proof. intros [H1 H2]. split; [done|]. intros n w. destruct (H2 n) as (k & -> & _). done. Qed.

(** C10: the whole stack over HTTP/3, both ways. Whatever the application writes in pieces
    arrives: every [Write] succeeds, and the server that reads the DATA frames off the
    QUIC stream with any buffer, then the WebSocket frames, gets the pieces. And
    whatever messages the server sends, in one frame or in fragments, with control frames
    in between, and however they are cut into DATA frames, the application reads their
    binary payloads joined together and then the end of the stream. Pieces leave room
    for the header of the frame in a DATA frame of 64 MiB. *)
Theorem h3_tunnel_roundtrip (wr : nat -> bytes -> Z * option gerror) (e : env) (err : gerror) (n m : nat)
    (Hwr : quicTakes wr) (He : goodEnv e) (Hn : (0 < n)%nat) (Hm : (0 < m)%nat) :
  (forall (ps : list bytes) (input : rd) upstream proto, Forall pieceFits ps ->
     let '(rs, w) := writeAll (RWCloser0 := h3_rwc wr) ps (NewWSStreamConn (Framed.newFramedWSConn input [] e) upstream proto) in
     rs = (fun p => Ok (zlen p)) <$> ps
     /\ exists b, StreamFacts.drain (S (length b)) n (Stream.H3Stream (Rd (quicBytes wr (Framed.s (sc w))) err) []) = Some (b, err)
        /\ serverFrames (length b) (Rd b err) = Some (pair WSMessageBinary <$> ps))
  /\ (forall (ms : list smsg) (cuts : list bytes) upstream proto, Forall smsgOk ms -> Forall StreamFacts.sizeOk cuts ->
     concat cuts = smsgsBytes ms ->
     exists b, StreamFacts.drain (S (length b)) n (Stream.H3Stream (Rd (StreamFacts.frames cuts) err) []) = Some (b, err)
     /\ let got := carried (smsgShown <$> ms) in
        copyAll (WSConn0 := @framedWSConn h3out (h3_rwc wr)) (S (length got)) (S (length ms)) m
          (NewWSStreamConn (Framed.newFramedWSConn (Rd b err) [] e) upstream proto) = Some (got, Err err)).
Proof.
  split.
  - intros ps input upstream proto Hps.
    destruct (h3_writeAll wr Hwr ps (NewWSStreamConn (Framed.newFramedWSConn input [] e) upstream proto) He eq_refl)
      as (keys & w & Hks & Hl & E & Es). rewrite E. split; [done|].
    set (fs := zip_with (fun k p => MF k WSMessageBinary p) keys ps).
    assert (Hz : zip_with (fun k p => mfBytes (MF k WSMessageBinary p)) keys ps = mfBytes <$> fs) by (unfold fs; clear; revert keys; induction ps as [|p ps IH]; intros [|k keys]; [done..|]; cbn; by rewrite IH).
    assert (Hfs : Forall (fun f => mfOk f /\ pieceFits (mf_data f)) fs).
    { unfold fs. clear -Hks Hps. revert keys Hks. induction Hps as [|p ps Hp _ IH]; intros [|k keys] Hks; try constructor.
      - apply Forall_cons in Hks as [Hk _]. split; [|done]. split; [done|]. split; [vm_compute; split; congruence|].
        unfold pieceFits, h3MaxDataFrameSize in Hp. rewrite wsMaxPayload_val. cbn [mf_data]. lia.
      - apply Forall_cons in Hks as [_ Hks]. by apply IH. }
    exists (wire fs). cbn [sc NewWSStreamConn Framed.s Framed.newFramedWSConn app] in Es. rewrite Es, Hz, (quicBytes_frames wr Hwr). split.
    + replace (wire fs) with (concat (mfBytes <$> fs)) by (unfold wire; clear; induction fs as [|f fs IH]; [done|]; cbn; by rewrite IH).
      apply (StreamFacts.drain_frames _ n (mfBytes <$> fs) []); [|done|simpl; lia]. rewrite Forall_fmap.
      eapply Forall_impl; [exact Hfs|]. intros f [H1 H2]. by apply mfBytes_fits.
    + rewrite serverFrames_wire; [|eapply Forall_impl; [exact Hfs|by intros f [H _]]|apply length_wire]. f_equal. unfold fs.
      clear -Hl. revert keys Hl. induction ps as [|p ps IH]; intros [|k keys] Hl; try done. cbn. f_equal. apply IH. simpl in Hl. lia.
  - intros ms cuts upstream proto Hms Hcuts Hc. exists (concat cuts).
    split; [apply (StreamFacts.drain_frames _ n cuts []); [done|done|simpl; lia]|]. rewrite Hc. cbv zeta.
    pose proof (h3_writer_ok wr Hwr) as Hok.
    pose proof (yields_smsgs (Strm := h3out) (RWCloser0 := h3_rwc wr) ms err (Framed.newFramedWSConn (Rd (smsgsBytes ms) err) [] e) Hms (goodEnv_quiet e He) eq_refl) as Hy.
    apply (copyAll_spec _ _ m (NewWSStreamConn (Framed.newFramedWSConn (Rd (smsgsBytes ms) err) [] e) upstream proto) _ err Hy); [rewrite length_fmap; lia|done|simpl; lia].
Qed.

(** ** Witnesses *)

(** A stream that takes one byte at a time, and fails once it has taken [k]. *)
Definition budget : Type := bytes * bool * nat.
#[local] Instance budgetStream : RWCloser budget := {
  rwc_write p st := let '(b, f, k) := st in
    match k with O => (0, Some io_ErrClosedPipe, (b, true, O)) | S k => (1, None, (b ++ take 1 p, f, k)) end;
  rwc_close st := (None, st) }.
Lemma budget_sink : Sink (fun st : budget => st.1.1) (fun st => st.1.2).
Proof.
  split; [|done]. intros [|b p] [[w f] k] Hp; [done|]. pose proof (zlen_nonneg p). destruct k as [|k]; cbn; rewrite zlen_cons.
  - split; [lia|]. split; [|done]. exists 0%nat. by rewrite app_nil_r.
  - split; [lia|]. split; [by exists 1%nat|done].
Qed.


Definition fragDemo : smsg :=
  SMsg [FramedFacts.MidPing (str2b "p")] WSMessageBinary (str2b "ab") (Some ([FramedFacts.MidFragment (str2b "c"); FramedFacts.MidPong []], str2b "d")).

Lemma h3_tunnel_roundtrip_witness :
  exists b, StreamFacts.drain (S (length b)) 3 (Stream.H3Stream (Rd (StreamFacts.frames [smsgBytes fragDemo]) io_EOF) []) = Some (b, io_EOF)
  /\ copyAll (WSConn0 := @framedWSConn h3out (h3_rwc (fun _ _ => (1, None)))) 5 2 2
       (NewWSStreamConn (Framed.newFramedWSConn (Rd b io_EOF) [] demoEnv) [] []) = Some (str2b "abcd", Err io_EOF).
Proof.
  refine (proj2 (h3_tunnel_roundtrip (fun _ _ => (1, None)) demoEnv io_EOF 3 2 _ _ _ _) [fragDemo] [smsgBytes fragDemo] [] [] _ _ _).
  - intros k [|x b] Hb; [done|]. rewrite zlen_cons. pose proof (zlen_nonneg b). cbn [fst snd]. split; [lia|reflexivity].
  - split; [reflexivity|]. intros n. by eexists.
  - lia.
  - lia.
  - constructor; [|constructor]. split; [by right|]. split; [|split; [|split; [|split]]]; repeat constructor; vm_compute; discriminate.
  - constructor; [vm_compute; discriminate|constructor].
  - reflexivity.
Defined.
