(* ===== verification/Variants.v ===== *)
(** * Build variants

    What stands in for the program's parts in other builds: src/internal/unit_stubs.go and
    unit_types.go (the build for unit tests), fwmark_other.go and tun_native_other.go
    (systems other than Linux), and the names src/pkg/outlinews/outlinews.go exports. *)

From S2P Require Import Prelude GoNum GoNet Config Metrics HealthCheck LoadBalancer PortTable Tun Debug.

(** ** The build for unit tests *)

Module Unit.

Definition ErrNotImplemented : gerror := errSentinel "not implemented in unit build".

(** The types of unit_types.go. *)
Record UpstreamConfig := { Name : bytes; Weight : float64; TCPWSS : bytes; UDPWSS : bytes; Cipher : bytes; Secret : bytes }.
Record HealthcheckConfig := {
  Interval : Z; Timeout : Z; Jitter : Z; MinInterval : Z; MaxInterval : Z; BackoffFactor : float64;
  FailThreshold : Z; SuccessThreshold : Z; RTTScale : float64 }.
Record SelectionConfig := {
  StickyTTL : Z; MinSwitch : Z; Cooldown : Z; WarmStandbyN : Z; WarmStandbyInterval : Z;
  StandbyKeepalive : bool; StandbyKeepaliveInterval : Z; StandbyKeepaliveProbeTimeout : Z }.
Record ProbeConfig := {
  EnableTCP : bool; EnableUDP : bool; Probe_Timeout : Z; TCPTarget : bytes; UDPTarget : bytes; DNSName : bytes; DNSType : bytes }.
Record TunConfig := { Device : bytes; UDPMaxFlows : Z; UDPIdleTimeout : Z; UDPFlowIdleTimeout : Z }.
Record WebSocketConfig := { Debug : bool }.
Record Config := {
  Upstreams : list UpstreamConfig; Healthcheck : HealthcheckConfig; Selection : SelectionConfig; Probe : ProbeConfig;
  DisableProbes : bool; Fwmark : Z; Tun : TunConfig; WebSocket : WebSocketConfig; Socks5Listen : bytes }.

(** The stubs: whatever they are given, they fail. *)
Definition LoadConfig (path : bytes) : res Config := Err ErrNotImplemented.
Definition ProbeTCPQuality (up : UpstreamConfig) (target : bytes) (fwmark : Z) : res Z := Err ErrNotImplemented.
Definition ProbeUDPQuality (up : UpstreamConfig) (target dnsName dnsType : bytes) (fwmark : Z) : res Z := Err ErrNotImplemented.
Definition ProbeH3ExtendedConnect (rawurl : bytes) : res Z := Err ErrNotImplemented.
Definition RunTunNative {C} (cfg : TunConfig) (lb : LoadBalancer C) : option gerror := Some ErrNotImplemented.
Definition newSSTCPConn {W N} (wsc : W) (up : UpstreamConfig) (dst : bytes) : res N := Err ErrNotImplemented.
Definition dialCoderWebSocket {W} (rawurl : bytes) : res W := Err ErrNotImplemented.
Definition dialRFC8441RawH2 {U W} (u : U) : res W := Err ErrNotImplemented.
Definition dialRFC9220 {U W} (u : U) : res W := Err ErrNotImplemented.

(** [UDPAssociation]: an address that is made up when it is asked for. *)
Record UDPAssociation := Assoc { addr : option (bytes * Z) }.
Definition NewUDPAssociation (up : UpstreamConfig) (fwmark : Z) : res UDPAssociation := Ok (Assoc None).
Definition LocalAddr (a : UDPAssociation) : (bytes * Z) * UDPAssociation :=
  let x := default (v4InV6Prefix ++ [ch 127; ch 0; ch 0; ch 1], 0) (addr a) in (x, Assoc (Some x)).
Definition Close (a : UDPAssociation) : option gerror * UDPAssociation := (None, a).

(** [normalizeHostPort(s)] of this build. *)
Definition normalizeHostPort (s : bytes) : bytes :=
  match s with
  | [] => s
  | _ =>
      match SplitHostPort s with
      | Ok _ => s
      | _ =>
          match lastIndexByte s cColon with
          | Some i =>
              if ((0 <? i) && (i <? length s - 1))%nat then
                let host := take i s in
                if bool_decide (last host = Some cColon) then s
                else
                  let port := drop (S i) s in
                  let candidate := [cLBr] ++ host ++ [cRBr; cColon] ++ port in
                  match SplitHostPort candidate with Ok _ => candidate | _ => s end
              else s
          | None => s
          end
      end
  end.
End Unit.

(** ** Systems other than Linux *)

Module Other.
(** [setSocketMark(fd, mark)]. *)
Definition setSocketMark (mark : Z) : option gerror := if mark =? 0 then None else Some (errMsg "fwmark is supported only on linux").
(** [RunTunNative(ctx, cfg, lb)]. *)
Definition RunTunNative {C} (cfg : TunConfig) (lb : LoadBalancer C) : option gerror := Some (errMsg "tun mode is supported only on linux").
End Other.

(** ** The exported names *)

Module outlinews.
Definition Config := Config.Config.
Definition UpstreamConfig := Config.UpstreamConfig.
Definition HealthcheckConfig := Config.HealthcheckConfig.
Definition SelectionConfig := Config.SelectionConfig.
Definition ProbeConfig := Config.ProbeConfig.
Definition TunConfig := Config.TunConfig.
Definition LoadConfig (readFile : bytes -> res bytes) (unmarshal : bytes -> res Config) (path : bytes) : res Config :=
  Config.LoadConfig readFile unmarshal path.
Definition NewLoadBalancer {C} (upstreams : list UpstreamConfig) (hc : HealthcheckConfig) (sel : SelectionConfig) (probe : ProbeConfig) (fwmark : Z)
  : LoadBalancer C := LoadBalancer.NewLoadBalancer upstreams hc sel probe fwmark.
Definition RunTunNative (O : tunOS) (quote : bytes -> string) (handleType : string) (c : TunConfig) (nic : option string)
    (fin : udpPortTable -> option gerror) : res unit * list dact := Tun.RunTunNative O quote handleType c nic fin.
Definition EnablePrometheusMetrics (t : telemetry) : telemetry := Metrics.EnablePrometheusMetrics t.
Definition StartMetricsServer (addr : bytes) (serve : gerror) : option gerror := Debug.StartMetricsServer addr serve.
(** The program's parts as they are: the balancer, the SOCKS5 server over it. *)
Definition LoadBalancer (C : Type) := LoadBalancer.LoadBalancer C.
Record Socks5Server (C : Type) := { LB : LoadBalancer C }.
Definition SetWebSocketDebug (enabled old : bool) : bool := Debug.SetWebSocketDebug enabled old.
End outlinews.

(** ** Property *)

(** The stand-in for [normalizeHostPort] that unit tests run is not the function of
    the program. Both leave a valid host and port alone, and where the program puts
    brackets around an address the stand-in does the same, unless the address ends in a
    colon. But the stand-in takes the last group of an address written in full for a
    port, which the program leaves alone, and leaves an address ending in two colons with
    a port alone, to which the program adds brackets. *)
Theorem normalize_variants :
  (forall s, match SplitHostPort s with Ok _ => Unit.normalizeHostPort s = s /\ normalizeHostPort s = s | _ => True end)
  /\ (forall s, normalizeHostPort s = s
      \/ exists host port, s = host ++ cColon :: port /\ normalizeHostPort s = [cLBr] ++ host ++ [cRBr; cColon] ++ port
         /\ Unit.normalizeHostPort s = if bool_decide (last host = Some cColon) then s else normalizeHostPort s)
  /\ Unit.normalizeHostPort (str2b "2001:db8:0:0:0:0:0:1") = str2b "[2001:db8:0:0:0:0:0]:1"
  /\ normalizeHostPort (str2b "2001:db8:0:0:0:0:0:1") = str2b "2001:db8:0:0:0:0:0:1"
  /\ Unit.normalizeHostPort (str2b "fe80:::80") = str2b "fe80:::80"
  /\ normalizeHostPort (str2b "fe80:::80") = str2b "[fe80::]:80".
Proof.
  split; [|split; [|by vm_compute]].
  - intros s. destruct (SplitHostPort s) eqn:E; [|done..]. split; [|unfold normalizeHostPort; by rewrite E].
    unfold Unit.normalizeHostPort. rewrite E. by destruct s.
  - intros s. destruct (normalizeHostPort_cases s) as [E|(host & port & a & -> & Ha & Hin & Hd & Hp & E)]; [by left|].
    destruct (decide (normalizeHostPort (host ++ cColon :: port) = host ++ cColon :: port)) as [Hid|Hch]; [by left|]. right.
    exists host, port. split; [done|].
    assert (Hj : JoinHostPort host port = [cLBr] ++ host ++ [cRBr; cColon] ++ port).
    { unfold JoinHostPort. by rewrite containsByte_spec, bool_decide_true. }
    split; [by rewrite E|]. rewrite E, Hj.
    pose proof (split_join host port (ParseIP_hostOk _ _ Ha) (isDigit_portOk _ Hd)) as Hs. rewrite Hj in Hs.
    assert (Hn : cColon ∉ port) by (destruct (isDigit_portOk _ Hd); done).
    unfold Unit.normalizeHostPort. destruct (host ++ cColon :: port) as [|x l] eqn:El; [by destruct host|].
    destruct (SplitHostPort (x :: l)) as [v|e|w] eqn:Esp.
    { exfalso. apply Hch. unfold normalizeHostPort. by rewrite Esp. }
    all: rewrite <- El, lastIndexByte_app by done; rewrite length_app; cbn [length];
      destruct host as [|y host]; [by apply not_elem_of_nil in Hin|];
      destruct port as [|z port]; [done|]; cbn [length];
      rewrite (proj2 (Nat.ltb_lt _ _)), (proj2 (Nat.ltb_lt _ _)) by lia; cbn [andb];
      rewrite (take_app_length (y :: host)), (drop_S_app (y :: host)), Hs; done.
Qed.
