(* ===== verification/Texts.v ===== *)
(** * Texts made for the log

    The summaries the program writes: [udpCandidateSummary] (src/internal/lb.go),
    [h3FormatHeaders] and [h3DescribeErr] (ws_h3.go), [formatAttrMap]
    (ws_h3_qlog_debug.go), and [isDNSDestination] and [tunDebugf] (tun_native.go). The verb
    [%q], [%T] and the texts of durations and errors are parameters. *)

From stdpp Require Import pretty sorting.
From S2P Require Import Prelude GoNum GoNet Config HealthCheck LoadBalancer H3Peer.

(** [strings.Join]. *)
Definition Join (parts : list string) (sep : string) : string :=
  match parts with [] => ""%string | p :: ps => fold_left (fun acc x => acc +:+ sep +:+ x) ps p end.

(** [s <= t] as Go compares strings: byte by byte. *)
Fixpoint strLe (s t : string) : bool :=
  match s, t with
  | EmptyString, _ => true
  | String _ _, EmptyString => false
  | String a s, String b t => (Ascii.N_of_ascii a <? Ascii.N_of_ascii b)%N || ((Ascii.N_of_ascii a =? Ascii.N_of_ascii b)%N && strLe s t)
  end.
Definition strLE (s t : string) : Prop := strLe s t = true.
#[global] Instance strLE_dec : RelDecision strLE := fun s t => decide (strLe s t = true).

Lemma ascii_N_inj a b : Ascii.N_of_ascii a = Ascii.N_of_ascii b -> a = b.
Proof. intros H. by rewrite <- (Ascii.ascii_N_embedding a), H, Ascii.ascii_N_embedding. Qed.

#[global] Instance strLE_total : Total strLE.
Proof.
  unfold strLE. intros s. induction s as [|a s IH]; intros [|b t]; cbn; auto.
  destruct (N.ltb_spec (Ascii.N_of_ascii a) (Ascii.N_of_ascii b)); [by left|].
  destruct (N.ltb_spec (Ascii.N_of_ascii b) (Ascii.N_of_ascii a)); [by right|].
  assert (E : Ascii.N_of_ascii a = Ascii.N_of_ascii b) by lia. rewrite E, N.eqb_refl. cbn. apply IH.
Qed.
#[global] Instance strLE_trans : Transitive strLE.
Proof.
  unfold strLE. intros s. induction s as [|a s IH]; intros [|b t] [|c u]; cbn; try done.
  rewrite !orb_true_iff, !andb_true_iff, !N.ltb_lt, !N.eqb_eq. intros [H1|[H1 H1']] [H2|[H2 H2']]; [left; lia..|].
  right. split; [lia|]. by eapply IH.
Qed.
#[global] Instance strLE_antisymm : AntiSymm (=) strLE.
Proof.
  unfold strLE. intros s. induction s as [|a s IH]; intros [|b t]; cbn; try done.
  rewrite !orb_true_iff, !andb_true_iff, !N.ltb_lt, !N.eqb_eq. intros [H1|[H1 H1']] [H2|[H2 H2']]; try lia.
  f_equal; [by apply ascii_N_inj|by apply IH].
Qed.

(** [sort.Strings]. *)
Definition sortStrings (l : list string) : list string := merge_sort strLE l.

Section Texts.
Context (quote : string -> string) (durString : Z -> string) (errString typeName : gerror -> string).

(** ** Headers *)

(** [v[:128] + "..."] for a long value. *)
Definition cutValue (v : string) : string :=
  if 128 <? Z.of_nat (String.length v) then String.substring 0 128 v +:+ "..." else v.

(** [h3FormatHeaders(h)]; [order] is the order in which [range] gives the keys. *)
Definition h3FormatHeaders (order : list string) (h : gmap string string) : string :=
  if bool_decide (size h = 0%nat) then "{}"
  else
    let keys := sortStrings order in
    "{" +:+ Join ((fun k => k +:+ "=" +:+ quote (cutValue (default ""%string (h !! k)))) <$> keys) ", " +:+ "}".

(** [formatAttrMap(attrs)]: [%v] of a map sorts its keys. *)
Definition formatAttrMap (order : list string) (attrs : gmap string string) : string :=
  if bool_decide (size attrs = 0%nat) then "{}"
  else "map[" +:+ Join ((fun k => k +:+ ":" +:+ default ""%string (attrs !! k)) <$> sortStrings order) " " +:+ "]".

(** ** Errors *)

(** [errors.Unwrap], and the chain it gives. *)
Definition Unwrap (e : gerror) : option gerror := match e with errWrap _ u _ => Some u | _ => None end.
Fixpoint causes (e : gerror) : list gerror := match e with errWrap _ u _ => u :: causes u | _ => [] end.

(** [h3DescribeErr(err)]; [code] tells a [quic.StreamErrorCode] and its value. *)
Definition h3DescribeErr (code : gerror -> option Z) (hex : Z -> string) (err : option gerror) : string :=
  match err with
  | None => "<nil>"
  | Some e =>
      let one u := typeName u +:+ ": " +:+ errString u in
      Join (one e :: (causes e ≫= fun u =>
        one u :: match code u with
                 | Some c => ["quic.StreamErrorCode=0x" +:+ hex c +:+ " (" +:+ h3ErrorName c +:+ ")"]
                 | None => []
                 end)) " | cause: "
  end.

(** ** Candidates *)

(** One part of [udpCandidateSummary]; [now'] is the clock of [time.Until]. *)
Definition candidateText {C} (now now' : Z) (s : UpstreamState C) : string :=
  let state := if healthy (udp s) then "up" else "down" in
  let cooldown := if Before now (udpCooldownUntil s) then durString (timeSub (udpCooldownUntil s) now') else "no" in
  let errTxt := match lastError (udp s) with Some e => errString e | None => "nil"%string end in
  b2str (Name (cfg s)) +:+ "{state=" +:+ state +:+ ",cooldown=" +:+ cooldown +:+ ",rtt=" +:+ durString (rttEWMA (udp s))
    +:+ ",last_err=" +:+ quote errTxt +:+ "}".
(** [udpCandidateSummary(pool, now)]. *)
Definition udpCandidateSummary {C} (now : Z) (now' : nat -> Z) (pool : list (UpstreamState C)) : string :=
  Join (imap (fun i s => candidateText now (now' i) s) pool) "; ".
End Texts.

(** ** TUN *)

(** [tunDebugf(enabled, format, args)]: the lines it logs. *)
Definition tunDebugf (enabled : bool) (line : string) : list string := if enabled then ["tun debug: " +:+ line] else [].
(** [isDNSDestination(dst)]. *)
Definition isDNSDestination (dst : bytes) : bool :=
  match SplitHostPort dst with Ok (_, port) => bool_decide (port = str2b "53") | _ => false end.

(** ** Property *)

(** Sorting forgets the order of the iteration. *)
Lemma sortStrings_perm l1 l2 : l1 ≡ₚ l2 -> sortStrings l1 = sortStrings l2.
Proof.
  intros H. apply (StronglySorted_unique strLE); [apply (StronglySorted_merge_sort strLE)..|]. unfold sortStrings.
  by rewrite !(merge_sort_Permutation strLE).
Qed.

(** The texts made of maps do not depend on the order in which Go iterates over them:
    whatever that order is, a key appears once, in byte order. *)
Theorem map_texts_deterministic (quote : string -> string) (h : gmap string string) (o1 o2 : list string)
    (H1 : o1 ≡ₚ (map_to_list h).*1) (H2 : o2 ≡ₚ (map_to_list h).*1) :
  h3FormatHeaders quote o1 h = h3FormatHeaders quote o2 h /\ formatAttrMap o1 h = formatAttrMap o2 h
  /\ NoDup (sortStrings o1) /\ StronglySorted strLE (sortStrings o1) /\ forall k, k ∈ sortStrings o1 <-> is_Some (h !! k).
Proof.
  assert (E : sortStrings o1 = sortStrings o2) by (apply sortStrings_perm; by rewrite H1, H2).
  unfold h3FormatHeaders, formatAttrMap. rewrite E. split; [done|]. split; [done|]. rewrite <- E.
  assert (Hp : sortStrings o1 ≡ₚ (map_to_list h).*1) by (unfold sortStrings; by rewrite (merge_sort_Permutation strLE)).
  split; [rewrite Hp; apply NoDup_fst_map_to_list|]. split; [apply (StronglySorted_merge_sort strLE)|]. intros k. rewrite Hp.
  rewrite list_elem_of_fmap. split.
  - intros ([k' v] & -> & Hin). apply elem_of_map_to_list in Hin. by eexists.
  - intros [v Hv]. exists (k, v). split; [done|]. by apply elem_of_map_to_list.
Qed.

Lemma map_texts_deterministic_witness :
  let h := <["b" := "2"]> (<["a" := "1"]> (∅ : gmap string string)) in
  h3FormatHeaders (fun s => s) ["b"; "a"] h = h3FormatHeaders (fun s => s) ["a"; "b"] h.
Proof.
  refine (proj1 (map_texts_deterministic (fun s => s) (<["b" := "2"]> (<["a" := "1"]> ∅)) ["b"; "a"]%string ["a"; "b"]%string _ _)).
  - vm_compute. solve_Permutation.
  - vm_compute. solve_Permutation.
Defined.
