(* ===== verification/Serving.v ===== *)
(** * Serving connections

    The goroutine that [main] starts for every accepted connection
    (src/cmd/outline-cli-ws/main.go, the accept loop) and the reading half of
    [HandleConn] (src/internal/socks5.go), next to the life of the program ([Main]):
    bytes arrive at any time, a read waits until they are there, and the deadline of
    ten seconds is in force from the accept until [HandleConn] clears it. *)

From stdpp Require Import relations.
From S2P Require Import Prelude GoNum GoNet SocksAddr Config HealthCheck LoadBalancer WSConn Transport Main Socks5.

(** ** One connection *)

(** Where the goroutine is: not yet run, in the handshake under its deadline, in the
    request with the deadline cleared, in the handler of a command, or returned with the
    connection closed. *)
Inductive cphase := PStarted | PGreeting (deadline : Z) | PRequest | PHandler (cmd : byte) (dst : bytes) | PClosed.

(** [buf] has arrived and was not read; [fin] is how the client ended its stream, if it
    did; [out] was written, with the errors [wr] of the writes; [got] is all that ever arrived. *)
Record sconn := SConn { ph : cphase; buf : bytes; fin : option gerror; out : list bytes; wr : nat -> option gerror; got : bytes }.

(** [10 * time.Second], in nanoseconds. *)
Definition acceptTimeout : Z := 10 * 10 ^ 9.
(** A connection that was just accepted. *)
Definition acceptedConn (w : nat -> option gerror) : sconn := SConn PStarted [] None [] w [].
(** [c.SetDeadline(time.Now().Add(10 * time.Second))], the goroutine's first statement. *)
Definition serveConn (now : Z) (s : sconn) : sconn := SConn (PGreeting (now + acceptTimeout)) (buf s) (fin s) (out s) (wr s) (got s).

(** The marker of a stream that goes on: a read that meets it is a read that waits. *)
Definition noMore : gerror := errMsg "no more bytes yet".
Definition waits {A} (m : CM A) (b : bytes) : bool :=
  match fst (m (CConn (Rd b noMore) [] (fun _ => None))) with Err e => bool_decide (e = noMore) | _ => false end.

(** A call that reads from the connection: [None] while it waits. *)
Definition runCall {A} (m : CM A) (s : sconn) : option (res A * cconn) :=
  match fin s with
  | Some e => Some (m (CConn (Rd (buf s) e) (out s) (wr s)))
  | None => if waits m (buf s) then None else Some (m (CConn (Rd (buf s) noMore) (out s) (wr s)))
  end.

Definition after (s : sconn) (p : cphase) (c : cconn) : sconn := SConn p (rd_buf (cin c)) (fin s) (cout c) (wr s) (got s).

(** The next step of the goroutine up to its handler; [None] while it waits. *)
Definition serve (now : Z) (s : sconn) : option sconn :=
  match ph s with
  | PStarted => Some (serveConn now s)
  | PGreeting d =>
      if d <=? now then Some (SConn PClosed (buf s) (fin s) (out s) (wr s) (got s))
      else match runCall socks5Handshake s with
           | Some (Ok _, c) => Some (after s PRequest c)
           | Some (_, c) => Some (after s PClosed c)
           | None => None
           end
  | PRequest =>
      match runCall socks5ReadRequest s with
      | Some (Ok (cmd, dst), c) => Some (after s (PHandler cmd dst) c)
      | Some (_, c) => Some (after s PClosed c)
      | None => None
      end
  | PHandler _ _ | PClosed => None
  end.

(** The client sends some bytes, or ends its stream. *)
Definition clientSends (b : bytes) (s : sconn) : sconn := SConn (ph s) (buf s ++ b) (fin s) (out s) (wr s) (got s ++ b).
Definition clientEnds (e : gerror) (s : sconn) : sconn := SConn (ph s) (buf s) (Some e) (out s) (wr s) (got s).
Definition returned (s : sconn) : sconn := SConn PClosed (buf s) (fin s) (out s) (wr s) (got s).

(** ** The program with its connections *)

Record server := Server { prog : life; clock : Z; conns : list sconn }.

(** A step; its label is the connection whose client moved. *)
Inductive vstep : option nat -> server -> server -> Prop :=
| V_accept l t cs w : wstep l (accepted l) -> vstep None (Server l t cs) (Server (accepted l) t (cs ++ [acceptedConn w]))
| V_life l l' t cs : lstep l l' -> served l' = served l -> vstep None (Server l t cs) (Server l' t cs)
| V_time l t t' cs : t <= t' -> vstep None (Server l t cs) (Server l t' cs)
| V_serve l t cs i s s' : main_ l <> Exited -> cs !! i = Some s -> serve t s = Some s' ->
    vstep None (Server l t cs) (Server l t (<[i := s']> cs))
| V_return l t cs i s cmd dst : main_ l <> Exited -> cs !! i = Some s -> ph s = PHandler cmd dst ->
    vstep None (Server l t cs) (Server l t (<[i := returned s]> cs))
| V_send l t cs i s b : cs !! i = Some s -> fin s = None -> vstep (Some i) (Server l t cs) (Server l t (<[i := clientSends b s]> cs))
| V_end l t cs i s e : cs !! i = Some s -> fin s = None -> vstep (Some i) (Server l t cs) (Server l t (<[i := clientEnds e s]> cs)).

Definition vrun (st st' : server) : Prop := exists o, vstep o st st'.
(** The steps in which client [i] does nothing. *)
Definition quiet (i : nat) (st st' : server) : Prop := exists o, o <> Some i /\ vstep o st st'.

(** ** Calls that read *)

(** A call that succeeds reads a part [l] of the stream, does the same whatever follows
    that part, and waits on every shorter one. *)
Definition reads {A} (m : CM A) : Prop := forall full e o w a c, m (CConn (Rd full e) o w) = (Ok a, c) ->
  exists l, full = l ++ rd_buf (cin c)
    /\ (forall more e', m (CConn (Rd (l ++ more) e') o w) = (Ok a, CConn (Rd more e') (cout c) w))
    /\ (forall b x y, l = b ++ x :: y -> fst (m (CConn (Rd b noMore) o w)) = Err noMore).

(** What it leaves is what was not read, and the end of the stream. *)
Lemma reads_left {A} (m : CM A) full e o w a c : reads m -> m (CConn (Rd full e) o w) = (Ok a, c) ->
  c = CConn (Rd (rd_buf (cin c)) e) (cout c) w.
Proof. intros Hm H. destruct (Hm _ _ _ _ _ _ H) as (l & -> & Hl & _). rewrite Hl in H. by simplify_eq. Qed.

Lemma reads_longer {A} (m : CM A) full e o w a c more e' : reads m -> m (CConn (Rd full e) o w) = (Ok a, c) ->
  m (CConn (Rd (full ++ more) e') o w) = (Ok a, CConn (Rd (rd_buf (cin c) ++ more) e') (cout c) w).
Proof. intros Hm H. destruct (Hm _ _ _ _ _ _ H) as (l & -> & Hl & _). by rewrite <- app_assoc, Hl. Qed.

Create HintDb serving.

(** A read past the end of what has arrived waits. *)
Lemma readFull_waits n b : zlen b < n -> readFull n (Rd b noMore) = (Err noMore, Rd [] noMore).
Proof.
  intros H. unfold readFull. cbn [rd_buf rd_err]. pose proof (zlen_nonneg b).
  rewrite (proj2 (Z.leb_gt n 0)), (proj2 (Z.ltb_lt _ n)) by lia. by destruct b.
Qed.

Lemma reads_pure {A} (m : CM A) : (forall e e' o w b b' a c, m (CConn (Rd b e) o w) = (Ok a, c) ->
  rd_buf (cin c) = b /\ m (CConn (Rd b' e') o w) = (Ok a, CConn (Rd b' e') (cout c) w)) -> reads m.
Proof.
  intros Hm full e o w a c H. exists []. destruct (Hm _ e _ _ _ full _ _ H) as [<- _]. split; [done|].
  split; [intros more e'; cbn; by eapply Hm|]. by intros [] ? ?.
Qed.
Lemma reads_ret {A} (a : A) : reads (mret a).
Proof. apply reads_pure. intros e e' o w b b' a' c H. unfold mret, CM_ret in *. by simplify_eq. Qed.
Lemma reads_err {A} e : reads (@cm_err A e).
Proof. by intros full e' o w a c H. Qed.
Lemma reads_cwrite x : reads (cwrite x).
Proof. apply reads_pure. intros e e' o w b b' a c H. unfold cwrite in *. cbn [cwr cout cin] in *. destruct (w (length o)); by simplify_eq. Qed.
Lemma reads_readFull n : reads (cread (readFull n)).
Proof.
  intros full e o w a c H. unfold cread in *. cbn [cin cout cwr] in *.
  destruct (readFull n (Rd full e)) as [r i] eqn:E. simplify_eq. pose proof E as (Hb & _ & Hl)%readFull_Ok. cbn [rd_buf cin cout] in *.
  exists a. split; [done|]. split.
  - intros more e'. destruct (Z.leb_spec n 0) as [Hn|Hn]; [|rewrite (readFull_app a more) by lia; done].
    unfold readFull. rewrite (proj2 (Z.leb_le n 0) Hn). destruct a; [done|]. rewrite zlen_cons in Hl. pose proof (zlen_nonneg a). lia.
  - intros b x y ->. rewrite zlen_app, zlen_cons in Hl. pose proof (zlen_nonneg b); pose proof (zlen_nonneg y).
    by rewrite readFull_waits by lia.
Qed.

Lemma CM_bind_inv {A B} (f : A -> CM B) (m : CM A) c b c' :
  (m ≫= f) c = (Ok b, c') -> exists a c1, m c = (Ok a, c1) /\ f a c1 = (Ok b, c').
Proof. unfold mbind, CM_bind. destruct (m c) as [[a|e|w] c1]; [|done..]. eauto. Qed.

(** A proper prefix of [l1 ++ l2] ends inside [l1] or inside [l2]. *)
Lemma prefix_split {A} (l1 l2 b : list A) x y : l1 ++ l2 = b ++ x :: y ->
  (exists x' y', l1 = b ++ x' :: y') \/ exists b2, b = l1 ++ b2 /\ l2 = b2 ++ x :: y.
Proof.
  revert b. induction l1 as [|z l1 IH]; intros b H; [right; by exists b|]. destruct b as [|z' b]; [left; simpl; eauto|].
  cbn in H. injection H as <- H. destruct (IH _ H) as [(x' & y' & ->)|(b2 & -> & ->)]; [left|right]; simpl; eauto.
Qed.

Lemma reads_bind {A B} (m : CM A) (f : A -> CM B) : reads m -> (forall a, reads (f a)) -> reads (m ≫= f).
Proof.
  intros Hm Hf full e o w a c (x & c1 & E1 & E2)%CM_bind_inv. pose proof (reads_left _ _ _ _ _ _ _ Hm E1) as Hc1.
  destruct (Hm _ _ _ _ _ _ E1) as (l1 & -> & L1 & W1). rewrite Hc1 in E2. destruct (Hf x _ _ _ _ _ _ E2) as (l2 & R2 & L2 & W2).
  exists (l1 ++ l2). split; [by rewrite R2, <- app_assoc|]. split.
  - intros more e'. rewrite <- app_assoc. by rewrite (CM_bind_Ok _ _ _ _ _ (L1 (l2 ++ more) e')).
  - intros b z y [(x' & y' & H)|(b2 & -> & H)]%prefix_split; [|rewrite (CM_bind_Ok _ _ _ _ _ (L1 b2 noMore)); by eapply W2].
    specialize (W1 _ _ _ H). unfold mbind, CM_bind. destruct (m (CConn (Rd b noMore) _ _)) as [[?|e1|?] ?]; cbn in W1 |- *; [done| |done]. by injection W1 as ->.
Qed.

Lemma cread_bind {A B} (m : RM A) (f : A -> RM B) c : cread (m ≫= f) c = (cread m ≫= fun a => cread (f a)) c.
Proof. unfold cread, mbind, RM_bind, CM_bind. cbn. destruct (m (cin c)) as [[]]; done. Qed.
Lemma reads_ext {A} (m m' : CM A) : (forall c, m c = m' c) -> reads m' -> reads m.
Proof. intros E H full e o w a c. rewrite E. intros (l & ? & ? & W)%H. exists l. repeat split; [done|..]; intros; rewrite E; eauto. Qed.
Lemma reads_cread_bind {A B} (m : RM A) (f : A -> RM B) : reads (cread m) -> (forall a, reads (cread (f a))) -> reads (cread (m ≫= f)).
Proof. intros. eapply reads_ext; [apply cread_bind|]. by apply reads_bind. Qed.
Lemma reads_cread_ret {A} (a : A) : reads (cread (mret a)).
Proof. eapply reads_ext; [|apply (reads_ret a)]. by intros [[b e] o w]. Qed.
Lemma reads_cread_err {A} e : reads (cread (@rm_err A e)).
Proof. eapply reads_ext; [|apply (reads_err e)]. by intros [[b e'] o w]. Qed.
Lemma reads_refuse m : reads (_ ← ignore m; @cm_err unit (errMsg "no acceptable auth method")).
Proof. intros full e o w a c (x & c1 & _ & H)%CM_bind_inv. discriminate H. Qed.

#[export] Hint Resolve reads_ret reads_err reads_cwrite reads_readFull reads_bind reads_cread_bind reads_cread_ret
  reads_cread_err reads_refuse : serving.

Lemma reads_handshake : reads socks5Handshake.
Proof.
  apply reads_bind; [auto with serving|]. intros h. case_match; [auto with serving|].
  apply reads_bind; [auto with serving|]. intros ms. case_match; auto with serving.
Qed.
Lemma reads_request : reads socks5ReadRequest.
Proof.
  apply reads_bind; [auto with serving|]. intros h. case_match; [auto with serving|].
  apply reads_bind; [|intros []; auto with serving]. apply reads_cread_bind; [|auto with serving].
  repeat case_match; auto with serving.
Qed.

(** The input of a call that needs more of it. *)
Lemma reads_waits {A} (m : CM A) l a c b x y : reads m -> m (CConn (Rd l noMore) [] (fun _ => None)) = (Ok a, c) ->
  rd_buf (cin c) = [] -> l = b ++ x :: y -> waits m b = true.
Proof.
  intros Hm H He Hb. destruct (Hm _ _ _ _ _ _ H) as (l' & Hl & _ & W). rewrite He, app_nil_r in Hl. subst l'.
  unfold waits. rewrite (W b x y Hb). by apply bool_decide_eq_true.
Qed.

(** ** What has been read *)

(** The calls before the handler, as [HandleConn] makes them. *)
Definition readAll : CM (byte * bytes) := _ ← socks5Handshake; socks5ReadRequest.

Definition readSoFar (s : sconn) : Prop := forall more e,
  match ph s with
  | PStarted | PGreeting _ => buf s = got s /\ out s = []
  | PRequest => socks5Handshake (CConn (Rd (got s ++ more) e) [] (wr s)) = (Ok tt, CConn (Rd (buf s ++ more) e) (out s) (wr s))
  | PHandler cmd dst => readAll (CConn (Rd (got s ++ more) e) [] (wr s)) = (Ok (cmd, dst), CConn (Rd (buf s ++ more) e) (out s) (wr s))
  | PClosed => True
  end.

Lemma runCall_Ok {A} (m : CM A) s a c : runCall m s = Some (Ok a, c) ->
  exists e, m (CConn (Rd (buf s) e) (out s) (wr s)) = (Ok a, c).
Proof. unfold runCall. repeat case_match; intros; simplify_eq; eauto. Qed.

Lemma serve_reads t s s' : readSoFar s -> serve t s = Some s' -> readSoFar s'.
Proof.
  intros Hr. unfold serve. pose proof (fun m e => Hr m e) as Hr'. unfold readSoFar in Hr. destruct (ph s) eqn:Ep; [|..|done|done].
  - intros [= <-] more e. exact (Hr more e).
  - destruct (Hr [] io_EOF) as [Hb Ho]. case_match; [intros; by simplify_eq|].
    destruct (runCall _ _) as [[[[]|?|?] c]|] eqn:E; intros; simplify_eq; try done.
    apply runCall_Ok in E as [e E]. intros more e'. cbn [ph after got buf wr out].
    pose proof (reads_longer _ _ _ _ _ _ _ more e' reads_handshake E) as H'. by rewrite Hb, Ho in H'.
  - destruct (runCall _ _) as [[[[cmd dst]|?|?] c]|] eqn:E; intros; simplify_eq; try done.
    apply runCall_Ok in E as [e E]. intros more e'. cbn [ph after got buf wr out]. unfold readAll.
    rewrite (CM_bind_Ok _ _ _ tt (CConn (Rd (buf s ++ more) e') (out s) (wr s))) by apply Hr.
    by rewrite (reads_longer _ _ _ _ _ _ _ more e' reads_request E).
Qed.

Lemma sends_reads b s : readSoFar s -> readSoFar (clientSends b s).
Proof.
  intros H more e. specialize (H (b ++ more) e). unfold clientSends. cbn [ph got buf wr out].
  destruct (ph s); rewrite <- ?app_assoc; try done; by destruct H as [-> ?].
Qed.

Lemma vstep_reads o st st' : vstep o st st' -> Forall readSoFar (conns st) -> Forall readSoFar (conns st').
Proof.
  intros Hs Hf. destruct Hs; cbn [conns] in *; try done;
    [apply Forall_app; split; [done|by repeat constructor]|..]; apply Forall_insert; try done;
    match goal with H : _ !! _ = Some _ |- _ => eapply Forall_lookup_1 in H; [|exact Hf] end;
    [by eapply serve_reads|by apply sends_reads|done].
Qed.

(** The program's part of a step is a step of [Main], or nothing. *)
Lemma vstep_life o st st' : vstep o st st' -> prog st' = prog st \/ lstep (prog st) (prog st').
Proof. intros Hs. destruct Hs; cbn; auto. right. by apply L_world. Qed.

(** ** Incomplete input *)

Lemma greeting_waits ms b x y : zlen ms < 256 -> Byte.x00 ∈ ms -> greeting ms = b ++ x :: y -> waits socks5Handshake b = true.
Proof.
  intros Hl Hin. eapply (reads_waits _ _ tt); [apply reads_handshake|by rewrite (handshake_greeting _ ms []) by (cbn; by rewrite ?app_nil_r)|done].
Qed.

Lemma request_waits cmd rsv a p b x y : addrWF a -> 0 <= p < 65536 -> requestBytes cmd rsv a p = b ++ x :: y ->
  waits socks5ReadRequest b = true.
Proof.
  intros Ha Hp. eapply reads_waits; [apply reads_request| |]; [rewrite <- (app_nil_r (requestBytes _ _ _ _)); by apply request_encode|done].
Qed.

(** Before its handler a connection whose client is quiet changes by [serve] alone. *)
Lemma quiet_keeps i st st' s : conns st !! i = Some s -> (forall cmd dst, ph s <> PHandler cmd dst) ->
  quiet i st st' -> clock st <= clock st'
  /\ (conns st' !! i = Some s \/ exists s', serve (clock st) s = Some s' /\ conns st' !! i = Some s').
Proof.
  intros Hi Hp (o & Ho & Hs). destruct Hs; cbn [conns clock] in *; (split; [lia|]); auto;
    [left; by apply lookup_app_l_Some|..]; destruct (decide (i = i0)) as [<-|Hn]; simplify_eq;
    rewrite ?list_lookup_insert_ne by done; auto;
    rewrite list_lookup_insert_eq by (by eapply lookup_lt_Some); [right; eauto|exfalso; by eapply Hp].
Qed.

Lemma serve_waits t s : ph s <> PStarted -> (forall d, ph s = PGreeting d -> t < d /\ waits socks5Handshake (buf s) = true) ->
  (ph s = PRequest -> waits socks5ReadRequest (buf s) = true) -> fin s = None -> serve t s = None.
Proof.
  intros Hst Hg Hr Hf. unfold serve, runCall. rewrite Hf. destruct (ph s); [done| |by rewrite Hr|done..].
  destruct (Hg _ eq_refl) as [Ht ->]. by rewrite (proj2 (Z.leb_gt _ _) Ht).
Qed.

Lemma request_stays i st st' s : conns st !! i = Some s -> ph s = PRequest -> fin s = None ->
  waits socks5ReadRequest (buf s) = true -> rtc (quiet i) st st' -> conns st' !! i = Some s /\ serve (clock st') s = None.
Proof.
  intros Hi Hp Hf Hw Hr. assert (Hs : forall t, serve t s = None) by (intros t; apply serve_waits; congruence).
  induction Hr as [|x y z H _ IH]; [done|]. apply IH.
  destruct (quiet_keeps i x y s Hi ltac:(congruence) H) as [_ [?|(s' & E & _)]]; [done|]. by rewrite Hs in E.
Qed.

Lemma closed_stays i st st' s : conns st !! i = Some s -> ph s = PClosed -> rtc (quiet i) st st' -> conns st' !! i = Some s.
Proof.
  intros Hi Hp Hr. induction Hr as [|x y z H _ IH]; [done|]. apply IH.
  destruct (quiet_keeps i x y s Hi ltac:(congruence) H) as [_ [?|(s' & E & _)]]; [done|]. unfold serve in E. by rewrite Hp in E.
Qed.

Lemma greeting_stays i st st' s d : conns st !! i = Some s -> ph s = PGreeting d -> fin s = None ->
  waits socks5Handshake (buf s) = true -> rtc (quiet i) st st' ->
  conns st' !! i = Some s \/ (d <= clock st' /\ conns st' !! i = Some (returned s)).
Proof.
  intros Hi Hp Hf Hw Hr. induction Hr as [|x y z H Hr IH]; [by left|].
  destruct (quiet_keeps i x y s Hi ltac:(congruence) H) as [Ht [Hy|(s' & E & Hy)]]; [by apply IH|].
  destruct (Z.leb_spec d (clock x)) as [Hd|Hd]; [|by rewrite serve_waits in E by (try congruence; intros ? [= <-]%(eq_trans (eq_sym Hp)); done)].
  unfold serve in E. rewrite Hp, (proj2 (Z.leb_le _ _) Hd) in E. injection E as <-. right.
  split; [|by eapply closed_stays]. enough (clock y <= clock z) by lia. clear -Hr. induction Hr as [|x y z (o & _ & H) _ IH]; [done|].
  etrans; [|exact IH]. destruct H; cbn; lia.
Qed.

(** ** Properties *)

(** C8: the goroutines of the accept loop implement [HandleConn]. In every run of the
    program from its start, however the bytes of its clients arrive, the program's part
    is a run of [Main], and a connection that reaches the handler of a command does
    what [HandleConn] does on the stream the client has sent so far, whatever it sends
    later and however that ends. *)
Theorem serving_refines_handleConn {C W : Type} `{!WSConn C} `{!Dialers C W} (services : bytes -> option Z)
    (st0 st : server) (i : nat) (s : sconn) (cmd : byte) (dst : bytes)
    (Hc0 : conns st0 = []) (Hr : rtc vrun st0 st) (Hi : conns st !! i = Some s) (Hp : ph s = PHandler cmd dst) :
  rtc lstep (prog st0) (prog st)
  /\ forall (q : request) proxy assoc (lb : LoadBalancer C) (w : W) more e,
      let c := CConn (Rd (buf s ++ more) e) (out s) (wr s) in
      HandleConn services q proxy assoc (CConn (Rd (got s ++ more) e) [] (wr s)) lb w
      = (if b2z cmd =? 1 then handleConnect services q proxy dst c lb w
         else if b2z cmd =? 3 then handleUDPAssociate services q assoc c lb w
         else Handled (snd (ignore (socks5Reply services Byte.x07 noAddr) c)) lb w [] None).
Proof.
  split.
  - clear Hi Hc0. induction Hr as [|x y z [o Hv] _ IH]; [done|]. destruct (vstep_life _ _ _ Hv) as [E|E]; [by rewrite <- E|by eapply rtc_l].
  - assert (Hs : readSoFar s).
    { assert (Hf : Forall readSoFar (conns st)) by (clear Hi; assert (Hf : Forall readSoFar (conns st0)) by (by rewrite Hc0);
        clear Hc0; induction Hr as [|x y z [o Hv] _ IH]; [done|]; apply IH; by eapply vstep_reads).
      by eapply Forall_lookup_1 in Hi. }
    intros q proxy assoc lb w more e. specialize (Hs more e). rewrite Hp in Hs. apply CM_bind_inv in Hs as ([] & c1 & E1 & E2).
    unfold HandleConn. by rewrite E1, E2.
Qed.

(** C28: the deadline of an accepted connection covers the greeting and nothing else. A
    client that stays silent within its greeting is waited for up to the deadline and
    closed after it; but one that has sent a whole greeting and part of a request, or
    nothing of it, leaves its goroutine waiting with the connection open in every run
    in which it does not move again, however late it is and whatever happened to the
    context of the program. *)
Theorem socks5_deadline_ends_with_greeting (st : server) (i : nat) (s : sconn) (d : Z) (ms : bytes)
    (Hi : conns st !! i = Some s) (Hp : ph s = PGreeting d) (Hf : fin s = None) (Hl : zlen ms < 256) (Hin : Byte.x00 ∈ ms) :
  (forall x y st', greeting ms = buf s ++ x :: y -> rtc (quiet i) st st' ->
     (conns st' !! i = Some s /\ (clock st' < d -> serve (clock st') s = None) /\ (d <= clock st' -> serve (clock st') s = Some (returned s)))
     \/ (conns st' !! i = Some (returned s) /\ d <= clock st'))
  /\ (forall cmd rsv a p part x y, addrWF a -> 0 <= p < 65536 -> requestBytes cmd rsv a p = part ++ x :: y ->
       buf s = greeting ms ++ part -> wr s (length (out s)) = None -> clock st < d ->
       exists s1, serve (clock st) s = Some s1
         /\ forall st1 st', conns st1 !! i = Some s1 -> rtc (quiet i) st1 st' ->
              conns st' !! i = Some s1 /\ ph s1 <> PClosed /\ serve (clock st') s1 = None).
Proof.
  split.
  - intros x y st' Hg Hr. pose proof (greeting_waits _ _ _ _ Hl Hin Hg) as Hw.
    destruct (greeting_stays _ _ _ _ _ Hi Hp Hf Hw Hr) as [H|[Ht H]]; [left|by right]. split; [done|]. split; intros Ht.
    + apply serve_waits; [congruence| |congruence|done]. intros d' Hd'. by replace d' with d by congruence.
    + unfold serve. by rewrite Hp, (proj2 (Z.leb_le _ _) Ht).
  - intros cmd rsv a p part x y Ha Hpt Hq Hb Hwr Ht.
    exists (SConn PRequest part None (out s ++ [[Byte.x05; Byte.x00]]) (wr s) (got s)). split.
    + unfold serve, runCall. rewrite Hp, (proj2 (Z.leb_gt _ _) Ht), Hf.
      assert (waits socks5Handshake (buf s) = false) as -> by (unfold waits; by rewrite (handshake_greeting _ ms part)).
      rewrite (handshake_greeting _ ms part) by done. unfold cwrite. cbn [cwr cout cin]. rewrite Hwr. unfold after. cbn. by rewrite Hf.
    + intros st1 st' H1 Hr. destruct (request_stays _ _ _ _ H1 eq_refl eq_refl (request_waits _ _ _ _ _ _ _ Ha Hpt Hq) Hr). done.
Qed.

(** ** Witnesses *)

#[local] Instance silentConn : WSConn unit := {
  ws_read := fun c => (Err io_EOF, c); ws_write := fun _ _ c => (Ok tt, c); ws_close := fun _ _ c => (Ok tt, c) }.

(** A client that asks for 1.2.3.4:443 and sends one byte more. *)
Definition askDemo : bytes := greeting [Byte.x00] ++ requestBytes Byte.x01 Byte.x00 ipDemo 443.
Definition progDemo : life := startedDemo TunOff SigWait.
Definition arrivedDemo : sconn := clientSends (askDemo ++ [Byte.x16]) (serveConn 0 (acceptedConn (fun _ => None))).
Definition handlingDemo : sconn :=
  SConn (PHandler Byte.x01 (str2b "1.2.3.4:443")) [Byte.x16] None [[Byte.x05; Byte.x00]] (fun _ => None) (askDemo ++ [Byte.x16]).

Lemma handlingDemo_run : rtc vrun (Server progDemo 0 []) (Server (accepted progDemo) 0 [handlingDemo]).
Proof.
  eapply rtc_l; [eexists; apply (V_accept progDemo 0 [] (fun _ => None)); by apply W_conn|].
  eapply rtc_l; [eexists; by apply (V_serve _ _ _ 0 (acceptedConn (fun _ => None)))|].
  eapply rtc_l; [eexists; by apply (V_send _ _ _ 0 (serveConn 0 (acceptedConn (fun _ => None))) (askDemo ++ [Byte.x16]))|].
  eapply rtc_l; [eexists; apply (V_serve _ _ _ 0 arrivedDemo); by vm_compute|].
  eapply rtc_l; [eexists; by apply (V_serve _ _ _ 0 (after arrivedDemo PRequest
    (CConn (Rd (requestBytes Byte.x01 Byte.x00 ipDemo 443 ++ [Byte.x16]) noMore) [[Byte.x05; Byte.x00]] (fun _ => None))))|].
  apply rtc_refl.
Qed.

Lemma serving_refines_handleConn_witness :
  HandleConn (fun _ => None) qDemo (fun c w _ _ => (None, c, w)) (fun _ w => (Err io_EOF, w))
    (CConn (Rd (askDemo ++ [Byte.x16]) io_EOF) [] (fun _ => None)) lbDemo worldDemo
  = handleConnect (fun _ => None) qDemo (fun c w _ _ => (None, c, w)) (str2b "1.2.3.4:443")
      (CConn (Rd [Byte.x16] io_EOF) [[Byte.x05; Byte.x00]] (fun _ => None)) lbDemo worldDemo.
Proof.
  exact (proj2 (serving_refines_handleConn (fun _ => None) (Server progDemo 0 []) (Server (accepted progDemo) 0 [handlingDemo]) 0 handlingDemo
    Byte.x01 (str2b "1.2.3.4:443") eq_refl handlingDemo_run eq_refl eq_refl) qDemo (fun c w _ _ => (None, c, w)) (fun _ w => (Err io_EOF, w))
    lbDemo worldDemo [] io_EOF).
Defined.

(** A client that sends its greeting, the first byte of a request and no more. *)
Definition stalledDemo : sconn := clientSends (greeting [Byte.x00] ++ [Byte.x05]) (serveConn 0 (acceptedConn (fun _ => None))).

Lemma socks5_deadline_ends_with_greeting_witness :
  exists s1, serve 1 stalledDemo = Some s1
    /\ forall t, 1 <= t -> serve t s1 = None.
Proof.
  destruct (proj2 (socks5_deadline_ends_with_greeting (Server progDemo 1 [stalledDemo]) 0 stalledDemo acceptTimeout [Byte.x00]
    eq_refl eq_refl eq_refl ltac:(vm_compute; reflexivity) ltac:(constructor))
    Byte.x01 Byte.x00 ipDemo 443 [Byte.x05] Byte.x01 (Byte.x00 :: encodeAddr ipDemo 443)) as (s1 & H1 & H2);
    [reflexivity|lia|reflexivity|reflexivity|reflexivity|vm_compute; reflexivity|].
  exists s1. split; [exact H1|]. intros t Ht.
  destruct (H2 (Server progDemo 1 [s1]) (Server progDemo t [s1]) eq_refl) as (_ & _ & H); [|exact H].
  eapply rtc_l; [|apply rtc_refl]. exists None. split; [discriminate|]. by apply V_time.
Defined.
