(* ===== verification/TunRun.v ===== *)
(** * The running TUN mode

    [RunTunNative] (src/internal/tun_native.go) once the device is open and the stack is
    set up: the goroutine that waits for the end, the two pumps, the goroutine that collects
    idle sessions and the forwarders' callbacks, as steps next to the life of the program
    (Main) and on the port table of PortTable. The device and gVisor's stack are the world:
    which packets the device gives, which the stack emits and which requests its
    forwarders make is left open. *)

From stdpp Require Import relations.
From S2P Require Import Prelude GoNum GoNet Config Metrics HealthCheck LoadBalancer PortTable Tun Balancer Main.

(** ** State *)

(** The goroutine of [RunTunNative]: in its [select], or returned. *)
Inductive rphase := RSelect | RReturned (err : option gerror).
(** A pump: before the test of the context, at the device or the stack's queue, about to
    send its result to [errCh], finished. *)
Inductive pphase := PTest | PIO | PSend (err : option gerror) | PEnd.
(** The collecting goroutine: before [time.NewTicker], in its loop, finished. *)
Inductive gphase := GcStart | GcLoop | GcEnd.

(** The pump into the stack: its phase, what [Read] of the device has returned, what was
    injected, the observations. *)
Record inPump := In { i_ph : pphase; i_reads : list (gerror + bytes); i_inj : list (l3 * bytes); i_evs : list mev }.
(** The pump out of it: its phase, the queue of the stack's endpoint, all that was ever in
    it, what was written, the observations, and the failed writes. *)
Record outPump := Out {
  o_ph : pphase; o_queue : list bytes; o_emitted : list bytes; o_wrote : list bytes; o_evs : list mev; o_errs : list gerror }.
(** The forwarders: the calls of [Complete] for TCP requests and the handlers started. *)
Record fwd := Fwd { f_completed : list bool; f_tcp : nat; f_udp : nat }.

(** The program, the configuration, the goroutine of [RunTunNative], whether the device is
    open, what is in [errCh], the goroutines, the port table, and a panic. *)
Record run := Run {
  u_life : life; u_cfg : TunConfig; u_ph : rphase; u_open : bool; u_ch : list (option gerror);
  u_in : inPump; u_out : outPump; u_gc : gphase; u_ts : tstate; u_fwd : fwd; u_crash : option string }.

(** The capacities of [errCh] and of [channel.New(4096, ...)]. *)
Definition errChCap : nat := 2.
Definition queueCap : nat := 4096.

(** After the defaults and [newUDPPortTable], with the goroutines started. *)
Definition runStart (cfg : TunConfig) (l : life) : run :=
  let c := runDefaults cfg in
  Run l c RSelect true [] (In PTest [] [] []) (Out PTest [] [] [] [] []) GcStart (TState (newUDPPortTable c) [] [] []) (Fwd [] 0 0) None.

Definition setLife (s : run) (l : life) : run :=
  Run l (u_cfg s) (u_ph s) (u_open s) (u_ch s) (u_in s) (u_out s) (u_gc s) (u_ts s) (u_fwd s) (u_crash s).
Definition setPumps (s : run) (ch : list (option gerror)) (i : inPump) (o : outPump) : run :=
  Run (u_life s) (u_cfg s) (u_ph s) (u_open s) ch i o (u_gc s) (u_ts s) (u_fwd s) (u_crash s).
Definition setGc (s : run) (g : gphase) (t : tstate) : run :=
  Run (u_life s) (u_cfg s) (u_ph s) (u_open s) (u_ch s) (u_in s) (u_out s) g t (u_fwd s) (u_crash s).
Definition setFwd (s : run) (f : fwd) : run :=
  Run (u_life s) (u_cfg s) (u_ph s) (u_open s) (u_ch s) (u_in s) (u_out s) (u_gc s) (u_ts s) f (u_crash s).
Definition panic (s : run) (w : string) : run :=
  Run (u_life s) (u_cfg s) (u_ph s) (u_open s) (u_ch s) (u_in s) (u_out s) (u_gc s) (u_ts s) (u_fwd s) (Some w).
(** The return, with the deferred [ifce.Close()], and what the caller in [main] goes on with. *)
Definition runReturns (s : run) (e : option gerror) (ch : list (option gerror)) : run :=
  Run (setTun (u_life s) (match e with Some x => TunFailed x | None => TunDone end)) (u_cfg s) (RReturned e) false ch
    (u_in s) (u_out s) (u_gc s) (u_ts s) (u_fwd s) (u_crash s).

(** A pump moves on; it does some input or output. *)
Definition inTo (s : run) (p : pphase) : run := setPumps s (u_ch s) (In p (i_reads (u_in s)) (i_inj (u_in s)) (i_evs (u_in s))) (u_out s).
Definition inIO (s : run) (p : pphase) (r : gerror + bytes) (i : list (l3 * bytes)) (e : list mev) : run :=
  setPumps s (u_ch s) (In p (i_reads (u_in s) ++ [r]) (i_inj (u_in s) ++ i) (i_evs (u_in s) ++ e)) (u_out s).
Definition outTo (s : run) (p : pphase) : run :=
  let o := u_out s in setPumps s (u_ch s) (u_in s) (Out p (o_queue o) (o_emitted o) (o_wrote o) (o_evs o) (o_errs o)).
Definition outIO (s : run) (p : pphase) (q w : list bytes) (e : list mev) (x : list gerror) : run :=
  let o := u_out s in setPumps s (u_ch s) (u_in s) (Out p q (o_emitted o) (o_wrote o ++ w) (o_evs o ++ e) (o_errs o ++ x)).
Definition send (s : run) (e : option gerror) : run := setPumps s (u_ch s ++ [e]) (u_in s) (u_out s).

(** A packet from the device, as [tunToStack] treats it. *)
Definition inject (s : run) (pkt : bytes) : run :=
  match pkt with
  | [] => panic (inIO s PIO (inr []) [] []) "index out of range"
  | b :: _ =>
      let v := Z.shiftr (b2z b) 4 in
      if v =? 4 then inIO s PTest (inr pkt) [(IPv4, pkt)] [observeTunFrame (str2b "in") (zlen pkt)]
      else if v =? 6 then inIO s PTest (inr pkt) [(IPv6, pkt)] [observeTunFrame (str2b "in") (zlen pkt)]
      else inIO s PTest (inr pkt) [] [observeTunDrop (str2b "unknown_l3")]
  end.

(** A packet of the stack, dropped by a full queue. *)
Definition stackEmits (s : run) (b : bytes) : run :=
  let o := u_out s in
  if (length (o_queue o) <? queueCap)%nat
  then setPumps s (u_ch s) (u_in s) (Out (o_ph o) (o_queue o ++ [b]) (o_emitted o ++ [b]) (o_wrote o) (o_evs o) (o_errs o)) else s.

(** The callbacks of the two forwarders; [created] is whether [CreateEndpoint] succeeded. *)
Definition forwardTCP (s : run) (created : bool) : run :=
  let f := u_fwd s in
  if created then setFwd s (Fwd (f_completed f ++ [false]) (S (f_tcp f)) (f_udp f))
  else setFwd s (Fwd (f_completed f ++ [true]) (f_tcp f) (f_udp f)).
Definition forwardUDP (s : run) (created : bool) : run :=
  let f := u_fwd s in if created then setFwd s (Fwd (f_completed f) (f_tcp f) (S (f_udp f))) else s.

(** The start of the collecting goroutine. *)
Definition startGc (s : run) : run :=
  match NewTicker (UDPGCInterval (u_cfg s)) with
  | Ok _ => setGc s GcLoop (u_ts s)
  | Err _ => s
  | Panic w => panic s w
  end.

(** ** Steps *)

Definition running (s : run) : Prop := main_ (u_life s) <> Exited /\ u_crash s = None.
Definition ctx (s : run) : bool := ctxDone (u_life s).

(** The goroutines of the TUN mode on their own; the outcome of a write is left open. *)
Inductive own : run -> run -> Prop :=
(** [tunToStack]: the test of the context; the send. *)
| O_in_test s : running s -> i_ph (u_in s) = PTest -> own s (inTo s (if ctx s then PSend None else PIO))
| O_in_send s e : running s -> i_ph (u_in s) = PSend e -> (length (u_ch s) < errChCap)%nat -> own s (inTo (send s e) PEnd)
(** [stackToTun]: the test; an empty queue; a write; a failed write; the send. *)
| O_out_test s : running s -> o_ph (u_out s) = PTest -> own s (outTo s (if ctx s then PSend None else PIO))
| O_out_empty s : running s -> o_ph (u_out s) = PIO -> o_queue (u_out s) = [] -> own s (outTo s PTest)
| O_out_write s b q : running s -> o_ph (u_out s) = PIO -> o_queue (u_out s) = b :: q -> u_open s = true ->
    own s (outIO s PTest q [b] [observeTunFrame (str2b "out") (zlen b)] [])
| O_out_fail s b q e : running s -> o_ph (u_out s) = PIO -> o_queue (u_out s) = b :: q ->
    own s (outIO s (PSend (Some e)) q [] [observeTunError (str2b "write")] [e])
| O_out_send s e : running s -> o_ph (u_out s) = PSend e -> (length (u_ch s) < errChCap)%nat -> own s (outTo (send s e) PEnd)
(** The last [select]. *)
| O_ctx s : running s -> u_ph s = RSelect -> ctx s = true -> own s (runReturns s None (u_ch s))
| O_err s e ch : running s -> u_ph s = RSelect -> u_ch s = e :: ch -> own s (runReturns s e ch)
(** The collecting goroutine: its start, the closing of what was collected, its end. *)
| O_gc_start s : running s -> u_gc s = GcStart -> own s (startGc s)
| O_gc_close s p t' cs : running s -> u_gc s = GcLoop -> ts_closing (u_ts s) = p :: cs -> closeSession p (ts_tbl (u_ts s)) = Ok t' ->
    own s (setGc s GcLoop (TState t' (ts_dialing (u_ts s)) (ts_ready (u_ts s)) cs))
| O_gc_done s : running s -> u_gc s = GcLoop -> ts_closing (u_ts s) = [] -> ctx s = true -> own s (setGc s GcEnd (u_ts s)).

(** The rest: the device's answers to [Read], the timer, the stack, the handlers (at most
    [n] calls of [getOrCreate] at a time), and the program around. *)
Inductive world (n : nat) : run -> run -> Prop :=
| W_packet s pkt : running s -> i_ph (u_in s) = PIO -> u_open s = true -> world n s (inject s pkt)
| W_read_fail s e : running s -> i_ph (u_in s) = PIO -> world n s (inIO s (PSend (Some e)) (inl e) [] [observeTunError (str2b "read")])
| W_tick s now t' l : running s -> u_gc s = GcLoop -> ts_closing (u_ts s) = [] -> gcLocked now (ts_tbl (u_ts s)) = Ok (t', l) ->
    world n s (setGc s GcLoop (TState t' (ts_dialing (u_ts s)) (ts_ready (u_ts s)) l))
| W_emit s b : running s -> world n s (stackEmits s b)
| W_tcp s created : running s -> world n s (forwardTCP s created)
| W_udp s created : running s -> world n s (forwardUDP s created)
| W_handler s t' : running s -> hstep n (u_ts s) t' -> world n s (setGc s (u_gc s) t')
| W_life s l' : u_crash s = None -> lstep (u_life s) l' -> (tun_ (u_life s) = TunUp -> tun_ l' = TunUp) -> world n s (setLife s l').

Definition nstep (n : nat) (s s' : run) : Prop := own s s' \/ world n s s'.

(** ** Invariant *)

(** The results a pump has still to send. *)
Definition pending (p : pphase) : nat := match p with PEnd => 0 | _ => 1 end.
Definition open (p : pphase) : Prop := p = PTest \/ p = PIO.

(** What a result stands for: a failure of the device, or the end of the context. *)
Definition justified (s : run) (r : option gerror) : Prop :=
  match r with
  | Some e => inl e ∈ i_reads (u_in s) \/ e ∈ o_errs (u_out s)
  | None => ctx s = true
  end.

Record said (s : run) : Prop := {
  sd_ch : Forall (justified s) (u_ch s);
  sd_in : forall r, i_ph (u_in s) = PSend r -> justified s r;
  sd_out : forall r, o_ph (u_out s) = PSend r -> justified s r;
  sd_ret : forall r, u_ph s = RReturned r -> justified s r }.

(** The pump into the stack has done what the function [tunToStack] does on what was read. *)
Definition inOk (s : run) : Prop := exists st,
  tunToStack (fun _ => false) 0 (i_reads (u_in s)) = (st, i_inj (u_in s), i_evs (u_in s))
  /\ (open (i_ph (u_in s)) -> u_crash s = None -> st = Tun.Waiting).

(** The pump out of it has written what it took from the queue, in order, but for the
    packet whose write failed, after which there is no other. *)
Definition frameOut (b : bytes) : mev := observeTunFrame (str2b "out") (zlen b).
Definition outOk (o : outPump) : Prop :=
  (o_errs o = [] /\ o_emitted o = o_wrote o ++ o_queue o /\ o_evs o = frameOut <$> o_wrote o)
  \/ (exists b e, o_errs o = [e] /\ o_emitted o = o_wrote o ++ b :: o_queue o
      /\ o_evs o = (frameOut <$> o_wrote o) ++ [observeTunError (str2b "write")] /\ ~ open (o_ph o)).

Record rinv (n : nat) (s : run) : Prop := {
  r_ch : (length (u_ch s) + pending (i_ph (u_in s)) + pending (o_ph (u_out s)) <= errChCap)%nat;
  r_said : said s;
  r_open : u_open s = true <-> u_ph s = RSelect;
  r_tun : tun_ (u_life s) = TunUp <-> u_ph s = RSelect;
  r_ts : tinv n (u_ts s);
  r_in : inOk s;
  r_out : outOk (u_out s);
  r_fwd : Z.of_nat (f_tcp (u_fwd s)) = countb negb (f_completed (u_fwd s)) }.

Lemma lstep_ctx l l' : lstep l l' -> ctxDone l = true -> ctxDone l' = true.
Proof. intros [H|H] Hc; destruct H; cbn; try done; unfold acceptFailed; by rewrite Hc. Qed.

Lemma lstep_tunUp l l' : lstep l l' -> tun_ l' = TunUp -> tun_ l = TunUp.
Proof. intros [H|H]; destruct H; cbn; try done; unfold acceptFailed; by destruct (ctxDone st). Qed.

(** *** Each part under a step *)

(** Everything a step changes is visible after computation. *)
Ltac run_cases H :=
  destruct H as [H|H]; destruct H;
  unfold inject, startGc, stackEmits, forwardTCP, forwardUDP, NewTicker in *;
  repeat (case_match; simplify_eq); cbn in *.

Lemma nstep_ctx n s s' : nstep n s s' -> ctx s = true -> ctx s' = true.
Proof. unfold ctx. intros H Hc. run_cases H; try done; by eapply lstep_ctx. Qed.

Lemma nstep_failures n s s' : nstep n s s' ->
  (exists a, i_reads (u_in s') = i_reads (u_in s) ++ a) /\ exists b, o_errs (u_out s') = o_errs (u_out s) ++ b.
Proof. intros H. run_cases H; eauto using app_nil_r, eq_sym; split; eexists; by rewrite ?app_nil_r. Qed.

Lemma justified_step n s s' r : nstep n s s' -> justified s r -> justified s' r.
Proof.
  intros H. destruct (nstep_failures _ _ _ H) as [[a Ha] [b Hb]]. destruct r as [e|]; cbn; [|by apply (nstep_ctx n)].
  rewrite Ha, Hb, !elem_of_app. naive_solver.
Qed.

Lemma ch_step n s s' : nstep n s s' -> rinv n s ->
  (length (u_ch s') + pending (i_ph (u_in s')) + pending (o_ph (u_out s')) <= errChCap)%nat.
Proof.
  intros H Hi. pose proof (r_ch n s Hi) as Hc. clear Hi. run_cases H; try exact Hc; rewrite ?length_app; cbn;
    repeat match goal with E : _ _ = _ |- _ => progress (rewrite E in Hc; cbn in Hc) end; lia.
Qed.

Lemma said_step n s s' : nstep n s s' -> said s -> said s'.
Proof.
  intros H [S1 S2 S3 S4]. pose proof (fun r => justified_step n s s' r H) as J.
  assert (F : Forall (justified s') (u_ch s)) by (eapply Forall_impl; [exact S1|exact J]).
  split.
  - pose proof H as H'. run_cases H'; try exact F; try (apply Forall_app; split; [exact F|constructor; [|done]; eauto]).
    match goal with E : u_ch s = _ |- _ => rewrite E in F end. by apply Forall_cons in F as [_ F].
  - intros r E. pose proof H as H'. run_cases H'; eauto; simplify_eq; try (by apply J, S2); cbn.
    + done.
    + left. apply elem_of_app. right. by constructor.
  - intros r E. pose proof H as H'. run_cases H'; eauto; simplify_eq; try (by apply J, S3); cbn.
    + done.
    + right. apply elem_of_app. right. by constructor.
  - intros r E. pose proof H as H'. run_cases H'; eauto; simplify_eq; try done.
    apply J. match goal with E : u_ch _ = _ |- _ => rewrite E in S1 end. by apply Forall_cons in S1 as [S1 _].
Qed.

Lemma open_step n s s' : nstep n s s' -> (u_open s = true <-> u_ph s = RSelect) -> (u_open s' = true <-> u_ph s' = RSelect).
Proof. intros H Ho. run_cases H; done. Qed.

Lemma tun_step n s s' : nstep n s s' -> (tun_ (u_life s) = TunUp <-> u_ph s = RSelect) -> (tun_ (u_life s') = TunUp <-> u_ph s' = RSelect).
Proof.
  intros H Ht. run_cases H; try done; [by destruct e|].
  split; intros E; [apply Ht; by eapply lstep_tunUp|]. tauto.
Qed.

(** The goroutines work on the table as PortTable has it. *)
Lemma table_step n s s' : nstep n s s' -> u_ts s' = u_ts s \/ tstep n (u_ts s) (u_ts s').
Proof.
  intros H. run_cases H; auto.
  - right. apply TGC. destruct (u_ts s) as [t ds rs c]. cbn in *. subst c. by apply (TClose p t t' ds rs []).
  - right. apply TGC. destruct (u_ts s) as [t ds rs c]. cbn in *. subst c. by apply (TCollect now l t t' ds rs []).
  - right. by apply THandler.
Qed.

Lemma tunToStack_snoc k reads inj evs x : tunToStack (fun _ => false) k reads = (Tun.Waiting, inj, evs) ->
  tunToStack (fun _ => false) k (reads ++ [x])
  = let '(r, i, e) := tunToStack (fun _ => false) 0 [x] in (r, inj ++ i, evs ++ e).
Proof.
  destruct (tunToStack _ 0 [x]) as [[r' i'] e'] eqn:Ex. revert k inj evs. induction reads as [|y reads IH]; intros k inj evs; cbn [app].
  - cbn [tunToStack] in *. intros [= <- <-]. cbn [app]. rewrite <- Ex. by destruct x as [e|[|b p]].
  - cbn [tunToStack]. destruct y as [e|[|b p]]; [done..|]. destruct (tunToStack _ (S k) reads) as [[r i] e] eqn:E.
    intros Hw. assert (r = Tun.Waiting) as -> by (by repeat case_match; simplify_eq). rewrite (IH _ _ _ E).
    repeat case_match; by simplify_eq.
Qed.

(** A read of the pump, as the function has it. *)
Lemma inOk_io s p x i e c : inOk s -> open (i_ph (u_in s)) -> u_crash s = None ->
  forall st, tunToStack (fun _ => false) 0 [x] = (st, i, e) -> (open p -> c = None -> st = Tun.Waiting) ->
  inOk (Run (u_life s) (u_cfg s) (u_ph s) (u_open s) (u_ch s)
    (In p (i_reads (u_in s) ++ [x]) (i_inj (u_in s) ++ i) (i_evs (u_in s) ++ e)) (u_out s) (u_gc s) (u_ts s) (u_fwd s) c).
Proof.
  intros (st0 & E & Hw) Ho Hc st Ex Hst. specialize (Hw Ho Hc). subst st0. exists st. cbn.
  split; [|done]. by rewrite (tunToStack_snoc _ _ _ _ x E), Ex.
Qed.

Lemma in_step n s s' : nstep n s s' -> inOk s -> inOk s'.
Proof.
  intros H Hi. destruct H as [H|H].
  - destruct Hi as (st & E & Hw). destruct H; unfold startGc in *; repeat case_match; exists st; cbn; (split; [done|]); try done;
      unfold open in *; naive_solver.
  - destruct H; try (exact Hi); try (unfold stackEmits, forwardTCP, forwardUDP; case_match; exact Hi).
    + destruct H as [_ Hc]. assert (Ho : open (i_ph (u_in s))) by (by right).
      unfold inject. destruct pkt as [|b pkt].
      { by apply (inOk_io s PIO (inr []) [] [] (Some "index out of range"%string) Hi Ho Hc (Panicked "index out of range")). }
      repeat case_match; (eapply (inOk_io s PTest (inr (b :: pkt)) _ _ (u_crash s) Hi Ho Hc Tun.Waiting); [|done]);
        cbn [tunToStack]; repeat match goal with E : (_ =? _) = _ |- _ => rewrite E; clear E end; done.
    + destruct H as [_ Hc]. apply (inOk_io s (PSend (Some e)) (inl e) [] [observeTunError (str2b "read")] (u_crash s) Hi (or_intror H0) Hc (Returned (Some e))); [done|by intros [|]].
Qed.

Lemma out_step n s s' : nstep n s s' -> outOk (u_out s) -> outOk (u_out s').
Proof.
  unfold outOk. intros H [(E1 & E2 & E3)|(b0 & e0 & E1 & E2 & E3 & Ho)]; run_cases H; rewrite ?E1, ?E2, ?E3 in *;
    try (left; by rewrite ?app_nil_r); try (right; exists b0, e0; unfold open in *; by naive_solver);
    try (exfalso; apply Ho; by (left + right)).
  - left. rewrite fmap_app, <- app_assoc. repeat match goal with E : o_queue _ = _ |- _ => rewrite E end. done.
  - right. exists b, e. rewrite app_nil_r. repeat match goal with E : o_queue _ = _ |- _ => rewrite E end. repeat split; [done..|]. by intros [|].
  - left. by rewrite <- app_assoc.
  - right. exists b0, e0. by rewrite <- app_assoc.
Qed.

Lemma rinv_step n s s' : nstep n s s' -> rinv n s -> rinv n s'.
Proof.
  intros H Hi. split.
  - by eapply ch_step.
  - by eapply said_step, r_said.
  - by eapply open_step, r_open.
  - by eapply tun_step, r_tun.
  - destruct (table_step _ _ _ H) as [->|Ht]; [apply Hi|]. eapply tinv_step; [exact Ht|apply Hi].
  - eapply in_step; [exact H|apply Hi].
  - eapply out_step; [exact H|apply Hi].
  - pose proof (r_fwd n s Hi) as Hf. clear Hi. run_cases H; try exact Hf; rewrite countb_app, <- Hf; cbn; lia.
Qed.

Lemma rinv_start n c l : tun_ l = TunUp -> rinv n (runStart c l).
Proof.
  intros Ht. split; cbn; [unfold errChCap; lia|by split|done|done|apply tinv_init|by eexists|by left|done].
Qed.

Lemma rinv_run n s s' : rtc (nstep n) s s' -> rinv n s -> rinv n s'.
Proof. intros Hr. induction Hr as [|x y z H _ IH]; [done|]. intros Hi. apply IH. by eapply rinv_step. Qed.

(** ** The program around *)

Lemma nstep_life n s s' : nstep n s s' -> rinv n s -> u_life s' = u_life s \/ lstep (u_life s) (u_life s').
Proof.
  intros H Hi. destruct H as [H|H]; destruct H; unfold inject, startGc, stackEmits, forwardTCP, forwardUDP; repeat case_match; auto; right; cbn.
  - apply L_program, P_tun_done; [apply H|by apply (r_tun n s Hi)|done].
  - assert (Ht : tun_ (u_life s) = TunUp) by (by apply (r_tun n s Hi)). destruct e as [e|].
    + apply L_world, W_tun; [apply H|done].
    + apply L_program, P_tun_done; [apply H|done|]. pose proof (sd_ch s (r_said n s Hi)) as F. rewrite H1 in F. by apply Forall_cons in F as [F _].
Qed.

Lemma run_life n s s' : rtc (nstep n) s s' -> rinv n s -> rtc lstep (u_life s) (u_life s').
Proof.
  intros Hr. induction Hr as [|x y z H _ IH]; [done|]. intros Hi.
  destruct (nstep_life _ _ _ H Hi) as [E|E]; [rewrite <- E|eapply rtc_l; [exact E|]]; apply IH; by eapply rinv_step.
Qed.

Lemma run_table n s s' : rtc (nstep n) s s' -> rtc (tstep n) (u_ts s) (u_ts s').
Proof.
  intros Hr. induction Hr as [|x y z H _ IH]; [done|]. destruct (table_step _ _ _ H) as [E|E]; [by rewrite <- E|by eapply rtc_l].
Qed.

(** ** The end of the mode *)

Definition prank (p : pphase) : nat := match p with PIO => 3 | PTest => 2 | PSend _ => 1 | PEnd => 0 end.
Definition grank (g : gphase) : nat := match g with GcStart => 2 | GcLoop => 1 | GcEnd => 0 end.
Definition rrank (r : rphase) : nat := match r with RSelect => 1 | RReturned _ => 0 end.
Definition crank (c : option string) : nat := match c with None => 1 | Some _ => 0 end.
Definition rank (s : run) : nat :=
  prank (i_ph (u_in s)) + prank (o_ph (u_out s)) + rrank (u_ph s) + grank (u_gc s) + length (ts_closing (u_ts s)) + crank (u_crash s).

Lemma own_rank s s' : own s s' -> ctx s = true -> (rank s' < rank s)%nat.
Proof.
  intros H Hc. unfold rank. destruct H as [s [Hm Hr]|s e [Hm Hr]|s [Hm Hr]|s [Hm Hr]|s b q [Hm Hr]|s b q e [Hm Hr]|s e [Hm Hr]|s [Hm Hr]|s e ch [Hm Hr]|s [Hm Hr]|s p t' cs [Hm Hr]|s [Hm Hr]];
    unfold startGc, NewTicker; try case_match; cbn;
    repeat match goal with E : _ _ = _ |- _ => progress (rewrite E; cbn) end; try lia.
  by case_match.
Qed.

Lemma own_sn n s : rinv n s -> ctx s = true -> sn own s.
Proof.
  intros _ Hc. remember (rank s) as k eqn:E. revert s E Hc. induction (lt_wf k) as [k _ IH]. intros s -> Hc.
  constructor. intros s' Hs. refine (IH _ (own_rank _ _ Hs Hc) _ eq_refl _). eapply (nstep_ctx n); [by left|done].
Qed.

(** The goroutines have ended, but for a pump that is in a [Read] of the closed device. *)
Definition stopped (s : run) : Prop :=
  (exists r, u_ph s = RReturned r) /\ u_open s = false /\ u_gc s = GcEnd /\ o_ph (u_out s) = PEnd
  /\ (i_ph (u_in s) = PEnd \/ i_ph (u_in s) = PIO).

Lemma own_stops n s : rinv n s -> running s -> ctx s = true -> nf own s -> stopped s.
Proof.
  intros Hi Hr Hc Hn. assert (N : forall s', ~ own s s') by (intros s' H; apply Hn; by exists s').
  assert (Hret : exists r, u_ph s = RReturned r) by (destruct (u_ph s) eqn:E; [by destruct (N _ (O_ctx s Hr E Hc))|eauto]).
  pose proof (r_ch n s Hi) as Hch. split; [done|]. split; [|split; [|split]].
  - destruct (u_open s) eqn:E; [|done]. apply (r_open n s Hi) in E. destruct Hret. congruence.
  - destruct (u_gc s) eqn:E; [by destruct (N _ (O_gc_start s Hr E))| |done].
    destruct (ts_closing (u_ts s)) as [|p cs] eqn:Ec; [by destruct (N _ (O_gc_done s Hr E Ec Hc))|].
    destruct (tinv_closes n (u_ts s) p (r_ts n s Hi)) as [t' Ht]; [rewrite Ec; by constructor|].
    by destruct (N _ (O_gc_close s p t' cs Hr E Ec Ht)).
  - destruct (o_ph (u_out s)) as [| |e|] eqn:E; [by destruct (N _ (O_out_test s Hr E))| | |done].
    + destruct (o_queue (u_out s)) as [|b q] eqn:Eq; [by destruct (N _ (O_out_empty s Hr E Eq))|by destruct (N _ (O_out_fail s b q io_EOF Hr E Eq))].
    + destruct (N _ (O_out_send s e Hr E ltac:(cbn in Hch; lia))).
  - destruct (i_ph (u_in s)) as [| |e|] eqn:E; [by destruct (N _ (O_in_test s Hr E))|by right| |by left].
    destruct (N _ (O_in_send s e Hr E ltac:(cbn in Hch; lia))).
Qed.

Lemma own_keeps s s' : own s s' -> u_cfg s' = u_cfg s /\ main_ (u_life s') = main_ (u_life s)
  /\ (u_crash s' = u_crash s \/ UDPGCInterval (u_cfg s) <= 0).
Proof. intros H. destruct H; auto. unfold startGc, NewTicker. destruct (Z.ltb_spec 0 (UDPGCInterval (u_cfg s))); cbn; auto. Qed.

Lemma owns_keep s s' : rtc own s s' -> u_cfg s' = u_cfg s /\ main_ (u_life s') = main_ (u_life s)
  /\ (u_crash s' = u_crash s \/ UDPGCInterval (u_cfg s) <= 0).
Proof.
  intros Hr. induction Hr as [|x y z H _ (E1 & E2 & E3)]; [auto|]. destruct (own_keeps _ _ H) as (F1 & F2 & F3).
  rewrite E1, E2, F1, F2. rewrite F1 in E3. intuition congruence.
Qed.

(** The configuration stays what the defaults made of it: an interval the ticker refuses was
    negative. *)
Lemma run_cfg n s s' : rtc (nstep n) s s' -> u_cfg s' = u_cfg s.
Proof. intros Hr. induction Hr as [|x y z H _ IH]; [done|]. rewrite IH. clear IH. by run_cases H. Qed.
Lemma defaults_interval c : UDPGCInterval (runDefaults c) <= 0 -> UDPGCInterval c < 0.
Proof. cbn. destruct (Z.eqb_spec (UDPGCInterval c) 0); [vm_compute; congruence|lia]. Qed.

Lemma own_nstep n s s' : rtc own s s' -> rtc (nstep n) s s'.
Proof. apply rtc_subrel. intros x y H. by left. Qed.

Lemma gcEnd_step n s s' k p : nstep n s s' -> u_gc s = GcEnd -> ports (ts_tbl (u_ts s)) !! k = Some p ->
  u_gc s' = GcEnd /\ ports (ts_tbl (u_ts s')) !! k = Some p.
Proof. intros H Hg Hk. run_cases H; try congruence; try done. split; [done|]. by eapply hstep_ports. Qed.

(** ** Properties *)

(** C14: the running TUN mode. In every interleaving of its goroutines with the device, the
    stack, the handlers and the program around, the program's part is a run of Main and
    the table's a run of PortTable; the device is open exactly until [RunTunNative]
    returns, which it does with an error of the device or because the context is done;
    no pump ever waits to send its result; what is injected into the stack is what the
    function [tunToStack] injects for what was read, what is written to the device is what
    the stack had queued, in order and without gaps; and a handler runs for every TCP
    request that was not reset. *)
Theorem tun_run_sound (n : nat) (c : TunConfig) (l : life) (s : run)
    (Hl : tun_ l = TunUp) (Hrun : rtc (nstep n) (runStart c l) s) :
  rtc lstep l (u_life s)
  /\ rtc (tstep n) (TState (newUDPPortTable (runDefaults c)) [] [] []) (u_ts s)
  /\ (u_open s = true <-> u_ph s = RSelect)
  /\ (forall e, u_ph s = RReturned (Some e) -> inl e ∈ i_reads (u_in s) \/ e ∈ o_errs (u_out s))
  /\ (u_ph s = RReturned None -> ctx s = true)
  /\ (forall r, i_ph (u_in s) = PSend r \/ o_ph (u_out s) = PSend r -> (length (u_ch s) < errChCap)%nat)
  /\ (exists st, tunToStack (fun _ => false) 0 (i_reads (u_in s)) = (st, i_inj (u_in s), i_evs (u_in s)))
  /\ o_wrote (u_out s) `prefix_of` o_emitted (u_out s)
  /\ (open (o_ph (u_out s)) -> o_emitted (u_out s) = o_wrote (u_out s) ++ o_queue (u_out s))
  /\ Z.of_nat (f_tcp (u_fwd s)) = countb negb (f_completed (u_fwd s)).
Proof.
  assert (Hi : rinv n s) by (eapply rinv_run; [exact Hrun|by apply rinv_start]).
  split; [exact (run_life _ _ _ Hrun (rinv_start n c l Hl))|]. split; [exact (run_table _ _ _ Hrun)|].
  destruct Hi as [R1 [_ _ _ R2] R3 _ _ (st & R4 & _) R5 R6]. split; [done|]. split; [intros e E; exact (R2 _ E)|].
  split; [intros E; exact (R2 _ E)|]. split; [intros r [E|E]; rewrite E in R1; cbn in R1; lia|]. split; [eauto|].
  destruct R5 as [(_ & E & _)|(b & e & _ & E & _ & Ho)]; (split; [by eexists|]); (split; [by intros ?|done]).
Qed.

(** C15: once the context is done the TUN mode ends by itself. From any state of a running
    mode, whatever the order of their steps, its goroutines take finitely many steps and
    then [RunTunNative] has returned, the device is closed, the collecting goroutine and
    the pump to the device have ended, and the other pump has, or is in a [Read] of the
    closed device; unless the configured collecting interval is negative (zero stands for
    ten seconds), which crashes the program. *)
Theorem tun_run_ends (n : nat) (c : TunConfig) (l : life) (s : run)
    (Hl : tun_ l = TunUp) (Hrun : rtc (nstep n) (runStart c l) s) (Hr : running s) (Hctx : ctx s = true) :
  sn own s
  /\ forall s', rtc own s s' -> nf own s' -> stopped s' \/ (is_Some (u_crash s') /\ UDPGCInterval c < 0).
Proof.
  assert (Hi : rinv n s) by (eapply rinv_run; [exact Hrun|by apply rinv_start]). split; [by eapply own_sn|].
  intros s' Hs Hn. destruct (owns_keep _ _ Hs) as (_ & Hm & Hc). destruct (u_crash s') as [w|] eqn:Ew.
  { right. split; [eauto|]. destruct Hc as [Hc|Hc]; [destruct Hr as [_ Hr]; congruence|].
    apply defaults_interval. by rewrite (run_cfg _ _ _ Hrun) in Hc. }
  left. apply (own_stops n); [by eapply rinv_run; [apply own_nstep|]|split; [rewrite Hm; apply Hr|done]| |done].
  clear -Hs Hctx. induction Hs as [|x y z H _ IH]; [done|]. apply IH. eapply (nstep_ctx 0); [by left|done].
Qed.

(** C27: nobody closes the sessions of the UDP flows once the TUN mode ends. When the
    goroutine that collects has ended, which it does with the context, a session that is in
    the table stays there in every run of the program and its [Close] is never called, so
    that neither its subscriptions nor its connection are closed by the program. (The end
    of the context itself is no call of [Close]: over HTTP/1.1 the WebSocket library closes
    the connection when the context of a pending read ends, whereas a pending read of a
    raw HTTP/2 or an HTTP/3 stream does not look at the context.) *)
Theorem tun_sessions_outlive_run (n : nat) (c : TunConfig) (l : life) (s s' : run) (k : udpPortKey) (p : nat)
    (Hl : tun_ l = TunUp) (Hrun : rtc (nstep n) (runStart c l) s) (Hgc : u_gc s = GcEnd)
    (Hk : ports (ts_tbl (u_ts s)) !! k = Some p) (Hrest : rtc (nstep n) s s') :
  ports (ts_tbl (u_ts s')) !! k = Some p
  /\ exists ps, heap (ts_tbl (u_ts s')) !! p = Some ps /\ UDPSession.closeCalled (ps_sess ps) = false.
Proof.
  assert (Hi : rinv n s') by exact (rinv_run n _ _ (transitivity Hrun Hrest) (rinv_start n c l Hl)).
  assert (Hp : ports (ts_tbl (u_ts s')) !! k = Some p).
  { clear -Hgc Hk Hrest. induction Hrest as [|x y z H _ IH]; [done|]. destruct (gcEnd_step _ _ _ _ _ H Hgc Hk). by apply IH. }
  split; [done|]. assert (Hh : p ∈ holders (u_ts s')).
  { unfold holders. apply elem_of_app. left. unfold vals. apply list_elem_of_fmap. exists (k, p). split; [done|]. by apply elem_of_map_to_list. }
  apply (ti_open n _ (r_ts n s' Hi)) in Hh. apply fmap_Some in Hh as (ps & Hps & Hcn). by exists ps.
Qed.

(** ** Witnesses *)

Definition upDemo : life := startedDemo TunUp SigWait.
Definition doneDemo : life := cancel (Life false Listening Accepting TunUp SigGot BgOff BgOff BgOff [] []) TunUp SigCancelled.

(** A signal, and the cancelling of the context. *)
Lemma cancels n s : u_life s = upDemo -> u_crash s = None -> rtc (nstep n) s (setLife s doneDemo).
Proof.
  intros El Ec. eapply rtc_l; [right; apply (W_life n s (Life false Listening Accepting TunUp SigGot BgOff BgOff BgOff [] [])); [done| |done]|].
  { rewrite El. apply L_world. by apply (W_signal upDemo). }
  eapply rtc_l; [right; apply (W_life n _ doneDemo); [done| |done]|apply rtc_refl].
  apply L_program. by apply (P_cancel (Life false Listening Accepting TunUp SigGot BgOff BgOff BgOff [] [])).
Qed.

Lemma tun_run_sound_witness :
  exists s, rtc (nstep 1) (runStart cfgDemo upDemo) s /\ i_reads (u_in s) = [inr [Byte.x45]] /\ i_inj (u_in s) = [(IPv4, [Byte.x45])]
  /\ exists st, tunToStack (fun _ => false) 0 [inr [Byte.x45]] = (st, i_inj (u_in s), i_evs (u_in s)).
Proof.
  assert (Hr : rtc (nstep 1) (runStart cfgDemo upDemo) (inject (inTo (runStart cfgDemo upDemo) PIO) [Byte.x45])).
  { eapply rtc_l; [left; by apply (O_in_test (runStart cfgDemo upDemo))|].
    eapply rtc_l; [right; by apply (W_packet 1 (inTo (runStart cfgDemo upDemo) PIO) [Byte.x45])|apply rtc_refl]. }
  eexists. split; [exact Hr|]. split; [reflexivity|]. split; [reflexivity|].
  destruct (tun_run_sound 1 cfgDemo upDemo _ eq_refl Hr) as (_ & _ & _ & _ & _ & _ & H & _). exact H.
Defined.

Lemma tun_run_ends_witness : sn own (setLife (runStart cfgDemo upDemo) doneDemo).
Proof.
  refine (proj1 (tun_run_ends 1 cfgDemo upDemo (setLife (runStart cfgDemo upDemo) doneDemo) eq_refl _ _ eq_refl)).
  - by apply cancels.
  - split; [discriminate|reflexivity].
Defined.

(** One session in the table; then the context is cancelled and the collecting ends. *)
Definition oneSession : tstate := TState (PortTable cfgDemo {[ keyDemo 1 := 0%nat ]} [sessDemo 1]) [] [] [].
Definition filedDemo : run := setGc (runStart cfgDemo upDemo) GcLoop oneSession.
Definition endedDemo : run := setGc (setLife filedDemo doneDemo) GcEnd oneSession.

Lemma endedDemo_run : rtc (nstep 1) (runStart cfgDemo upDemo) endedDemo.
Proof.
  assert (Ho : rtc (hstep 1) (TState (newUDPPortTable cfgDemo) [] [] []) oneSession).
  { eapply rtc_l; [eapply (TDialling 1 5 (keyDemo 1)); [reflexivity|simpl; lia]|].
    eapply rtc_l; [eapply (TDialled 1 (keyDemo 1) 5 0 _ _ _ []); reflexivity|].
    eapply rtc_l; [eapply (TInsert 1 (keyDemo 1) 0 0 _ _ _ []); reflexivity|].
    match goal with |- rtc _ ?t _ => replace t with oneSession by (vm_compute; reflexivity) end. apply rtc_refl. }
  eapply rtc_l; [left; by apply (O_gc_start (runStart cfgDemo upDemo))|].
  change (startGc (runStart cfgDemo upDemo)) with (setGc (runStart cfgDemo upDemo) GcLoop (TState (newUDPPortTable cfgDemo) [] [] [])).
  transitivity filedDemo.
  { unfold filedDemo. clear -Ho. induction Ho as [t|t1 t2 t3 H _ IH]; [apply rtc_refl|].
    eapply rtc_l; [right; by apply (W_handler 1 (setGc (runStart cfgDemo upDemo) GcLoop t1) t2)|exact IH]. }
  etrans; [by apply (cancels 1 filedDemo)|].
  eapply rtc_l; [left; by apply (O_gc_done (setLife filedDemo doneDemo))|apply rtc_refl].
Qed.

Lemma tun_sessions_outlive_run_witness :
  exists ps, heap (ts_tbl (u_ts endedDemo)) !! 0%nat = Some ps /\ UDPSession.closeCalled (ps_sess ps) = false.
Proof.
  refine (proj2 (tun_sessions_outlive_run 1 cfgDemo upDemo endedDemo endedDemo (keyDemo 1) 0 eq_refl endedDemo_run eq_refl _ (rtc_refl _ _))).
  vm_compute. reflexivity.
Defined.
