(* ===== verification/TunnelH2.v ===== *)
(** * The tunnel over a raw HTTP/2 stream

    [WSStreamConn] over [framedWSConn] over [rawH2Stream] (src/internal/rfc8441_raw_h2.go):
    the composition of Tunnel with RawH2, both ways, and what it does to the flow control
    of HTTP/2. *)

From S2P Require Import Prelude Metrics WSFrame WSConn Relay H3 RawH2 Tunnel.

(** What a server joins from the DATA frames of stream 1. *)
Definition dataSent (l : list h2out) : bytes := l ≫= fun o => match o with OData 1 _ chunk => chunk | _ => [] end.

Section OverH2.
Context (E : h2env) (Q : quietNet E).

(** The stream in the world [E]. *)
#[export] Instance h2_rwc : RWCloser rawH2Conn := { rwc_write := streamWrite E; rwc_close := streamClose E }.

Lemma dataSent_app l1 l2 : dataSent (l1 ++ l2) = dataSent l1 ++ dataSent l2.
Proof. apply bind_app. Qed.

Lemma dataSent_chunks chunks : dataSent (OData 1 false <$> chunks) = concat chunks.
Proof. induction chunks as [|ch chunks IH]; [done|]. cbn [fmap list_fmap concat]. unfold dataSent in *. by rewrite bind_cons, IH. Qed.

Lemma put_side a c : sameSide c (snd (put E a c)).
Proof. unfold put. by case_match. Qed.

Lemma writeLoop_side fuel p off c : sameSide c (snd (writeLoop E fuel p off c)).
Proof.
  revert off c. induction fuel as [|k IH]; intros off c; cbn [writeLoop]; case_match; try done.
  set (end_ := if _ <? _ then _ else _). pose proof (put_side (OData 1 false (take (Z.to_nat (end_ - off)) (drop (Z.to_nat off) p))) c) as Hp.
  destruct (put E _ c) as [[u|e|w] c1]; cbn [snd] in Hp |- *; try done;
    destruct Hp as (H1 & H2 & H3), (IH end_ c1) as (I1 & I2 & I3); split; [congruence|split; congruence| |]; try congruence; split; congruence.
Qed.

(** In a quiet world a [Write] sends everything, and looks at nothing the server sent. *)
Lemma streamWrite_quiet p c : exists c', streamWrite E p c = (zlen p, None, c')
  /\ dataSent (h_out c') = dataSent (h_out c) ++ p /\ sameSide c c'.
Proof.
  pose proof (zlen_nonneg p). unfold streamWrite.
  destruct (writeLoop_spec E (length p) p 0 c) as (n & err & c1 & chs & E1 & B & O & _ & Cc & _ & X); [lia|unfold zlen; lia|].
  pose proof (writeLoop_side (length p) p 0 c) as Hs. rewrite E1 in Hs |- *. cbn [snd] in Hs. destruct err as [e|].
  { destruct X as [k X]. by rewrite (qn_write E Q) in X. }
  subst n. unfold put. rewrite (qn_write E Q). eexists. split; [done|]. split; [|done]. cbn. rewrite dataSent_app, O, dataSent_app, dataSent_chunks, Cc.
  unfold slice. rewrite Z.sub_0_r. change (dataSent [OFlush]) with ([] : bytes). rewrite app_nil_r. f_equal.
  change (drop (Z.to_nat 0) p) with p. apply take_ge. unfold zlen. lia.
Qed.

Lemma streamClose_data c : dataSent (h_out (snd (streamClose E c))) = dataSent (h_out c).
Proof.
  unfold streamClose, ignore, writeFrame, mbind, HM_bind, put. rewrite !(qn_write E Q). cbn. unfold connClose. cbn.
  destruct (h_closed c); cbn; rewrite !dataSent_app; cbn; by rewrite !app_nil_r.
Qed.

(** In a quiet world the stream never fails. *)
Lemma h2_sink : Sink (fun c => dataSent (h_out c)) (fun _ => false).
Proof.
  split; [|split; [apply streamClose_data|done]]. intros p st Hp. cbn. destruct (streamWrite_quiet p st) as (c' & -> & Hd & _).
  assert (Ht : take (Z.to_nat (zlen p)) p = p) by (apply take_ge; unfold zlen; lia).
  split; [lia|]. split; [exists (length p); by rewrite Hd, firstn_all|]. rewrite bool_decide_true by done. cbn [andb].
  rewrite (proj2 (Z.leb_le 1 (zlen p))); [by rewrite Ht|]. destruct p; [done|]. rewrite zlen_cons. pose proof (zlen_nonneg p). lia.
Qed.

Lemma h2_writer_ok : WriterOk rawH2Conn.
Proof. constructor. intros p st n st'. cbn. destruct (streamWrite_quiet p st) as (c' & -> & _). intros [= <- _]. lia. Qed.
End OverH2.

(** ** Properties *)

(** C11: the whole stack over a raw HTTP/2 stream, both ways, while the connection lives.
    Whatever pieces the application writes, each [Write] succeeds, and the server that joins
    the DATA frames of stream 1 and reads WebSocket frames from them gets exactly these
    pieces, in order; and whatever calls it makes, reads and a close included, the server
    gets exactly the pieces that were accepted. And whatever messages the server sends, in
    frames or fragments with control frames in between, cut into DATA frames with padding
    in any way and mixed with frames of other kinds and streams, the application reads
    their binary payloads joined together and then the end of the stream. *)
Theorem h2_tunnel_roundtrip (E : h2env) (e : env) (err : gerror) (m : nat) (Q : quietNet E) (He : goodEnv e) (Hm : (0 < m)%nat) :
  (forall (c : rawH2Conn) (ps : list bytes) (input : rd) upstream proto,
     Forall (fun p => zlen p <= wsMaxPayload) ps -> dataSent (h_out c) = [] ->
     let '(rs, w) := writeAll (RWCloser0 := h2_rwc E) ps (NewWSStreamConn (Framed.newFramedWSConn input c e) upstream proto) in
     rs = (fun p => Ok (zlen p)) <$> ps
     /\ let sent := dataSent (h_out (Framed.s (sc w))) in
        serverFrames (length sent) (Rd sent err) = Some (pair WSMessageBinary <$> ps))
  /\ (forall (c : rawH2Conn) (os : list sop) (input : rd) upstream proto, Forall sopFits os -> dataSent (h_out c) = [] ->
     exists w ps, streamOps (RWCloser0 := h2_rwc E) (NewWSStreamConn (Framed.newFramedWSConn input c e) upstream proto) os = Some (w, ps)
     /\ let sent := dataSent (h_out (Framed.s (sc w))) in
        exists fs, serverFrames (length sent) (Rd sent err) = Some fs /\ dataOf fs = pair WSMessageBinary <$> ps)
  /\ (forall (c : rawH2Conn) (ms : list smsg) upstream proto, Forall frameOk (h_in c) -> h_piped c = [] -> Forall smsgOk ms ->
     delivered (h_in c) = smsgsBytes ms ->
     exists c', let eof := if existsb endsStream (h_in c) then io_EOF else h_rerr c in
     readLoop E c = (Ok eof, c')
     /\ let got := carried (smsgShown <$> ms) in
        copyAll (WSConn0 := @framedWSConn rawH2Conn (h2_rwc E)) (S (length got)) (S (length ms)) m
          (NewWSStreamConn (Framed.newFramedWSConn (Rd (h_piped c') eof) c' e) upstream proto) = Some (got, Err eof)).
Proof.
  split; [|split].
  - intros c ps input upstream proto Hfit Hc.
    destruct (writeAll_wire (RWCloser0 := h2_rwc E) (HSink := h2_sink E Q) (fun c => dataSent (h_out c)) (fun _ => false) ps
      (NewWSStreamConn (Framed.newFramedWSConn input c e) upstream proto) (fun _ => eq_refl) He eq_refl) as (keys & w & Hks & Hl & -> & Hw).
    split; [done|]. cbn [sc NewWSStreamConn Framed.s Framed.newFramedWSConn] in Hw. rewrite Hc in Hw. cbn [app] in Hw. cbv zeta. rewrite Hw.
    destruct (pieces_frames keys ps Hks Hl Hfit) as [Hok Hs]. rewrite serverFrames_wire; [by rewrite Hs|done|apply length_wire].
  - intros c os input upstream proto Hfit Hc.
    assert (Hkeys : keysOk e) by (intros k; destruct (proj2 He k) as (key & -> & Hk); exact Hk).
    destruct (streamOps_emits (RWCloser0 := h2_rwc E) (HSink := h2_sink E Q) (fun c => dataSent (h_out c)) (fun _ => false)
      (NewWSStreamConn (Framed.newFramedWSConn input c e) upstream proto) os Hkeys Hfit)
      as (w & ps & fs & Eo & ((fs1 & fs2 & junk & -> & Hw & Hf) & Hok & _) & Hd).
    exists w, ps. split; [exact Eo|]. cbn [sc NewWSStreamConn Framed.s Framed.newFramedWSConn] in Hw. rewrite Hc in Hw. cbn [app] in Hw.
    destruct (Hf eq_refl) as (_ & -> & ->). rewrite !app_nil_r in *.
    exists (shown <$> fs1). rewrite Hw. split; [|exact Hd]. apply serverFrames_wire; [done|apply length_wire].
  - intros c ms upstream proto Hok Hp Hms Hd.
    destruct (readLoop_quiet E c Q Hok) as (l & c' & El & Hpi & _). exists c'. cbv zeta. split; [exact El|].
    rewrite Hpi, Hp, Hd. cbn [app]. pose proof (h2_writer_ok E Q) as Hwo.
    set (eof := if existsb endsStream (h_in c) then io_EOF else h_rerr c).
    pose proof (yields_smsgs (Strm := rawH2Conn) (RWCloser0 := h2_rwc E) ms eof (Framed.newFramedWSConn (Rd (smsgsBytes ms) eof) c' e) Hms (goodEnv_quiet e He) eq_refl) as Hy.
    apply (copyAll_spec _ _ m (NewWSStreamConn (Framed.newFramedWSConn (Rd (smsgsBytes ms) eof) c' e) upstream proto) _ eof Hy); [rewrite length_fmap; lia|done|simpl; lia].
Qed.

(** C31: an upload takes no heed of the server's flow control. While writes to the
    connection succeed, a [Write] of any number of bytes, more than the initial window
    of 65535 or any other included, is sent whole as DATA on stream 1 without reading
    a frame of the server, so without any credit from it. *)
Theorem raw_h2_upload_ignores_window (E : h2env) (c : rawH2Conn) (p : bytes) (Q : quietNet E) :
  exists c', streamWrite E p c = (zlen p, None, c')
  /\ dataSent (h_out c') = dataSent (h_out c) ++ p
  /\ h_in c' = h_in c
  /\ (initialWindow < zlen p -> initialWindow < zlen (dataSent (h_out c'))).
Proof.
  destruct (streamWrite_quiet E Q p c) as (c' & Ew & Hd & Hs & _). exists c'. do 2 (split; [done|]). split; [done|].
  intros Hp. rewrite Hd, zlen_app. pose proof (zlen_nonneg (dataSent (h_out c))). lia.
Qed.

(** ** Witnesses *)

(** A piece is written and a pong answers; the server sends a fragmented message. *)
Lemma h2_tunnel_roundtrip_witness :
  exists c', readLoop quietDemo (newRawH2Conn [OtherFrame; DataFrame 1 (smsgBytes fragDemo) 3 false] net_ErrClosed) = (Ok net_ErrClosed, c')
  /\ copyAll (WSConn0 := @framedWSConn rawH2Conn (h2_rwc quietDemo)) 5 2 2
       (NewWSStreamConn (Framed.newFramedWSConn (Rd (h_piped c') net_ErrClosed) c' demoEnv) [] []) = Some (str2b "abcd", Err net_ErrClosed).
Proof.
  refine (proj2 (proj2 (h2_tunnel_roundtrip quietDemo demoEnv io_EOF 2 _ _ _))
    (newRawH2Conn [OtherFrame; DataFrame 1 (smsgBytes fragDemo) 3 false] net_ErrClosed) [fragDemo] [] [] _ _ _ _).
  - split; reflexivity.
  - split; [reflexivity|]. intros n. by eexists.
  - lia.
  - repeat constructor; vm_compute; congruence.
  - reflexivity.
  - constructor; [|constructor]. split; [by right|]. split; [|split; [|split; [|split]]]; repeat constructor; vm_compute; discriminate.
  - vm_compute. reflexivity.
Defined.

Lemma raw_h2_upload_ignores_window_witness :
  exists c', streamWrite quietDemo (replicate 70000 Byte.x00) (newRawH2Conn [] io_EOF) = (70000, None, c')
  /\ 65535 < zlen (dataSent (h_out c')).
Proof.
  destruct (raw_h2_upload_ignores_window quietDemo (newRawH2Conn [] io_EOF) (replicate 70000 Byte.x00)) as (c' & H1 & _ & _ & H4); [split; reflexivity|].
  assert (Hl : zlen (replicate 70000 Byte.x00) = 70000) by (vm_compute; reflexivity).
  rewrite Hl in H1, H4. exists c'. split; [exact H1|]. apply H4. reflexivity.
Defined.
